(** * Regional wall-motion engine of the echo-Doppler calculator

    A shallow embedding of the 17-segment motility model
    ([MotilityModel]), of the motility controller ([MotilityController],
    js/hemodynamics.js) and of the conclusion assembly of
    [UIController.generateReport] (js/ui-lanus.js), followed by the
    properties checked against them.

    Conventions.
    - The severity store [this.state] is a JavaScript object keyed by the
      segment ids; it is a [gmap nat Z].  [Object.entries], [Object.keys]
      and [Object.values] enumerate integer keys in ascending order.
      Where a caller can hand over any value ([setSegmentState]), the
      store is the one of module [PlainStore], a map to the values of
      module [JsValue]; the integer store is its restriction to
      severities.
    - JavaScript strings are [string]s; the texts of the program that
      carry accents are kept as their UTF-8 bytes, and the operations
      that depend on the characters of an arbitrary text read them from
      the bytes (module [Js.Unicode]).
    - Code that can throw returns a [result]; for a method that changes
      the controller before it throws, the controller that the call
      leaves behind and the way the call ends are given separately. *)

From Stdlib Require Import ZArith QArith Qround Lia Ascii String.
From stdpp Require Import base option list gmap strings pretty sorting.

Local Open Scope string_scope.
Local Open Scope list_scope.
Local Open Scope stdpp_scope.
Local Open Scope Z_scope.

(** ** Outcomes of code that may throw *)

Inductive JsError : Type :=
| SyntaxError
| TypeError.

Inductive result (A : Type) : Type :=
| Ok (a : A)
| Throw (e : JsError).

Arguments Ok {A} a.
Arguments Throw {A} e.

#[global] Instance result_ret : MRet result := fun A a => Ok a.

#[global] Instance result_bind : MBind result := fun A B k r =>
  match r with
  | Ok a => k a
  | Throw e => Throw e
  end.

(** A property access [o.f] on a value that may be [undefined]. *)
Definition member {A : Type} (o : option A) : result A :=
  match o with
  | Some a => Ok a
  | None => Throw TypeError
  end.

(** ** String primitives of the host language *)

Module Js.

(** [s.startsWith(p)] *)
Definition startsWith (s p : string) : bool := String.prefix p s.

(** [s.slice(n)] for [0 <= n] *)
Fixpoint slice_from (n : nat) (s : string) : string :=
  match n, s with
  | O, _ => s
  | S n', String _ t => slice_from n' t
  | S _, EmptyString => EmptyString
  end.

(** [s.endsWith(p)] *)
Definition endsWith (s p : string) : bool :=
  (String.length p <=? String.length s)%nat &&
  String.eqb (slice_from (String.length s - String.length p) s) p.

(** [s.includes(sub)] *)
Fixpoint includes (s sub : string) : bool :=
  if String.prefix sub s then true
  else match s with
       | EmptyString => false
       | String _ t => includes t sub
       end.

(** [s.replace(pat, rep)] with a string pattern: the first occurrence only *)
Fixpoint replace_first (s pat rep : string) : string :=
  if String.prefix pat s then rep +:+ slice_from (String.length pat) s
  else match s with
       | EmptyString => EmptyString
       | String c t => String c (replace_first t pat rep)
       end.

(** Number of positions of [s] at which [sub] occurs. *)
Fixpoint occurrences (sub s : string) : nat :=
  ((if String.prefix sub s then 1 else 0) +
   match s with
   | EmptyString => 0
   | String _ t => occurrences sub t
   end)%nat.

Definition is_upper (c : ascii) : bool :=
  let n := nat_of_ascii c in (65 <=? n)%nat && (n <=? 90)%nat.

Definition lower_char (c : ascii) : ascii :=
  if is_upper c then ascii_of_nat (nat_of_ascii c + 32) else c.

(** [s.toLowerCase()]: the letters A-Z are mapped; the bytes of accented
    letters are left as they are (every accented letter of the program's
    texts that reaches this function is already lower case). *)
Fixpoint toLowerCase (s : string) : string :=
  match s with
  | EmptyString => EmptyString
  | String c t => String (lower_char c) (toLowerCase t)
  end.

(** [l.join(sep)] *)
Fixpoint join (sep : string) (l : list string) : string :=
  match l with
  | [] => ""
  | [x] => x
  | x :: l' => x +:+ sep +:+ join sep l'
  end.

(** White space of [\s] and of [trim] within ASCII. *)
Definition is_ws (c : ascii) : bool :=
  let n := nat_of_ascii c in
  (n =? 32)%nat || ((9 <=? n)%nat && (n <=? 13)%nat).

Fixpoint trimStart (s : string) : string :=
  match s with
  | EmptyString => EmptyString
  | String c t => if is_ws c then trimStart t else s
  end.

Definition trim (s : string) : string :=
  String.rev (trimStart (String.rev (trimStart s))).

(** Decimal digits of a natural number, padded with zeros on the left to
    at least [w] digits. *)
Definition pad_left (w : nat) (s : string) : string :=
  String.concat "" (replicate (w - String.length s) "0") +:+ s.

(** [x.toFixed(f)] for the quotient [x = p / q] of two integers, [0 < q]:
    the sign, then the integer [n] nearest to [|x| * 10^f] (the larger one
    on a tie) written with [f] decimals. *)
Definition toFixed (p q : Z) (f : nat) : string :=
  let scale := 10 ^ Z.of_nat f in
  let n := (2 * Z.abs p * scale + q) / (2 * q) in
  (if p <? 0 then "-" else "") +:+
  pretty (n / scale) +:+
  (if f is O then "" else "." +:+ pad_left f (pretty (n mod scale))).

(** *** Texts beyond ASCII

    A text is kept as its UTF-8 bytes.  Where an operation of the host
    language depends on the characters of any text it may receive
    ([toLowerCase] of a character, [trim]), the characters are read from
    the bytes. *)

Module Unicode.

Definition byte (c : ascii) : Z := Z.of_nat (nat_of_ascii c).
Definition chr (x : Z) : ascii := ascii_of_nat (Z.to_nat x).

(** A continuation byte. *)
Definition is_cont (c : ascii) : bool := (128 <=? byte c) && (byte c <? 192).

(** The second byte of a sequence that starts with [x]: a continuation
    byte that makes the sequence neither overlong nor a surrogate nor
    larger than U+10FFFF. *)
Definition second_ok (x : Z) (b : ascii) : bool :=
  is_cont b &&
  (if x =? 224 then 160 <=? byte b
   else if x =? 237 then byte b <? 160
   else if x =? 240 then 144 <=? byte b
   else if x =? 244 then byte b <? 144
   else true).

(** The first character of a text: its code point, its bytes and the
    text that follows it.  A byte that starts no well-formed sequence is
    taken as a character of its own, numbered above the code points. *)
Definition uncons (s : string) : option (Z * string * string) :=
  match s with
  | EmptyString => None
  | String a r =>
      let x := byte a in
      let alone := Some (1114112 + x, String a EmptyString, r) in
      if x <? 128 then Some (x, String a EmptyString, r)
      else
        match r with
        | String b r1 =>
            if negb (second_ok x b) then alone
            else if (194 <=? x) && (x <? 224) then
              Some ((x - 192) * 64 + (byte b - 128),
                    String a (String b EmptyString), r1)
            else
              match r1 with
              | String c r2 =>
                  if negb (is_cont c) then alone
                  else if (224 <=? x) && (x <? 240) then
                    Some (((x - 224) * 64 + (byte b - 128)) * 64 + (byte c - 128),
                          String a (String b (String c EmptyString)), r2)
                  else
                    match r2 with
                    | String d r3 =>
                        if is_cont d && (240 <=? x) && (x <? 245) then
                          Some ((((x - 240) * 64 + (byte b - 128)) * 64 +
                                 (byte c - 128)) * 64 + (byte d - 128),
                                String a (String b (String c (String d EmptyString))),
                                r3)
                        else alone
                    | EmptyString => alone
                    end
              | EmptyString => alone
              end
        | EmptyString => alone
        end
  end.

(** The bytes of a code point. *)
Definition encode (cp : Z) : string :=
  if cp <? 128 then String (chr cp) EmptyString
  else if cp <? 2048 then
    String (chr (192 + cp / 64)) (String (chr (128 + cp mod 64)) EmptyString)
  else if cp <? 65536 then
    String (chr (224 + cp / 4096))
      (String (chr (128 + (cp / 64) mod 64))
         (String (chr (128 + cp mod 64)) EmptyString))
  else if cp <? 1114112 then
    String (chr (240 + cp / 262144))
      (String (chr (128 + (cp / 4096) mod 64))
         (String (chr (128 + (cp / 64) mod 64))
            (String (chr (128 + cp mod 64)) EmptyString)))
  else String (chr (cp - 1114112)) EmptyString.

(** The lower-case mappings of the Unicode Character Database (version
    14.0) that map one code point to one code point: every [step]-th
    code point from [first] to [last] is mapped to itself plus [shift]. *)
Definition LOWER : list (Z * Z * Z * Z) :=
  [ (65, 90, 1, 32); (192, 214, 1, 32); (216, 222, 1, 32); (256, 302, 2, 1);
    (306, 310, 2, 1); (313, 327, 2, 1); (330, 374, 2, 1);
    (376, 376, 1, -121); (377, 381, 2, 1); (385, 385, 1, 210);
    (386, 388, 2, 1); (390, 390, 1, 206); (391, 391, 1, 1);
    (393, 394, 1, 205); (395, 395, 1, 1); (398, 398, 1, 79);
    (399, 399, 1, 202); (400, 400, 1, 203); (401, 401, 1, 1);
    (403, 403, 1, 205); (404, 404, 1, 207); (406, 406, 1, 211);
    (407, 407, 1, 209); (408, 408, 1, 1); (412, 412, 1, 211);
    (413, 413, 1, 213); (415, 415, 1, 214); (416, 420, 2, 1);
    (422, 422, 1, 218); (423, 423, 1, 1); (425, 425, 1, 218);
    (428, 428, 1, 1); (430, 430, 1, 218); (431, 431, 1, 1);
    (433, 434, 1, 217); (435, 437, 2, 1); (439, 439, 1, 219);
    (440, 440, 1, 1); (444, 444, 1, 1); (452, 452, 1, 2); (453, 453, 1, 1);
    (455, 455, 1, 2); (456, 456, 1, 1); (458, 458, 1, 2); (459, 475, 2, 1);
    (478, 494, 2, 1); (497, 497, 1, 2); (498, 500, 2, 1); (502, 502, 1, -97);
    (503, 503, 1, -56); (504, 542, 2, 1); (544, 544, 1, -130);
    (546, 562, 2, 1); (570, 570, 1, 10795); (571, 571, 1, 1);
    (573, 573, 1, -163); (574, 574, 1, 10792); (577, 577, 1, 1);
    (579, 579, 1, -195); (580, 580, 1, 69); (581, 581, 1, 71);
    (582, 590, 2, 1); (880, 882, 2, 1); (886, 886, 1, 1); (895, 895, 1, 116);
    (902, 902, 1, 38); (904, 906, 1, 37); (908, 908, 1, 64);
    (910, 911, 1, 63); (913, 929, 1, 32); (931, 939, 1, 32);
    (975, 975, 1, 8); (984, 1006, 2, 1); (1012, 1012, 1, -60);
    (1015, 1015, 1, 1); (1017, 1017, 1, -7); (1018, 1018, 1, 1);
    (1021, 1023, 1, -130); (1024, 1039, 1, 80); (1040, 1071, 1, 32);
    (1120, 1152, 2, 1); (1162, 1214, 2, 1); (1216, 1216, 1, 15);
    (1217, 1229, 2, 1); (1232, 1326, 2, 1); (1329, 1366, 1, 48);
    (4256, 4293, 1, 7264); (4295, 4295, 1, 7264); (4301, 4301, 1, 7264);
    (5024, 5103, 1, 38864); (5104, 5109, 1, 8); (7312, 7354, 1, -3008);
    (7357, 7359, 1, -3008); (7680, 7828, 2, 1); (7838, 7838, 1, -7615);
    (7840, 7934, 2, 1); (7944, 7951, 1, -8); (7960, 7965, 1, -8);
    (7976, 7983, 1, -8); (7992, 7999, 1, -8); (8008, 8013, 1, -8);
    (8025, 8031, 2, -8); (8040, 8047, 1, -8); (8072, 8079, 1, -8);
    (8088, 8095, 1, -8); (8104, 8111, 1, -8); (8120, 8121, 1, -8);
    (8122, 8123, 1, -74); (8124, 8124, 1, -9); (8136, 8139, 1, -86);
    (8140, 8140, 1, -9); (8152, 8153, 1, -8); (8154, 8155, 1, -100);
    (8168, 8169, 1, -8); (8170, 8171, 1, -112); (8172, 8172, 1, -7);
    (8184, 8185, 1, -128); (8186, 8187, 1, -126); (8188, 8188, 1, -9);
    (8486, 8486, 1, -7517); (8490, 8490, 1, -8383); (8491, 8491, 1, -8262);
    (8498, 8498, 1, 28); (8544, 8559, 1, 16); (8579, 8579, 1, 1);
    (9398, 9423, 1, 26); (11264, 11311, 1, 48); (11360, 11360, 1, 1);
    (11362, 11362, 1, -10743); (11363, 11363, 1, -3814);
    (11364, 11364, 1, -10727); (11367, 11371, 2, 1);
    (11373, 11373, 1, -10780); (11374, 11374, 1, -10749);
    (11375, 11375, 1, -10783); (11376, 11376, 1, -10782);
    (11378, 11378, 1, 1); (11381, 11381, 1, 1); (11390, 11391, 1, -10815);
    (11392, 11490, 2, 1); (11499, 11501, 2, 1); (11506, 11506, 1, 1);
    (42560, 42604, 2, 1); (42624, 42650, 2, 1); (42786, 42798, 2, 1);
    (42802, 42862, 2, 1); (42873, 42875, 2, 1); (42877, 42877, 1, -35332);
    (42878, 42886, 2, 1); (42891, 42891, 1, 1); (42893, 42893, 1, -42280);
    (42896, 42898, 2, 1); (42902, 42920, 2, 1); (42922, 42922, 1, -42308);
    (42923, 42923, 1, -42319); (42924, 42924, 1, -42315);
    (42925, 42925, 1, -42305); (42926, 42926, 1, -42308);
    (42928, 42928, 1, -42258); (42929, 42929, 1, -42282);
    (42930, 42930, 1, -42261); (42931, 42931, 1, 928); (42932, 42946, 2, 1);
    (42948, 42948, 1, -48); (42949, 42949, 1, -42307);
    (42950, 42950, 1, -35384); (42951, 42953, 2, 1); (42960, 42960, 1, 1);
    (42966, 42968, 2, 1); (42997, 42997, 1, 1); (65313, 65338, 1, 32);
    (66560, 66599, 1, 40); (66736, 66771, 1, 40); (66928, 66938, 1, 39);
    (66940, 66954, 1, 39); (66956, 66962, 1, 39); (66964, 66965, 1, 39);
    (68736, 68786, 1, 64); (71840, 71871, 1, 32); (93760, 93791, 1, 32);
    (125184, 125217, 1, 34) ].

(** The lower case of a code point: U+0130 becomes two code points, a
    code point of the table is shifted, any other is left as it is. *)
Definition lower_code_point (cp : Z) : list Z :=
  if cp =? 304 then [105; 775]
  else
    match List.find (fun e : Z * Z * Z * Z =>
                       let '(first, last, step, _) := e in
                       (first <=? cp) && (cp <=? last) &&
                       ((cp - first) mod step =? 0)) LOWER with
    | Some (_, _, _, shift) => [cp + shift]
    | None => [cp]
    end.

(** The lower case of one character as a text; a character without a
    mapping keeps its bytes. *)
Definition lower_text (cp : Z) (bytes : string) : string :=
  match lower_code_point cp with
  | [c] => if c =? cp then bytes else encode c
  | l => String.concat "" (encode <$> l)
  end.

Fixpoint lower_go (fuel : nat) (s : string) : string :=
  match fuel with
  | O => EmptyString
  | S fuel' =>
      match uncons s with
      | None => EmptyString
      | Some (cp, bytes, r) => lower_text cp bytes +:+ lower_go fuel' r
      end
  end.

(** [s.toLowerCase()] of any text, character by character.  (The form
    that the database gives to a capital sigma at the end of a word is
    not modelled: it becomes the small sigma everywhere.) *)
Definition toLowerCase (s : string) : string := lower_go (String.length s) s.

(** [s.charAt(0).toLowerCase() + s.slice(1)].  A character outside the
    Basic Multilingual Plane is two code units of the host language:
    [charAt(0)] is the first half of it, which has no lower case, and the
    text is left as it is. *)
Definition lowerFirst (s : string) : string :=
  match uncons s with
  | None => EmptyString
  | Some (cp, bytes, r) =>
      (if cp <? 65536 then lower_text cp bytes else bytes) +:+ r
  end.

(** White space and line terminators of the host language. *)
Definition is_white_space (cp : Z) : bool :=
  ((9 <=? cp) && (cp <=? 13)) || (cp =? 32) || (cp =? 160) || (cp =? 5760) ||
  ((8192 <=? cp) && (cp <=? 8202)) || (cp =? 8232) || (cp =? 8233) ||
  (cp =? 8239) || (cp =? 8287) || (cp =? 12288) || (cp =? 65279).

Fixpoint trimStart_go (fuel : nat) (s : string) : string :=
  match fuel with
  | O => s
  | S fuel' =>
      match uncons s with
      | Some (cp, _, r) => if is_white_space cp then trimStart_go fuel' r else s
      | None => s
      end
  end.

Definition trimStart (s : string) : string := trimStart_go (String.length s) s.

Fixpoint trimEnd_go (fuel : nat) (s : string) : string :=
  match fuel with
  | O => EmptyString
  | S fuel' =>
      match uncons s with
      | Some (cp, bytes, r) =>
          let t := trimEnd_go fuel' r in
          if is_white_space cp && String.eqb t EmptyString then EmptyString
          else bytes +:+ t
      | None => EmptyString
      end
  end.

Definition trimEnd (s : string) : string := trimEnd_go (String.length s) s.

(** [s.trim()] *)
Definition trim (s : string) : string := trimEnd (trimStart s).

End Unicode.

End Js.

(** ** The static segment model (MotilityModel) *)

Module MotilityModel.

Inductive Artery : Type := DA | CD | Cx.

#[global] Instance Artery_eq_dec : EqDecision Artery.
Proof. solve_decision. Defined.

Definition artery_name (a : Artery) : string :=
  match a with DA => "DA" | CD => "CD" | Cx => "Cx" end.

Record Segment : Type := mkSegment {
  name : string;
  shortName : string;
  views : list string;
  artery : Artery
}.

(** [MotilityModel.SEGMENTS[id]]; [None] is [undefined]. *)
Definition SEGMENTS (id : nat) : option Segment :=
  match id with
  | 1%nat => Some (mkSegment "Basal Anterior" "1-BsAnt" ["A4C"; "PSAX"] DA)
  | 2%nat => Some (mkSegment "Basal Anteroseptal" "2-BsAntSep" ["A4C"; "PSAX"] DA)
  | 3%nat => Some (mkSegment "Basal Inferoseptal" "3-BsInfSep" ["A3C"; "PSAX"] CD)
  | 4%nat => Some (mkSegment "Basal Inferior" "4-BsInf" ["A2C"; "PSAX"] CD)
  | 5%nat => Some (mkSegment "Basal Inferolateral" "5-BsInfLat" ["A2C"; "PSAX"] Cx)
  | 6%nat => Some (mkSegment "Basal Anterolateral" "6-BsAntLat" ["A3C"; "PSAX"] Cx)
  | 7%nat => Some (mkSegment "Medio Anterior" "7-MdAnt" ["A4C"; "PSAX"] DA)
  | 8%nat => Some (mkSegment "Medio Anteroseptal" "8-MdAntSep" ["A4C"; "PSAX"] DA)
  | 9%nat => Some (mkSegment "Medio Inferoseptal" "9-MdInfSep" ["A3C"; "PSAX"] CD)
  | 10%nat => Some (mkSegment "Medio Inferior" "10-MdInf" ["A2C"; "PSAX"] CD)
  | 11%nat => Some (mkSegment "Medio Inferolateral" "11-MdInfLat" ["A2C"; "PSAX"] Cx)
  | 12%nat => Some (mkSegment "Medio Anterolateral" "12-MdAntLat" ["A3C"; "PSAX"] Cx)
  | 13%nat => Some (mkSegment "Apical Anterior" "13-ApAnt" ["A4C"] DA)
  | 14%nat => Some (mkSegment "Apical Septal" "14-ApSep" ["A4C"] DA)
  | 15%nat => Some (mkSegment "Apical Inferior" "15-ApInf" ["A2C"] CD)
  | 16%nat => Some (mkSegment "Apical Lateral" "16-ApLat" ["A2C"] Cx)
  | 17%nat => Some (mkSegment "Apex" "17-Apex" ["A4C"; "A2C"; "A3C"] DA)
  | _ => None
  end.

Inductive Category : Type :=
| ischemic | takotsubo | cardiomyopathy | combined | dyssynchrony | special.

Record Pattern : Type := mkPattern {
  pname : string;
  description : string;
  affectedSegments : list nat;
  severity : Z;
  category : Category;
  isDiffuse : bool          (* an absent flag is [undefined], hence falsy *)
}.

(** [MotilityModel.PATTERNS] as the list of its properties. *)
Definition PATTERN_TABLE : list (string * Pattern) :=
  [ ("ischemic_da", mkPattern "Isquémico DA"
       "Patrón isquémico territorial en descendente anterior"
       [1; 2; 7; 8; 13; 14; 17]%nat 2 ischemic false);
    ("ischemic_cd", mkPattern "Isquémico CD"
       "Patrón isquémico territorial en coronaria derecha"
       [3; 4; 9; 10; 15]%nat 2 ischemic false);
    ("ischemic_cx", mkPattern "Isquémico Cx"
       "Patrón isquémico territorial en circunfleja"
       [5; 6; 11; 12; 16]%nat 2 ischemic false);
    ("ischemic_multivessel", mkPattern "Isquemia Multivaso"
       "Patrón isquémico de múltiples territorios"
       [1; 2; 4; 7; 8; 10; 13; 14; 15; 17]%nat 2 ischemic false);
    ("takotsubo_apical", mkPattern "Takotsubo Apical"
       "Patrón apical clásico (capuchón apical)"
       [13; 14; 15; 16; 17]%nat 2 takotsubo false);
    ("takotsubo_mid", mkPattern "Takotsubo Medioventricular"
       "Patrón medioventricular (rosquilla)"
       [7; 8; 9; 10; 11; 12]%nat 2 takotsubo false);
    ("takotsubo_inverted", mkPattern "Takotsubo Invertido"
       "Patrón basal (invertido)"
       [1; 2; 3; 4; 5; 6]%nat 2 takotsubo false);
    ("takotsubo_focal", mkPattern "Takotsubo Focal"
       "Patrón focal anterolateral"
       [6; 12]%nat 2 takotsubo false);
    ("dilated_cm", mkPattern "Miocardiopatía Dilatada"
       "Hipoquinesia difusa global"
       [1; 2; 3; 4; 5; 6; 7; 8; 9; 10; 11; 12; 13; 14; 15; 16]%nat 2
       cardiomyopathy true);
    ("hypertensive_cm", mkPattern "Cardiopatía Hipertensiva"
       "Compromiso basal predominante"
       [1; 2; 3; 4; 5; 6; 7; 8; 9; 10; 11; 12]%nat 2 cardiomyopathy true);
    ("chagas", mkPattern "Chagas"
       "Patrón típico: aneurisma apical + compromiso inferobasal"
       [4; 10; 17]%nat 2 cardiomyopathy false);
    ("da_cx", mkPattern "DA + Cx (Anterolateral ext)"
       "Compromiso anterior y anterolateral"
       [1; 6; 7; 12; 13; 16; 17]%nat 2 combined false);
    ("da_cd_wrap", mkPattern "DA envolvente (Wrap-around)"
       "Compromiso anterior con extensión inferior apical"
       [1; 2; 7; 8; 13; 14; 15; 17]%nat 2 combined false);
    ("cx_cd", mkPattern "Cx + CD (Inferolateral)"
       "Compromiso inferior e inferolateral"
       [4; 5; 10; 11; 15]%nat 2 combined false);
    ("multivessel", mkPattern "Multivaso (DA+Cx+CD)"
       "Compromiso multiterritorial difuso"
       [1; 2; 3; 4; 5; 6; 7; 8; 9; 10; 11; 12; 13; 14; 15; 16]%nat 2
       combined false);
    ("left_main", mkPattern "Tronco CI"
       "Compromiso extenso anterior y lateral (bases)"
       [1; 2; 5; 6; 7; 8; 11; 12; 13; 14]%nat 2 combined false);
    ("da_distal", mkPattern "DA Distal / Apical pura"
       "Compromiso apical anterior y septal, bases preservadas"
       [13; 14; 15; 16; 17]%nat 2 combined false);
    ("bcri", mkPattern "BCRI / Disincronía"
       "Disincronía mecánica por bloqueo de rama izquierda"
       [2; 3; 8; 9; 14]%nat 2 dyssynchrony false);
    ("bcrd", mkPattern "BCRD (Rama Derecha)"
       "Asincronía septal leve por bloqueo de rama derecha"
       [2; 8]%nat 1 dyssynchrony false);
    ("pacemaker", mkPattern "Marcapasos (MCP)"
       "Disincronía por estimulación ventricular"
       [2; 3; 8; 9; 14]%nat 2 dyssynchrony false);
    ("post_surgery", mkPattern "Post Cirugía Cardíaca"
       "Movimiento septal anómalo post-quirúrgico"
       [2; 3; 8; 9; 14]%nat 2 dyssynchrony false);
    ("aneurysm_anterior", mkPattern "Aneurisma Anterior"
       "Disquinesia de pared anterior"
       [1; 7; 13]%nat 4 special false);
    ("aneurysm_apical", mkPattern "Aneurisma Apical"
       "Disquinesia/aquinesia apical"
       [13; 14; 15; 16; 17]%nat 4 special false);
    ("aneurysm_inferior", mkPattern "Aneurisma Inferior"
       "Disquinesia de pared inferior"
       [4; 10; 15]%nat 4 special false) ].

(** [MotilityModel.PATTERNS[key]]; [None] is [undefined]. *)
(** The names of the members that an object literal inherits from
    [Object.prototype]: a look-up [o[key]] under one of these names finds
    the inherited member, a function (the prototype itself for
    [__proto__]), where a key that the object does not hold would give
    [undefined]. *)
Definition Object_prototype : list string :=
  [ "constructor"; "__defineGetter__"; "__defineSetter__"; "hasOwnProperty";
    "__lookupGetter__"; "__lookupSetter__"; "isPrototypeOf";
    "propertyIsEnumerable"; "toString"; "valueOf"; "__proto__";
    "toLocaleString" ].

Definition inherited (key : string) : bool :=
  bool_decide (key ∈ Object_prototype).

(** The entries that [PATTERNS] holds itself. *)
Definition PATTERNS (key : string) : option Pattern :=
  (list_to_map PATTERN_TABLE : gmap string Pattern) !! key.

End MotilityModel.

(** ** JSON.parse

    The grammar of ECMA-404.  A string value keeps the text found between
    its quotes, escapes unresolved; a number keeps its decimal mantissa
    and exponent, [m * 10^e]. *)

Module JSON.

Set Warnings "-register-all".

Inductive value : Type :=
| JNull
| JBool (b : bool)
| JNumber (m e : Z)
| JString (raw : string)
| JArray (items : list value)
| JObject (members : list (string * value)).

Definition quote_char : ascii := ascii_of_nat 34.

Definition is_json_ws (c : ascii) : bool :=
  let n := nat_of_ascii c in
  (n =? 32)%nat || (n =? 9)%nat || (n =? 10)%nat || (n =? 13)%nat.

Fixpoint skip_ws (s : string) : string :=
  match s with
  | String c r => if is_json_ws c then skip_ws r else s
  | EmptyString => s
  end.

Definition is_digit (c : ascii) : bool :=
  let n := nat_of_ascii c in (48 <=? n)%nat && (n <=? 57)%nat.

Definition is_hex (c : ascii) : bool :=
  let n := nat_of_ascii c in
  is_digit c || ((65 <=? n)%nat && (n <=? 70)%nat)
             || ((97 <=? n)%nat && (n <=? 102)%nat).

Definition is_escape (c : ascii) : bool :=
  let n := nat_of_ascii c in
  (n =? 34)%nat || (n =? 92)%nat || (n =? 47)%nat || (n =? 98)%nat ||
  (n =? 102)%nat || (n =? 110)%nat || (n =? 114)%nat || (n =? 116)%nat.

(** The characters of a string up to its closing quote. *)
Fixpoint string_body (s : string) : option (string * string) :=
  match s with
  | EmptyString => None
  | String c r =>
      if (nat_of_ascii c =? 34)%nat then Some (EmptyString, r)
      else if (nat_of_ascii c =? 92)%nat then
        match r with
        | String e r1 =>
            if (nat_of_ascii e =? 117)%nat then
              match r1 with
              | String h1 (String h2 (String h3 (String h4 r2))) =>
                  if is_hex h1 && is_hex h2 && is_hex h3 && is_hex h4 then
                    '(body, rest) ← string_body r2;
                    Some (String c (String e (String h1 (String h2
                            (String h3 (String h4 body))))), rest)
                  else None
              | _ => None
              end
            else if is_escape e then
              '(body, rest) ← string_body r1;
              Some (String c (String e body), rest)
            else None
        | EmptyString => None
        end
      else if (nat_of_ascii c <? 32)%nat then None
      else
        '(body, rest) ← string_body r;
        Some (String c body, rest)
  end.

(** The longest prefix of digits and what follows it. *)
Fixpoint digits (s : string) : string * string :=
  match s with
  | String c r =>
      if is_digit c then let '(ds, rest) := digits r in (String c ds, rest)
      else (EmptyString, s)
  | EmptyString => (EmptyString, s)
  end.

Fixpoint digits_value (acc : Z) (ds : string) : Z :=
  match ds with
  | String c r => digits_value (10 * acc + Z.of_nat (nat_of_ascii c - 48)) r
  | EmptyString => acc
  end.

(** A number: an optional minus sign; an integer part, a single zero or
    digits that do not start with zero; an optional fraction, a point and
    at least one digit; an optional exponent, [e] or [E], an optional
    sign and at least one digit. *)
Definition number (s : string) : option (value * string) :=
  let '(neg, s1) :=
    match s with
    | String "-"%char r => (true, r)
    | _ => (false, s)
    end in
  let '(int, s2) := digits s1 in
  match int with
  | EmptyString => None
  | String d more =>
      if (nat_of_ascii d =? 48)%nat && negb (String.eqb more EmptyString) then None
      else
        frac_rest ←
          match s2 with
          | String "."%char r =>
              let '(frac, s3) := digits r in
              if String.eqb frac EmptyString then None else Some (frac, s3)
          | _ => Some (EmptyString, s2)
          end;
        let '(frac, s3) := frac_rest in
        exp_rest ←
          match s3 with
          | String c r =>
              if (nat_of_ascii c =? 101)%nat || (nat_of_ascii c =? 69)%nat then
                let '(eneg, r1) :=
                  match r with
                  | String "-"%char r' => (true, r')
                  | String "+"%char r' => (false, r')
                  | _ => (false, r)
                  end in
                let '(eds, s4) := digits r1 in
                if String.eqb eds EmptyString then None
                else Some (if eneg then - digits_value 0 eds else digits_value 0 eds, s4)
              else Some (0, s3)
          | EmptyString => Some (0, s3)
          end;
        let '(e, s4) := exp_rest in
        let m := digits_value 0 (int +:+ frac) in
        Some (JNumber (if neg then - m else m) (e - Z.of_nat (String.length frac)), s4)
  end.

Definition literal (word : string) (v : value) (s : string) : option (value * string) :=
  if String.prefix word s then Some (v, Js.slice_from (String.length word) s)
  else None.

(** The text after the character of code [ch], when the text starts
    with it. *)
Definition expect (ch : nat) (s : string) : option string :=
  match s with
  | String c r => if (nat_of_ascii c =? ch)%nat then Some r else None
  | EmptyString => None
  end.

(** One value: what is read at the head of a text, given the readers of
    the members of an object and of the items of an array. *)
Definition value_step
    (members : string -> option (list (string * value) * string))
    (items : string -> option (list value * string))
    (s : string) : option (value * string) :=
  match skip_ws s with
  | EmptyString => None
  | String c r =>
      let n := nat_of_ascii c in
      if (n =? 123)%nat then                       (* an object *)
        match expect 125 (skip_ws r) with
        | Some r' => Some (JObject [], skip_ws r')
        | None =>
            '(ms, rest) ← members r;
            Some (JObject ms, skip_ws rest)
        end
      else if (n =? 91)%nat then                   (* an array *)
        match expect 93 (skip_ws r) with
        | Some r' => Some (JArray [], skip_ws r')
        | None =>
            '(vs, rest) ← items r;
            Some (JArray vs, skip_ws rest)
        end
      else if (n =? 34)%nat then                   (* a string *)
        '(body, rest) ← string_body r;
        Some (JString body, skip_ws rest)
      else if (n =? 116)%nat then
        '(v, rest) ← literal "true" (JBool true) (String c r); Some (v, skip_ws rest)
      else if (n =? 102)%nat then
        '(v, rest) ← literal "false" (JBool false) (String c r); Some (v, skip_ws rest)
      else if (n =? 110)%nat then
        '(v, rest) ← literal "null" JNull (String c r); Some (v, skip_ws rest)
      else
        '(v, rest) ← number (String c r); Some (v, skip_ws rest)
  end.

(** The members of an object after its brace, up to the closing brace:
    a key, a colon, a value, then a comma and more members or the
    brace. *)
Definition members_step
    (value_of : string -> option (value * string))
    (members : string -> option (list (string * value) * string))
    (s : string) : option (list (string * value) * string) :=
  r ← expect 34 (skip_ws s);
  '(key, r1) ← string_body r;
  r2 ← expect 58 (skip_ws r1);
  '(v, r3) ← value_of r2;
  match expect 44 r3 with
  | Some r4 =>
      '(ms, rest) ← members r4;
      Some ((key, v) :: ms, rest)
  | None =>
      rest ← expect 125 r3;
      Some ([(key, v)], rest)
  end.

(** The items of an array after its bracket, up to the closing bracket:
    a value, then a comma and more items or the bracket. *)
Definition items_step
    (value_of : string -> option (value * string))
    (items : string -> option (list value * string))
    (s : string) : option (list value * string) :=
  '(v, r1) ← value_of s;
  match expect 44 r1 with
  | Some r2 =>
      '(vs, rest) ← items r2;
      Some (v :: vs, rest)
  | None =>
      rest ← expect 93 r1;
      Some ([v], rest)
  end.

(** The three readers; every call takes one unit of fuel, and every call
    but the first follows a consumed character. *)
Fixpoint parse_value (fuel : nat) (s : string) : option (value * string) :=
  match fuel with
  | O => None
  | S fuel' => value_step (parse_members fuel') (parse_items fuel') s
  end
with parse_members (fuel : nat) (s : string) : option (list (string * value) * string) :=
  match fuel with
  | O => None
  | S fuel' => members_step (parse_value fuel') (parse_members fuel') s
  end
with parse_items (fuel : nat) (s : string) : option (list value * string) :=
  match fuel with
  | O => None
  | S fuel' => items_step (parse_value fuel') (parse_items fuel') s
  end.

(** [JSON.parse(text)]: one value and nothing after it, otherwise a
    [SyntaxError].  The fuel exceeds the number of characters, which is
    as much as any text needs. *)
Definition parse (text : string) : result value :=
  match parse_value (S (String.length text)) text with
  | Some (v, EmptyString) => Ok v
  | _ => Throw SyntaxError
  end.

(** The characters with which a JSON text can start, white space apart:
    a brace, a bracket, a quote, a minus sign, a digit, or the first
    letter of [true], [false], [null]. *)
Definition can_start (c : ascii) : bool :=
  let n := nat_of_ascii c in
  (n =? 123)%nat || (n =? 91)%nat || (n =? 34)%nat || (n =? 45)%nat ||
  is_digit c || (n =? 116)%nat || (n =? 102)%nat || (n =? 110)%nat.

(** Every success of the reader [p] consumes a character, and [p']
    succeeds like [p] wherever [p] consumes less than what lies between
    [s] and [r]. *)
Definition covers {A : Type} (r s : string)
    (p p' : string -> option (A * string)) : Prop :=
  ∀ (s' : string) (x : A) (r' : string),
    p s' = Some (x, r') →
    (String.length r' < String.length s')%nat ∧
    ((String.length s' - String.length r' <
      String.length s - String.length r)%nat →
     p' s' = Some (x, r')).

(** A text of the grammar: some amount of fuel reads it whole. *)
Definition is_json (text : string) : Prop :=
  ∃ (fuel : nat) (v : value), parse_value fuel text = Some (v, EmptyString).

(** The truthiness of a parsed value: [null], [false], zero and the empty
    string are falsy.  A number literal [m * 10^e] is the double nearest
    to it, which is zero when [m] is or when the literal is at most
    2^-1075 in absolute value. *)
Definition truthy (v : value) : bool :=
  match v with
  | JNull => false
  | JBool b => b
  | JNumber m e =>
      negb (m =? 0) && negb ((e <? 0) && (Z.abs m * 2 ^ 1075 <=? 10 ^ (- e)))
  | JString raw => negb (String.eqb raw EmptyString)
  | JArray _ | JObject _ => true
  end.

End JSON.

(** ** The motility controller (MotilityController) *)

Module MotilityController.

Import MotilityModel.

(** The characters that a string literal cannot hold directly. *)
Definition dquote : string := String (ascii_of_nat 34) EmptyString.
Definition nl : string := String (ascii_of_nat 10) EmptyString.

(** *** The store and its observable effects *)

Inductive NotifyArg : Type :=
| Seg (id : nat)
| All.

Inductive Effect : Type :=
| SetItem (key value : string)                   (* localStorage.setItem  *)
| Notify (arg : NotifyArg) (snapshot : gmap nat Z) (* every listener called *)
| UpdateUI
| UpdatePreview.

(** The controller object together with the local storage it writes and
    the trace of the effects it has performed, oldest first. *)
Record t : Type := mk {
  state : gmap nat Z;
  pattern : string;
  storage : gmap string string;
  effects : list Effect
}.

(** [Object.keys(o)] of an object with integer keys: ascending order. *)
Definition Object_keys (o : gmap nat Z) : list nat :=
  merge_sort le (map_to_list o).*1.

Definition Object_entries (o : gmap nat Z) : list (nat * Z) :=
  omap (fun k => pair k <$> o !! k) (Object_keys o).

Definition Object_values (o : gmap nat Z) : list Z :=
  (Object_entries o).*2.

(** [JSON.stringify] of the store. *)
Definition JSON_stringify (o : gmap nat Z) : string :=
  "{" +:+
  Js.join ","
    ((fun kv : nat * Z => dquote +:+ pretty kv.1 +:+ dquote +:+ ":" +:+ pretty kv.2)
       <$> Object_entries o) +:+
  "}".

(** [for (let i = 1; i <= 17; i++) state[i] = 1] *)
Definition all_normal (o : gmap nat Z) : gmap nat Z :=
  foldl (fun acc i => <[i := 1]> acc) o (seq 1 17).

Definition getDefaultState : gmap nat Z := all_normal ∅.

(** [this.state[segmentId] || 1] *)
Definition getSegmentState (segmentId : nat) (c : t) : Z :=
  match state c !! segmentId with
  | Some v => if v =? 0 then 1 else v
  | None => 1
  end.

Definition saveToStorage (c : t) : t :=
  let text := JSON_stringify (state c) in
  mk (state c) (pattern c)
     (<["motility-state" := text]> (storage c))
     (effects c ++ [SetItem "motility-state" text]).

Definition notifyListeners (arg : NotifyArg) (c : t) : t :=
  mk (state c) (pattern c) (storage c) (effects c ++ [Notify arg (state c)]).

(** [updateUI] and [updatePreview] only repaint the page. *)
Definition updateUI (c : t) : t :=
  mk (state c) (pattern c) (storage c) (effects c ++ [UpdateUI]).

Definition updatePreview (c : t) : t :=
  mk (state c) (pattern c) (storage c) (effects c ++ [UpdatePreview]).

Definition set_state (o : gmap nat Z) (c : t) : t :=
  mk o (pattern c) (storage c) (effects c).

(** [toggleSegment]: 1 -> 2 -> 3 -> 4 -> 1.  The remainder [%] truncates
    towards zero.  On a key that the store does not hold the source
    computes [undefined % 4 + 1], which is not an integer: the integer
    store has no image for it, hence [None]. *)
Definition toggleSegment (segmentId : nat) (c : t) : option t :=
  current ← state c !! segmentId;
  Some (updatePreview (updateUI (notifyListeners (Seg segmentId)
         (saveToStorage
            (set_state (<[segmentId := Z.rem current 4 + 1]> (state c)) c))))).

(** [setSegmentState]: guarded by [state >= 1 && state <= 4]. *)
Definition setSegmentState (segmentId : nat) (st : Z) (c : t) : t :=
  if (1 <=? st) && (st <=? 4) then
    updateUI (notifyListeners (Seg segmentId)
      (saveToStorage (set_state (<[segmentId := st]> (state c)) c)))
  else c.

(** [Object.values(this.state).reduce((a, b) => a + b, 0)] *)
Definition state_sum (o : gmap nat Z) : Z :=
  foldl Z.add 0 (Object_values o).

(** [calculateWMSI]: [(sum / 17).toFixed(2)].  The quotient [sum / 17] is
    either an integer or at least 1/34 of a hundredth away from every
    rounding tie, so that the decimal rounding of the stored double is
    the rounding of the exact quotient. *)
Definition calculateWMSI (c : t) : string :=
  Js.toFixed (state_sum (state c)) 17 2.

(** The hundredths that [calculateWMSI] prints. *)
Definition wmsi_hundredths (c : t) : Z :=
  (2 * Z.abs (state_sum (state c)) * 100 + 17) / 34.

Record Abnormal : Type := mkAbnormal {
  hypokinetic : list nat;
  akinetic : list nat;
  dyskinetic : list nat
}.

(** [getAbnormalSegments]: the ids whose state [=== 2], [=== 3], [=== 4],
    in the order of [Object.entries]. *)
Definition getAbnormalSegments (c : t) : Abnormal :=
  let ids_with (v : Z) :=
    (filter (fun kv : nat * Z => kv.2 = v) (Object_entries (state c))).*1 in
  mkAbnormal (ids_with 2) (ids_with 3) (ids_with 4).

Definition totalAbnormal (a : Abnormal) : nat :=
  (length (hypokinetic a) + length (akinetic a) + length (dyskinetic a))%nat.

(** *** Dominant territory *)

Record Scores : Type := mkScores { sDA : Z; sCD : Z; sCx : Z }.

Definition score (s : Scores) (a : Artery) : Z :=
  match a with DA => sDA s | CD => sCD s | Cx => sCx s end.

Definition bump (s : Scores) (a : Artery) : Scores :=
  match a with
  | DA => mkScores (sDA s + 1) (sCD s) (sCx s)
  | CD => mkScores (sDA s) (sCD s + 1) (sCx s)
  | Cx => mkScores (sDA s) (sCD s) (sCx s + 1)
  end.

(** The ids with [state > 1]. *)
Definition abnormalIds (o : gmap nat Z) : list nat :=
  (filter (fun kv : nat * Z => kv.2 > 1) (Object_entries o)).*1.

(** The [forEach] that counts the affected segments of each territory;
    [MotilityModel.SEGMENTS[id].artery] throws on an unknown id. *)
Fixpoint count_territories (ids : list nat) (s : Scores) : result Scores :=
  match ids with
  | [] => Ok s
  | id :: ids' =>
      seg ← member (SEGMENTS id);
      count_territories ids' (bump s (artery seg))
  end.

(** [l.reduce(f)] without an initial value. *)
Definition reduce1 {A : Type} (f : A -> A -> A) (l : list A) : result A :=
  match l with
  | [] => Throw TypeError
  | x :: l' => Ok (foldl f x l')
  end.

(** [getAffectedTerritory]; [Ok None] is the returned [null]. *)
Definition getAffectedTerritory (c : t) : result (option Artery) :=
  let ids := abnormalIds (state c) in
  if (length ids =? 0)%nat then Ok None
  else
    scores ← count_territories ids (mkScores 0 0 0);
    best ← reduce1 (fun a b => if score scores a >? score scores b then a else b)
                   [DA; CD; Cx];
    Ok (Some best).

(** *** Findings text *)

Inductive Level : Type := basal | media | apical.

#[global] Instance Level_eq_dec : EqDecision Level.
Proof. solve_decision. Defined.

Definition level_text (l : Level) : string :=
  match l with basal => "basal" | media => "media" | apical => "apical" end.

(** [const order = { basal: 0, media: 1, apical: 2 }] *)
Definition order (l : Level) : Z :=
  match l with basal => 0 | media => 1 | apical => 2 end.

(** One alternative of [/^(Basal|Medio|Apical)\s+/]: the prefix [p]
    followed by at least one white space, all of which is removed. *)
Definition strip_prefix_ws (p s : string) : option string :=
  if Js.startsWith s p then
    match Js.slice_from (String.length p) s with
    | String c r => if Js.is_ws c then Some (Js.trimStart r) else None
    | EmptyString => None
    end
  else None.

(** [name.replace(/^(Basal|Medio|Apical)\s+/, '')] *)
Definition strip_level (s : string) : string :=
  match strip_prefix_ws "Basal" s with
  | Some r => r
  | None =>
      match strip_prefix_ws "Medio" s with
      | Some r => r
      | None =>
          match strip_prefix_ws "Apical" s with
          | Some r => r
          | None => s
          end
      end
  end.

(** [getWallName]: "Basal Anterior" -> "Anterior", "Apex" -> "Apical". *)
Definition getWallName (segmentId : nat) : result string :=
  seg ← member (SEGMENTS segmentId);
  Ok (Js.replace_first (strip_level (name seg)) "Apex" "Apical").

(** [getLevel] *)
Definition getLevel (segmentId : nat) : result Level :=
  seg ← member (SEGMENTS segmentId);
  Ok (if Js.startsWith (name seg) "Basal" then basal
      else if Js.startsWith (name seg) "Medio" then media
      else apical).

(** [formatWallName] *)
Definition formatWallName (wall : string) : string :=
  let lowerWall := Js.toLowerCase wall in
  if Js.includes lowerWall "anteroseptal" then "anteroseptal"
  else if Js.includes lowerWall "inferoseptal" then "inferoseptal"
  else if Js.includes lowerWall "inferolateral" then "inferolateral"
  else if Js.includes lowerWall "anterolateral" then "anterolateral"
  else lowerWall.

(** An object keyed by wall names, used as a map from a wall to the
    levels pushed for it; its properties are enumerated in the order in
    which they were created. *)
Definition Walls : Type := list (string * list Level).

(** [if (!g[wall]) g[wall] = []; g[wall].push(level)] *)
Fixpoint push_level (wall : string) (level : Level) (g : Walls) : Walls :=
  match g with
  | [] => [(wall, [level])]
  | (w, ls) :: g' =>
      if String.eqb w wall then (w, (ls ++ [level])%list) :: g'
      else (w, ls) :: push_level wall level g'
  end.

(** The [forEach] that classifies the segments of one severity. *)
Fixpoint classify (ids : list nat) (g : Walls) : result Walls :=
  match ids with
  | [] => Ok g
  | id :: ids' =>
      wall ← getWallName id;
      level ← getLevel id;
      classify ids' (push_level wall level g)
  end.

(** [levels.sort((a, b) => order[a] - order[b])]: the sort is stable. *)
Fixpoint insert_level (x : Level) (l : list Level) : list Level :=
  match l with
  | [] => [x]
  | y :: l' =>
      if order x - order y <? 0 then x :: y :: l' else y :: insert_level x l'
  end.

Definition sort_levels (l : list Level) : list Level :=
  foldl (fun acc x => insert_level x acc) [] l.

(** [[...new Set(l)]]: the first occurrence of each element, in order. *)
Definition unique_levels (l : list Level) : list Level :=
  foldl (fun acc x => if bool_decide (x ∈ acc) then acc else (acc ++ [x])%list) [] l.

(** The levels of one wall as text. *)
Definition levelsText (uniqueLevels : list Level) : option string :=
  if (length uniqueLevels =? 3)%nat then Some "basal, media y apical"
  else if (length uniqueLevels =? 2)%nat then
    Some (Js.join " y " (level_text <$> uniqueLevels))
  else level_text <$> head uniqueLevels.

(** The text pushed for one wall; [uniqueLevels[0]] of an empty array
    is [undefined], which the template prints as such. *)
Definition wallDescription (wall : string) (levels : list Level) : string :=
  let uniqueLevels := unique_levels (sort_levels levels) in
  let text := default "undefined" (levelsText uniqueLevels) in
  let wallName := formatWallName wall in
  if String.eqb (Js.toLowerCase wallName) "apical" && String.eqb text "apical"
  then "nivel apical"
  else "pared " +:+ wallName +:+ " (" +:+ text +:+ ")".

(** Walls joined with commas and a final "y". *)
Definition wallDescText (wallDescriptions : list string) : string :=
  if (length wallDescriptions =? 1)%nat then
    default "undefined" (head wallDescriptions)
  else if (length wallDescriptions =? 2)%nat then
    Js.join " y " wallDescriptions
  else
    Js.join ", " (removelast wallDescriptions) +:+ " y " +:+
    default "undefined" (last wallDescriptions).

(** The clause of one severity, absent when no wall carries it. *)
Definition severityClause (severity : string) (walls : Walls) : option string :=
  if (length walls =? 0)%nat then None
  else
    Some (severity +:+ " de " +:+
          wallDescText ((fun wl => wallDescription wl.1 wl.2) <$> walls)).

(** [this.pattern !== 'none' ? MotilityModel.PATTERNS[this.pattern] : null] *)
Definition currentPattern (c : t) : option Pattern :=
  if String.eqb (pattern c) "none" then None else PATTERNS (pattern c).

(** The tiers named by the global sentence of a diffuse pattern. *)
Definition diffuseParts (a : Abnormal) : list string :=
  ((if (0 <? length (akinetic a))%nat then ["aquinesia"] else []) ++
   (if (0 <? length (hypokinetic a))%nat then ["hipoquinesia"] else []) ++
   (if (0 <? length (dyskinetic a))%nat then ["disquinesia"] else []))%list.

Definition diffuseSentence (p : Pattern) (a : Abnormal) (wmsi : string) : string :=
  let parts := diffuseParts a in
  let severityText :=
    if (length parts =? 1)%nat then default "undefined" (head parts)
    else Js.join " y " parts in
  if Js.includes (pname p) "Dilatada" then
    "Se observan trastornos segmentarios de la motilidad parietal: " +:+
    severityText +:+
    " global difusa que no respeta un territorio coronario específico (WMSI: " +:+
    wmsi +:+ ")." +:+ nl
  else if Js.includes (pname p) "Hipertensiva" then
    "Se observan trastornos segmentarios de la motilidad parietal: " +:+
    severityText +:+
    " con predominio basal y medio ventricular (WMSI: " +:+ wmsi +:+ ")." +:+ nl
  else
    "Se observan trastornos segmentarios de la motilidad parietal: " +:+
    severityText +:+ " difusa (WMSI: " +:+ wmsi +:+ ")." +:+ nl.

Definition dyssynchronySentence (key : string) (p : Pattern) (wmsi : string) : string :=
  let description :=
    if String.eqb key "bcri" then
      "Se observa alteración del patrón de contracción ventricular compatible con disincronía mecánica, caracterizada por movimiento septal anómalo (septal flash), en el contexto de bloqueo completo de rama izquierda"
    else if String.eqb key "bcrd" then
      "Motilidad parietal del ventrículo izquierdo conservada. Se observa asincronía leve del septum, en relación a bloqueo completo de rama derecha"
    else if String.eqb key "pacemaker" then
      "Se observa patrón de contracción disincrónico del ventrículo izquierdo, con movimiento septal paradójico, en relación a estimulación ventricular por marcapasos"
    else if String.eqb key "post_surgery" then
      "Se observa movimiento septal anómalo, probablemente relacionado a antecedente de cirugía cardíaca"
    else MotilityModel.description p in
  description +:+ " (WMSI: " +:+ wmsi +:+ ")." +:+ nl.

(** The clauses of the focal path, in the order of the array
    [['aquinesia', 'hipoquinesia', 'disquinesia']]. *)
Definition focalParts (a : Abnormal) : result (list string) :=
  aq ← classify (akinetic a) [];
  hi ← classify (hypokinetic a) [];
  di ← classify (dyskinetic a) [];
  Ok (omap (fun sw : string * Walls => severityClause sw.1 sw.2)
        [("aquinesia", aq); ("hipoquinesia", hi); ("disquinesia", di)]).

Definition is_dyssynchrony (p : Pattern) : bool :=
  match category p with dyssynchrony => true | _ => false end.

(** [generateMotilityReport] *)
Definition generateMotilityReport (c : t) : result string :=
  let abnormal := getAbnormalSegments c in
  let wmsi := calculateWMSI c in
  if (totalAbnormal abnormal =? 0)%nat then Ok ""
  else
    match currentPattern c with
    | Some p =>
        if isDiffuse p && (12 <=? totalAbnormal abnormal)%nat then
          Ok (diffuseSentence p abnormal wmsi)
        else if is_dyssynchrony p then
          Ok (dyssynchronySentence (pattern c) p wmsi)
        else
          parts ← focalParts abnormal;
          Ok ("Se observan trastornos segmentarios de la motilidad parietal, con " +:+
              Js.join "; " parts +:+ " (WMSI: " +:+ wmsi +:+ ")." +:+ nl)
    | None =>
        parts ← focalParts abnormal;
        Ok ("Se observan trastornos segmentarios de la motilidad parietal, con " +:+
            Js.join "; " parts +:+ " (WMSI: " +:+ wmsi +:+ ")." +:+ nl)
    end.

(** *** Conclusion text *)

(** The patterns answered first, by identifier. *)
Definition directConclusion (key : string) : option string :=
  if String.eqb key "dilated_cm" then
    Some "Patrón de hipoquinesia global, sugestivo de miocardiopatía dilatada."
  else if String.eqb key "post_surgery" then
    Some "Movimiento septal anómalo en relación a antecedentes quirúrgicos."
  else if String.eqb key "bcri" then
    Some "Patrón de contracción disincrónico con movimiento septal paradójico, en relación a BCRI."
  else if String.eqb key "pacemaker" then
    Some "Disincronía mecánica secundaria a estimulación ventricular por marcapasos."
  else if String.eqb key "bcrd" then
    Some "Asincronía septal leve en relación a BCRD."
  else None.

(** The [switch] statements by category; [None] when no [case] returns. *)
Definition categoryConclusion (key : string) (p : Pattern) : option string :=
  match category p with
  | combined =>
      if String.eqb key "da_cx" then
        Some "Patrón sugestivo de afectación combinada DA–Cx."
      else if String.eqb key "da_cd_wrap" then
        Some "Patrón compatible con DA envolvente."
      else if String.eqb key "cx_cd" then
        Some "Patrón sugestivo de afectación combinada Cx–CD."
      else if String.eqb key "multivessel" then
        Some "Patrón sugestivo de enfermedad coronaria multivaso."
      else if String.eqb key "left_main" then
        Some "Patrón sugestivo de afectación del Tronco de CI."
      else if String.eqb key "da_distal" then
        Some "Patrón sugestivo de lesión de DA distal."
      else None
  | dyssynchrony =>
      if String.eqb key "bcri" then
        Some "Patrón de contracción disincrónico con movimiento septal paradójico, en relación a BCRI."
      else if String.eqb key "bcrd" then
        Some "Asincronía septal leve en relación a BCRD."
      else if String.eqb key "pacemaker" then
        Some "Disincronía mecánica secundaria a estimulación ventricular por marcapasos."
      else None
  | cardiomyopathy =>
      if String.eqb key "dilated_cm" then
        Some "Patrón de hipoquinesia global, sugestivo de miocardiopatía dilatada."
      else if String.eqb key "hypertensive_cm" then
        Some "Patrón sugestivo de cardiopatía hipertensiva."
      else if String.eqb key "chagas" then
        Some "Patrón sugestivo de miocardiopatía chagásica."
      else None
  | takotsubo => Some "Patrón sugestivo de Miocardiopatía por Estrés (Takotsubo)."
  | _ => None
  end.

Definition patternConclusion (c : t) : option string :=
  if String.eqb (pattern c) "none" then None
  else
    match directConclusion (pattern c) with
    | Some text => Some text
    | None => PATTERNS (pattern c) ≫= categoryConclusion (pattern c)
    end.

(** The tiers of one territory in the several-territories sentence. *)
Definition territoryClause (hipo aki dis : Scores) (territory : Artery) : string :=
  let severities :=
    ((if score aki territory >? 0 then ["Aquinesia"] else []) ++
     (if score hipo territory >? 0 then ["Hipoquinesia"] else []) ++
     (if score dis territory >? 0 then ["Discinesia"] else []))%list in
  let severityText :=
    if (length severities =? 1)%nat then default "undefined" (head severities)
    else Js.join " e " severities in
  severityText +:+ " en territorio de " +:+ artery_name territory.

Definition territoryConclusion (a : Abnormal) : result string :=
  hipo ← count_territories (hypokinetic a) (mkScores 0 0 0);
  aki ← count_territories (akinetic a) (mkScores 0 0 0);
  dis ← count_territories (dyskinetic a) (mkScores 0 0 0);
  let affectedTerritories :=
    filter (fun terr => score hipo terr + score aki terr + score dis terr > 0)
           [DA; CD; Cx] in
  match affectedTerritories with
  | [territory] =>
      Ok ("Trastornos de la motilidad Segmentaria en Territorio " +:+
          artery_name territory +:+ ".")
  | _ =>
      Ok (Js.join ", " (territoryClause hipo aki dis <$> affectedTerritories) +:+ ".")
  end.

(** [generateConclusion] *)
Definition generateConclusion (c : t) : result string :=
  let abnormal := getAbnormalSegments c in
  if (totalAbnormal abnormal =? 0)%nat then Ok ""
  else
    match patternConclusion c with
    | Some text => Ok text
    | None => territoryConclusion abnormal
    end.

(** *** Patterns and reset *)

Definition setItem (key value : string) (c : t) : t :=
  mk (state c) (pattern c) (<[key := value]> (storage c))
     (effects c ++ [SetItem key value]).

Definition set_pattern (p : string) (c : t) : t :=
  mk (state c) p (storage c) (effects c).

(** [setPattern]: the controller that the call leaves behind, whether it
    returns or throws ([setPattern_completion] tells which);
    [pattern.severity || 3] replaces a zero severity. *)
Definition setPattern (patternName : string) (c : t) : t :=
  let c1 := setItem "motility-pattern" patternName (set_pattern patternName c) in
  if String.eqb patternName "none" then c1
  else
    match PATTERNS patternName with
    | None => c1
    | Some p =>
        if (0 <? length (affectedSegments p))%nat then
          let sev := if severity p =? 0 then 3 else severity p in
          let st := foldl (fun acc id => <[id := sev]> acc)
                          (all_normal (state c1)) (affectedSegments p) in
          updatePreview (updateUI (notifyListeners All
            (saveToStorage (set_state st c1))))
        else c1
    end.

(** How a call of [setPattern] ends.  For a name that is no key of
    [PATTERNS] but the name of a member that the table inherits,
    [MotilityModel.PATTERNS[patternName]] is that member: it is truthy,
    its [affectedSegments] is [undefined], and reading [length] of it
    throws a [TypeError], after the name was recorded and stored. *)
Definition setPattern_completion (patternName : string) : result unit :=
  if String.eqb patternName "none" then Ok tt
  else
    match PATTERNS patternName with
    | Some _ => Ok tt
    | None => if inherited patternName then Throw TypeError else Ok tt
    end.

(** [reset] *)
Definition reset (c : t) : t :=
  updatePreview (updateUI (notifyListeners All
    (setItem "motility-pattern" "none"
       (saveToStorage (set_pattern "none" (set_state getDefaultState c)))))).

(** *** Construction from the local storage *)

(** [loadFromStorage]: [saved ? JSON.parse(saved) : null]; [Ok None] is
    the returned [null]. *)
Definition loadFromStorage (store : gmap string string) : result (option JSON.value) :=
  match store !! "motility-state" with
  | None => Ok None
  | Some saved =>
      if String.eqb saved "" then Ok None
      else v ← JSON.parse saved; Ok (Some v)
  end.

(** What [this.state] is bound to by the constructor. *)
Inductive InitialState : Type :=
| DefaultState                    (* [this.getDefaultState()] *)
| LoadedState (v : JSON.value).   (* the parsed value, when truthy *)

(** [localStorage.getItem('motility-pattern') || 'none'] *)
Definition initialPattern (store : gmap string string) : string :=
  match store !! "motility-pattern" with
  | Some p => if String.eqb p "" then "none" else p
  | None => "none"
  end.

(** The constructor: [this.state = this.loadFromStorage() ||
    this.getDefaultState()], then the pattern. *)
Definition constructor (store : gmap string string) : result (InitialState * string) :=
  loaded ← loadFromStorage store;
  let st :=
    match loaded with
    | Some v => if JSON.truthy v then LoadedState v else DefaultState
    | None => DefaultState
    end in
  Ok (st, initialPattern store).

(** The key of a member as a segment id: a decimal numeral without
    leading zero. *)
Definition key_id (key : string) : option nat :=
  match key with
  | EmptyString => None
  | String d more =>
      if forallb JSON.is_digit (list_ascii_of_string key) &&
         (negb (nat_of_ascii d =? 48)%nat || String.eqb more EmptyString)
      then Some (Z.to_nat (JSON.digits_value 0 key))
      else None
  end.

(** The integer that a number literal denotes, if it denotes one. *)
Definition integer_of (m e : Z) : option Z :=
  if 0 <=? e then Some (m * 10 ^ e)
  else if m mod 10 ^ (- e) =? 0 then Some (m / 10 ^ (- e))
  else None.

(** A parsed object as a store of integers; later members override
    earlier ones. *)
Definition store_of_members (ms : list (string * JSON.value)) : option (gmap nat Z) :=
  foldl (fun acc kv =>
           o ← acc;
           id ← key_id kv.1;
           match kv.2 with
           | JSON.JNumber m e => v ← integer_of m e; Some (<[id := v]> o)
           | _ => None
           end)
        (Some ∅) ms.

(** The controller that the constructor builds, when the store it read is
    a store of integers. *)
Definition controller_of (store : gmap string string)
    (init : InitialState * string) : option t :=
  match init.1 with
  | DefaultState => Some (mk getDefaultState init.2 store [])
  | LoadedState (JSON.JObject ms) =>
      o ← store_of_members ms; Some (mk o init.2 store [])
  | LoadedState _ => None
  end.

(** *** The invariant of the store and reference definitions *)

(** Every id from 1 to 17 has an entry and there is no other entry. *)
Definition wf_state (o : gmap nat Z) : Prop :=
  ∀ id : nat, is_Some (o !! id) ↔ (1 ≤ id ≤ 17)%nat.

(** Every stored severity is one of 1, 2, 3, 4. *)
Definition severities_ok (o : gmap nat Z) : Prop :=
  ∀ (id : nat) (v : Z), o !! id = Some v → 1 ≤ v ≤ 4.

(** The severity of a segment, read without the [|| 1] default. *)
Definition severity_of (o : gmap nat Z) (id : nat) : Z := default 0 (o !! id).

(** The sum of the 17 severity ordinals. *)
Definition ordinal_sum (o : gmap nat Z) : Z :=
  foldr Z.add 0 (severity_of o <$> seq 1 17).

(** The number of abnormal segments of a territory. *)
Definition abnormal_in (o : gmap nat Z) (a : Artery) : Z :=
  Z.of_nat (length (filter
    (fun id => (artery <$> SEGMENTS id) = Some a ∧ severity_of o id > 1)
    (seq 1 17))).

(** The position of a territory in the order DA, CD, Cx. *)
Definition priority (a : Artery) : Z :=
  match a with DA => 0 | CD => 1 | Cx => 2 end.

(** The cycle Normal -> Hypokinetic -> Akinetic -> Dyskinetic -> Normal. *)
Definition next_severity (v : Z) : Z := if v =? 4 then 1 else v + 1.

(** *** Reference states *)

(** A local storage whose severity map is not JSON. *)
Definition corrupt_store : gmap string string :=
  {[ "motility-state" := "not json" ]}.

(** The controller built over an empty local storage. *)
Definition fresh : t := mk getDefaultState "none" ∅ [].

(** Segments 1 (DA) and 3 (CD) hypokinetic: one abnormal segment in each
    of the two territories. *)
Definition tie_DA_CD : t :=
  set_state (<[3%nat := 2]> (<[1%nat := 2]> getDefaultState)) fresh.

(** The territory that a priority order DA, CD, Cx would select: the
    first territory of that order that reaches the maximal count. *)
Definition first_of_ties (o : gmap nat Z) : option Artery :=
  let n := abnormal_in o in
  if (n DA =? 0) && (n CD =? 0) && (n Cx =? 0) then None
  else if (n CD <=? n DA) && (n Cx <=? n DA) then Some DA
  else if n Cx <=? n CD then Some CD
  else Some Cx.

(** Segments 1, 7 and 13 akinetic, every other segment normal. *)
Definition anterior_akinetic : gmap nat Z :=
  <[13%nat := 3]> (<[7%nat := 3]> (<[1%nat := 3]> getDefaultState)).

(** Every segment dyskinetic. *)
Definition all_dyskinetic : gmap nat Z :=
  foldl (fun acc i => <[i := 4]> acc) ∅ (seq 1 17).

(** *** The findings text of the focal path, after the specification *)

(** The order basal, media, apical, large and strict. *)
Definition level_le (a b : Level) : Prop := order a ≤ order b.
Definition level_lt (a b : Level) : Prop := order a < order b.

#[global] Instance level_le_dec (a b : Level) : Decision (level_le a b).
Proof. unfold level_le. apply _. Defined.

#[global] Instance level_lt_dec (a b : Level) : Decision (level_lt a b).
Proof. unfold level_lt. apply _. Defined.

(** Items joined as "a, b y c". *)
Definition enumerate_y (items : list string) : string :=
  match items with
  | [] => ""
  | [x] => x
  | _ => Js.join ", " (removelast items) +:+ " y " +:+ default "" (last items)
  end.

(** The levels of a wall without repetition, in the order basal, media,
    apical. *)
Definition spec_levels (levels : list Level) : list Level :=
  filter (fun l => l ∈ levels) [basal; media; apical].

(** "pared <wall> (<levels>)", and "nivel apical" for the apex alone. *)
Definition spec_wall (wl : string * list Level) : string :=
  let text := enumerate_y (level_text <$> spec_levels wl.2) in
  if String.eqb (formatWallName wl.1) "apical" && String.eqb text "apical"
  then "nivel apical"
  else "pared " +:+ formatWallName wl.1 +:+ " (" +:+ text +:+ ")".

(** "<tier> de <wall descriptions>", absent for a tier without walls. *)
Definition spec_clause (tier : string) (walls : Walls) : option string :=
  match walls with
  | [] => None
  | _ => Some (tier +:+ " de " +:+ enumerate_y (spec_wall <$> walls))
  end.

(** The clauses in the order akinetic, hypokinetic, dyskinetic, joined
    with semicolons and followed by the index. *)
Definition spec_focal_text (aq hi di : Walls) (wmsi : string) : string :=
  "Se observan trastornos segmentarios de la motilidad parietal, con " +:+
  Js.join "; "
    (omap id [spec_clause "aquinesia" aq; spec_clause "hipoquinesia" hi;
              spec_clause "disquinesia" di]) +:+
  " (WMSI: " +:+ wmsi +:+ ")." +:+ nl.

(** Every wall of the map carries at least one level. *)
Definition nonempty_walls (g : Walls) : Prop :=
  Forall (fun wl : string * list Level => wl.2 ≠ []) g.

(** The focal path is taken when some segment is abnormal and the active
    pattern neither is a diffuse pattern with 12 abnormal segments or more
    nor belongs to the dyssynchrony category. *)
Definition focal_path (c : t) : Prop :=
  totalAbnormal (getAbnormalSegments c) ≠ 0%nat ∧
  match currentPattern c with
  | None => True
  | Some p =>
      (isDiffuse p && (12 <=? totalAbnormal (getAbnormalSegments c))%nat) = false ∧
      is_dyssynchrony p = false
  end.

End MotilityController.

(** ** Numbers of the host language

    A finite number is the exact rational that its decimal text denotes;
    the comparisons of the report are made on these exact values. *)

Module JsNum.

Inductive num : Type :=
| Fin (q : Q)
| PInf
| NInf
| NaN.

Definition of_Z (z : Z) : num := Fin (inject_Z z).

(** [m * 10^e] *)
Definition of_decimal (m e : Z) : Q :=
  if 0 <=? e then inject_Z (m * 10 ^ e)
  else Qmake m (Z.to_pos (10 ^ (- e))).

(** [a > b]; every comparison with [NaN] is false. *)
Definition gt (a b : num) : bool :=
  match a, b with
  | Fin x, Fin y => negb (Qle_bool x y)
  | PInf, Fin _ | PInf, NInf | Fin _, NInf => true
  | _, _ => false
  end.

(** [a >= b] *)
Definition ge (a b : num) : bool :=
  match a, b with
  | Fin x, Fin y => Qle_bool y x
  | PInf, Fin _ | PInf, NInf | Fin _, NInf | PInf, PInf | NInf, NInf => true
  | _, _ => false
  end.

(** [a < b] *)
Definition lt (a b : num) : bool := gt b a.

(** [a / b]; the sign of a zero is not tracked. *)
Definition div (a b : num) : num :=
  match a, b with
  | NaN, _ | _, NaN => NaN
  | Fin x, Fin y =>
      if Qeq_bool y 0 then
        if Qeq_bool x 0 then NaN else if Qle_bool 0 x then PInf else NInf
      else Fin (x / y)
  | Fin _, _ => Fin 0
  | PInf, Fin y => if Qle_bool 0 y then PInf else NInf
  | NInf, Fin y => if Qle_bool 0 y then NInf else PInf
  | _, _ => NaN
  end.

(** The truthiness of a number. *)
Definition truthy (a : num) : bool :=
  match a with
  | Fin q => negb (Qeq_bool q 0)
  | NaN => false
  | _ => true
  end.

(** An unsigned decimal literal: digits, an optional fraction of which
    one side may be empty, an optional exponent; nothing may follow. *)
Definition unsigned_decimal (s : string) : option Q :=
  let '(int, s1) := JSON.digits s in
  let '(frac, s2) :=
    match s1 with
    | String "."%char r => JSON.digits r
    | _ => (EmptyString, s1)
    end in
  if String.eqb int EmptyString && String.eqb frac EmptyString then None
  else
    let m := JSON.digits_value 0 (int +:+ frac) in
    let shift := Z.of_nat (String.length frac) in
    match s2 with
    | EmptyString => Some (of_decimal m (- shift))
    | String c r =>
        if (nat_of_ascii c =? 101)%nat || (nat_of_ascii c =? 69)%nat then
          let '(eneg, r1) :=
            match r with
            | String "-"%char r' => (true, r')
            | String "+"%char r' => (false, r')
            | _ => (false, r)
            end in
          let '(eds, s3) := JSON.digits r1 in
          if String.eqb eds EmptyString || negb (String.eqb s3 EmptyString) then None
          else
            let e := JSON.digits_value 0 eds in
            Some (of_decimal m ((if eneg then - e else e) - shift))
        else None
    end.

(** The conversion of a string to a number: the empty text is 0, a signed
    decimal literal or [Infinity] is its value, anything else is [NaN].
    (Literals in base 16, 8 or 2 are not read.) *)
Definition toNumber (text : string) : num :=
  let s := Js.trim text in
  if String.eqb s EmptyString then Fin 0
  else
    let '(neg, body) :=
      match s with
      | String "-"%char r => (true, r)
      | String "+"%char r => (false, r)
      | _ => (false, s)
      end in
    if String.eqb body "Infinity" then (if neg then NInf else PInf)
    else
      match unsigned_decimal body with
      | Some q => Fin (if neg then - q else q)%Q
      | None => NaN
      end.

(** [parseFloat(text)]: the longest decimal literal at the head of the
    text, after leading white space; [NaN] when there is none. *)
Definition parseFloat (text : string) : num :=
  let s := Js.trimStart text in
  let '(neg, body) :=
    match s with
    | String "-"%char r => (true, r)
    | String "+"%char r => (false, r)
    | _ => (false, s)
    end in
  if String.prefix "Infinity" body then (if neg then NInf else PInf)
  else
    let '(int, s1) := JSON.digits body in
    let '(frac, s2) :=
      match s1 with
      | String "."%char r => JSON.digits r
      | _ => (EmptyString, s1)
      end in
    if String.eqb int EmptyString && String.eqb frac EmptyString then NaN
    else
      let m := JSON.digits_value 0 (int +:+ frac) in
      let shift := Z.of_nat (String.length frac) in
      let e :=
        match s2 with
        | String c r =>
            if (nat_of_ascii c =? 101)%nat || (nat_of_ascii c =? 69)%nat then
              let '(eneg, r1) :=
                match r with
                | String "-"%char r' => (true, r')
                | String "+"%char r' => (false, r')
                | _ => (false, r)
                end in
              let '(eds, _) := JSON.digits r1 in
              if String.eqb eds EmptyString then 0
              else if eneg then - JSON.digits_value 0 eds
              else JSON.digits_value 0 eds
            else 0
        | EmptyString => 0
        end in
      let q := of_decimal m (e - shift) in
      Fin (if neg then - q else q)%Q.

(** [Math.round(x)] of a finite number: the integer nearest to [x], the
    larger one on a tie. *)
Definition round (q : Q) : Z := Qfloor (q + (1 # 2))%Q.

(** *** Doubles

    The double nearest to a rational number: 53 significant bits, the
    exponent of the last bit from -1074 up, a tie to the even
    significand; infinity beyond the largest double.  It decides what a
    numeric text is worth at the ends of an interval. *)

(** The integer nearest to [n / d], [0 < d]; the even one on a tie. *)
Definition nearest_even (n d : Z) : Z :=
  let f := n / d in
  let r := n mod d in
  if 2 * r <? d then f
  else if d <? 2 * r then f + 1
  else if Z.even f then f else f + 1.

Definition double (q : Q) : num :=
  let n := Z.abs (Qnum q) in
  let d := Zpos (Qden q) in
  if n =? 0 then Fin 0
  else
    let e0 := Z.log2 n - Z.log2 d in
    let below := if 0 <=? e0 then n <? d * 2 ^ e0 else n * 2 ^ (- e0) <? d in
    let e := if below then e0 - 1 else e0 in
    let last := Z.max (e - 52) (-1074) in
    let m := if 0 <=? last then nearest_even n (d * 2 ^ last)
             else nearest_even (n * 2 ^ (- last)) d in
    if (0 <=? last) && (2 ^ 1024 <=? m * 2 ^ last) then
      (if Qnum q <? 0 then NInf else PInf)
    else
      let v := if 0 <=? last then inject_Z (m * 2 ^ last)
               else Qred (Qmake m (Z.to_pos (2 ^ (- last)))) in
      Fin (if Qnum q <? 0 then - v else v)%Q.

End JsNum.

(** ** Values of the host language

    The primitive values that a caller can hand to the controller:
    [undefined], [null], a boolean, a number, a string.  (Objects,
    symbols and big integers are not modelled.) *)

Module JsValue.

Inductive value : Type :=
| Undefined
| Null
| Boolean (b : bool)
| Number (x : JsNum.num)
| Text (s : string).

(** The value of a digit in a base up to 16. *)
Definition digit_value (base : Z) (c : ascii) : option Z :=
  let n := Z.of_nat (nat_of_ascii c) in
  let v := if (48 <=? n) && (n <=? 57) then n - 48
           else if (97 <=? n) && (n <=? 102) then n - 87
           else if (65 <=? n) && (n <=? 70) then n - 55
           else 16 in
  if v <? base then Some v else None.

Fixpoint digits_in (base : Z) (acc : Z) (s : string) : option Z :=
  match s with
  | EmptyString => Some acc
  | String c r =>
      match digit_value base c with
      | Some v => digits_in base (acc * base + v) r
      | None => None
      end
  end.

(** [0x...], [0o...], [0b...]: an integer literal in base 16, 8 or 2,
    with at least one digit and no sign. *)
Definition non_decimal (s : string) : option Z :=
  match s with
  | String "0"%char (String p (String c r)) =>
      let n := nat_of_ascii p in
      let base := if (n =? 120)%nat || (n =? 88)%nat then 16
                  else if (n =? 111)%nat || (n =? 79)%nat then 8
                  else if (n =? 98)%nat || (n =? 66)%nat then 2
                  else 0 in
      if base =? 0 then None else digits_in base 0 (String c r)
  | _ => None
  end.

(** The conversion of a string to a number: white space around it is
    dropped; the empty text is 0; a literal in base 16, 8 or 2, a signed
    decimal literal or [Infinity] is the double nearest to its value;
    anything else is [NaN]. *)
Definition StringToNumber (text : string) : JsNum.num :=
  let s := Js.Unicode.trim text in
  if String.eqb s EmptyString then JsNum.Fin 0
  else
    match non_decimal s with
    | Some z => JsNum.double (inject_Z z)
    | None =>
        let '(neg, body) :=
          match s with
          | String "-"%char r => (true, r)
          | String "+"%char r => (false, r)
          | _ => (false, s)
          end in
        if String.eqb body "Infinity" then (if neg then JsNum.NInf else JsNum.PInf)
        else
          match JsNum.unsigned_decimal body with
          | Some q => JsNum.double (if neg then - q else q)%Q
          | None => JsNum.NaN
          end
    end.

(** [ToNumber] *)
Definition ToNumber (v : value) : JsNum.num :=
  match v with
  | Undefined => JsNum.NaN
  | Null => JsNum.Fin 0
  | Boolean b => JsNum.Fin (if b then 1 else 0)
  | Number x => x
  | Text s => StringToNumber s
  end.

(** *** The text of a number *)

Definition pow10 (n : Z) : Q := JsNum.of_decimal 1 n.

Definition same (a b : JsNum.num) : bool :=
  match a, b with
  | JsNum.Fin x, JsNum.Fin y => Qeq_bool x y
  | JsNum.PInf, JsNum.PInf | JsNum.NInf, JsNum.NInf => true
  | _, _ => false
  end.

Fixpoint exponent_from (fuel : nat) (n : Z) (q : Q) : Z :=
  match fuel with
  | O => n
  | S fuel' => if Qle_bool (pow10 n) q then exponent_from fuel' (n + 1) q else n
  end.

(** The least [n] with [q < 10^n], for [0 < q]. *)
Definition decimal_exponent (q : Q) : Z :=
  let lo := ((Z.log2 (Qnum q) - Z.log2 (Zpos (Qden q)) - 1) * 30103) / 100000 - 1 in
  exponent_from 8 lo q.

(** A decimal of [k] digits that denotes the double [q], if there is
    one: its digits as an integer and the exponent [n] of [0.digits *
    10^n]. Of two such decimals the nearer to [q] is taken, the even one
    when they are as near. *)
Definition decimal_of (q : Q) (n k : Z) : option (Z * Z) :=
  let scaled := (q * pow10 (k - n))%Q in
  let s1 := Qfloor scaled in
  let s2 := s1 + 1 in
  let denotes s := same (JsNum.double (inject_Z s * pow10 (n - k))) (JsNum.double q) in
  let pick s := if s =? 10 ^ k then Some (10 ^ (k - 1), n + 1) else Some (s, n) in
  match denotes s1, denotes s2 with
  | true, true =>
      let below := (scaled - inject_Z s1)%Q in
      let above := (inject_Z s2 - scaled)%Q in
      if Qle_bool below above && negb (Qeq_bool below above) then pick s1
      else if negb (Qle_bool below above) then pick s2
      else if Z.even s1 then pick s1 else pick s2
  | true, false => pick s1
  | false, true => pick s2
  | false, false => None
  end.

Fixpoint shortest_from (fuel : nat) (q : Q) (n k : Z) : Z * Z :=
  match fuel with
  | O => (Qfloor (q * pow10 (k - n)), n)
  | S fuel' =>
      match decimal_of q n k with
      | Some r => r
      | None => shortest_from fuel' q n (k + 1)
      end
  end.

(** The shortest decimal that denotes the double [q], [0 < q]. *)
Definition shortest (q : Q) : Z * Z := shortest_from 17 q (decimal_exponent q) 1.

Definition zeros (n : Z) : string := String.concat "" (replicate (Z.to_nat n) "0").

(** The digits [s] with the exponent [n], written as the host language
    writes a number. *)
Definition format (s n : Z) : string :=
  let ds := pretty s in
  let k := Z.of_nat (String.length ds) in
  if (-5 <=? n) && (n <=? 21) then
    if k <=? n then ds +:+ zeros (n - k)
    else if 0 <? n then
      String.substring 0 (Z.to_nat n) ds +:+ "." +:+
      Js.slice_from (Z.to_nat n) ds
    else "0." +:+ zeros (- n) +:+ ds
  else
    let e := n - 1 in
    let exponent := (if e <? 0 then "-" else "+") +:+ pretty (Z.abs e) in
    if k =? 1 then ds +:+ "e" +:+ exponent
    else String.substring 0 1 ds +:+ "." +:+ Js.slice_from 1 ds +:+ "e" +:+ exponent.

(** [String(x)] of a number. *)
Definition Number_toString (x : JsNum.num) : string :=
  match x with
  | JsNum.NaN => "NaN"
  | JsNum.PInf => "Infinity"
  | JsNum.NInf => "-Infinity"
  | JsNum.Fin q =>
      if Qeq_bool q 0 then "0"
      else
        let a := (if Qle_bool 0 q then q else - q)%Q in
        let '(s, n) := shortest a in
        (if Qle_bool 0 q then "" else "-") +:+ format s n
  end.

(** *** The JSON text of a value *)

Definition hex_digit (n : Z) : ascii :=
  ascii_of_nat (Z.to_nat (if n <? 10 then 48 + n else 87 + n)).

(** One character inside a string literal of [JSON.stringify]. *)
Definition quote_char (c : ascii) : string :=
  let n := Z.of_nat (nat_of_ascii c) in
  let bs := String (ascii_of_nat 92) EmptyString in
  if n =? 34 then bs +:+ String (ascii_of_nat 34) EmptyString
  else if n =? 92 then bs +:+ bs
  else if n =? 8 then bs +:+ "b"
  else if n =? 12 then bs +:+ "f"
  else if n =? 10 then bs +:+ "n"
  else if n =? 13 then bs +:+ "r"
  else if n =? 9 then bs +:+ "t"
  else if n <? 32 then
    bs +:+ "u00" +:+ String (hex_digit (n / 16)) (String (hex_digit (n mod 16)) EmptyString)
  else String c EmptyString.

Fixpoint quote_body (s : string) : string :=
  match s with
  | EmptyString => EmptyString
  | String c r => quote_char c +:+ quote_body r
  end.

(** The text of a property value; [None] for [undefined], whose
    property [JSON.stringify] leaves out. *)
Definition JSON_text (v : value) : option string :=
  match v with
  | Undefined => None
  | Null => Some "null"
  | Boolean b => Some (if b then "true" else "false")
  | Number x =>
      match x with
      | JsNum.Fin _ => Some (Number_toString x)
      | _ => Some "null"
      end
  | Text s =>
      Some (String (ascii_of_nat 34) EmptyString +:+ quote_body s +:+
            String (ascii_of_nat 34) EmptyString)
  end.

End JsValue.

(** ** The store as the plain object it is

    [this.state] is a plain object: [setSegmentState] stores under a
    segment id whatever value passes its guard.  The controller of
    [MotilityController] is the same controller on stores of integers;
    [lift] embeds it. *)

Module PlainStore.

Import JsValue.

Inductive Effect : Type :=
| SetItem (key value : string)
| Notify (arg : MotilityController.NotifyArg) (snapshot : gmap nat JsValue.value)
| UpdateUI
| UpdatePreview.

Record t : Type := mk {
  state : gmap nat JsValue.value;
  pattern : string;
  storage : gmap string string;
  effects : list Effect
}.

Definition Object_keys (o : gmap nat JsValue.value) : list nat :=
  merge_sort le (map_to_list o).*1.

Definition Object_entries (o : gmap nat JsValue.value) : list (nat * JsValue.value) :=
  omap (fun k => pair k <$> o !! k) (Object_keys o).

(** [JSON.stringify] of the store. *)
Definition JSON_stringify (o : gmap nat JsValue.value) : string :=
  "{" +:+
  Js.join ","
    (omap (fun kv : nat * JsValue.value =>
             (fun text => MotilityController.dquote +:+ pretty kv.1 +:+
                          MotilityController.dquote +:+ ":" +:+ text)
               <$> JSON_text kv.2)
          (Object_entries o)) +:+
  "}".

Definition saveToStorage (c : t) : t :=
  let text := JSON_stringify (state c) in
  mk (state c) (pattern c)
     (<["motility-state" := text]> (storage c))
     (effects c ++ [SetItem "motility-state" text]).

Definition notifyListeners (arg : MotilityController.NotifyArg) (c : t) : t :=
  mk (state c) (pattern c) (storage c) (effects c ++ [Notify arg (state c)]).

Definition updateUI (c : t) : t :=
  mk (state c) (pattern c) (storage c) (effects c ++ [UpdateUI]).

Definition set_state (o : gmap nat JsValue.value) (c : t) : t :=
  mk o (pattern c) (storage c) (effects c).

(** [state >= 1 && state <= 4]: both comparisons convert the value to a
    number and are false of [NaN]. *)
Definition guard (st : JsValue.value) : bool :=
  JsNum.ge (ToNumber st) (JsNum.of_Z 1) && JsNum.ge (JsNum.of_Z 4) (ToNumber st).

(** [setSegmentState(segmentId, state)] *)
Definition setSegmentState (segmentId : nat) (st : JsValue.value) (c : t) : t :=
  if guard st then
    updateUI (notifyListeners (MotilityController.Seg segmentId)
      (saveToStorage (set_state (<[segmentId := st]> (state c)) c)))
  else c.

(** An integer severity as a value, and the embedding of the controller
    on stores of integers. *)
Definition severity (v : Z) : JsValue.value := Number (JsNum.of_Z v).

Definition lift_effect (e : MotilityController.Effect) : Effect :=
  match e with
  | MotilityController.SetItem k v => SetItem k v
  | MotilityController.Notify arg o => Notify arg (severity <$> o)
  | MotilityController.UpdateUI => UpdateUI
  | MotilityController.UpdatePreview => UpdatePreview
  end.

Definition lift (c : MotilityController.t) : t :=
  mk (severity <$> MotilityController.state c) (MotilityController.pattern c)
     (MotilityController.storage c)
     (lift_effect <$> MotilityController.effects c).

(** The fresh controller. *)
Definition fresh : t := lift MotilityController.fresh.

End PlainStore.

(** ** The conclusions of the report (UIController.generateReport) *)

Module UIController.

Import MotilityController.

(** *** Merging the motility conclusion into the sentence of the LV *)

(** [\w]: a letter, a digit or the underscore. *)
Definition is_word_char (c : ascii) : bool :=
  let n := nat_of_ascii c in
  ((48 <=? n)%nat && (n <=? 57)%nat) || ((65 <=? n)%nat && (n <=? 90)%nat) ||
  ((97 <=? n)%nat && (n <=? 122)%nat) || (n =? 95)%nat.

(** Whether the word [w], given in lower case, stands at the head of [s]
    in any casing and is followed by a word boundary. *)
Definition word_here (w s : string) : bool :=
  String.prefix w (Js.toLowerCase s) &&
  match Js.slice_from (String.length w) s with
  | String c _ => negb (is_word_char c)
  | EmptyString => true
  end.

(** The scan of [s.replace(/\bw\b/gi, canon)]: [prev] tells whether the
    character before the head is a word character, [skip] counts the
    characters of a match that remain to be dropped. *)
Fixpoint replace_word_go (w canon : string) (prev : bool) (skip : nat)
    (s : string) : string :=
  match s with
  | EmptyString => EmptyString
  | String c r =>
      match skip with
      | S k => replace_word_go w canon true k r
      | O =>
          if negb prev && word_here w s then
            canon +:+ replace_word_go w canon true (String.length w - 1) r
          else String c (replace_word_go w canon (is_word_char c) O r)
      end
  end.

Definition replace_word (w canon s : string) : string :=
  replace_word_go w canon false O s.

(** The four replacements, in the order of the source. *)
Definition restoreAcronyms (s : string) : string :=
  replace_word "wmsi" "WMSI"
    (replace_word "cx" "Cx" (replace_word "cd" "CD" (replace_word "da" "DA" s))).

(** [s.slice(0, -1)] *)
Fixpoint dropLast (s : string) : string :=
  match s with
  | EmptyString => EmptyString
  | String c EmptyString => EmptyString
  | String c r => String c (dropLast r)
  end.

(** [s.split(' ')[0]] *)
Fixpoint firstWord (s : string) : string :=
  match s with
  | EmptyString => EmptyString
  | String c r => if (nat_of_ascii c =? 32)%nat then EmptyString else String c (firstWord r)
  end.

(** The motility conclusion as the clause that is appended. *)
Definition motilityClause (motilityConclusion : string) : string :=
  let text := Js.Unicode.trim motilityConclusion in
  let text := if Js.endsWith text "." then dropLast text else text in
  restoreAcronyms (Js.Unicode.lowerFirst text).

(** "e" before a word that starts with "i", or with "hi" but not "hie". *)
Definition conjunction (clause : string) : string :=
  let first := Js.Unicode.toLowerCase (firstWord clause) in
  if Js.startsWith first "i" ||
     (Js.startsWith first "hi" && negb (Js.startsWith first "hie"))
  then "e" else "y".

(** The statement guarded by [motilityConclusion &&
    motilityConclusion.trim() !== '']. *)
Definition mergeMotility (viConclusion motilityConclusion : string) : string :=
  if negb (String.eqb motilityConclusion "") &&
     negb (String.eqb (Js.Unicode.trim motilityConclusion) "")
  then
    let clause := motilityClause motilityConclusion in
    viConclusion +:+ " " +:+ conjunction clause +:+ " " +:+ clause
  else viConclusion.

(** *** The merge, after the specification *)

(** A protected acronym in its canonical casing, any other word as it
    is; the comparison ignores the case. *)
Definition canonical (word : string) : string :=
  let w := Js.toLowerCase word in
  if String.eqb w "da" then "DA"
  else if String.eqb w "cd" then "CD"
  else if String.eqb w "cx" then "Cx"
  else if String.eqb w "wmsi" then "WMSI"
  else word.

(** One replacement: the word [w] in any casing becomes [canon]. *)
Definition canonical1 (w canon word : string) : string :=
  if String.eqb (Js.toLowerCase word) w then canon else word.

(** [f] applied to every whole word, a word being a maximal run of word
    characters; [cur] is the word being read. *)
Fixpoint map_words_go (f : string -> string) (cur s : string) : string :=
  match s with
  | EmptyString => f cur
  | String c r =>
      if is_word_char c then map_words_go f (cur +:+ String c EmptyString) r
      else f cur +:+ String c (map_words_go f EmptyString r)
  end.

Definition map_words (f : string -> string) (s : string) : string :=
  map_words_go f EmptyString s.

(** The word characters at the head of a text, and what follows them. *)
Fixpoint word_prefix (s : string) : string :=
  match s with
  | String c r => if is_word_char c then String c (word_prefix r) else EmptyString
  | EmptyString => EmptyString
  end.

Fixpoint word_rest (s : string) : string :=
  match s with
  | String c r => if is_word_char c then word_rest r else s
  | EmptyString => EmptyString
  end.

(** A text made of word characters only. *)
Fixpoint all_word (s : string) : bool :=
  match s with
  | String c r => is_word_char c && all_word r
  | EmptyString => true
  end.

(** A text of ASCII characters only. *)
Fixpoint ascii_text (s : string) : bool :=
  match s with
  | String c r => (nat_of_ascii c <? 128)%nat && ascii_text r
  | EmptyString => true
  end.

(** A blank of the ASCII range: the space, or a control from the
    tabulation to the carriage return. *)
Definition blank (c : ascii) : bool :=
  (nat_of_ascii c =? 32)%nat ||
  ((9 <=? nat_of_ascii c)%nat && (nat_of_ascii c <=? 13)%nat).

Fixpoint blanks (s : string) : bool :=
  match s with
  | String c r => blank c && blanks r
  | EmptyString => true
  end.

(** The last character of a text is not a blank. *)
Fixpoint ends_visible (s : string) : bool :=
  match s with
  | String c EmptyString => negb (blank c)
  | String _ r => ends_visible r
  | EmptyString => false
  end.

(** An ASCII text that neither begins nor ends with a blank. *)
Definition visible_text (t : string) : bool :=
  ascii_text t &&
  match t with
  | String c _ => negb (blank c)
  | EmptyString => false
  end &&
  ends_visible t.

(** [lowered] is [body] with its first letter in lower case and the rest
    as it is.  The first character is read from the bytes; a character
    outside the Basic Multilingual Plane, which the host language holds
    as two code units, stays as it is.  Said on the bytes, for the
    letters of a Spanish text: a capital A-Z becomes the small letter 32
    places further, any other ASCII character stays, and a capital of
    the Latin-1 block (the byte 195 followed by a byte from 128 to 158
    other than 151, as in "Á") becomes its small letter (the same byte
    195 followed by the second byte plus 32, as in "á"). *)
Definition first_letter_lowered (body lowered : string) : Prop :=
  match Js.Unicode.uncons body with
  | None => lowered = ""
  | Some (cp, bytes, rest) =>
      lowered =
      (if cp <? 65536 then Js.Unicode.lower_text cp bytes else bytes) +:+ rest
  end ∧
  (∀ c rest, body = String c rest → (nat_of_ascii c < 128)%nat →
     lowered =
     String (if (65 <=? nat_of_ascii c)%nat && (nat_of_ascii c <=? 90)%nat
             then ascii_of_nat (nat_of_ascii c + 32) else c) rest) ∧
  (∀ b rest, body = String (ascii_of_nat 195) (String b rest) →
     (128 ≤ nat_of_ascii b ≤ 158)%nat → nat_of_ascii b ≠ 151%nat →
     lowered =
     String (ascii_of_nat 195) (String (ascii_of_nat (nat_of_ascii b + 32)) rest)).

(** The first word of a clause: the text before its first space. *)
Definition first_word_of (clause w : string) : Prop :=
  (∀ a b, w ≠ a +:+ " " +:+ b) ∧
  (clause = w ∨ ∃ t, clause = w +:+ " " +:+ t).

(** [w] begins with [p], the case ignored. *)
Definition begins_with (p w : string) : Prop :=
  ∃ r, Js.Unicode.toLowerCase w = p +:+ r.

(** The rule of the conjunction: a word in "i", or in "hi" but not in
    "hie". *)
Definition euphonic (w : string) : Prop :=
  begins_with "i" w ∨ (begins_with "hi" w ∧ ¬ begins_with "hie" w).

(** The same rule read on the characters of an ASCII word. *)
Definition euphonic_ascii (w : string) : bool :=
  let letter (c : ascii) (small : nat) :=
    (nat_of_ascii c =? small)%nat || (nat_of_ascii c =? small - 32)%nat in
  match w with
  | String c1 r1 =>
      letter c1 105%nat ||
      (letter c1 104%nat &&
       match r1 with
       | String c2 r2 =>
           letter c2 105%nat &&
           match r2 with
           | String c3 _ => negb (letter c3 101%nat)
           | EmptyString => true
           end
       | EmptyString => false
       end)
  | EmptyString => false
  end.

(** *** The numbered list *)

(** One conclusion: the number printed in front of it and its text. *)
Record Line : Type := mkLine { number : Z; sentence : string }.

(** [`${conclusionNum}. ${sentence}\n`] *)
Definition render (l : Line) : string :=
  pretty (number l) +:+ ". " +:+ sentence l +:+ nl.

(** The conclusions written so far and the counter [conclusionNum]. *)
Record Progress : Type := mkProgress { lines : list Line; conclusionNum : Z }.

(** [report += `${conclusionNum}. ...\n`] *)
Definition write (text : string) (p : Progress) : Progress :=
  mkProgress (lines p ++ [mkLine (conclusionNum p) text]) (conclusionNum p).

(** [conclusionNum++] *)
Definition increment (p : Progress) : Progress :=
  mkProgress (lines p) (conclusionNum p + 1).

(** What the conclusions read: fields of the page, the state of the
    controller and the collaborators. *)
Record Inputs : Type := mkInputs {
  ritmo : string;
  conduccion : string;
  conduccionValue : string;
  geometry : string;
  ddvi : string;
  sexo : string;
  motility : option MotilityController.t;
  fevi : string;
  diastolicResult : option (string * string);   (* description, grade *)
  volAi : JsNum.num;
  morfMitral : string;
  imGrado : string;
  emGrado : string;
  iaoAdv : option string;
  morfAortica : string;
  eaGrado : string;
  iaGrado : string;
  sc : string;
  aoRaiz : string;
  aoAsc : string;
  adEstado : string;
  vdEstado : string;
  adArea : JsNum.num;
  vdBasal : JsNum.num;
  psap : Z;
  tapse : string
}.

Definition nonempty (s : string) : bool := negb (String.eqb s "").

(** [calc.isLVDilated(ddvi, sexo)] *)
Definition isLVDilated (ddvi sex : string) : bool :=
  if negb (nonempty ddvi) then false
  else JsNum.gt (JsNum.toNumber ddvi)
                (JsNum.of_Z (if String.eqb sex "M" then 59 else 53)).

(** 1. Rhythm and conduction *)
Definition rhythm (i : Inputs) (p : Progress) : Progress :=
  increment
    (if String.eqb (conduccionValue i) "normal" then write (ritmo i +:+ ".") p
     else write (ritmo i +:+ " con " +:+ conduccion i +:+ ".") p).

Definition geometryText (i : Inputs) : string :=
  if nonempty (geometry i) then
    if String.eqb (geometry i) "Geometría Normal" then
      "Ventrículo izquierdo de diámetros y espesores conservados, con geometría ventricular normal"
    else
      "Ventrículo izquierdo con " +:+ Js.toLowerCase (geometry i) +:+
      (if isLVDilated (ddvi i) (sexo i) then " con dilatación ventricular" else "")
  else "".

Definition systolicText (fevi : string) : string :=
  if JsNum.ge (JsNum.toNumber fevi) (JsNum.of_Z 50) then
    "Función sistólica del VI conservada."
  else if JsNum.ge (JsNum.toNumber fevi) (JsNum.of_Z 40) then
    "Función sistólica del VI levemente deprimida (" +:+ fevi +:+ "%)."
  else
    "Función sistólica del VI severamente deprimida (" +:+ fevi +:+ "%).".

(** 2. Geometry, motility and systolic function of the left ventricle *)
Definition leftVentricle (i : Inputs) (p : Progress) : result Progress :=
  merged ←
    match motility i with
    | Some m =>
        motilityConclusion ← generateConclusion m;
        Ok (mergeMotility (geometryText i) motilityConclusion)
    | None => Ok (geometryText i)
    end;
  Ok (increment (write (merged +:+ "." +:+ systolicText (fevi i)) p)).

(** 3. Diastolic function *)
Definition diastolic (i : Inputs) (p : Progress) : Progress :=
  match diastolicResult i with
  | None => p
  | Some (diastolicDesc, diastolicGrade) =>
      increment
        (if Js.includes diastolicDesc "Normal" then
           write "Función Diastólica Normal. PFDVI Normales." p
         else if Js.includes diastolicDesc "Grado I" then
           write "Disfunción Diastólica Grado I. PFDVI normales." p
         else if Js.includes diastolicDesc "Grado II" then
           write "Disfunción Diastólica Grado II. PFDVI elevadas." p
         else if Js.includes diastolicDesc "Grado III" then
           write "Disfunción Diastólica Grado III. PFDVI severamente elevadas." p
         else if String.eqb diastolicGrade "Indeterminado" then
           write "Función Diastólica Indeterminada (datos insuficientes)." p
         else write diastolicDesc p)
  end.

(** 4. Left atrium *)
Definition leftAtrium (i : Inputs) (p : Progress) : Progress :=
  increment
    (if JsNum.gt (volAi i) (JsNum.of_Z 48) then
       write "Aurícula izquierda severamente dilatada." p
     else if JsNum.ge (volAi i) (JsNum.of_Z 42) then
       write "Aurícula izquierda moderadamente dilatada." p
     else if JsNum.ge (volAi i) (JsNum.of_Z 34) then
       write "Aurícula izquierda levemente dilatada." p
     else write "Aurícula izquierda de dimensiones conservadas." p).

(** Mitral valve *)
Definition mitral (i : Inputs) (p : Progress) : Progress :=
  let im := negb (String.eqb (imGrado i) "no") in
  let em := negb (String.eqb (emGrado i) "no") in
  let prolapse := Js.includes (morfMitral i) "Prolapso" || Js.includes (morfMitral i) "Flail" in
  if prolapse || Js.includes (morfMitral i) "Calcificación" || im || em then
    if prolapse then
      increment
        (write (morfMitral i +:+
                (if im then " con insuficiencia mitral " +:+ imGrado i else "") +:+ ".") p)
    else if im || em then
      let valvular := if im then "Insuficiencia mitral " +:+ imGrado i else "" in
      let valvular :=
        if em then
          (if nonempty valvular then valvular +:+ " y e" else valvular +:+ "E") +:+
          "stenosis mitral " +:+ emGrado i
        else valvular in
      increment (write (valvular +:+ ".") p)
    else p
  else p.

Definition truthy_text (o : option string) : bool :=
  match o with
  | Some s => nonempty s
  | None => false
  end.

(** Aortic valve: the text after the number, if any. *)
Definition aorticText (i : Inputs) : option string :=
  let ea := negb (String.eqb (eaGrado i) "no") in
  let ia := negb (String.eqb (iaGrado i) "no") in
  let adv := default "" (iaoAdv i) in
  if Js.includes (morfAortica i) "Bicúspide" then
    Some (morfAortica i +:+
          (if ea then " con estenosis " +:+ eaGrado i else "") +:+
          (if truthy_text (iaoAdv i) then
             (if ea then " e " else " con ") +:+ Js.toLowerCase adv
           else if ia then
             (if ea then " e insuficiencia " else " con insuficiencia ") +:+ iaGrado i
           else ""))
  else
    let parts :=
      (if ea then ["Estenosis aórtica " +:+ eaGrado i] else []) ++
      (if truthy_text (iaoAdv i) then [adv]
       else if ia then ["Insuficiencia aórtica " +:+ iaGrado i] else []) in
    if (0 <? length parts)%nat then Some (Js.join " e " parts) else None.

Definition aortic (i : Inputs) (p : Progress) : Progress :=
  if Js.includes (morfAortica i) "Bicúspide" ||
     Js.includes (morfAortica i) "Calcificación masiva" ||
     negb (String.eqb (eaGrado i) "no") || negb (String.eqb (iaGrado i) "no") ||
     truthy_text (iaoAdv i)
  then
    let number_now := conclusionNum p in
    match aorticText i with
    | Some text =>
        let text := if Js.endsWith (pretty number_now +:+ ". " +:+ text) "."
                    then text else text +:+ "." in
        increment (write text p)
    | None => p
    end
  else p.

(** The band of an indexed diameter above its limit. *)
Definition dilationSeverity (indexed : JsNum.num) : string :=
  if JsNum.gt indexed (JsNum.Fin 3) then "severa"
  else if JsNum.ge indexed (JsNum.Fin (25 # 10)) then "moderada"
  else "leve".

(** [severities.indexOf(s)] *)
Definition severityIndex (s : string) : Z :=
  if String.eqb s "leve" then 0
  else if String.eqb s "moderada" then 1
  else if String.eqb s "severa" then 2
  else -1.

(** The dilated segments of the aorta, each with its band. *)
Definition aorticDilations (i : Inputs) : list (string * string) :=
  let indexed (d : string) :=
    JsNum.div (JsNum.div (JsNum.toNumber d) (JsNum.toNumber (sc i))) (JsNum.of_Z 10) in
  let rootLimit := if String.eqb (sexo i) "M" then 215 # 100 else 211 # 100 in
  let ascLimit := if String.eqb (sexo i) "M" then 211 # 100 else 203 # 100 in
  (if nonempty (aoRaiz i) && JsNum.gt (indexed (aoRaiz i)) (JsNum.Fin rootLimit)
   then [("raíz aórtica", dilationSeverity (indexed (aoRaiz i)))] else []) ++
  (if nonempty (aoAsc i) && JsNum.gt (indexed (aoAsc i)) (JsNum.Fin ascLimit)
   then [("aorta ascendente", dilationSeverity (indexed (aoAsc i)))] else []).

(** Aortic root and ascending aorta *)
Definition aorta (i : Inputs) (p : Progress) : Progress :=
  if nonempty (sc i) then
    let dilations := aorticDilations i in
    if (0 <? length dilations)%nat then
      let maxSeverity :=
        foldl (fun best dil =>
                 if severityIndex dil.2 >? severityIndex best then dil.2 else best)
              "leve" dilations in
      let types := Js.join " y " (dilations.*1) in
      increment (write ("Dilatación " +:+ maxSeverity +:+ " de " +:+ types +:+ ".") p)
    else p
  else p.

(** Right chambers *)
Definition rightChambers (i : Inputs) (p : Progress) : Progress :=
  if String.eqb (adEstado i) "dilatada" || String.eqb (vdEstado i) "dilatado" then
    let atrium :=
      if JsNum.truthy (adArea i) && JsNum.gt (adArea i) (JsNum.of_Z 18) then
        "aurícula derecha dilatada " +:+
        (if JsNum.gt (adArea i) (JsNum.of_Z 25) then "severa" else "leve-moderada")
      else "" in
    let both :=
      if JsNum.truthy (vdBasal i) && JsNum.gt (vdBasal i) (JsNum.of_Z 41) then
        (if nonempty atrium then atrium +:+ " y " else atrium) +:+
        "ventrículo derecho dilatado " +:+
        (if JsNum.gt (vdBasal i) (JsNum.of_Z 50) then "severa"
         else if JsNum.ge (vdBasal i) (JsNum.of_Z 46) then "moderada"
         else "leve")
      else atrium in
    increment (write ("Dilatación de cavidades derechas: " +:+ both +:+ ".") p)
  else p.

(** 8. Pulmonary hypertension *)
Definition pulmonaryHypertension (i : Inputs) (p : Progress) : Progress :=
  if psap i >? 0 then
    increment
      (if psap i <=? 35 then
         write "Grado de sospecha de Hipertensión pulmonar: Baja." p
       else if psap i <=? 45 then
         write ("Grado de sospecha de Hipertensión pulmonar: Intermedia (PSAP " +:+
                pretty (psap i) +:+ " mmHg).") p
       else
         write ("Signos de Hipertensión pulmonar (PSAP " +:+
                pretty (psap i) +:+ " mmHg).") p)
  else p.

(** Dysfunction of the right ventricle *)
Definition rightVentricle (i : Inputs) (p : Progress) : Progress :=
  if JsNum.lt (JsNum.toNumber (tapse i)) (JsNum.of_Z 16) then
    increment (write "Disfunción del ventrículo derecho." p)
  else p.

(** *** The estimated pressure kept in the state of the page *)

(** [!v || v <= 0]: no usable velocity. *)
Definition noVelocity (v : JsNum.num) : bool :=
  negb (JsNum.truthy v) || negb (JsNum.gt v (JsNum.Fin 0)).

(** [HemodynamicsCalculator.calculatePSAP]: 0 without a usable velocity,
    otherwise [Math.round(4 * v^2 + rap)]. *)
Definition calcPSAP (trVelocity rap : JsNum.num) : Z :=
  if noVelocity trVelocity then 0
  else
    match trVelocity, rap with
    | JsNum.Fin v, JsNum.Fin r => JsNum.round (4 * v * v + r)%Q
    | _, _ => 0      (* an infinite operand: outside the integer state *)
    end.

(** [UIController.calculatePSAP]: the new value of [this.state.psap];
    without a usable velocity the state is left as it is. *)
Definition calculatePSAP (vel_it pad : string) (statePsap : Z) : Z :=
  let trVel := JsNum.parseFloat vel_it in
  let rap := if JsNum.truthy (JsNum.parseFloat pad) then JsNum.parseFloat pad
             else JsNum.of_Z 5 in
  if noVelocity trVel then statePsap else calcPSAP trVel rap.

(** [this.state.psap] after a history of recalculations, oldest first,
    from the value 0 that the constructor gives it. *)
Definition psapAfter (history : list (string * string)) : Z :=
  foldl (fun st f => calculatePSAP f.1 f.2 st) 0 history.

(** The sentence on pulmonary hypertension, after the specification: none
    for a pressure that is not positive, low suspicion up to 35,
    intermediate up to 45, overt wording above. *)
Definition psapSentence (p : Z) : option string :=
  if decide (p ≤ 0) then None
  else if decide (p ≤ 35) then
    Some "Grado de sospecha de Hipertensión pulmonar: Baja."
  else if decide (p ≤ 45) then
    Some ("Grado de sospecha de Hipertensión pulmonar: Intermedia (PSAP " +:+
          pretty p +:+ " mmHg).")
  else Some ("Signos de Hipertensión pulmonar (PSAP " +:+ pretty p +:+ " mmHg).").

(** The same inputs with another pressure. *)
Definition with_psap (v : Z) (i : Inputs) : Inputs :=
  mkInputs (ritmo i) (conduccion i) (conduccionValue i) (geometry i) (ddvi i)
    (sexo i) (motility i) (fevi i) (diastolicResult i) (volAi i) (morfMitral i)
    (imGrado i) (emGrado i) (iaoAdv i) (morfAortica i) (eaGrado i) (iaGrado i)
    (sc i) (aoRaiz i) (aoAsc i) (adEstado i) (vdEstado i) (adArea i) (vdBasal i)
    v (tapse i).

(** The numbers of the lines are 1, 2, 3, ... and the counter is the next
    number. *)
Definition contiguous (p : Progress) : Prop :=
  (∀ (k : nat) (l : Line), lines p !! k = Some l → number l = Z.of_nat k + 1) ∧
  conclusionNum p = Z.of_nat (length (lines p)) + 1.

(** A step of the assembly that writes no conclusion or writes one
    conclusion and then increments the counter. *)
Definition at_most_one (f : Progress -> Progress) : Prop :=
  ∀ p, f p = p ∨ ∃ text, f p = increment (write text p).

(** A page of a normal study, with the pressure left open. *)
Definition normalStudy (v : Z) : Inputs :=
  mkInputs "Ritmo sinusal" "" "normal" "Geometría Normal" "48" "M"
    (Some MotilityController.fresh) "60" (Some ("Función diastólica Normal", "Normal"))
    (JsNum.of_Z 28) "Normal" "no" "no" None "Trivalva" "no" "no"
    "1.9" "32" "30" "normal" "normal" (JsNum.of_Z 14) (JsNum.of_Z 35)
    v "22".

(** The conclusions up to the right chambers, from [conclusionNum = 1]. *)
Definition conclusionsBeforePsap (i : Inputs) : result Progress :=
  p ← leftVentricle i (rhythm i (mkProgress [] 1));
  Ok (rightChambers i (aorta i (aortic i (mitral i (leftAtrium i (diastolic i p)))))).

(** The whole list of conclusions, as [generateReport] assembles it once
    the quality control has let it through (see [generateReport]
    below). *)
Definition conclusions (i : Inputs) : result Progress :=
  p ← conclusionsBeforePsap i;
  Ok (rightVentricle i (pulmonaryHypertension i p)).

(** *** The quality control that guards the report *)

(** The fields of the page that only the quality control reads. *)
Record QcFields : Type := mkQcFields {
  motilidad_global : string;
  ea_ava : string;
  dsvi : string;
  im_ore : string;
  em_grad_medio : string
}.

Inductive AlertLevel : Type := error | warning | info.

#[global] Instance AlertLevel_eq_dec : EqDecision AlertLevel.
Proof. solve_decision. Defined.

Record Alert : Type := mkAlert { level : AlertLevel; message : string }.

(** [QualityControl.runChecks(formData)] on the form data that
    [runQualityControl] reads from the page.  The numbers of the form
    are already parsed, and [parseFloat] of a number gives the number
    back.  The form holds neither [ea_grad_medio] nor [im_vc]: the rules
    6 and 7 read [undefined] there. *)
Definition runChecks (f : QcFields) (i : Inputs) : list Alert :=
  let fevi := JsNum.parseFloat (fevi i) in
  let ea_ava := JsNum.parseFloat (ea_ava f) in
  let dsvi := JsNum.parseFloat (dsvi f) in
  let ddvi := JsNum.parseFloat (ddvi i) in
  let im_ore := JsNum.parseFloat (im_ore f) in
  (if String.eqb (motilidad_global f) "normal" && JsNum.truthy fevi &&
      JsNum.lt fevi (JsNum.of_Z 50)
   then [mkAlert error "Incongruencia: Motilidad conservada con FEy deprimida (<50%)"]
   else []) ++
  (if String.eqb (eaGrado i) "severa" && JsNum.truthy ea_ava &&
      JsNum.gt ea_ava (JsNum.Fin (12 # 10))
   then [mkAlert error "AVA > 1.2 cm² no es compatible con estenosis aórtica severa (debe ser < 1.0)"]
   else []) ++
  (if JsNum.truthy dsvi && JsNum.truthy ddvi && JsNum.ge dsvi ddvi
   then [mkAlert error "DSVI debe ser menor que DDVI. Verifique las mediciones."]
   else []) ++
  (if String.eqb (imGrado i) "severa" &&
      (negb (JsNum.truthy im_ore) ||
       match im_ore with JsNum.Fin q => Qeq_bool q 0 | _ => false end)
   then [mkAlert warning "Se recomienda cuantificar ORE en insuficiencia mitral severa"]
   else []) ++
  (if JsNum.truthy fevi && JsNum.lt fevi (JsNum.of_Z 40) &&
      String.eqb (motilidad_global f) "normal"
   then [mkAlert warning "FEy <40% sugiere revisar análisis de motilidad parietal"]
   else []) ++
  (if String.eqb (eaGrado i) "moderada" || String.eqb (eaGrado i) "severa"
   then [mkAlert info "Se recomienda medir gradientes en estenosis aórtica moderada/severa"]
   else []) ++
  (if String.eqb (imGrado i) "severa"
   then [mkAlert info "Considere medir vena contracta en IM severa"]
   else []).

(** [QualityControl.hasErrors()] *)
Definition hasErrors (alerts : list Alert) : bool :=
  existsb (fun a => bool_decide (level a = error)) alerts.

(** [UIController.runQualityControl()] *)
Definition runQualityControl (f : QcFields) (i : Inputs) : bool :=
  negb (hasErrors (runChecks f i)).

(** The conclusions that [generateReport] writes.  With a quality
    control ([this.qc], absent when [qc] is [None]) that finds an error,
    the page shows an alert and [generateReport] returns before it
    writes anything: [None].  [i] holds what the page reads after the
    recalculation that [generateReport] forces first. *)
Definition generateReport (qc : option QcFields) (i : Inputs)
    : option (result Progress) :=
  match qc with
  | Some f => if runQualityControl f i then Some (conclusions i) else None
  | None => Some (conclusions i)
  end.

(** The text under the heading CONCLUSIONES. *)
Definition conclusionsText (p : Progress) : string :=
  String.concat "" (render <$> lines p).

End UIController.

(** ** The other tables of the model

    [MotilityModel.STATES], [MotilityModel.TERRITORIES] and
    [getArteryName]. *)

Module ModelTables.

Import MotilityModel.

Record MotilityState : Type := mkMotilityState {
  label : string;
  shortLabel : string;
  color : string;
  score : Z
}.

(** [MotilityModel.STATES[state]]; [None] is [undefined]. *)
Definition STATES (state : Z) : option MotilityState :=
  match state with
  | 1 => Some (mkMotilityState "Normocinesia" "Normal" "#10b981" 1)
  | 2 => Some (mkMotilityState "Hipoquinesia" "Hipo" "#fbbf24" 2)
  | 3 => Some (mkMotilityState "Aquinesia" "A" "#ef4444" 3)
  | 4 => Some (mkMotilityState "Disquinesia" "Dis" "#a855f7" 4)
  | _ => None
  end.

Record Territory : Type := mkTerritory {
  tname : string;
  tshortName : string;
  segments : list nat
}.

(** [MotilityModel.TERRITORIES[code]] *)
Definition TERRITORIES (code : Artery) : Territory :=
  match code with
  | DA => mkTerritory "Descendente Anterior (DA)" "DA" [1; 2; 7; 8; 13; 14; 17]%nat
  | CD => mkTerritory "Coronaria Derecha (CD)" "CD" [3; 4; 9; 10; 15]%nat
  | Cx => mkTerritory "Circunfleja (Cx)" "Cx" [5; 6; 11; 12; 16]%nat
  end.

(** [getArteryName(arteryCode, full = true)] *)
Definition getArteryName (arteryCode : Artery) (full : option bool) : string :=
  if default true full then tname (TERRITORIES arteryCode)
  else tshortName (TERRITORIES arteryCode).

End ModelTables.

(** ** Estimates derived from the wall motion score index

    [validateCoherence], [estimateLVEF], the warning of [updateUI] and
    [getECGCorrelation].  The index read back by [parseFloat] has two
    decimals, and the literals 1.0, 1.2, 1.5 and 2.0 it is compared with
    are decimals of the same kind: the comparisons of the stored doubles
    are the comparisons of the decimals. *)

Module MotilityEstimates.

Import MotilityModel MotilityController.

(** [a === b] on numbers *)
Definition same (a b : JsNum.num) : bool :=
  match a, b with
  | JsNum.Fin x, JsNum.Fin y => Qeq_bool x y
  | JsNum.PInf, JsNum.PInf | JsNum.NInf, JsNum.NInf => true
  | _, _ => false
  end.

(** [a <= b] *)
Definition le (a b : JsNum.num) : bool := JsNum.ge b a.

(** [{ valid, message }]; [message] is absent from a valid answer. *)
Record Coherence : Type := mkCoherence {
  valid : bool;
  message : option string
}.

Definition highIndexMessage : string :=
  "⚠️ WMSI elevado (>1.5) con FEy conservada (>55%). Revisar coherencia entre motilidad regional y función global.".

Definition lowFractionMessage : string :=
  "⚠️ WMSI normal pero FEy deprimida (<50%). Considerar disfunción global sin alteraciones regionales.".

(** [validateCoherence(fey)] *)
Definition validateCoherence (fey : JsNum.num) (c : t) : Coherence :=
  let wmsi := JsNum.parseFloat (calculateWMSI c) in
  if JsNum.gt wmsi (JsNum.Fin (15 # 10)) && JsNum.gt fey (JsNum.of_Z 55) then
    mkCoherence false (Some highIndexMessage)
  else if same wmsi (JsNum.Fin 1) && JsNum.lt fey (JsNum.of_Z 50) then
    mkCoherence false (Some lowFractionMessage)
  else mkCoherence true None.

(** The warning that [updateUI] shows under the diagram, from the text of
    the field [fey_simpson]: [parseFloat(feyInput.value) || 0] is checked
    and the message is displayed when the answer is not valid; [None] is
    the hidden warning. *)
Definition motilityWarning (feyText : string) (c : t) : option string :=
  let fey := if JsNum.truthy (JsNum.parseFloat feyText)
             then JsNum.parseFloat feyText else JsNum.of_Z 0 in
  let validation := validateCoherence fey c in
  if negb (valid validation) then message validation else None.

(** [{ min, max, text, category }] *)
Record Estimate : Type := mkEstimate {
  emin : Z;
  emax : Z;
  etext : string;
  ecategory : string
}.

(** The bands of [estimateLVEF], on the index read back as a number. *)
Definition estimateOf (wmsi : JsNum.num) : Estimate :=
  if same wmsi (JsNum.Fin 1) then mkEstimate 55 65 "55-65%" "normal"
  else if le wmsi (JsNum.Fin (12 # 10)) then
    mkEstimate 45 55 "45-55%" "levemente reducida"
  else if le wmsi (JsNum.Fin (15 # 10)) then
    mkEstimate 35 45 "35-45%" "moderadamente reducida"
  else if le wmsi (JsNum.Fin 2) then
    mkEstimate 25 30 "25-30%" "severamente reducida"
  else mkEstimate 0 25 "<25%" "muy deprimida".

(** [estimateLVEF] *)
Definition estimateLVEF (c : t) : Estimate :=
  estimateOf (JsNum.parseFloat (calculateWMSI c)).

#[global] Instance Estimate_eq_dec : EqDecision Estimate.
Proof. solve_decision. Defined.

(** The estimate by the sum of the 17 severities: 17 is the normal
    heart, then up to 20, up to 25, up to 34, and above. *)
Definition estimateBySum (sum : Z) : Estimate :=
  if sum =? 17 then mkEstimate 55 65 "55-65%" "normal"
  else if sum <=? 20 then mkEstimate 45 55 "45-55%" "levemente reducida"
  else if sum <=? 25 then mkEstimate 35 45 "35-45%" "moderadamente reducida"
  else if sum <=? 34 then mkEstimate 25 30 "25-30%" "severamente reducida"
  else mkEstimate 0 25 "<25%" "muy deprimida".

(** The check, for one sum, that the tests made on the printed index are
    tests on the sum. *)
Definition sum_check (sum : Z) : bool :=
  let wmsi := JsNum.parseFloat (Js.toFixed sum 17 2) in
  bool_decide (estimateOf wmsi = estimateBySum sum) &&
  Bool.eqb (JsNum.gt wmsi (JsNum.Fin (15 # 10))) (26 <=? sum) &&
  Bool.eqb (same wmsi (JsNum.Fin 1)) (sum =? 17).

(** [l.some(f)] for a test that can throw: it stops at the first element
    that passes. *)
Fixpoint some (f : nat -> result bool) (l : list nat) : result bool :=
  match l with
  | [] => Ok false
  | x :: l' => f x ≫= fun b : bool => if b then Ok true else some f l'
  end.

Definition takotsuboLeads : string :=
  "T negativas profundas en precordiales (V1-V6), QT prolongado.".

(** [getECGCorrelation]; [Ok None] is the returned [null]. *)
Definition getECGCorrelation (c : t) : result (option string) :=
  if String.eqb (pattern c) "takotsubo" then Ok (Some takotsuboLeads)
  else if String.eqb (pattern c) "bcri" then
    Ok (Some "QRS ancho (>120ms), patrón de BCRI (V1-V2 QS, V6 R empastada).")
  else if String.eqb (pattern c) "bcrd" then
    Ok (Some "QRS ancho (>120ms), patrón de BCRD (V1-V2 rSR').")
  else if String.eqb (pattern c) "pacemaker" then
    Ok (Some "Espiga de marcapasos, QRS ancho con imagen de BCRI.")
  else
    territory ← getAffectedTerritory c;
    match territory with
    | None => Ok None
    | Some DA =>
        let abnormal := getAbnormalSegments c in
        let allAbnormal :=
          hypokinetic abnormal ++ akinetic abnormal ++ dyskinetic abnormal in
        let hasSeptal :=
          existsb (fun id => bool_decide (id ∈ [2; 3; 8; 9]%nat)) allAbnormal in
        some (fun id => l ← getLevel id; Ok (bool_decide (l = apical)))
             allAbnormal ≫= fun hasApical : bool =>
        if hasSeptal && negb hasApical then Ok (Some "V1-V2 (Septal).")
        else if hasApical then
          Ok (Some "V1-V4, posiblemente V5-V6 (Anterior extenso/Apical).")
        else Ok (Some "V1-V4 (Anterior).")
    | Some CD =>
        Ok (Some "DII, DIII, aVF (Inferior). Considerar V3R-V4R si hay compromiso de VD.")
    | Some Cx => Ok (Some "DI, aVL, V5-V6 (Lateral).")
    end.

End MotilityEstimates.

(** ** The diagram (MotilitySVG)

    What the bull's-eye shows is the [fill] of its 17 elements; a view
    maps the id of a drawn segment to that colour. *)

Module MotilitySVG.

Import MotilityModel MotilityController.

(** The ids of the array [segments] of [renderBullseye], in its order. *)
Definition ring : list nat :=
  [1; 6; 5; 4; 3; 2; 7; 12; 11; 10; 9; 8; 13; 16; 15; 14]%nat.

(** [MotilityModel.STATES[this.controller.getSegmentState(id)].color];
    it throws on a state that the table does not hold. *)
Definition fillOf (id : nat) (c : t) : result string :=
  st ← member (ModelTables.STATES (getSegmentState id c));
  Ok (ModelTables.color st).

(** The [forEach] that draws the segments of the ring. *)
Fixpoint paint (ids : list nat) (c : t) (v : gmap nat string)
    : result (gmap nat string) :=
  match ids with
  | [] => Ok v
  | id :: ids' => fill ← fillOf id c; paint ids' c (<[id := fill]> v)
  end.

(** [renderBullseye]: the drawing is emptied, the 16 segments of the
    ring are drawn, then the apex. *)
Definition renderBullseye (c : t) : result (gmap nat string) :=
  v ← paint ring c ∅;
  fill ← fillOf 17 c;
  Ok (<[17%nat := fill]> v).

(** [updateSegmentVisuals(segmentId)]: everything is drawn again for
    ['all']; otherwise the colour is computed and given to the element
    of the segment, if the drawing has one. *)
Definition updateSegmentVisuals (segmentId : NotifyArg) (c : t)
    (v : gmap nat string) : result (gmap nat string) :=
  match segmentId with
  | All => renderBullseye c
  | Seg id =>
      fill ← fillOf id c;
      Ok (if decide (is_Some (v !! id)) then <[id := fill]> v else v)
  end.

(** The listener that the constructor registers, run on a trace of
    effects: at each notification it reads the store as it is then. *)
Fixpoint replay (es : list Effect) (v : gmap nat string)
    : result (gmap nat string) :=
  match es with
  | [] => Ok v
  | Notify arg snapshot :: es' =>
      v' ← updateSegmentVisuals arg (mk snapshot "none" ∅ []) v;
      replay es' v'
  | _ :: es' => replay es' v
  end.

(** The colour of a severity. *)
Definition colorOf (severity : Z) : string :=
  match ModelTables.STATES severity with
  | Some st => ModelTables.color st
  | None => ""
  end.

(** The drawing that shows a store: each of the 17 segments in the
    colour of its severity. *)
Definition canvas (o : gmap nat Z) : gmap nat string :=
  <[17%nat := colorOf (severity_of o 17)]>
    (foldl (fun v id => <[id := colorOf (severity_of o id)]> v) ∅ ring).

End MotilitySVG.

(** ** Sessions: sequences of operations and reloads of the page *)

Module Session.

Import MotilityModel MotilityController.

(** The store holds the 17 segments, each with one of the four
    severities. *)
Definition well_formed (c : t) : Prop :=
  wf_state (state c) ∧ severities_ok (state c).

(** The stored map is the serialisation of the store. *)
Definition persisted (c : t) : Prop :=
  storage c !! "motility-state" = Some (JSON_stringify (state c)).

(** The stored name is the name of the active pattern. *)
Definition pattern_persisted (c : t) : Prop :=
  storage c !! "motility-pattern" = Some (pattern c).

(** The operations of the diagram and of its tool bar. *)
Inductive Action : Type :=
| Toggle (segmentId : nat)
| SetState (segmentId : nat) (st : Z)
| SetPattern (patternName : string)
| Reset.

(** One operation: the controller that the call leaves behind, whether
    it returns or throws; [None] is the toggle of a key that the store
    does not hold.  The direct setting is the one of an integer
    ([PlainStore.setSegmentState] is the operation on any value). *)
Definition perform (a : Action) (c : t) : option t :=
  match a with
  | Toggle id => toggleSegment id c
  | SetState id st => Some (setSegmentState id st c)
  | SetPattern name => Some (setPattern name c)
  | Reset => Some (reset c)
  end.

(** How the call of one operation ends: only [setPattern] can throw. *)
Definition completion (a : Action) : result unit :=
  match a with
  | SetPattern name => setPattern_completion name
  | _ => Ok tt
  end.

(** A sequence of operations, oldest first. *)
Definition performAll (l : list Action) (c : t) : option t :=
  foldl (fun acc a => acc ≫= perform a) (Some c) l.

(** The operations that the page can issue: the segments of the diagram
    are 1 to 17. *)
Definition on_diagram (a : Action) : Prop :=
  match a with
  | Toggle id | SetState id _ => (1 ≤ id ≤ 17)%nat
  | _ => True
  end.

(** The controller that a reload of the page builds from the storage that
    [c] has written. *)
Definition reload (c : t) : option t :=
  match constructor (storage c) with
  | Ok init => controller_of (storage c) init
  | Throw _ => None
  end.

(** One property of the serialised store and the member that
    [JSON.parse] reads from it. *)
Definition member_text (kv : nat * Z) : string :=
  dquote +:+ pretty kv.1 +:+ dquote +:+ ":" +:+ pretty kv.2.

Definition to_member (kv : nat * Z) : string * JSON.value :=
  (pretty kv.1, JSON.JNumber kv.2 0).

(** The local storage agrees with the controller: the stored map is the
    serialisation of the store, or nothing is stored and the store is the
    default one; the stored name, or [none] in its absence, is the active
    pattern. *)
Definition in_sync (c : t) : Prop :=
  (storage c !! "motility-state" = Some (JSON_stringify (state c)) ∨
   (storage c !! "motility-state" = None ∧ state c = getDefaultState)) ∧
  initialPattern (storage c) = pattern c.

(** The operations that the page can issue: a segment of the diagram, a
    name of pattern that is not empty. *)
Definition on_page (a : Action) : Prop :=
  on_diagram a ∧
  match a with
  | SetPattern name => name ≠ ""
  | _ => True
  end.

(** The number of segments of a territory that hold the severity [k]. *)
Definition tier_in (o : gmap nat Z) (k : Z) (a : Artery) : Z :=
  Z.of_nat (length (filter
    (fun id => (artery <$> SEGMENTS id) = Some a ∧ severity_of o id = k)
    (seq 1 17))).

(** The counts of one tier, by territory. *)
Definition tier_scores (o : gmap nat Z) (k : Z) : Scores :=
  mkScores (tier_in o k DA) (tier_in o k CD) (tier_in o k Cx).

(** The territories that hold an abnormal segment, in the order DA, CD,
    Cx. *)
Definition affected (o : gmap nat Z) : list Artery :=
  filter (fun a => abnormal_in o a > 0) [DA; CD; Cx].

#[global] Instance Abnormal_eq_dec : EqDecision Abnormal.
Proof. solve_decision. Defined.

(** The store that a pattern describes: its segments at its severity,
    every other segment Normal. *)
Definition applied (p : Pattern) : gmap nat Z :=
  foldl (fun acc id => <[id := severity p]> acc) getDefaultState
        (affectedSegments p).

(** The segments of a pattern, in the tier of its severity. *)
Definition tiers_of (p : Pattern) : Abnormal :=
  mkAbnormal (if severity p =? 2 then affectedSegments p else [])
             (if severity p =? 3 then affectedSegments p else [])
             (if severity p =? 4 then affectedSegments p else []).

(** The check that the abnormal segments read from the store of a
    pattern are the segments of the pattern. *)
Definition pattern_tiers_ok (kp : string * Pattern) : bool :=
  bool_decide (getAbnormalSegments (mk (applied kp.2) kp.1 ∅ []) = tiers_of kp.2).

(** The check of one entry of the library: its segments are segments of
    the model, its severity is one of the four, it names at least one
    segment and its key is neither empty nor [none]. *)
Definition pattern_entry_ok (kp : string * Pattern) : bool :=
  forallb (fun id => (1 <=? id)%nat && (id <=? 17)%nat) (affectedSegments kp.2) &&
  (1 <=? severity kp.2) && (severity kp.2 <=? 4) &&
  (0 <? length (affectedSegments kp.2))%nat &&
  negb (String.eqb kp.1 "none") && negb (String.eqb kp.1 "").

End Session.

(** ** The calculator

    [HemodynamicsCalculator]: the classifications that the page and the
    report read.  The numbers are the exact values of module [JsNum]. *)

Module HemodynamicsCalculator.

(** The argument of [classifyDiastolicFunction]; [None] is an absent
    property, which takes its default. *)
Record Params : Type := mkParams {
  E : JsNum.num;
  A : JsNum.num;
  ePrime : JsNum.num;
  LAVolIndex : option JsNum.num;
  TRVel : option JsNum.num;
  LVEF : option JsNum.num;
  wallMotion : option string
}.

(** [{ grade, description, severity }] *)
Record Diastolic : Type := mkDiastolic {
  grade : string;
  description : string;
  severity : string
}.

Definition isNaN (a : JsNum.num) : bool :=
  match a with JsNum.NaN => true | _ => false end.

Definition gradeI : Diastolic :=
  mkDiastolic "I"
    "Disfunción Diastólica Grado I (Relajación Prolongada). Presiones de llenado VI normales."
    "green".

(** [classifyDiastolicFunction(params)] *)
Definition classifyDiastolicFunction (params : Params) : Diastolic :=
  let E := E params in
  let A := A params in
  let ePrime := ePrime params in
  let LAVolIndex := default (JsNum.of_Z 28) (LAVolIndex params) in
  let TRVel := default (JsNum.of_Z 0) (TRVel params) in
  let LVEF := default (JsNum.of_Z 60) (LVEF params) in
  let wallMotion := default "normal" (wallMotion params) in
  if negb (JsNum.truthy E) || negb (JsNum.truthy A) || negb (JsNum.truthy ePrime) then
    mkDiastolic "Indeterminado" "Esperando datos Doppler..." "neutral"
  else
    let EeRatio := JsNum.div E ePrime in
    let EARatio := JsNum.div E A in
    if JsNum.gt EARatio (JsNum.of_Z 2) && JsNum.ge ePrime (JsNum.of_Z 10) then
      mkDiastolic "Normal"
        "Función Diastólica Normal (Patrón de llenado vigoroso/Atleta). Presiones de llenado VI normales."
        "green"
    else if JsNum.gt EARatio (JsNum.of_Z 2) && JsNum.lt ePrime (JsNum.of_Z 10) then
      mkDiastolic "III"
        "Disfunción Diastólica Grado III (Patrón Restrictivo). Presiones de llenado VI elevadas."
        "red"
    else
      let diseased :=
        JsNum.lt LVEF (JsNum.of_Z 50) || negb (String.eqb wallMotion "normal") in
      let criteria : Z :=
        (if JsNum.lt ePrime (JsNum.of_Z 9) then 1 else 0) +
        (if JsNum.gt EeRatio (JsNum.of_Z 14) then 1 else 0) +
        (if JsNum.gt LAVolIndex (JsNum.of_Z 34) then 1 else 0) +
        (if JsNum.gt TRVel (JsNum.Fin (28 # 10)) then 1 else 0) in
      if negb diseased && (criteria <? 2) then
        mkDiastolic "Normal"
          "Función Diastólica Normal. Presiones de llenado VI normales." "green"
      else if negb diseased && (criteria =? 2) then
        mkDiastolic "Indeterminado"
          "Función Diastólica Indeterminada (2/4 criterios alterados). Se requiere evaluación adicional."
          "yellow"
      else if MotilityEstimates.le EARatio (JsNum.Fin (8 # 10)) &&
              MotilityEstimates.le E (JsNum.of_Z 50) then gradeI
      else
        let ee := negb (isNaN EeRatio) in
        let tr := JsNum.gt TRVel (JsNum.of_Z 0) in
        let la := negb (isNaN LAVolIndex) in
        let dataPoints : Z :=
          (if ee then 1 else 0) + (if tr then 1 else 0) + (if la then 1 else 0) in
        let criteriaP : Z :=
          (if ee && JsNum.gt EeRatio (JsNum.of_Z 14) then 1 else 0) +
          (if tr && JsNum.gt TRVel (JsNum.Fin (28 # 10)) then 1 else 0) +
          (if la && JsNum.gt LAVolIndex (JsNum.of_Z 34) then 1 else 0) in
        if dataPoints <? 2 then
          mkDiastolic "Indeterminado"
            "Función Diastólica Indeterminada. Datos insuficientes para clasificar."
            "yellow"
        else if 2 <=? criteriaP then
          mkDiastolic "II"
            "Disfunción Diastólica Grado II (Pseudonormal). Presiones de llenado VI elevadas."
            "red"
        else if (criteriaP =? 0) || ((criteriaP =? 1) && (dataPoints =? 3)) then gradeI
        else
          mkDiastolic "Indeterminado"
            "Función Diastólica Indeterminada. Evaluación adicional requerida."
            "yellow".

(** The results that the algorithm for hearts without disease can
    give. *)
Definition normalResult : Diastolic :=
  mkDiastolic "Normal"
    "Función Diastólica Normal. Presiones de llenado VI normales." "green".

Definition twoOfFour : Diastolic :=
  mkDiastolic "Indeterminado"
    "Función Diastólica Indeterminada (2/4 criterios alterados). Se requiere evaluación adicional."
    "yellow".

Definition gradeII : Diastolic :=
  mkDiastolic "II"
    "Disfunción Diastólica Grado II (Pseudonormal). Presiones de llenado VI elevadas."
    "red".

(** The number of altered criteria among the four of the algorithm for
    hearts without disease: e' below 9, E/e' above 14, the indexed
    volume of the left atrium above 34, the velocity of the tricuspid
    regurgitation above 2.8. *)
Definition alteredCriteria (params : Params) : Z :=
  (if JsNum.lt (ePrime params) (JsNum.of_Z 9) then 1 else 0) +
  (if JsNum.gt (JsNum.div (E params) (ePrime params)) (JsNum.of_Z 14) then 1 else 0) +
  (if JsNum.gt (default (JsNum.of_Z 28) (LAVolIndex params)) (JsNum.of_Z 34)
   then 1 else 0) +
  (if JsNum.gt (default (JsNum.of_Z 0) (TRVel params)) (JsNum.Fin (28 # 10))
   then 1 else 0).

(** [classifyPulmonaryPressure(psap)] on the integer that
    [calculatePSAP] returns *)
Definition classifyPulmonaryPressure (psap : Z) : string :=
  if psap =? 0 then "No estimable"
  else if psap <? 36 then "Normal"
  else if psap <? 45 then "Levemente elevada"
  else if psap <? 60 then "Moderadamente elevada"
  else "Severamente elevada".

End HemodynamicsCalculator.

(** ** The page: what it stores for the report *)

Module Page.

Import UIController.

(** [UIController.calculateDiastolicFunction]: what it stores in
    [this.state.diastolicResult], from the texts of the seven fields. *)
Definition calculateDiastolicFunction
    (onda_e onda_a onda_e_prime vol_ai vel_it fevi motilidad_global : string)
    : HemodynamicsCalculator.Diastolic :=
  HemodynamicsCalculator.classifyDiastolicFunction
    (HemodynamicsCalculator.mkParams
       (JsNum.parseFloat onda_e) (JsNum.parseFloat onda_a)
       (JsNum.parseFloat onda_e_prime)
       (Some (JsNum.parseFloat vol_ai)) (Some (JsNum.parseFloat vel_it))
       (Some (JsNum.parseFloat fevi)) (Some motilidad_global)).

(** The pair that the conclusions read from the stored result. *)
Definition diastolicOf (r : HemodynamicsCalculator.Diastolic) : option (string * string) :=
  Some (HemodynamicsCalculator.description r, HemodynamicsCalculator.grade r).

(** The conclusion on the diastolic function by grade: the grades I, II
    and III share one sentence. *)
Definition sentenceOfGrade (grade : string) : string :=
  if String.eqb grade "Normal" then "Función Diastólica Normal. PFDVI Normales."
  else if String.eqb grade "Indeterminado" then
    "Función Diastólica Indeterminada (datos insuficientes)."
  else "Disfunción Diastólica Grado I. PFDVI normales.".

(** The same inputs with another diastolic result. *)
Definition with_diastolic (d : option (string * string)) (i : Inputs) : Inputs :=
  mkInputs (ritmo i) (conduccion i) (conduccionValue i) (geometry i) (ddvi i)
    (sexo i) (motility i) (fevi i) d (volAi i) (morfMitral i)
    (imGrado i) (emGrado i) (iaoAdv i) (morfAortica i) (eaGrado i) (iaGrado i)
    (sc i) (aoRaiz i) (aoAsc i) (adEstado i) (vdEstado i) (adArea i) (vdBasal i)
    (psap i) (tapse i).

(** The test of the findings on the function of the right ventricle:
    [tapse >= 17 && (!sPrima || sPrima >= 10)], on the text of the field
    [tapse] and the number read from the field [s_prima_vd]. *)
Definition vdFunctionConserved (tapse s_prima_vd : string) : bool :=
  let sPrima := JsNum.parseFloat s_prima_vd in
  JsNum.ge (JsNum.toNumber tapse) (JsNum.of_Z 17) &&
  (negb (JsNum.truthy sPrima) || JsNum.ge sPrima (JsNum.of_Z 10)).

(** The head of the sentence of the findings, up to the value of the
    TAPSE. *)
Definition vdFunctionHead (tapse s_prima_vd : string) : string :=
  (if vdFunctionConserved tapse s_prima_vd
   then "Función del VD conservada (TAPSE: "
   else "Función del VD deprimida (TAPSE: ") +:+ tapse +:+ " mm".

(** The same inputs with another TAPSE. *)
Definition with_tapse (t : string) (i : Inputs) : Inputs :=
  mkInputs (ritmo i) (conduccion i) (conduccionValue i) (geometry i) (ddvi i)
    (sexo i) (motility i) (fevi i) (diastolicResult i) (volAi i) (morfMitral i)
    (imGrado i) (emGrado i) (iaoAdv i) (morfAortica i) (eaGrado i) (iaGrado i)
    (sc i) (aoRaiz i) (aoAsc i) (adEstado i) (vdEstado i) (adArea i) (vdBasal i)
    (psap i) t.

(** The same inputs with other diameters of the aorta. *)
Definition with_aorta (raiz asc : string) (i : Inputs) : Inputs :=
  mkInputs (ritmo i) (conduccion i) (conduccionValue i) (geometry i) (ddvi i)
    (sexo i) (motility i) (fevi i) (diastolicResult i) (volAi i) (morfMitral i)
    (imGrado i) (emGrado i) (iaoAdv i) (morfAortica i) (eaGrado i) (iaGrado i)
    (sc i) raiz asc (adEstado i) (vdEstado i) (adArea i) (vdBasal i)
    (psap i) (tapse i).

(** What the page displays after [UIController.calculatePSAP]: the
    pressure it has just stored and its classification; [None] is the
    dash shown without a usable velocity. *)
Definition psapInfo (vel_it pad : string) : option (Z * string) :=
  if noVelocity (JsNum.parseFloat vel_it) then None
  else
    let v := calculatePSAP vel_it pad 0 in
    Some (v, HemodynamicsCalculator.classifyPulmonaryPressure v).

(** The incongruences that stop the report: a conserved motility with
    an ejection fraction below 50, a severe aortic stenosis with a
    valve area above 1.2, an end-systolic diameter that is not below
    the end-diastolic one. *)
Definition incongruent (f : QcFields) (i : Inputs) : bool :=
  (String.eqb (motilidad_global f) "normal" &&
   JsNum.truthy (JsNum.parseFloat (fevi i)) &&
   JsNum.lt (JsNum.parseFloat (fevi i)) (JsNum.of_Z 50)) ||
  (String.eqb (eaGrado i) "severa" &&
   JsNum.truthy (JsNum.parseFloat (ea_ava f)) &&
   JsNum.gt (JsNum.parseFloat (ea_ava f)) (JsNum.Fin (12 # 10))) ||
  (JsNum.truthy (JsNum.parseFloat (dsvi f)) &&
   JsNum.truthy (JsNum.parseFloat (ddvi i)) &&
   JsNum.ge (JsNum.parseFloat (dsvi f)) (JsNum.parseFloat (ddvi i))).

(** The same inputs with another ejection fraction. *)
Definition with_fevi (x : string) (i : Inputs) : Inputs :=
  mkInputs (ritmo i) (conduccion i) (conduccionValue i) (geometry i) (ddvi i)
    (sexo i) (motility i) x (diastolicResult i) (volAi i) (morfMitral i)
    (imGrado i) (emGrado i) (iaoAdv i) (morfAortica i) (eaGrado i) (iaGrado i)
    (sc i) (aoRaiz i) (aoAsc i) (adEstado i) (vdEstado i) (adArea i) (vdBasal i)
    (psap i) (tapse i).

End Page.

(** * Properties *)

Import MotilityModel MotilityController.

(** ** Enumeration of a well-formed store *)

Section Enumeration.

Variable o : gmap nat Z.
Hypothesis Hwf : wf_state o.

Lemma wf_lookup (id : nat) :
  (1 ≤ id ≤ 17)%nat → o !! id = Some (severity_of o id).
Proof.
  intros Hid. apply Hwf in Hid as [v Hv]. unfold severity_of. by rewrite Hv.
Qed.

Lemma wf_lookup_None (id : nat) : ¬ (1 ≤ id ≤ 17)%nat → o !! id = None.
Proof.
  intros Hid. apply eq_None_not_Some. intros Hs. by apply Hwf in Hs.
Qed.

Lemma Object_keys_wf : Object_keys o = seq 1 17.
Proof.
  unfold Object_keys.
  apply (Sorted_unique le).
  - apply Sorted_merge_sort. apply _.
  - by vm_compute; repeat constructor.
  - rewrite merge_sort_Permutation.
    apply NoDup_Permutation.
    + apply NoDup_fst_map_to_list.
    + apply NoDup_seq.
    + intros k. rewrite elem_of_seq, list_elem_of_fmap.
      split.
      * intros [[k' v] [-> Hin]]. apply elem_of_map_to_list in Hin.
        simpl. assert (is_Some (o !! k')) as Hs by eauto.
        apply Hwf in Hs. lia.
      * intros Hk. assert (1 ≤ k ≤ 17)%nat as Hk' by lia.
        apply Hwf in Hk' as [v Hv]. exists (k, v). split; [done|].
        by apply elem_of_map_to_list.
Qed.

Lemma Object_entries_wf :
  Object_entries o = (fun id => (id, severity_of o id)) <$> seq 1 17.
Proof.
  unfold Object_entries. rewrite Object_keys_wf.
  assert (Forall (fun id => (1 ≤ id ≤ 17)%nat) (seq 1 17)) as Hall.
  { apply Forall_forall. intros k Hk. apply elem_of_seq in Hk. lia. }
  induction Hall as [|k l Hk _ IH]; [done|].
  cbn [omap list_omap fmap list_fmap]. rewrite (wf_lookup k Hk). simpl.
  f_equal. apply IH.
Qed.

Lemma Object_values_wf : Object_values o = severity_of o <$> seq 1 17.
Proof.
  unfold Object_values. rewrite Object_entries_wf, <- list_fmap_compose.
  done.
Qed.

End Enumeration.

(** ** The default store *)

Lemma lookup_foldl_insert (l : list nat) (v : Z) (o : gmap nat Z) (id : nat) :
  foldl (fun acc i => <[i := v]> acc) o l !! id =
  if decide (id ∈ l) then Some v else o !! id.
Proof.
  revert o. induction l as [|k l IH]; intros o.
  - destruct (decide (id ∈ [])) as [Hin|_]; [|done]. by inversion Hin.
  - cbn [foldl]. rewrite IH.
    destruct (decide (id ∈ l)) as [Hin|Hnin];
      destruct (decide (id ∈ k :: l)) as [Hin'|Hnin']; try done.
    + exfalso. apply Hnin'. by right.
    + apply elem_of_cons in Hin' as [->|?]; [|done].
      by rewrite lookup_insert_eq.
    + rewrite lookup_insert_ne; [done|]. intros ->. apply Hnin'. by left.
Qed.

Lemma lookup_all_normal (o : gmap nat Z) (id : nat) :
  all_normal o !! id = if decide (1 ≤ id ≤ 17)%nat then Some 1 else o !! id.
Proof.
  unfold all_normal. rewrite lookup_foldl_insert.
  destruct (decide (id ∈ seq 1 17)) as [Hin|Hnin];
    rewrite elem_of_seq in *.
  - rewrite decide_True; [done|lia].
  - rewrite decide_False; [done|lia].
Qed.

Lemma all_normal_wf (o : gmap nat Z) : wf_state o → all_normal o = getDefaultState.
Proof.
  intros Hwf. apply map_eq. intros id. unfold getDefaultState.
  rewrite !lookup_all_normal.
  destruct (decide (1 ≤ id ≤ 17)%nat); [done|].
  rewrite lookup_empty. by apply wf_lookup_None.
Qed.

Lemma wf_default : wf_state getDefaultState.
Proof.
  intros id. unfold getDefaultState. rewrite lookup_all_normal.
  destruct (decide (1 ≤ id ≤ 17)%nat) as [Hid|Hid].
  - split; [done|]. by eexists.
  - rewrite lookup_empty. split; [|done]. by intros [? ?].
Qed.

Lemma wf_insert (o : gmap nat Z) (id : nat) (v : Z) :
  wf_state o → (1 ≤ id ≤ 17)%nat → wf_state (<[id := v]> o).
Proof.
  intros Hwf Hid k. destruct (decide (k = id)) as [->|Hne].
  - rewrite lookup_insert_eq. split; [done|]. by eexists.
  - rewrite lookup_insert_ne by done. apply Hwf.
Qed.

Lemma severities_default : severities_ok getDefaultState.
Proof.
  intros id v. unfold getDefaultState. rewrite lookup_all_normal.
  destruct (decide _); [|by rewrite lookup_empty].
  intros [= <-]. lia.
Qed.

Lemma severities_insert (o : gmap nat Z) (id : nat) (v : Z) :
  severities_ok o → 1 ≤ v ≤ 4 → severities_ok (<[id := v]> o).
Proof.
  intros Hok Hv k w. destruct (decide (k = id)) as [->|Hne].
  - rewrite lookup_insert_eq. by intros [= <-].
  - rewrite lookup_insert_ne by done. apply Hok.
Qed.

(** ** Toggling *)

Lemma rem_next (v : Z) : 1 ≤ v ≤ 4 → Z.rem v 4 + 1 = next_severity v.
Proof.
  intros Hv. assert (v = 1 ∨ v = 2 ∨ v = 3 ∨ v = 4) as Hcases by lia.
  destruct Hcases as [-> | [-> | [-> | ->] ] ]; reflexivity.
Qed.

Lemma next_range (v : Z) : 1 ≤ v ≤ 4 → 1 ≤ next_severity v ≤ 4.
Proof. unfold next_severity. destruct (Z.eqb_spec v 4); lia. Qed.

Lemma next_four_times (v : Z) :
  1 ≤ v ≤ 4 → next_severity (next_severity (next_severity (next_severity v))) = v.
Proof.
  intros Hv. assert (v = 1 ∨ v = 2 ∨ v = 3 ∨ v = 4) as Hcases by lia.
  destruct Hcases as [-> | [-> | [-> | ->] ] ]; reflexivity.
Qed.

Lemma toggleSegment_state (c : t) (id : nat) (v : Z) :
  state c !! id = Some v → 1 ≤ v ≤ 4 →
  ∃ c', toggleSegment id c = Some c' ∧
        state c' = <[id := next_severity v]> (state c) ∧
        pattern c' = pattern c.
Proof.
  intros Hv Hr. unfold toggleSegment. rewrite Hv. simpl.
  eexists. split; [reflexivity|]. simpl. by rewrite rem_next.
Qed.

(** C6: on a well-formed store, for a segment id from 1 to 17 whose
    severity [v] is one of 1, 2, 3, 4, [toggleSegment] stores the next
    severity of the cycle Normal, Hypokinetic, Akinetic, Dyskinetic,
    Normal for that segment and leaves every other segment as it was;
    four successive toggles of the segment give back the original store. *)
Theorem toggleSegment_cycle (c : t) (id : nat) (v : Z) :
  wf_state (state c) → (1 ≤ id ≤ 17)%nat →
  severity_of (state c) id = v → 1 ≤ v ≤ 4 →
  (∃ c1, toggleSegment id c = Some c1 ∧
         state c1 !! id = Some (next_severity v) ∧
         (∀ j, j ≠ id → state c1 !! j = state c !! j)) ∧
  (∃ c4, (c1 ← toggleSegment id c; c2 ← toggleSegment id c1;
          c3 ← toggleSegment id c2; toggleSegment id c3) = Some c4 ∧
         state c4 = state c).
Proof.
  intros Hwf Hid Hsev Hv.
  pose proof (wf_lookup _ Hwf id Hid) as Hl. rewrite Hsev in Hl.
  destruct (toggleSegment_state c id v Hl Hv) as (c1 & E1 & S1 & _).
  split.
  - exists c1. split; [done|]. rewrite S1. split.
    + by rewrite lookup_insert_eq.
    + intros j Hj. by rewrite lookup_insert_ne.
  - pose proof (next_range v Hv) as Hv1.
    destruct (toggleSegment_state c1 id (next_severity v)) as (c2 & E2 & S2 & _);
      [by rewrite S1, lookup_insert_eq|done|].
    pose proof (next_range _ Hv1) as Hv2.
    destruct (toggleSegment_state c2 id (next_severity (next_severity v)))
      as (c3 & E3 & S3 & _); [by rewrite S2, lookup_insert_eq|done|].
    pose proof (next_range _ Hv2) as Hv3.
    destruct (toggleSegment_state c3 id
                (next_severity (next_severity (next_severity v))))
      as (c4 & E4 & S4 & _); [by rewrite S3, lookup_insert_eq|done|].
    exists c4. rewrite E1. simpl. rewrite E2. simpl. rewrite E3. simpl.
    split; [done|].
    rewrite S4, S3, S2, S1, !insert_insert_eq, next_four_times by done.
    by apply insert_id.
Qed.

Lemma toggleSegment_cycle_witness :
  (∃ c1, toggleSegment 5 fresh = Some c1 ∧
         state c1 !! 5%nat = Some (next_severity 1) ∧
         (∀ j, j ≠ 5%nat → state c1 !! j = state fresh !! j)) ∧
  (∃ c4, (c1 ← toggleSegment 5 fresh; c2 ← toggleSegment 5 c1;
          c3 ← toggleSegment 5 c2; toggleSegment 5 c3) = Some c4 ∧
         state c4 = state fresh).
Proof.
  apply (toggleSegment_cycle fresh 5 1).
  - exact wf_default.
  - lia.
  - reflexivity.
  - lia.
Defined.

(** ** Direct setting *)

(** On the integer stores the guard is the membership in 1..4. *)
Lemma setSegmentState_integer (c : t) (id : nat) (v : Z) :
  (¬ (1 ≤ v ≤ 4) → setSegmentState id v c = c) ∧
  (1 ≤ v ≤ 4 → state (setSegmentState id v c) = <[id := v]> (state c)).
Proof.
  unfold setSegmentState. split; intros Hv.
  - destruct (Z.leb_spec 1 v), (Z.leb_spec v 4); simpl; try done. lia.
  - destruct (Z.leb_spec 1 v), (Z.leb_spec v 4); try lia. done.
Qed.

(** *** The store of any value *)

Lemma plain_keys (o : gmap nat Z) :
  PlainStore.Object_keys (PlainStore.severity <$> o) = Object_keys o.
Proof.
  unfold PlainStore.Object_keys, Object_keys. f_equal.
  rewrite map_to_list_fmap, <- list_fmap_compose.
  apply list_fmap_ext. by intros _ [k v] _.
Qed.

Lemma severity_text (v : Z) :
  1 ≤ v ≤ 4 → JsValue.JSON_text (PlainStore.severity v) = Some (pretty v).
Proof.
  intros Hv.
  assert (v = 1 ∨ v = 2 ∨ v = 3 ∨ v = 4) as [-> | [-> | [-> | ->] ] ] by lia;
    vm_compute; reflexivity.
Qed.

(** The text saved for a store of severities is the one of the integer
    model. *)
Lemma plain_stringify (o : gmap nat Z) :
  severities_ok o →
  PlainStore.JSON_stringify (PlainStore.severity <$> o) = JSON_stringify o.
Proof.
  intros Hok. unfold PlainStore.JSON_stringify, JSON_stringify.
  unfold PlainStore.Object_entries, Object_entries. rewrite plain_keys.
  do 3 f_equal.
  induction (Object_keys o) as [|k l IH]; [done|].
  cbn [omap list_omap fmap list_fmap]. rewrite lookup_fmap.
  destruct (o !! k) as [v|] eqn:Hk; cbn [fmap option_fmap option_map]; [|exact IH].
  cbn [omap list_omap fmap list_fmap snd fst].
  rewrite (severity_text v (Hok k v Hk)).
  cbn [fmap option_fmap option_map]. f_equal. exact IH.
Qed.

(** The controller of the integer model is the controller on the stores
    whose values are severities: a direct setting of an integer on a
    store of severities is the same operation in both. *)
Lemma setSegmentState_lift (c : t) (id : nat) (v : Z) :
  severities_ok (state c) →
  PlainStore.setSegmentState id (PlainStore.severity v) (PlainStore.lift c) =
  PlainStore.lift (setSegmentState id v c).
Proof.
  intros Hok. unfold PlainStore.setSegmentState, setSegmentState, PlainStore.guard.
  assert (JsNum.ge (JsValue.ToNumber (PlainStore.severity v)) (JsNum.of_Z 1) &&
          JsNum.ge (JsNum.of_Z 4) (JsValue.ToNumber (PlainStore.severity v)) =
          (1 <=? v) && (v <=? 4)) as ->.
  { unfold PlainStore.severity, JsValue.ToNumber, JsNum.ge, JsNum.of_Z.
    f_equal; apply eq_true_iff_eq; rewrite Qle_bool_iff, Z.leb_le;
      by rewrite <- Zle_Qle. }
  destruct ((1 <=? v) && (v <=? 4)) eqn:Hv; [|done].
  apply andb_prop in Hv as [H1 H4]. apply Z.leb_le in H1. apply Z.leb_le in H4.
  unfold PlainStore.lift, PlainStore.updateUI, PlainStore.notifyListeners,
    PlainStore.saveToStorage, PlainStore.set_state, updateUI, notifyListeners,
    saveToStorage, set_state.
  cbn [PlainStore.state PlainStore.pattern PlainStore.storage PlainStore.effects
       state pattern storage effects].
  rewrite <- fmap_insert, plain_stringify.
  - by rewrite !fmap_app.
  - intros j w. destruct (decide (j = id)) as [->|Hj].
    + rewrite lookup_insert_eq. intros [= <-]. lia.
    + rewrite lookup_insert_ne by done. apply Hok.
Qed.

Lemma guard_finite (v : JsValue.value) (q : Q) :
  JsValue.ToNumber v = JsNum.Fin q →
  PlainStore.guard v = true ↔ (1 <= q <= 4)%Q.
Proof.
  intros Hq. unfold PlainStore.guard. rewrite Hq.
  unfold JsNum.ge, JsNum.of_Z. rewrite andb_true_iff, !Qle_bool_iff. done.
Qed.

Lemma guard_not_finite (v : JsValue.value) :
  (∀ q, JsValue.ToNumber v ≠ JsNum.Fin q) → PlainStore.guard v = false.
Proof.
  intros Hq. unfold PlainStore.guard.
  destruct (JsValue.ToNumber v) as [q| | |]; try done. by destruct (Hq q).
Qed.




(** ** Wall motion score index *)

Lemma foldl_add_foldr (l : list Z) (a : Z) :
  foldl Z.add a l = a + foldr Z.add 0 l.
Proof.
  revert a. induction l as [|x l IH]; intros a; simpl; [lia|].
  rewrite IH. lia.
Qed.

Lemma state_sum_wf (o : gmap nat Z) : wf_state o → state_sum o = ordinal_sum o.
Proof.
  intros Hwf. unfold state_sum, ordinal_sum.
  rewrite (Object_values_wf o Hwf), foldl_add_foldr. lia.
Qed.

Lemma sum_bounds (l : list Z) :
  Forall (fun v => 1 ≤ v ≤ 4) l →
  Z.of_nat (length l) ≤ foldr Z.add 0 l ≤ 4 * Z.of_nat (length l).
Proof.
  induction 1 as [|v l Hv _ IH]; simpl; lia.
Qed.

Lemma severity_of_range (o : gmap nat Z) (id : nat) :
  wf_state o → severities_ok o → (1 ≤ id ≤ 17)%nat → 1 ≤ severity_of o id ≤ 4.
Proof.
  intros Hwf Hok Hid. apply (Hok id). by apply wf_lookup.
Qed.

Lemma ordinal_sum_bounds (o : gmap nat Z) :
  wf_state o → severities_ok o → 17 ≤ ordinal_sum o ≤ 68.
Proof.
  intros Hwf Hok. unfold ordinal_sum.
  pose proof (sum_bounds (severity_of o <$> seq 1 17)) as Hb.
  rewrite length_fmap, length_seq in Hb. apply Hb.
  apply Forall_fmap, Forall_forall. intros id Hid. apply elem_of_seq in Hid.
  simpl. apply severity_of_range; [done..|lia].
Qed.

Lemma ordinal_sum_const (o : gmap nat Z) (v : Z) :
  (∀ id, (1 ≤ id ≤ 17)%nat → severity_of o id = v) → ordinal_sum o = 17 * v.
Proof.
  intros Hall. unfold ordinal_sum.
  assert (severity_of o <$> seq 1 17 = replicate 17 v) as ->.
  { apply list_eq_Forall2. apply Forall2_fmap_l.
    change (replicate 17 v) with ((fun _ : nat => v) <$> seq 1 17).
    apply Forall2_fmap_r, Forall_Forall2_diag, Forall_forall.
    intros id Hid. apply elem_of_seq in Hid. apply Hall. lia. }
  simpl. lia.
Qed.

(** C4: on a well-formed store whose severities are all among 1, 2, 3, 4,
    the sum that [calculateWMSI] takes is the sum of the 17 severity
    ordinals; the text it returns shows, with two decimals, the number of
    hundredths [n] nearest to that sum divided by 17; [n] lies between 100
    and 400, so that the index lies between 1.00 and 4.00; the text is
    "1.00" when every segment is Normal and "4.00" when every segment is
    Dyskinetic. *)
Theorem calculateWMSI_mean (c : t) :
  wf_state (state c) → severities_ok (state c) →
  let n := wmsi_hundredths c in
  state_sum (state c) = ordinal_sum (state c) ∧
  calculateWMSI c =
    pretty (n / 100) +:+ "." +:+ Js.pad_left 2 (pretty (n mod 100)) ∧
  2 * Z.abs (100 * ordinal_sum (state c) - 17 * n) ≤ 17 ∧
  100 ≤ n ≤ 400 ∧
  ((∀ id, (1 ≤ id ≤ 17)%nat → severity_of (state c) id = 1) →
     calculateWMSI c = "1.00") ∧
  ((∀ id, (1 ≤ id ≤ 17)%nat → severity_of (state c) id = 4) →
     calculateWMSI c = "4.00").
Proof.
  intros Hwf Hok n.
  pose proof (state_sum_wf _ Hwf) as Hsum.
  pose proof (ordinal_sum_bounds _ Hwf Hok) as Hb.
  assert (n = (200 * ordinal_sum (state c) + 17) / 34) as Hn.
  { subst n. unfold wmsi_hundredths. rewrite Hsum.
    rewrite Z.abs_eq by lia. f_equal. lia. }
  split; [done|]. split; [|split; [|split; [|split]]].
  - unfold calculateWMSI, Js.toFixed.
    change (10 ^ Z.of_nat 2) with 100. change (2 * 17) with 34.
    fold (wmsi_hundredths c). fold n.
    destruct (Z.ltb_spec (state_sum (state c)) 0) as [Hneg|_]; [lia|].
    reflexivity.
  - pose proof (Z.div_mod (200 * ordinal_sum (state c) + 17) 34 ltac:(lia)) as Hdm.
    pose proof (Z.mod_pos_bound (200 * ordinal_sum (state c) + 17) 34 ltac:(lia)).
    rewrite <- Hn in Hdm. lia.
  - rewrite Hn. split.
    + apply Z.div_le_lower_bound; lia.
    + apply Z.lt_succ_r. apply Z.div_lt_upper_bound; lia.
  - intros Hall. unfold calculateWMSI.
    rewrite Hsum, (ordinal_sum_const _ 1 Hall). reflexivity.
  - intros Hall. unfold calculateWMSI.
    rewrite Hsum, (ordinal_sum_const _ 4 Hall). reflexivity.
Qed.

Lemma calculateWMSI_mean_witness :
  calculateWMSI fresh = "1.00" ∧ 100 ≤ wmsi_hundredths fresh ≤ 400.
Proof.
  pose proof (calculateWMSI_mean fresh wf_default severities_default) as H.
  cbv zeta in H. destruct H as (_ & _ & _ & Hr & H1 & _).
  split; [|exact Hr].
  apply H1. intros id Hid. unfold severity_of. simpl.
  unfold getDefaultState. rewrite lookup_all_normal.
  by rewrite decide_True.
Defined.

(** ** Dominant territory *)

Lemma SEGMENTS_known (id : nat) :
  (1 ≤ id ≤ 17)%nat → ∃ seg, SEGMENTS id = Some seg.
Proof.
  intros Hid.
  do 18 (destruct id as [|id]; [first [lia | by eexists]|]). lia.
Qed.

Lemma filter_entries (P : Z → Prop) `{!∀ v, Decision (P v)}
    (f : nat → Z) (l : list nat) :
  (filter (fun kv : nat * Z => P kv.2) ((fun id => (id, f id)) <$> l)).*1 =
  filter (fun id => P (f id)) l.
Proof.
  induction l as [|id l IH]; [done|].
  rewrite fmap_cons, !filter_cons. cbn beta.
  change ((id, f id).2) with (f id).
  destruct (decide (P (f id))); [rewrite fmap_cons|]; by rewrite IH.
Qed.

Lemma abnormalIds_wf (o : gmap nat Z) :
  wf_state o →
  abnormalIds o = filter (fun id => severity_of o id > 1) (seq 1 17).
Proof.
  intros Hwf. unfold abnormalIds. rewrite (Object_entries_wf o Hwf).
  exact (filter_entries (fun v => v > 1) (severity_of o) (seq 1 17)).
Qed.

Lemma score_bump (s : Scores) (a b : Artery) :
  score (bump s a) b = score s b + (if decide (a = b) then 1 else 0).
Proof. destruct a, b; simpl; lia. Qed.

Lemma count_territories_ok (ids : list nat) (s : Scores) :
  Forall (fun id => (1 ≤ id ≤ 17)%nat) ids →
  ∃ s', count_territories ids s = Ok s' ∧
        ∀ a, score s' a =
             score s a +
             Z.of_nat (length (filter
               (fun id => (artery <$> SEGMENTS id) = Some a) ids)).
Proof.
  intros Hall. revert s.
  induction Hall as [|id ids Hid _ IH]; intros s.
  - exists s. split; [done|]. intros a. simpl. lia.
  - destruct (SEGMENTS_known id Hid) as [seg Hseg].
    destruct (IH (bump s (artery seg))) as (s' & Hs' & Hscore).
    exists s'. split.
    + simpl. rewrite Hseg. simpl. exact Hs'.
    + intros a. rewrite Hscore, score_bump, filter_cons, Hseg. simpl.
      destruct (decide (artery seg = a)) as [->|Hne].
      * rewrite decide_True by done. simpl length. lia.
      * rewrite decide_False by congruence. lia.
Qed.

Lemma count_abnormal_wf (o : gmap nat Z) :
  wf_state o →
  ∃ s, count_territories (abnormalIds o) (mkScores 0 0 0) = Ok s ∧
       ∀ a, score s a = abnormal_in o a.
Proof.
  intros Hwf. rewrite (abnormalIds_wf o Hwf).
  destruct (count_territories_ok
              (filter (fun id => severity_of o id > 1) (seq 1 17))
              (mkScores 0 0 0)) as (s & Hs & Hscore).
  { apply Forall_forall. intros id Hid.
    apply list_elem_of_filter in Hid as [_ Hid]. apply elem_of_seq in Hid. lia. }
  exists s. split; [done|]. intros a. rewrite Hscore.
  unfold abnormal_in. rewrite list_filter_filter.
  destruct a; simpl; lia.
Qed.

Lemma abnormal_in_pos (o : gmap nat Z) (id : nat) :
  (1 ≤ id ≤ 17)%nat → severity_of o id > 1 →
  ∃ a, abnormal_in o a > 0.
Proof.
  intros Hid Hsev. destruct (SEGMENTS_known id Hid) as [seg Hseg].
  exists (artery seg). unfold abnormal_in.
  assert (id ∈ filter
            (fun id => (artery <$> SEGMENTS id) = Some (artery seg)
                       ∧ severity_of o id > 1) (seq 1 17)) as Hin.
  { apply list_elem_of_filter. split.
    - split; [by rewrite Hseg|done].
    - apply elem_of_seq. lia. }
  destruct (filter _ (seq 1 17)); [by inversion Hin|]. simpl length. lia.
Qed.

(** C1 (as the code has it): on a well-formed store [getAffectedTerritory]
    returns [null] exactly when no segment is abnormal; otherwise it
    returns a territory whose count of abnormal segments is the maximum,
    and among the territories that reach the maximum it returns the last
    one of the order DA, CD, Cx. *)
Theorem getAffectedTerritory_last_of_ties (c : t) :
  wf_state (state c) →
  ∃ r, getAffectedTerritory c = Ok r ∧
       match r with
       | None =>
           ∀ id, (1 ≤ id ≤ 17)%nat → ¬ severity_of (state c) id > 1
       | Some best =>
           (∃ id, (1 ≤ id ≤ 17)%nat ∧ severity_of (state c) id > 1) ∧
           (∀ a, abnormal_in (state c) a ≤ abnormal_in (state c) best) ∧
           (∀ a, abnormal_in (state c) a = abnormal_in (state c) best →
                 priority a ≤ priority best)
       end.
Proof.
  intros Hwf. unfold getAffectedTerritory.
  destruct (count_abnormal_wf _ Hwf) as (s & Hs & Hscore).
  rewrite Hs. rewrite (abnormalIds_wf _ Hwf).
  destruct (filter (fun id => severity_of (state c) id > 1) (seq 1 17))
    as [|id0 rest] eqn:Hf.
  - exists None. split; [done|]. intros id Hid Hsev.
    assert (id ∈ filter (fun id => severity_of (state c) id > 1) (seq 1 17)) as Hin.
    { apply list_elem_of_filter. split; [done|]. apply elem_of_seq. lia. }
    rewrite Hf in Hin. by inversion Hin.
  - assert (id0 ∈ filter (fun id => severity_of (state c) id > 1) (seq 1 17))
      as Hin by (rewrite Hf; left).
    apply list_elem_of_filter in Hin as [Hsev Hid]. apply elem_of_seq in Hid.
    cbn [length Nat.eqb mbind result_bind reduce1 foldl].
    rewrite (Hscore DA), (Hscore CD).
    destruct (Z.gtb_spec (abnormal_in (state c) DA) (abnormal_in (state c) CD));
      rewrite ?(Hscore DA), ?(Hscore CD), (Hscore Cx);
      [destruct (Z.gtb_spec (abnormal_in (state c) DA) (abnormal_in (state c) Cx))
      |destruct (Z.gtb_spec (abnormal_in (state c) CD) (abnormal_in (state c) Cx))];
      (eexists; split; [reflexivity|];
       split; [exists id0; split; [lia|done]|];
       split; intros a; destruct a; simpl; lia).
Qed.

Lemma getAffectedTerritory_last_of_ties_witness :
  ∃ r, getAffectedTerritory tie_DA_CD = Ok r ∧
       match r with
       | None =>
           ∀ id, (1 ≤ id ≤ 17)%nat → ¬ severity_of (state tie_DA_CD) id > 1
       | Some best =>
           (∃ id, (1 ≤ id ≤ 17)%nat ∧ severity_of (state tie_DA_CD) id > 1) ∧
           (∀ a, abnormal_in (state tie_DA_CD) a ≤ abnormal_in (state tie_DA_CD) best) ∧
           (∀ a, abnormal_in (state tie_DA_CD) a = abnormal_in (state tie_DA_CD) best →
                 priority a ≤ priority best)
       end.
Proof.
  apply (getAffectedTerritory_last_of_ties tie_DA_CD).
  unfold tie_DA_CD. cbn [state set_state].
  do 2 (apply wf_insert; [|lia]). exact wf_default.
Defined.

(** C1 as stated fails: with one abnormal segment in DA (segment 1) and
    one in CD (segment 3) the two territories tie for the maximum and the
    code returns CD, where the priority order DA, CD, Cx selects DA. *)
Lemma getAffectedTerritory_tie_returns_CD :
  abnormal_in (state tie_DA_CD) DA = 1 ∧
  abnormal_in (state tie_DA_CD) CD = 1 ∧
  abnormal_in (state tie_DA_CD) Cx = 0 ∧
  first_of_ties (state tie_DA_CD) = Some DA ∧
  getAffectedTerritory tie_DA_CD = Ok (Some CD) ∧
  getAffectedTerritory tie_DA_CD ≠ Ok (first_of_ties (state tie_DA_CD)).
Proof. vm_compute. repeat split; congruence. Qed.

(** ** Patterns *)

(** The texts depend on the store and on the pattern only. *)
Lemma getAbnormalSegments_ext (c d : t) :
  state c = state d → getAbnormalSegments c = getAbnormalSegments d.
Proof. intros H. unfold getAbnormalSegments. by rewrite H. Qed.

Lemma generateMotilityReport_ext (c d : t) :
  state c = state d → pattern c = pattern d →
  generateMotilityReport c = generateMotilityReport d.
Proof.
  intros Hs Hp.
  unfold generateMotilityReport, currentPattern, calculateWMSI.
  by rewrite (getAbnormalSegments_ext c d Hs), Hs, Hp.
Qed.

Lemma generateConclusion_ext (c d : t) :
  state c = state d → pattern c = pattern d →
  generateConclusion c = generateConclusion d.
Proof.
  intros Hs Hp. unfold generateConclusion, patternConclusion.
  by rewrite (getAbnormalSegments_ext c d Hs), Hp.
Qed.

Lemma setPattern_applied (key : string) (p : Pattern) (c : t) :
  String.eqb key "none" = false → PATTERNS key = Some p →
  (0 <? length (affectedSegments p))%nat = true →
  pattern (setPattern key c) = key ∧
  state (setPattern key c) =
    foldl (fun acc id => <[id := if severity p =? 0 then 3 else severity p]> acc)
          (all_normal (state c)) (affectedSegments p).
Proof.
  intros Hn Hp Hlen. unfold setPattern. rewrite Hn, Hp, Hlen. done.
Qed.

(** C5: from a well-formed store, [setPattern "dilated_cm"] yields the
    store obtained by setting all 17 segments to Normal and then the
    segments 1 to 16 to Hypokinetic: segments 1 to 16 hold 2 and segment
    17 holds 1; the abnormal segments are the ids 1 to 16, all in the
    hypokinetic tier; the findings text is the global sentence of the
    diffuse pattern, which contains "difusa". *)
Theorem setPattern_dilated_cm (c : t) :
  wf_state (state c) →
  let c' := setPattern "dilated_cm" c in
  pattern c' = "dilated_cm" ∧
  state c' = foldl (fun acc id => <[id := 2]> acc) getDefaultState (seq 1 16) ∧
  (∀ id, (1 ≤ id ≤ 16)%nat → state c' !! id = Some 2) ∧
  state c' !! 17%nat = Some 1 ∧
  wf_state (state c') ∧
  getAbnormalSegments c' = mkAbnormal (seq 1 16) [] [] ∧
  ∃ text,
    generateMotilityReport c' = Ok text ∧
    text = "Se observan trastornos segmentarios de la motilidad parietal: hipoquinesia global difusa que no respeta un territorio coronario específico (WMSI: 1.94)." +:+ nl ∧
    Js.includes text "difusa" = true.
Proof.
  intros Hwf c'.
  destruct (setPattern_applied "dilated_cm"
              (mkPattern "Miocardiopatía Dilatada" "Hipoquinesia difusa global"
                 (seq 1 16) 2 cardiomyopathy true) c) as [Hp Hs];
    [reflexivity..|].
  fold c' in Hp, Hs. rewrite (all_normal_wf _ Hwf) in Hs.
  change (state c' =
          foldl (fun acc id => <[id := 2]> acc) getDefaultState (seq 1 16)) in Hs.
  assert (∀ id, state c' !! id =
                if decide (id ∈ seq 1 16) then Some 2 else getDefaultState !! id)
    as Hlook.
  { intros id. rewrite Hs.
    exact (lookup_foldl_insert (seq 1 16) 2 getDefaultState id). }
  split; [done|]. split; [done|]. split; [|split; [|split; [|split]]].
  - intros id Hid. rewrite Hlook, decide_True; [done|]. apply elem_of_seq. lia.
  - rewrite Hlook, decide_False; [done|]. rewrite elem_of_seq. lia.
  - intros id. rewrite Hlook. destruct (decide (id ∈ seq 1 16)) as [Hin|Hnin].
    + apply elem_of_seq in Hin. split; [lia|]. by eexists.
    + apply wf_default.
  - rewrite (getAbnormalSegments_ext c'
               (mk (foldl (fun acc id => <[id := 2]> acc) getDefaultState (seq 1 16))
                   "dilated_cm" ∅ [])) by done.
    vm_compute. reflexivity.
  - eexists. split; [|split; [reflexivity|]].
    + rewrite (generateMotilityReport_ext c'
               (mk (foldl (fun acc id => <[id := 2]> acc) getDefaultState (seq 1 16))
                   "dilated_cm" ∅ [])) by done.
      vm_compute. reflexivity.
    + vm_compute. reflexivity.
Qed.

Lemma setPattern_dilated_cm_witness :
  getAbnormalSegments (setPattern "dilated_cm" fresh) = mkAbnormal (seq 1 16) [] [].
Proof.
  pose proof (setPattern_dilated_cm fresh wf_default) as H.
  cbv zeta in H. apply H.
Defined.

Lemma bcrd_pattern :
  PATTERNS "bcrd" =
  Some (mkPattern "BCRD (Rama Derecha)"
          "Asincronía septal leve por bloqueo de rama derecha"
          [2; 8]%nat 1 dyssynchrony false).
Proof. vm_compute. reflexivity. Qed.

(** C10: from a well-formed store, [setPattern "bcrd"] (default severity
    1) leaves every segment Normal, so that there is no abnormal segment
    and both [generateMotilityReport] and [generateConclusion] return the
    empty string; for any controller whose pattern is "bcrd" each function
    returns its BCRD sentence exactly when some segment is abnormal, and
    one toggle of a segment after the pattern makes both appear. *)
Theorem setPattern_bcrd_silent (c : t) :
  wf_state (state c) →
  let c' := setPattern "bcrd" c in
  (pattern c' = "bcrd" ∧
   state c' = getDefaultState ∧
   totalAbnormal (getAbnormalSegments c') = 0%nat ∧
   generateMotilityReport c' = Ok "" ∧
   generateConclusion c' = Ok "") ∧
  (∀ d, pattern d = "bcrd" →
     (generateMotilityReport d =
        Ok ("Motilidad parietal del ventrículo izquierdo conservada. Se observa asincronía leve del septum, en relación a bloqueo completo de rama derecha" +:+
            " (WMSI: " +:+ calculateWMSI d +:+ ")." +:+ nl)
      ↔ totalAbnormal (getAbnormalSegments d) ≠ 0%nat) ∧
     (generateConclusion d = Ok "Asincronía septal leve en relación a BCRD."
      ↔ totalAbnormal (getAbnormalSegments d) ≠ 0%nat)) ∧
  (∃ d, toggleSegment 2 c' = Some d ∧
        pattern d = "bcrd" ∧
        totalAbnormal (getAbnormalSegments d) = 1%nat ∧
        generateConclusion d = Ok "Asincronía septal leve en relación a BCRD.").
Proof.
  intros Hwf c'.
  destruct (setPattern_applied "bcrd" _ c eq_refl bcrd_pattern eq_refl)
    as [Hp Hs].
  fold c' in Hp, Hs. rewrite (all_normal_wf _ Hwf) in Hs.
  assert (state c' = getDefaultState) as Hs'.
  { rewrite Hs. vm_compute. reflexivity. }
  split; [|split].
  - split; [done|]. split; [done|].
    rewrite (getAbnormalSegments_ext c' fresh) by done.
    rewrite (generateMotilityReport_ext c' (mk getDefaultState "bcrd" ∅ [])) by done.
    rewrite (generateConclusion_ext c' (mk getDefaultState "bcrd" ∅ [])) by done.
    vm_compute. done.
  - intros d Hd. unfold generateMotilityReport, generateConclusion,
      patternConclusion, currentPattern.
    rewrite Hd. change (String.eqb "bcrd" "none") with false.
    rewrite bcrd_pattern. cbn [isDiffuse andb is_dyssynchrony category].
    change (directConclusion "bcrd")
      with (Some "Asincronía septal leve en relación a BCRD.").
    destruct (Nat.eqb_spec (totalAbnormal (getAbnormalSegments d)) 0) as [Hz|Hnz].
    + split; (split; [intros Heq; inversion Heq|done]).
    + split; (split; [done|intros _; reflexivity]).
  - destruct (toggleSegment_state c' 2 1) as (d & Hd & Hds & Hdp); [|lia|].
    { rewrite Hs'. reflexivity. }
    exists d. split; [done|]. rewrite Hdp, Hp. split; [done|].
    rewrite (getAbnormalSegments_ext d
               (mk (<[2%nat := 2]> getDefaultState) "bcrd" ∅ []))
      by (by rewrite Hds, Hs').
    rewrite (generateConclusion_ext d
               (mk (<[2%nat := 2]> getDefaultState) "bcrd" ∅ []))
      by (by rewrite ?Hdp, ?Hds, ?Hs').
    vm_compute. done.
Qed.

Lemma setPattern_bcrd_silent_witness :
  generateMotilityReport (setPattern "bcrd" fresh) = Ok "" ∧
  generateConclusion (setPattern "bcrd" fresh) = Ok "".
Proof.
  pose proof (setPattern_bcrd_silent fresh wf_default) as H.
  cbv zeta in H. destruct H as ((_ & _ & _ & Hr & Hc) & _). by split.
Defined.

(** ** Levels of a wall: sorting and removal of repetitions *)

Lemma order_inj (a b : Level) : order a = order b → a = b.
Proof. destruct a, b; simpl; intros; done || lia. Qed.

#[local] Instance level_lt_antisymm : AntiSymm (=) level_lt.
Proof. intros a b. unfold level_lt. lia. Qed.

#[local] Instance level_le_trans : Transitive level_le.
Proof. intros a b d. unfold level_le. lia. Qed.

Lemma insert_level_perm (x : Level) (l : list Level) :
  insert_level x l ≡ₚ x :: l.
Proof.
  induction l as [|y l IH]; [done|]. simpl.
  destruct (order x - order y <? 0); [done|].
  rewrite IH. apply Permutation_swap.
Qed.

Lemma insert_level_sorted (x : Level) (l : list Level) :
  StronglySorted level_le l → StronglySorted level_le (insert_level x l).
Proof.
  induction 1 as [|y l Hl IH Hy]; simpl.
  - repeat constructor.
  - destruct (Z.ltb_spec (order x - order y) 0) as [Hlt|Hge].
    + constructor; [by constructor|].
      constructor; [unfold level_le; lia|].
      eapply Forall_impl; [exact Hy|]. intros z. unfold level_le. lia.
    + constructor; [done|].
      rewrite insert_level_perm. constructor; [unfold level_le; lia|done].
Qed.

Lemma sort_levels_acc (l acc : list Level) :
  StronglySorted level_le acc →
  StronglySorted level_le (foldl (fun acc x => insert_level x acc) acc l) ∧
  foldl (fun acc x => insert_level x acc) acc l ≡ₚ (acc ++ l)%list.
Proof.
  revert acc. induction l as [|x l IH]; intros acc Hacc; simpl.
  - by rewrite app_nil_r.
  - destruct (IH (insert_level x acc) (insert_level_sorted x acc Hacc))
      as [Hs Hp].
    split; [done|]. rewrite Hp, insert_level_perm.
    by rewrite <- Permutation_middle.
Qed.

Lemma sort_levels_sorted (l : list Level) :
  StronglySorted level_le (sort_levels l) ∧ sort_levels l ≡ₚ l.
Proof. apply (sort_levels_acc l []). constructor. Qed.

(** The invariant of the loop that builds the set of levels. *)
Lemma unique_levels_acc (l acc : list Level) :
  StronglySorted level_lt acc → StronglySorted level_le l →
  (∀ a b, a ∈ acc → b ∈ l → level_le a b) →
  let r := foldl (fun acc x => if bool_decide (x ∈ acc) then acc
                               else (acc ++ [x])%list) acc l in
  StronglySorted level_lt r ∧ ∀ x, x ∈ r ↔ x ∈ acc ∨ x ∈ l.
Proof.
  revert acc. induction l as [|x l IH]; intros acc Hacc Hl Hle; simpl.
  - split; [done|]. intros x. rewrite elem_of_nil. tauto.
  - apply StronglySorted_inv in Hl as [Hl Hx].
    destruct (bool_decide_reflect (x ∈ acc)) as [Hin|Hnin].
    + destruct (IH acc Hacc Hl) as [Hs He].
      { intros a b Ha Hb. apply Hle; [done|by right]. }
      split; [done|]. intros y. rewrite He, elem_of_cons.
      split; [tauto|]. intros [?|[->|?]]; tauto.
    + destruct (IH (acc ++ [x])) as [Hs He].
      * apply StronglySorted_app.
        split; [|split; [done|repeat constructor]].
        intros a b Ha Hb. apply list_elem_of_singleton in Hb as ->.
        assert (level_le a x) as Hax by (apply Hle; [done|by left]).
        assert (a ≠ x) as Hne by (by intros ->).
        unfold level_le, level_lt in *.
        assert (order a ≠ order x) by (intros Ho; by apply order_inj in Ho).
        lia.
      * done.
      * intros a b Ha Hb. apply elem_of_app in Ha as [Ha|Ha].
        -- apply Hle; [done|by right].
        -- apply list_elem_of_singleton in Ha as ->.
           rewrite Forall_forall in Hx. by apply Hx.
      * split; [done|]. intros y.
        rewrite He, elem_of_app, !elem_of_cons, elem_of_nil. tauto.
Qed.

Lemma spec_levels_sorted (l : list Level) :
  StronglySorted level_lt (spec_levels l) ∧ ∀ x, x ∈ spec_levels l ↔ x ∈ l.
Proof.
  split.
  - unfold spec_levels. rewrite !filter_cons, filter_nil.
    destruct (decide (basal ∈ l)), (decide (media ∈ l)), (decide (apical ∈ l));
      repeat constructor; unfold level_lt; simpl; lia.
  - intros x. unfold spec_levels. rewrite list_elem_of_filter.
    split; [tauto|]. intros Hx. split; [done|].
    destruct x; repeat constructor.
Qed.

Lemma strictly_sorted_NoDup (l : list Level) :
  StronglySorted level_lt l → NoDup l.
Proof.
  induction 1 as [|x l _ IH Hx]; constructor; [|done].
  intros Hin. rewrite Forall_forall in Hx. specialize (Hx x Hin).
  unfold level_lt in Hx. lia.
Qed.

(** Sorting and then removing repetitions yields the levels present, in
    the order basal, media, apical. *)
Lemma unique_sorted_levels (l : list Level) :
  unique_levels (sort_levels l) = spec_levels l.
Proof.
  destruct (sort_levels_sorted l) as [Hs Hp].
  destruct (unique_levels_acc (sort_levels l) []) as [Hu He];
    [constructor|done|by intros a b Ha; inversion Ha|].
  destruct (spec_levels_sorted l) as [Hs' He'].
  apply (StronglySorted_unique level_lt); [done..|].
  apply NoDup_Permutation; [by apply strictly_sorted_NoDup..|].
  intros x. unfold unique_levels. rewrite He, He', elem_of_nil, Hp. tauto.
Qed.

(** ** Findings text of the focal path *)

Lemma levelsText_spec (l : list Level) :
  l ≠ [] →
  levelsText (spec_levels l) = Some (enumerate_y (level_text <$> spec_levels l)).
Proof.
  intros Hne. unfold spec_levels. rewrite !filter_cons, filter_nil.
  destruct (decide (basal ∈ l)), (decide (media ∈ l)), (decide (apical ∈ l));
    try reflexivity.
  destruct l as [|x l]; [done|]. exfalso.
  destruct x; [apply n | apply n0 | apply n1]; by left.
Qed.

Lemma lower_char_idemp (c : ascii) : Js.lower_char (Js.lower_char c) = Js.lower_char c.
Proof. destruct c as [[] [] [] [] [] [] [] []]; reflexivity. Qed.

Lemma toLowerCase_idemp (s : string) : Js.toLowerCase (Js.toLowerCase s) = Js.toLowerCase s.
Proof.
  induction s as [|c s IH]; [done|]. simpl. by rewrite lower_char_idemp, IH.
Qed.

Lemma formatWallName_lower (wall : string) :
  Js.toLowerCase (formatWallName wall) = formatWallName wall.
Proof.
  unfold formatWallName.
  repeat (destruct (Js.includes _ _); [reflexivity|]).
  apply toLowerCase_idemp.
Qed.

Lemma wallDescription_spec (wall : string) (levels : list Level) :
  levels ≠ [] → wallDescription wall levels = spec_wall (wall, levels).
Proof.
  intros Hne. unfold wallDescription, spec_wall. cbn [fst snd].
  rewrite unique_sorted_levels, (levelsText_spec levels Hne).
  cbn [default]. by rewrite formatWallName_lower.
Qed.

Lemma wallDescText_spec (ws : list string) :
  ws ≠ [] → wallDescText ws = enumerate_y ws.
Proof.
  intros Hne. destruct ws as [|a [|b [|d r]]]; [done|reflexivity..|].
  unfold wallDescText, enumerate_y. cbn [length Nat.eqb].
  destruct (last (a :: b :: d :: r)) eqn:Hlast; [done|].
  by apply last_None in Hlast.
Qed.

Lemma push_level_nonempty (wall : string) (level : Level) (g : Walls) :
  nonempty_walls g → nonempty_walls (push_level wall level g).
Proof.
  induction 1 as [|[w ls] g Hw Hg IH]; simpl.
  - constructor; [done|constructor].
  - destruct (String.eqb w wall).
    + constructor; [|exact Hg]. simpl. by destruct ls.
    + constructor; [exact Hw|exact IH].
Qed.

Lemma classify_ok (ids : list nat) (g : Walls) :
  Forall (fun id => (1 ≤ id ≤ 17)%nat) ids → nonempty_walls g →
  ∃ g', classify ids g = Ok g' ∧ nonempty_walls g'.
Proof.
  intros Hall. revert g. induction Hall as [|id ids Hid _ IH]; intros g Hg.
  - by exists g.
  - destruct (SEGMENTS_known id Hid) as [seg Hseg].
    simpl. unfold getWallName, getLevel. rewrite Hseg. simpl.
    apply IH. by apply push_level_nonempty.
Qed.

Lemma severityClause_spec (tier : string) (walls : Walls) :
  nonempty_walls walls → severityClause tier walls = spec_clause tier walls.
Proof.
  intros Hne. unfold severityClause, spec_clause.
  destruct walls as [|wl walls]; [done|]. cbn [length Nat.eqb].
  rewrite wallDescText_spec by done.
  assert ((fun wl : string * list Level => wallDescription wl.1 wl.2)
            <$> wl :: walls = spec_wall <$> wl :: walls) as Heq.
  { apply list_eq_Forall2, Forall2_fmap, Forall_Forall2_diag.
    eapply Forall_impl; [exact Hne|]. intros [w ls] Hls.
    by apply wallDescription_spec. }
  by rewrite Heq.
Qed.

Lemma ids_with_wf (o : gmap nat Z) (v : Z) :
  wf_state o →
  (filter (fun kv : nat * Z => kv.2 = v) (Object_entries o)).*1 =
  filter (fun id => severity_of o id = v) (seq 1 17).
Proof.
  intros Hwf. rewrite (Object_entries_wf o Hwf).
  exact (filter_entries (fun w => w = v) (severity_of o) (seq 1 17)).
Qed.

Lemma filter_seq_range (P : nat → Prop) `{!∀ id, Decision (P id)} :
  Forall (fun id => (1 ≤ id ≤ 17)%nat) (filter P (seq 1 17)).
Proof.
  apply Forall_forall. intros id Hid.
  apply list_elem_of_filter in Hid as [_ Hid]. apply elem_of_seq in Hid. lia.
Qed.

Lemma focalParts_spec (c : t) :
  wf_state (state c) →
  ∃ aq hi di,
    classify (akinetic (getAbnormalSegments c)) [] = Ok aq ∧
    classify (hypokinetic (getAbnormalSegments c)) [] = Ok hi ∧
    classify (dyskinetic (getAbnormalSegments c)) [] = Ok di ∧
    focalParts (getAbnormalSegments c) =
      Ok (omap id [spec_clause "aquinesia" aq; spec_clause "hipoquinesia" hi;
                   spec_clause "disquinesia" di]).
Proof.
  intros Hwf. unfold getAbnormalSegments, focalParts.
  cbn [akinetic hypokinetic dyskinetic].
  rewrite !(ids_with_wf _ _ Hwf).
  destruct (classify_ok (filter (fun id => severity_of (state c) id = 3) (seq 1 17)) [])
    as (aq & -> & Haq); [apply filter_seq_range|constructor|].
  destruct (classify_ok (filter (fun id => severity_of (state c) id = 2) (seq 1 17)) [])
    as (hi & -> & Hhi); [apply filter_seq_range|constructor|].
  destruct (classify_ok (filter (fun id => severity_of (state c) id = 4) (seq 1 17)) [])
    as (di & -> & Hdi); [apply filter_seq_range|constructor|].
  exists aq, hi, di. repeat split.
  cbn [mbind result_bind omap list_omap fst snd].
  by rewrite !severityClause_spec.
Qed.

(** C3: on a well-formed store, the findings text of the focal path is the
    fixed opening followed by the clauses of the tiers akinetic,
    hypokinetic, dyskinetic in this order, each clause listing its walls
    with their levels free of repetition and in the order basal, media,
    apical, and by the index; in the state where segments 1, 7 and 13 are
    Akinetic and every other segment is Normal the text contains
    "pared anterior (basal, media y apical)" exactly once. *)
Theorem generateMotilityReport_focal (c : t) :
  wf_state (state c) → focal_path c →
  (∃ aq hi di,
     classify (akinetic (getAbnormalSegments c)) [] = Ok aq ∧
     classify (hypokinetic (getAbnormalSegments c)) [] = Ok hi ∧
     classify (dyskinetic (getAbnormalSegments c)) [] = Ok di ∧
     generateMotilityReport c = Ok (spec_focal_text aq hi di (calculateWMSI c))) ∧
  (state c = anterior_akinetic →
   ∃ text,
     generateMotilityReport c = Ok text ∧
     text = "Se observan trastornos segmentarios de la motilidad parietal, con aquinesia de pared anterior (basal, media y apical) (WMSI: 1.35)." +:+ nl ∧
     Js.occurrences "pared anterior (basal, media y apical)" text = 1%nat).
Proof.
  intros Hwf [Htotal Hpat].
  assert (∃ aq hi di,
     classify (akinetic (getAbnormalSegments c)) [] = Ok aq ∧
     classify (hypokinetic (getAbnormalSegments c)) [] = Ok hi ∧
     classify (dyskinetic (getAbnormalSegments c)) [] = Ok di ∧
     generateMotilityReport c = Ok (spec_focal_text aq hi di (calculateWMSI c)))
    as Hgen.
  { destruct (focalParts_spec c Hwf) as (aq & hi & di & Haq & Hhi & Hdi & Hparts).
    exists aq, hi, di. repeat (split; [done|]).
    unfold generateMotilityReport.
    destruct (Nat.eqb_spec (totalAbnormal (getAbnormalSegments c)) 0) as [|_];
      [done|].
    destruct (currentPattern c) as [p|].
    - destruct Hpat as [-> ->]. by rewrite Hparts.
    - by rewrite Hparts. }
  split; [exact Hgen|].
  intros Hstate. destruct Hgen as (aq & hi & di & Haq & Hhi & Hdi & ->).
  rewrite (getAbnormalSegments_ext c (set_state anterior_akinetic fresh)) in Haq, Hhi, Hdi
    by done.
  vm_compute in Haq, Hhi, Hdi.
  injection Haq as <-. injection Hhi as <-. injection Hdi as <-.
  unfold calculateWMSI. rewrite Hstate.
  eexists. split; [reflexivity|]. split; vm_compute; reflexivity.
Qed.

Lemma generateMotilityReport_focal_witness :
  ∃ text,
    generateMotilityReport (set_state anterior_akinetic fresh) = Ok text ∧
    text = "Se observan trastornos segmentarios de la motilidad parietal, con aquinesia de pared anterior (basal, media y apical) (WMSI: 1.35)." +:+ nl ∧
    Js.occurrences "pared anterior (basal, media y apical)" text = 1%nat.
Proof.
  apply (generateMotilityReport_focal (set_state anterior_akinetic fresh)).
  - unfold anterior_akinetic. cbn [state set_state].
    do 3 (apply wf_insert; [|lia]). exact wf_default.
  - split; [vm_compute; lia|vm_compute; exact I].
  - reflexivity.
Defined.

(** ** The numbered conclusions *)

Import UIController.

Lemma contiguous_start : contiguous (mkProgress [] 1).
Proof. split; [|done]. intros k l Hl. simpl in Hl. by rewrite lookup_nil in Hl. Qed.

Lemma contiguous_write (text : string) (p : Progress) :
  contiguous p → contiguous (increment (write text p)).
Proof.
  intros [Hnum Hnext]. split; simpl.
  - intros k l Hl. apply lookup_app_Some in Hl as [Hl|[Hk Hl]].
    + by apply Hnum.
    + apply list_lookup_singleton_Some in Hl as [Hz <-]. simpl. lia.
  - rewrite length_app. simpl. lia.
Qed.

Lemma contiguous_at_most_one (f : Progress → Progress) (p : Progress) :
  at_most_one f → contiguous p → contiguous (f p).
Proof.
  intros Hf Hp. destruct (Hf p) as [->|[text ->]]; [done|].
  by apply contiguous_write.
Qed.

Ltac one_conclusion :=
  intros p;
  repeat match goal with
         | |- context [if ?b then _ else _] => destruct b
         | |- context [match ?o with Some _ => _ | None => _ end] => destruct o
         | |- context [let '(_, _) := ?x in _] => destruct x
         end;
  first [left; reflexivity | right; eexists; reflexivity].

Lemma rhythm_one (i : Inputs) : at_most_one (rhythm i).
Proof. unfold rhythm. one_conclusion. Qed.

Lemma diastolic_one (i : Inputs) : at_most_one (diastolic i).
Proof. unfold diastolic. one_conclusion. Qed.

Lemma leftAtrium_one (i : Inputs) : at_most_one (leftAtrium i).
Proof. unfold leftAtrium. one_conclusion. Qed.

Lemma mitral_one (i : Inputs) : at_most_one (mitral i).
Proof. unfold mitral. cbv zeta. one_conclusion. Qed.

Lemma aortic_one (i : Inputs) : at_most_one (aortic i).
Proof.
  intros p. unfold aortic. cbv zeta.
  destruct (_ || _); [|by left].
  destruct (aorticText i); [|by left].
  right. eexists. reflexivity.
Qed.

Lemma aorta_one (i : Inputs) : at_most_one (aorta i).
Proof.
  intros p. unfold aorta. cbv zeta.
  destruct (nonempty (sc i)); [|by left].
  destruct (0 <? length (aorticDilations i))%nat; [|by left].
  right. eexists. reflexivity.
Qed.

Lemma rightChambers_one (i : Inputs) : at_most_one (rightChambers i).
Proof.
  intros p. unfold rightChambers. cbv zeta.
  destruct (_ || _); [|by left].
  right. eexists. reflexivity.
Qed.

Lemma rightVentricle_one (i : Inputs) (p : Progress) :
  rightVentricle i p = p ∨
  rightVentricle i p = increment (write "Disfunción del ventrículo derecho." p).
Proof. unfold rightVentricle. destruct (JsNum.lt _ _); auto. Qed.

Lemma leftVentricle_one (i : Inputs) (p q : Progress) :
  leftVentricle i p = Ok q → ∃ text, q = increment (write text p).
Proof.
  unfold leftVentricle. intros H.
  destruct (motility i) as [m|]; simpl in H.
  - destruct (generateConclusion m) as [mc|e]; simpl in H; [|done].
    injection H as <-. by eexists.
  - injection H as <-. by eexists.
Qed.

(** The block of the source on pulmonary hypertension writes the sentence
    of the specification. *)
Lemma pulmonaryHypertension_spec (i : Inputs) (p : Progress) :
  pulmonaryHypertension i p =
  match psapSentence (psap i) with
  | Some s => increment (write s p)
  | None => p
  end.
Proof.
  unfold pulmonaryHypertension, psapSentence.
  destruct (Z.gtb_spec (psap i) 0); [|by rewrite decide_True by lia].
  rewrite decide_False by lia.
  destruct (Z.leb_spec (psap i) 35); [by rewrite decide_True by lia|].
  rewrite decide_False by lia.
  destruct (Z.leb_spec (psap i) 45); [by rewrite decide_True by lia|].
  by rewrite decide_False by lia.
Qed.

Lemma conclusionsBeforePsap_contiguous (i : Inputs) (p : Progress) :
  conclusionsBeforePsap i = Ok p → contiguous p.
Proof.
  unfold conclusionsBeforePsap. intros H.
  destruct (leftVentricle i (rhythm i (mkProgress [] 1))) as [q|e] eqn:Hlv;
    simpl in H; [|done].
  injection H as <-.
  apply leftVentricle_one in Hlv as [text ->].
  apply contiguous_at_most_one; [apply rightChambers_one|].
  apply contiguous_at_most_one; [apply aorta_one|].
  apply contiguous_at_most_one; [apply aortic_one|].
  apply contiguous_at_most_one; [apply mitral_one|].
  apply contiguous_at_most_one; [apply leftAtrium_one|].
  apply contiguous_at_most_one; [apply diastolic_one|].
  apply contiguous_write.
  apply contiguous_at_most_one; [apply rhythm_one|].
  apply contiguous_start.
Qed.

Lemma calculatePSAP_kept (history : list (string * string)) (st : Z) :
  Forall (fun f => noVelocity (JsNum.parseFloat f.1) = true) history →
  foldl (fun st f => calculatePSAP f.1 f.2 st) st history = st.
Proof.
  intros Hall. revert st.
  induction Hall as [|f history Hf _ IH]; intros st; [done|].
  cbn [foldl]. rewrite IH. unfold calculatePSAP. cbv zeta. by rewrite Hf.
Qed.

Lemma psapAfter_never (history : list (string * string)) :
  Forall (fun f => noVelocity (JsNum.parseFloat f.1) = true) history →
  psapAfter history = 0.
Proof. apply calculatePSAP_kept. Qed.

(** Without a usable velocity [calculatePSAP] keeps the pressure that an
    earlier recalculation stored. *)
Remark calculatePSAP_keeps_stored_value :
  calculatePSAP "3" "" 0 = 41 ∧ calculatePSAP "" "" 41 = 41.
Proof. vm_compute. done. Qed.

Lemma psapAfter_last (history : list (string * string)) (f : string * string) :
  noVelocity (JsNum.parseFloat f.1) = true →
  psapAfter (history ++ [f]) = psapAfter history.
Proof.
  intros Hf. unfold psapAfter. rewrite foldl_app. cbn [foldl].
  unfold calculatePSAP at 1. cbv zeta. by rewrite Hf.
Qed.

(** X24: in the list of conclusions every line carries the number of its
    position (1, 2, 3, ...), whatever is skipped; the lines written before
    the sentence on pulmonary hypertension do not depend on the pressure;
    that sentence is decided by the pressure that the state of the page
    holds: it is absent when that pressure is 0 (or not positive), as it
    is while no usable velocity was ever entered; for a positive
    pressure it is the single line that follows, with low suspicion up
    to 35, intermediate suspicion up to 45 (so for 40) and the overt
    wording above (so for 70).  A recalculation without a usable
    velocity leaves the stored pressure as it was, so the sentence is
    then the one of the pressure stored before. *)
Theorem conclusions_psap (i : Inputs) (p : Progress) :
  conclusions i = Ok p →
  contiguous p ∧
  ∃ before ph rv,
    (∀ v, conclusionsBeforePsap (with_psap v i) = Ok before) ∧
    lines p = lines before ++ ph ++ rv ∧
    (rv = [] ∨
     rv = [mkLine (Z.of_nat (length (lines before ++ ph)) + 1)
                  "Disfunción del ventrículo derecho."]) ∧
    ph = match psapSentence (psap i) with
         | Some s => [mkLine (Z.of_nat (length (lines before)) + 1) s]
         | None => []
         end ∧
    (psap i ≤ 0 → ph = []) ∧
    (∀ history,
       Forall (fun f => noVelocity (JsNum.parseFloat f.1) = true) history →
       psap i = psapAfter history → ph = []) ∧
    (∀ history f,
       noVelocity (JsNum.parseFloat f.1) = true →
       psap i = psapAfter (history ++ [f]) →
       ph = match psapSentence (psapAfter history) with
            | Some s => [mkLine (Z.of_nat (length (lines before)) + 1) s]
            | None => []
            end) ∧
    (0 < psap i ≤ 35 →
       sentence <$> ph = ["Grado de sospecha de Hipertensión pulmonar: Baja."]) ∧
    (psap i = 40 →
       sentence <$> ph =
       ["Grado de sospecha de Hipertensión pulmonar: Intermedia (PSAP 40 mmHg)."]) ∧
    (psap i = 70 →
       sentence <$> ph = ["Signos de Hipertensión pulmonar (PSAP 70 mmHg)."]).
Proof.
  unfold conclusions. intros H.
  destruct (conclusionsBeforePsap i) as [before|e] eqn:Hbefore; simpl in H; [|done].
  injection H as <-.
  pose proof (conclusionsBeforePsap_contiguous i before Hbefore) as Hcb.
  assert (contiguous (pulmonaryHypertension i before)) as Hcp.
  { rewrite pulmonaryHypertension_spec.
    destruct (psapSentence (psap i)); [by apply contiguous_write|done]. }
  split.
  { destruct (rightVentricle_one i (pulmonaryHypertension i before)) as [->| ->];
      [done|by apply contiguous_write]. }
  exists before,
    (match psapSentence (psap i) with
     | Some s => [mkLine (Z.of_nat (length (lines before)) + 1) s]
     | None => []
     end).
  assert (lines (pulmonaryHypertension i before) =
          lines before ++
          match psapSentence (psap i) with
          | Some s => [mkLine (Z.of_nat (length (lines before)) + 1) s]
          | None => []
          end) as Hph.
  { rewrite pulmonaryHypertension_spec. destruct Hcb as [_ Hnext].
    destruct (psapSentence (psap i)); simpl; [by rewrite Hnext|].
    by rewrite app_nil_r. }
  destruct (rightVentricle_one i (pulmonaryHypertension i before)) as [Hrv|Hrv].
  - exists []. rewrite Hrv, Hph, app_nil_r.
    split; [by destruct i|]. split; [done|]. split; [by left|]. split; [done|].
    unfold psapSentence.
    split; [by intros ?; rewrite decide_True|].
    split; [intros history Hh Hp;
            rewrite Hp, (psapAfter_never history Hh); by rewrite decide_True|].
    split; [intros history f Hf Hp; by rewrite Hp, (psapAfter_last history f Hf)|].
    split; [intros ?; rewrite decide_False, decide_True by lia; done|].
    split; intros ->; reflexivity.
  - exists [mkLine (conclusionNum (pulmonaryHypertension i before))
                   "Disfunción del ventrículo derecho."].
    rewrite Hrv. simpl lines. rewrite Hph, <- app_assoc.
    split; [by destruct i|]. split; [done|].
    split.
    { right. destruct Hcp as [_ Hnext]. by rewrite Hnext, Hph. }
    split; [done|].
    unfold psapSentence.
    split; [by intros ?; rewrite decide_True|].
    split; [intros history Hh Hp;
            rewrite Hp, (psapAfter_never history Hh); by rewrite decide_True|].
    split; [intros history f Hf Hp; by rewrite Hp, (psapAfter_last history f Hf)|].
    split; [intros ?; rewrite decide_False, decide_True by lia; done|].
    split; intros ->; reflexivity.
Qed.

Lemma conclusions_psap_witness :
  ∃ p, conclusions (normalStudy 0) = Ok p ∧ contiguous p.
Proof.
  assert (conclusions (normalStudy 0) =
          Ok (mkProgress
                [mkLine 1 "Ritmo sinusal.";
                 mkLine 2 "Ventrículo izquierdo de diámetros y espesores conservados, con geometría ventricular normal.Función sistólica del VI conservada.";
                 mkLine 3 "Función Diastólica Normal. PFDVI Normales.";
                 mkLine 4 "Aurícula izquierda de dimensiones conservadas."] 5))
    as H by (vm_compute; reflexivity).
  eexists. split; [exact H|].
  apply (conclusions_psap (normalStudy 0) _ H).
Defined.

(** C7: the velocity 4 is entered, which stores the pressure 69; the
    field of the velocity is then emptied.  The recalculation finds no
    usable velocity and returns before it touches the state, which
    still holds 69; the report generated then carries the sentence on
    pulmonary hypertension with that pressure, as its fifth conclusion. *)
Theorem conclusions_psap_stale :
  noVelocity (JsNum.parseFloat "") = true ∧
  calculatePSAP "4" "" 0 = 69 ∧
  calculatePSAP "" "" 69 = 69 ∧
  psapAfter [("4", ""); ("", "")] = 69 ∧
  generateReport (Some (mkQcFields "normal" "" "" "" ""))
    (normalStudy (psapAfter [("4", ""); ("", "")])) =
  Some (Ok (mkProgress
              [mkLine 1 "Ritmo sinusal.";
               mkLine 2 "Ventrículo izquierdo de diámetros y espesores conservados, con geometría ventricular normal.Función sistólica del VI conservada.";
               mkLine 3 "Función Diastólica Normal. PFDVI Normales.";
               mkLine 4 "Aurícula izquierda de dimensiones conservadas.";
               mkLine 5 "Signos de Hipertensión pulmonar (PSAP 69 mmHg)."] 6)).
Proof. vm_compute. done. Qed.

(** ** Merge of the motility conclusion *)

Lemma str_app_cons (c : ascii) (s t : string) :
  String c s +:+ t = String c (s +:+ t).
Proof. reflexivity. Qed.

Lemma str_app_nil_r (s : string) : s +:+ "" = s.
Proof. induction s as [|c s IH]; [done|]. by rewrite str_app_cons, IH. Qed.

Lemma str_app_assoc (s t u : string) : (s +:+ t) +:+ u = s +:+ (t +:+ u).
Proof. induction s as [|c s IH]; [done|]. by rewrite !str_app_cons, IH. Qed.

Lemma str_app_length (s t : string) :
  String.length (s +:+ t) = (String.length s + String.length t)%nat.
Proof. induction s as [|c s IH]; [done|]. rewrite str_app_cons. simpl. by rewrite IH. Qed.

Lemma lower_length (s : string) : String.length (Js.toLowerCase s) = String.length s.
Proof. induction s as [|c s IH]; [done|]. simpl. by rewrite IH. Qed.

Lemma lower_word_char (c : ascii) :
  is_word_char (Js.lower_char c) = is_word_char c.
Proof. destruct c as [[] [] [] [] [] [] [] []]; reflexivity. Qed.

Lemma lower_app (s t : string) :
  Js.toLowerCase (s +:+ t) = Js.toLowerCase s +:+ Js.toLowerCase t.
Proof.
  induction s as [|c s IH]; [done|]. rewrite str_app_cons. simpl.
  by rewrite IH, str_app_cons.
Qed.

(** *** Words *)

Lemma word_split (s : string) : s = word_prefix s +:+ word_rest s.
Proof.
  induction s as [|c s IH]; [done|]. simpl.
  destruct (is_word_char c); [|done]. by rewrite str_app_cons, <- IH.
Qed.

Lemma word_prefix_all (s : string) : all_word (word_prefix s) = true.
Proof.
  induction s as [|c s IH]; [done|]. simpl.
  destruct (is_word_char c) eqn:Hc; [|done]. simpl. by rewrite Hc, IH.
Qed.

Lemma word_rest_head (s : string) (c : ascii) (r : string) :
  word_rest s = String c r → is_word_char c = false.
Proof.
  induction s as [|a s IH]; [done|]. simpl.
  destruct (is_word_char a) eqn:Ha; [done|]. by intros [= <- _].
Qed.

Lemma word_rest_length (s : string) :
  (String.length (word_rest s) ≤ String.length s)%nat.
Proof.
  induction s as [|a s IH]; [done|]. simpl.
  destruct (is_word_char a); simpl; lia.
Qed.

Lemma word_rest_tail_length (s : string) (c : ascii) (r : string) :
  word_rest s = String c r → (String.length r < String.length s)%nat.
Proof.
  intros H. pose proof (word_rest_length s) as Hl. rewrite H in Hl. simpl in Hl. lia.
Qed.

Lemma word_prefix_rest (s : string) : word_prefix (word_rest s) = "".
Proof.
  induction s as [|a s IH]; [done|]. simpl.
  destruct (is_word_char a) eqn:Ha; [done|]. simpl. by rewrite Ha.
Qed.

Lemma word_rest_rest (s : string) : word_rest (word_rest s) = word_rest s.
Proof.
  induction s as [|a s IH]; [done|]. simpl.
  destruct (is_word_char a) eqn:Ha; [done|]. simpl. by rewrite Ha.
Qed.

Lemma slice_word_prefix (s : string) :
  Js.slice_from (String.length (word_prefix s)) s = word_rest s.
Proof.
  induction s as [|a s IH]; [done|]. simpl.
  destruct (is_word_char a); [|done]. by simpl.
Qed.

Lemma map_words_go_app (f : string → string) (y cur t : string) :
  all_word y = true →
  map_words_go f cur (y +:+ t) = map_words_go f (cur +:+ y) t.
Proof.
  revert cur. induction y as [|c y IH]; intros cur Hy.
  - by rewrite str_app_nil_r.
  - simpl in Hy. apply andb_prop in Hy as [Hc Hy].
    rewrite str_app_cons. simpl. rewrite Hc, IH by done.
    by rewrite str_app_assoc.
Qed.

(** A text is mapped word by word: the first word, the separator that
    follows it, then the remainder. *)
Lemma map_words_span (f : string → string) (s : string) :
  map_words f s =
  f (word_prefix s) +:+
  match word_rest s with
  | String c r => String c (map_words f r)
  | EmptyString => EmptyString
  end.
Proof.
  unfold map_words. rewrite (word_split s) at 1.
  rewrite map_words_go_app by apply word_prefix_all.
  change ("" +:+ word_prefix s) with (word_prefix s).
  destruct (word_rest s) as [|c r] eqn:Hrest.
  - simpl. by rewrite str_app_nil_r.
  - simpl. by rewrite (word_rest_head s c r Hrest).
Qed.

(** *** The scan of one replacement *)

Section Scan.

Variables w canon : string.
Hypothesis w_nonempty : w ≠ "".
Hypothesis w_word : all_word w = true.

Lemma scan_copy (s : string) :
  replace_word_go w canon true O s =
  word_prefix s +:+
  match word_rest s with
  | String c r => String c (replace_word_go w canon false O r)
  | EmptyString => EmptyString
  end.
Proof.
  induction s as [|c s IH]; [done|]. simpl.
  destruct (is_word_char c) eqn:Hc.
  - by rewrite IH, str_app_cons.
  - done.
Qed.

Lemma scan_skip (k : nat) (s : string) :
  replace_word_go w canon true k s =
  replace_word_go w canon true O (Js.slice_from k s).
Proof.
  revert s. induction k as [|k IH]; intros s; [by destruct s|].
  destruct s as [|c s]; [done|]. simpl. apply IH.
Qed.

Lemma prefix_cons (a b : ascii) (s t : string) :
  String.prefix (String a s) (String b t) = Ascii.eqb a b && String.prefix s t.
Proof.
  simpl. destruct (ascii_dec a b) as [->|Hne].
  - by rewrite Ascii.eqb_refl.
  - apply Ascii.eqb_neq in Hne. by rewrite Hne.
Qed.

Lemma word_here_head (v s : string) :
  all_word v = true →
  (String.prefix v (Js.toLowerCase s) &&
   match Js.slice_from (String.length v) s with
   | String c _ => negb (is_word_char c)
   | EmptyString => true
   end) = String.eqb (Js.toLowerCase (word_prefix s)) v.
Proof.
  revert s. induction v as [|a v IH]; intros s Hv.
  - destruct s as [|c s]; [done|]. simpl.
    destruct (is_word_char c); done.
  - simpl in Hv. apply andb_prop in Hv as [Ha Hv].
    destruct s as [|c s]; [done|].
    change (Js.toLowerCase (String c s))
      with (String (Js.lower_char c) (Js.toLowerCase s)).
    rewrite prefix_cons.
    change (Js.slice_from (String.length (String a v)) (String c s))
      with (Js.slice_from (String.length v) s).
    rewrite <- andb_assoc, (IH s Hv).
    change (word_prefix (String c s))
      with (if is_word_char c then String c (word_prefix s) else "").
    destruct (is_word_char c) eqn:Hc.
    + simpl. by rewrite Ascii.eqb_sym.
    + simpl. destruct (Ascii.eqb_spec a (Js.lower_char c)) as [->|]; [|done].
      by rewrite lower_word_char, Hc in Ha.
Qed.

Lemma word_here_spec (s : string) :
  word_here w s = String.eqb (Js.toLowerCase (word_prefix s)) w.
Proof. apply word_here_head, w_word. Qed.

Lemma canonical1_nil : canonical1 w canon "" = "".
Proof.
  unfold canonical1. destruct (String.eqb_spec (Js.toLowerCase "") w) as [H|]; [|done].
  by destruct w_nonempty.
Qed.

Lemma scan_words_bounded (n : nat) (s : string) :
  (String.length s ≤ n)%nat →
  replace_word_go w canon false O s = map_words (canonical1 w canon) s.
Proof.
  revert s. induction n as [|n IH]; intros s Hn.
  { destruct s; [|simpl in Hn; lia]. unfold map_words. simpl.
    by rewrite canonical1_nil. }
  destruct s as [|c r].
  { unfold map_words. simpl. by rewrite canonical1_nil. }
  rewrite map_words_span.
  assert (∀ c' r', word_rest (String c r) = String c' r' →
          replace_word_go w canon false O r' = map_words (canonical1 w canon) r')
    as IHrest.
  { intros c' r' Hr. apply IH. apply word_rest_tail_length in Hr. lia. }
  cbn [replace_word_go negb andb]. rewrite word_here_spec.
  unfold canonical1 at 1.
  destruct (String.eqb_spec (Js.toLowerCase (word_prefix (String c r))) w)
    as [Hw|Hw].
  - assert (is_word_char c = true) as Hc.
    { destruct (is_word_char c) eqn:Hc; [done|].
      simpl in Hw. rewrite Hc in Hw. by destruct w_nonempty. }
    assert (String.length w = S (String.length (word_prefix r))) as Hlen.
    { rewrite <- Hw, lower_length. simpl. by rewrite Hc. }
    rewrite Hlen. cbn [Nat.sub]. rewrite Nat.sub_0_r.
    rewrite scan_skip, slice_word_prefix, scan_copy.
    rewrite word_prefix_rest, word_rest_rest.
    f_equal. simpl in IHrest |- *. rewrite Hc in IHrest |- *.
    destruct (word_rest r) as [|c' r']; [done|].
    by rewrite (IHrest c' r').
  - destruct (is_word_char c) eqn:Hc.
    + rewrite scan_copy. simpl. rewrite Hc. simpl in IHrest. rewrite Hc in IHrest.
      rewrite str_app_cons. do 2 f_equal.
      destruct (word_rest r) as [|c' r']; [done|].
      by rewrite (IHrest c' r').
    + simpl. rewrite Hc. simpl in IHrest. rewrite Hc in IHrest.
      by rewrite (IHrest c r).
Qed.

(** One replacement maps every whole word through [canonical1]. *)
Lemma replace_word_words (s : string) :
  replace_word w canon s = map_words (canonical1 w canon) s.
Proof. apply (scan_words_bounded (String.length s)). lia. Qed.

End Scan.

(** *** The four replacements together *)

Lemma map_words_go_ext (f g : string → string) (s cur : string) :
  (∀ x, f x = g x) → map_words_go f cur s = map_words_go g cur s.
Proof.
  intros Hfg. revert cur. induction s as [|c s IH]; intros cur; simpl.
  - apply Hfg.
  - destruct (is_word_char c); [apply IH|]. by rewrite Hfg, IH.
Qed.

Lemma map_words_compose_bounded (f g : string → string) (n : nat) (s : string) :
  (∀ x, all_word x = true → all_word (f x) = true) →
  (String.length s ≤ n)%nat →
  map_words g (map_words f s) = map_words (fun x => g (f x)) s.
Proof.
  intros Hf. revert s.
  assert (∀ s, (∀ c r, word_rest s = String c r →
                  map_words g (map_words f r) = map_words (fun x => g (f x)) r) →
               map_words g (map_words f s) = map_words (fun x => g (f x)) s)
    as Hstep.
  { intros s IH.
    rewrite (map_words_span f s), (map_words_span (fun x => g (f x)) s).
    unfold map_words at 1.
    rewrite map_words_go_app by apply Hf, word_prefix_all.
    change ("" +:+ f (word_prefix s)) with (f (word_prefix s)).
    destruct (word_rest s) as [|c r] eqn:Hrest;
      [simpl; by rewrite str_app_nil_r|].
    simpl. rewrite (word_rest_head s c r Hrest).
    do 2 f_equal. by apply (IH c r). }
  induction n as [|n IH]; intros s Hn; apply Hstep; intros c r Hrest;
    apply word_rest_tail_length in Hrest.
  - lia.
  - apply IH. lia.
Qed.

Lemma map_words_compose (f g : string → string) (s : string) :
  (∀ x, all_word x = true → all_word (f x) = true) →
  map_words g (map_words f s) = map_words (fun x => g (f x)) s.
Proof. intros Hf. by apply (map_words_compose_bounded f g (String.length s)). Qed.

Lemma canonical1_word (w canon x : string) :
  all_word canon = true → all_word x = true →
  all_word (canonical1 w canon x) = true.
Proof. intros Hc Hx. unfold canonical1. by destruct (String.eqb _ _). Qed.

Lemma canonical_steps (x : string) :
  canonical1 "wmsi" "WMSI"
    (canonical1 "cx" "Cx" (canonical1 "cd" "CD" (canonical1 "da" "DA" x))) =
  canonical x.
Proof.
  unfold canonical. cbv zeta. unfold canonical1 at 4.
  destruct (String.eqb (Js.toLowerCase x) "da"); [reflexivity|].
  unfold canonical1 at 3.
  destruct (String.eqb (Js.toLowerCase x) "cd"); [reflexivity|].
  unfold canonical1 at 2.
  destruct (String.eqb (Js.toLowerCase x) "cx"); [reflexivity|].
  reflexivity.
Qed.

(** The regular-expression replacements put every whole word that is one
    of the protected acronyms, in any casing, in its canonical casing and
    leave every other word and every separator as they are. *)
Lemma restoreAcronyms_words (s : string) :
  restoreAcronyms s = map_words canonical s.
Proof.
  unfold restoreAcronyms.
  rewrite (replace_word_words "da" "DA") by done.
  rewrite (replace_word_words "cd" "CD") by done.
  rewrite (replace_word_words "cx" "Cx") by done.
  rewrite (replace_word_words "wmsi" "WMSI") by done.
  rewrite !map_words_compose by (intros x; by apply canonical1_word).
  apply map_words_go_ext. intros x. apply canonical_steps.
Qed.

(** *** Trailing period and conjunction *)

Lemma slice_from_all (s : string) : Js.slice_from (String.length s) s = "".
Proof. induction s as [|c s IH]; [done|]. by simpl. Qed.

Lemma endsWith_cons (c a : ascii) (s : string) :
  Js.endsWith (String c (String a s)) "." = Js.endsWith (String a s) ".".
Proof.
  unfold Js.endsWith. cbn [String.length Nat.leb Nat.sub].
  rewrite !Nat.sub_0_r. reflexivity.
Qed.

Lemma endsWith_dot (s : string) :
  Js.endsWith s "." = true → s = dropLast s +:+ ".".
Proof.
  induction s as [|c s IH]; [done|].
  destruct s as [|a s].
  - unfold Js.endsWith. simpl.
    destruct (Ascii.eqb_spec c "."%char) as [->|]; done.
  - rewrite endsWith_cons. intros H.
    change (dropLast (String c (String a s))) with (String c (dropLast (String a s))).
    rewrite str_app_cons. f_equal. by apply IH.
Qed.

Lemma endsWith_app_dot (b : string) : Js.endsWith (b +:+ ".") "." = true.
Proof.
  induction b as [|c b IH]; [done|].
  rewrite str_app_cons.
  destruct (b +:+ ".") as [|a r] eqn:Hb; [by destruct b|].
  by rewrite endsWith_cons.
Qed.

Lemma endsWith_no_dot (s : string) :
  Js.endsWith s "." = false → ∀ b, s ≠ b +:+ ".".
Proof. intros H b ->. by rewrite endsWith_app_dot in H. Qed.

Lemma prefix_iff (p s : string) :
  String.prefix p s = true ↔ ∃ r, s = p +:+ r.
Proof.
  revert s. induction p as [|a p IH]; intros s.
  - split; [intros _; by exists s|]. by destruct s.
  - destruct s as [|b s].
    + split; [done|]. by intros [r Hr].
    + rewrite prefix_cons, andb_true_iff, IH. split.
      * intros [Hab [r ->]]. apply Ascii.eqb_eq in Hab as ->. by exists r.
      * intros [r Hr]. rewrite str_app_cons in Hr. injection Hr as -> ->.
        split; [apply Ascii.eqb_refl|by exists r].
Qed.

Lemma startsWith_begins (word p : string) :
  Js.startsWith (Js.Unicode.toLowerCase word) p = true ↔ begins_with p word.
Proof. unfold Js.startsWith, begins_with. apply prefix_iff. Qed.

(** *** Characters of a text *)

Lemma uncons_ascii (c : ascii) (r : string) :
  (nat_of_ascii c < 128)%nat →
  Js.Unicode.uncons (String c r) =
  Some (Js.Unicode.byte c, String c EmptyString, r).
Proof.
  intros Hc. unfold Js.Unicode.uncons. cbv zeta.
  assert ((Js.Unicode.byte c <? 128) = true) as ->; [|done].
  apply Z.ltb_lt. unfold Js.Unicode.byte. lia.
Qed.

Lemma lower_text_ascii (c : ascii) :
  (nat_of_ascii c < 128)%nat →
  Js.Unicode.lower_text (Js.Unicode.byte c) (String c EmptyString) =
  String (Js.lower_char c) EmptyString.
Proof.
  destruct c as [b0 b1 b2 b3 b4 b5 b6 [] ].
  - intros H. exfalso. revert H.
    destruct b0, b1, b2, b3, b4, b5, b6; vm_compute; lia.
  - intros _. destruct b0, b1, b2, b3, b4, b5, b6; vm_compute; reflexivity.
Qed.

Lemma lower_char_cases (c : ascii) :
  Js.lower_char c =
  if (65 <=? nat_of_ascii c)%nat && (nat_of_ascii c <=? 90)%nat
  then ascii_of_nat (nat_of_ascii c + 32) else c.
Proof. reflexivity. Qed.

Lemma lowerFirst_ascii (c : ascii) (r : string) :
  (nat_of_ascii c < 128)%nat →
  Js.Unicode.lowerFirst (String c r) = String (Js.lower_char c) r.
Proof.
  intros Hc. unfold Js.Unicode.lowerFirst. rewrite (uncons_ascii c r Hc).
  assert ((Js.Unicode.byte c <? 65536) = true) as ->.
  { apply Z.ltb_lt. unfold Js.Unicode.byte. lia. }
  by rewrite (lower_text_ascii c Hc).
Qed.

Lemma lowerFirst_latin1 (b : ascii) (r : string) :
  (128 ≤ nat_of_ascii b ≤ 158)%nat → nat_of_ascii b ≠ 151%nat →
  Js.Unicode.lowerFirst (String (ascii_of_nat 195) (String b r)) =
  String (ascii_of_nat 195) (String (ascii_of_nat (nat_of_ascii b + 32)) r).
Proof.
  intros Hb Hx. unfold Js.Unicode.lowerFirst.
  destruct b as [b0 b1 b2 b3 b4 b5 b6 b7].
  destruct b0, b1, b2, b3, b4, b5, b6, b7;
    first [ exfalso; revert Hb Hx; vm_compute; lia
          | vm_compute; reflexivity ].
Qed.

Lemma first_letter_lowered_spec (body : string) :
  first_letter_lowered body (Js.Unicode.lowerFirst body).
Proof.
  split; [|split].
  - unfold Js.Unicode.lowerFirst.
    by destruct (Js.Unicode.uncons body) as [ [ [cp bytes] rest]|].
  - intros c rest -> Hc. rewrite (lowerFirst_ascii c rest Hc).
    by rewrite lower_char_cases.
  - intros b rest -> Hb Hx. by apply lowerFirst_latin1.
Qed.

Lemma lower_go_ascii (s : string) :
  ascii_text s = true →
  Js.Unicode.lower_go (String.length s) s = Js.toLowerCase s.
Proof.
  induction s as [|c s IH]; [done|].
  cbn [ascii_text]. intros H. apply andb_prop in H as [Hc Hs].
  apply Nat.ltb_lt in Hc.
  cbn [String.length Js.Unicode.lower_go Js.toLowerCase].
  rewrite (uncons_ascii c s Hc), (lower_text_ascii c Hc), IH by done.
  reflexivity.
Qed.

Lemma toLowerCase_ascii (s : string) :
  ascii_text s = true → Js.Unicode.toLowerCase s = Js.toLowerCase s.
Proof. apply lower_go_ascii. Qed.

(** *** The first word *)

Lemma includes_cons (c : ascii) (s : string) :
  Js.includes (String c s) " " =
  (nat_of_ascii c =? 32)%nat || Js.includes s " ".
Proof.
  cbn [Js.includes String.prefix].
  destruct c as [b0 b1 b2 b3 b4 b5 b6 b7].
  destruct b0, b1, b2, b3, b4, b5, b6, b7; try reflexivity.
  by destruct s.
Qed.

Lemma includes_space (s : string) :
  Js.includes s " " = false ↔ ∀ a b, s ≠ a +:+ " " +:+ b.
Proof.
  induction s as [|c s IH].
  - split; [|done]. intros _ [|x a] b; done.
  - rewrite includes_cons. split.
    + intros H. apply orb_false_elim in H as [Hc Hs].
      apply Nat.eqb_neq in Hc.
      intros [|x a] b Heq.
      * injection Heq as -> _. by apply Hc.
      * rewrite str_app_cons in Heq. injection Heq as _ Heq.
        by apply (proj1 IH Hs a b).
    + intros H. apply orb_false_intro.
      * apply Nat.eqb_neq. intros Hc. apply (H "" s).
        assert (c = " "%char) as ->; [|done].
        rewrite <- (ascii_nat_embedding c), Hc. reflexivity.
      * apply IH. intros a b ->. apply (H (String c a) b).
        by rewrite str_app_cons.
Qed.

Lemma firstWord_includes (clause : string) :
  Js.includes (firstWord clause) " " = false ∧
  (clause = firstWord clause ∨ ∃ t, clause = firstWord clause +:+ " " +:+ t).
Proof.
  induction clause as [|c s [IH1 IH2] ]; [split; [done|by left]|].
  cbn [firstWord].
  destruct (nat_of_ascii c =? 32)%nat eqn:Hc.
  - split; [done|]. right. exists s.
    apply Nat.eqb_eq in Hc.
    assert (c = " "%char) as ->; [|done].
    rewrite <- (ascii_nat_embedding c), Hc. reflexivity.
  - split.
    + by rewrite includes_cons, Hc.
    + destruct IH2 as [IH2 | [t IH2] ].
      * left. by rewrite <- IH2.
      * right. exists t. rewrite str_app_cons. by rewrite <- IH2.
Qed.

Lemma firstWord_spec (clause : string) :
  first_word_of clause (firstWord clause).
Proof.
  destruct (firstWord_includes clause) as [H1 H2].
  split; [by apply includes_space|done].
Qed.

Lemma firstWord_ascii (word : string) :
  Js.includes word " " = false → firstWord word = word.
Proof.
  induction word as [|c s IH]; [done|].
  rewrite includes_cons. intros H. apply orb_false_elim in H as [Hc Hs].
  cbn [firstWord]. by rewrite Hc, IH.
Qed.

Lemma first_word_unique (clause w : string) :
  first_word_of clause w → w = firstWord clause.
Proof.
  intros [Hw H]. apply includes_space in Hw. revert H.
  intros [-> | [t ->] ]; [by rewrite firstWord_ascii|].
  induction w as [|c s IH]; [done|].
  rewrite includes_cons in Hw. apply orb_false_elim in Hw as [Hc Hs].
  rewrite str_app_cons. cbn [firstWord]. rewrite Hc. f_equal. by apply IH.
Qed.

(** *** The conjunction *)

Lemma conjunction_spec (clause : string) :
  (euphonic (firstWord clause) → conjunction clause = "e") ∧
  (¬ euphonic (firstWord clause) → conjunction clause = "y").
Proof.
  unfold conjunction, euphonic. cbv zeta.
  pose proof (startsWith_begins (firstWord clause) "i") as Hi.
  pose proof (startsWith_begins (firstWord clause) "hi") as Hhi.
  pose proof (startsWith_begins (firstWord clause) "hie") as Hhie.
  destruct (Js.startsWith (Js.Unicode.toLowerCase (firstWord clause)) "i");
    destruct (Js.startsWith (Js.Unicode.toLowerCase (firstWord clause)) "hi");
    destruct (Js.startsWith (Js.Unicode.toLowerCase (firstWord clause)) "hie");
    simpl; split; try done; intros H; exfalso;
    (apply H || destruct H as [H|[H1 H2]]); intuition congruence.
Qed.

Lemma lower_is (c : ascii) (small : nat) :
  (97 ≤ small ≤ 122)%nat →
  Ascii.eqb (ascii_of_nat small) (Js.lower_char c) =
  (nat_of_ascii c =? small)%nat || (nat_of_ascii c =? small - 32)%nat.
Proof.
  intros Hs. rewrite lower_char_cases.
  destruct ((65 <=? nat_of_ascii c)%nat && (nat_of_ascii c <=? 90)%nat) eqn:Hu.
  - apply andb_prop in Hu as [H1 H2].
    apply Nat.leb_le in H1. apply Nat.leb_le in H2.
    assert ((nat_of_ascii c =? small)%nat = false) as -> by (apply Nat.eqb_neq; lia).
    cbn [orb].
    destruct (Nat.eqb_spec (nat_of_ascii c) (small - 32)) as [He|He].
    + apply Ascii.eqb_eq. f_equal. lia.
    + apply Ascii.eqb_neq. intros Heq.
      apply (f_equal nat_of_ascii) in Heq.
      rewrite !nat_ascii_embedding in Heq by lia. lia.
  - assert ((nat_of_ascii c =? small - 32)%nat = false) as ->.
    { apply Nat.eqb_neq. intros He. rewrite He in Hu.
      apply andb_false_elim in Hu as [Hu|Hu];
        [apply Nat.leb_gt in Hu | apply Nat.leb_gt in Hu]; lia. }
    rewrite orb_false_r.
    destruct (Nat.eqb_spec (nat_of_ascii c) small) as [He|He].
    + apply Ascii.eqb_eq. by rewrite <- He, ascii_nat_embedding.
    + apply Ascii.eqb_neq. intros Heq. apply He.
      rewrite <- Heq. rewrite nat_ascii_embedding; lia.
Qed.

Lemma prefix_nil (s : string) : String.prefix "" s = true.
Proof. by destruct s. Qed.

Lemma conjunction_ascii (clause : string) :
  ascii_text (firstWord clause) = true →
  conjunction clause = if euphonic_ascii (firstWord clause) then "e" else "y".
Proof.
  intros Ha. unfold conjunction. cbv zeta.
  rewrite (toLowerCase_ascii _ Ha).
  unfold Js.startsWith, euphonic_ascii. cbv zeta beta.
  destruct (firstWord clause) as [|c1 [|c2 [|c3 r3] ] ];
    cbn [Js.toLowerCase]; rewrite ?prefix_cons, ?prefix_nil; cbn [String.prefix];
    rewrite <- ?lower_is by lia;
    change (ascii_of_nat 105) with "i"%char;
    change (ascii_of_nat 104) with "h"%char;
    change (ascii_of_nat 101) with "e"%char;
    repeat match goal with
           | |- context [Ascii.eqb ?a (Js.lower_char ?c)] =>
               destruct (Ascii.eqb a (Js.lower_char c))
           end;
    reflexivity.
Qed.

(** *** Blanks at the ends *)

Lemma blank_ascii (c : ascii) : blank c = true → (nat_of_ascii c < 128)%nat.
Proof.
  unfold blank. intros H. apply orb_prop in H as [H|H].
  - apply Nat.eqb_eq in H. lia.
  - apply andb_prop in H as [_ H]. apply Nat.leb_le in H. lia.
Qed.

Lemma is_white_space_blank (c : ascii) :
  (nat_of_ascii c < 128)%nat →
  Js.Unicode.is_white_space (Js.Unicode.byte c) = blank c.
Proof.
  destruct c as [b0 b1 b2 b3 b4 b5 b6 [] ].
  - intros H. exfalso. revert H.
    destruct b0, b1, b2, b3, b4, b5, b6; vm_compute; lia.
  - intros _. destruct b0, b1, b2, b3, b4, b5, b6; vm_compute; reflexivity.
Qed.

Lemma trimStart_go_visible (fuel : nat) (c : ascii) (r : string) :
  (nat_of_ascii c < 128)%nat → blank c = false →
  Js.Unicode.trimStart_go fuel (String c r) = String c r.
Proof.
  intros Hc Hb. destruct fuel as [|fuel]; [done|].
  cbn [Js.Unicode.trimStart_go].
  by rewrite (uncons_ascii c r Hc), (is_white_space_blank c Hc), Hb.
Qed.

Lemma trimStart_go_blanks (l s : string) (fuel : nat) :
  blanks l = true → (String.length l ≤ fuel)%nat →
  Js.Unicode.trimStart_go fuel (l +:+ s) =
  Js.Unicode.trimStart_go (fuel - String.length l) s.
Proof.
  revert fuel. induction l as [|c l IH]; intros fuel Hl Hf.
  - cbn [String.length]. by rewrite Nat.sub_0_r.
  - cbn [blanks] in Hl. apply andb_prop in Hl as [Hc Hl].
    cbn [String.length] in Hf |- *.
    destruct fuel as [|fuel]; [lia|].
    rewrite str_app_cons. cbn [Js.Unicode.trimStart_go].
    pose proof (blank_ascii c Hc) as Ha.
    rewrite (uncons_ascii c _ Ha), (is_white_space_blank c Ha), Hc.
    rewrite IH by (done || lia). reflexivity.
Qed.

Lemma trimEnd_go_blanks (r : string) (fuel : nat) :
  blanks r = true → Js.Unicode.trimEnd_go fuel r = "".
Proof.
  revert r. induction fuel as [|fuel IH]; intros r Hr; [done|].
  cbn [Js.Unicode.trimEnd_go].
  destruct r as [|c r]; [done|].
  cbn [blanks] in Hr. apply andb_prop in Hr as [Hc Hr].
  pose proof (blank_ascii c Hc) as Ha.
  rewrite (uncons_ascii c r Ha). cbv zeta.
  by rewrite (IH r Hr), (is_white_space_blank c Ha), Hc.
Qed.

Lemma trimEnd_go_visible (t r : string) (fuel : nat) :
  ascii_text t = true → ends_visible t = true → blanks r = true →
  (String.length t ≤ fuel)%nat →
  Js.Unicode.trimEnd_go fuel (t +:+ r) = t.
Proof.
  revert fuel. induction t as [|a t IH]; intros fuel Ht Hv Hr Hf; [done|].
  cbn [ascii_text] in Ht. apply andb_prop in Ht as [Ha Ht].
  apply Nat.ltb_lt in Ha.
  cbn [String.length] in Hf. destruct fuel as [|fuel]; [lia|].
  rewrite str_app_cons. cbn [Js.Unicode.trimEnd_go].
  rewrite (uncons_ascii a _ Ha). cbv zeta.
  rewrite (is_white_space_blank a Ha).
  destruct t as [|b t].
  - cbn [ends_visible] in Hv. apply negb_true_iff in Hv. rewrite Hv.
    change ("" +:+ r) with r. by rewrite (trimEnd_go_blanks r fuel Hr).
  - change (ends_visible (String a (String b t)))
      with (ends_visible (String b t)) in Hv.
    rewrite (IH fuel) by (done || lia).
    by rewrite andb_false_r.
Qed.

Lemma trim_blanks (l t r : string) :
  blanks l = true → blanks r = true → visible_text t = true →
  Js.Unicode.trim (l +:+ t +:+ r) = t.
Proof.
  intros Hl Hr Ht. unfold visible_text in Ht.
  apply andb_prop in Ht as [Ht Hv]. apply andb_prop in Ht as [Ha Hc].
  destruct t as [|c t]; [done|].
  apply negb_true_iff in Hc.
  pose proof Ha as Ha'. cbn [ascii_text] in Ha'.
  apply andb_prop in Ha' as [Hc' _]. apply Nat.ltb_lt in Hc'.
  unfold Js.Unicode.trim, Js.Unicode.trimStart.
  rewrite trimStart_go_blanks by (done || rewrite str_app_length; lia).
  rewrite str_app_cons, (trimStart_go_visible _ c _ Hc' Hc).
  unfold Js.Unicode.trimEnd. rewrite <- str_app_cons.
  apply trimEnd_go_visible; try done.
  rewrite str_app_length. lia.
Qed.



(** The merge on the letters of a Spanish text. *)
Example mergeMotility_examples :
  mergeMotility "VI" "Hipoquinesia en territorio de da." =
    "VI e hipoquinesia en territorio de DA" ∧
  mergeMotility "VI" "Área de aquinesia en territorio de cx." =
    "VI y área de aquinesia en territorio de Cx" ∧
  mergeMotility "VI" "Hierro." = "VI y hierro" ∧
  mergeMotility "VI" "  Isquemia (wmsi 1.5)  " = "VI e isquemia (WMSI 1.5)".
Proof. vm_compute. done. Qed.

(** ** The fuel of the JSON reader *)

Lemma skip_ws_len (s : string) : (String.length (JSON.skip_ws s) ≤ String.length s)%nat.
Proof.
  induction s as [|c s IH]; [done|]. simpl.
  destruct (JSON.is_json_ws c); simpl; lia.
Qed.

Lemma string_body_len_bounded (n : nat) (s body rest : string) :
  (String.length s ≤ n)%nat → JSON.string_body s = Some (body, rest) →
  (String.length rest < String.length s)%nat.
Proof.
  revert s body rest. induction n as [|n IH]; intros s body rest Hn H.
  { destruct s; [done|simpl in Hn; lia]. }
  destruct s as [|c r]; [done|]. simpl in H, Hn.
  destruct (nat_of_ascii c =? 34)%nat.
  { injection H as _ <-. simpl. lia. }
  destruct (nat_of_ascii c =? 92)%nat.
  - destruct r as [|e r1]; [done|]. simpl in Hn.
    destruct (nat_of_ascii e =? 117)%nat.
    + destruct r1 as [|h1 [|h2 [|h3 [|h4 r2]]]]; try done. simpl in Hn.
      destruct (_ && _); [|done].
      destruct (JSON.string_body r2) as [[b r']|] eqn:E; [|done].
      simpl in H. injection H as _ <-.
      apply IH in E; [|lia]. simpl. lia.
    + destruct (JSON.is_escape e); [|done].
      destruct (JSON.string_body r1) as [[b r']|] eqn:E; [|done].
      simpl in H. injection H as _ <-.
      apply IH in E; [|lia]. simpl. lia.
  - destruct (nat_of_ascii c <? 32)%nat; [done|].
    destruct (JSON.string_body r) as [[b r']|] eqn:E; [|done].
    simpl in H. injection H as _ <-.
    apply IH in E; [|lia]. simpl. lia.
Qed.

Lemma string_body_len (s body rest : string) :
  JSON.string_body s = Some (body, rest) → (String.length rest < String.length s)%nat.
Proof. by apply (string_body_len_bounded (String.length s)). Qed.

Lemma digits_len (s : string) :
  (String.length (JSON.digits s).2 ≤ String.length s)%nat ∧
  ((JSON.digits s).1 ≠ "" → (String.length (JSON.digits s).2 < String.length s)%nat).
Proof.
  induction s as [|c s [IH1 IH2]]; [done|]. simpl.
  destruct (JSON.is_digit c).
  - destruct (JSON.digits s) as [ds rest]. simpl in *. split; [lia|]. intros _. lia.
  - simpl. split; [lia|done].
Qed.

Lemma sign_len (s : string) :
  ∃ neg s1,
    (match s with
     | String "-"%char r => (true, r)
     | _ => (false, s)
     end) = (neg, s1) ∧ (String.length s1 ≤ String.length s)%nat.
Proof.
  destruct s as [|c r]; [by eexists _, _|].
  destruct (Ascii.eqb_spec c "-"%char) as [->|Hc].
  - eexists _, _. split; [done|]. simpl. lia.
  - exists false, (String c r). split; [|done].
    destruct c as [[] [] [] [] [] [] [] []]; done.
Qed.

Lemma exponent_sign_len (r : string) :
  ∃ eneg r1,
    (match r with
     | String "-"%char r' => (true, r')
     | String "+"%char r' => (false, r')
     | _ => (false, r)
     end) = (eneg, r1) ∧ (String.length r1 ≤ String.length r)%nat.
Proof.
  destruct r as [|a r']; [by eexists _, _|].
  destruct (Ascii.eqb_spec a "-"%char) as [->|Ha];
    [eexists _, _; split; [done|simpl; lia]|].
  destruct (Ascii.eqb_spec a "+"%char) as [->|Ha'];
    [eexists _, _; split; [done|simpl; lia]|].
  exists false, (String a r'). split; [|done].
  destruct a as [[] [] [] [] [] [] [] []]; done.
Qed.

Lemma number_len (s : string) (v : JSON.value) (rest : string) :
  JSON.number s = Some (v, rest) → (String.length rest < String.length s)%nat.
Proof.
  unfold JSON.number. intros H.
  destruct (sign_len s) as (neg & s1 & E & Hs1). rewrite E in H. clear E.
  pose proof (digits_len s1) as [_ Hd].
  destruct (JSON.digits s1) as [int s2]. simpl in Hd.
  destruct int as [|d more]; [done|].
  specialize (Hd ltac:(done)).
  destruct (_ && _); [done|].
  match type of H with
  | mbind _ ?E = _ => destruct E as [[frac s3]|] eqn:Efrac; [|done]
  end.
  assert (String.length s3 ≤ String.length s2)%nat as Hfrac.
  { clear H. destruct s2 as [|c r]; [by injection Efrac as _ <-|].
    destruct (Ascii.eqb_spec c "."%char) as [->|Hc].
    - pose proof (digits_len r) as [Hr _].
      destruct (JSON.digits r) as [f s3']. destruct (String.eqb f ""); [done|].
      injection Efrac as _ <-. simpl in *. lia.
    - assert (Some (frac, s3) = Some (EmptyString, String c r)) as Heq
        by (rewrite <- Efrac; destruct c as [[] [] [] [] [] [] [] []]; done).
      by injection Heq as _ ->. }
  simpl in H.
  match type of H with
  | mbind _ ?E = _ => destruct E as [[e s4]|] eqn:Eexp; [|done]
  end.
  assert (String.length s4 ≤ String.length s3)%nat as Hexp.
  { clear H. destruct s3 as [|c r]; [by injection Eexp as _ <-|].
    destruct (_ || _); [|by injection Eexp as _ <-].
    destruct (exponent_sign_len r) as (eneg & r1 & Hsign & Hr1).
    rewrite Hsign in Eexp.
    pose proof (digits_len r1) as [Hr _].
    destruct (JSON.digits r1) as [eds s4']. destruct (String.eqb eds ""); [done|].
    injection Eexp as _ <-. simpl in *. lia. }
  simpl in H. injection H as _ <-. lia.
Qed.

Lemma slice_from_app (p r : string) :
  Js.slice_from (String.length p) (p +:+ r) = r.
Proof. induction p as [|c p IH]; [done|]. by rewrite str_app_cons. Qed.

Lemma literal_len (word : string) (v v' : JSON.value) (s rest : string) :
  word ≠ "" → JSON.literal word v s = Some (v', rest) →
  (String.length rest < String.length s)%nat.
Proof.
  intros Hw. unfold JSON.literal.
  destruct (String.prefix word s) eqn:Hp; [|done].
  apply prefix_iff in Hp as [r ->]. rewrite slice_from_app.
  intros [= _ <-]. rewrite str_app_length. destruct word; [done|]. simpl. lia.
Qed.

Lemma expect_len (ch : nat) (s r : string) :
  JSON.expect ch s = Some r → String.length s = S (String.length r).
Proof.
  destruct s as [|c t]; [done|]. simpl.
  destruct (_ =? _)%nat; [|done]. by intros [= <-].
Qed.

Ltac bind_case H x r E :=
  match type of H with
  | mbind _ ?e = _ => destruct e as [[x r]|] eqn:E; [|done]; simpl in H |- *
  end.

Lemma value_step_fuel
    (pm pm' : string → option (list (string * JSON.value) * string))
    (pi pi' : string → option (list JSON.value * string))
    (s : string) (a : JSON.value) (r : string) :
  JSON.value_step pm pi s = Some (a, r) →
  JSON.covers r s pm pm' → JSON.covers r s pi pi' →
  (String.length r < String.length s)%nat ∧
  JSON.value_step pm' pi' s = Some (a, r).
Proof.
  unfold JSON.value_step. intros H Hpm Hpi.
  pose proof (skip_ws_len s) as Hs.
  destruct (JSON.skip_ws s) as [|c t]; [done|]. simpl in Hs. cbv zeta in *.
  destruct (nat_of_ascii c =? 123)%nat.
  { pose proof (skip_ws_len t) as Ht.
    destruct (JSON.expect 125 (JSON.skip_ws t)) as [t'|] eqn:Et.
    - apply expect_len in Et. injection H as <- <-.
      pose proof (skip_ws_len t'). split; [lia|done].
    - bind_case H ms rest E. injection H as <- <-.
      pose proof (skip_ws_len rest).
      destruct (Hpm t ms rest E) as [Hl Hk].
      rewrite Hk by lia. split; [lia|done]. }
  destruct (nat_of_ascii c =? 91)%nat.
  { pose proof (skip_ws_len t) as Ht.
    destruct (JSON.expect 93 (JSON.skip_ws t)) as [t'|] eqn:Et.
    - apply expect_len in Et. injection H as <- <-.
      pose proof (skip_ws_len t'). split; [lia|done].
    - bind_case H vs rest E. injection H as <- <-.
      pose proof (skip_ws_len rest).
      destruct (Hpi t vs rest E) as [Hl Hk].
      rewrite Hk by lia. split; [lia|done]. }
  destruct (nat_of_ascii c =? 34)%nat.
  { bind_case H body rest E. injection H as <- <-.
    apply string_body_len in E. pose proof (skip_ws_len rest).
    split; [lia|done]. }
  destruct (nat_of_ascii c =? 116)%nat.
  { bind_case H v rest E. injection H as <- <-.
    apply literal_len in E; [|done]. pose proof (skip_ws_len rest).
    simpl in E. split; [lia|done]. }
  destruct (nat_of_ascii c =? 102)%nat.
  { bind_case H v rest E. injection H as <- <-.
    apply literal_len in E; [|done]. pose proof (skip_ws_len rest).
    simpl in E. split; [lia|done]. }
  destruct (nat_of_ascii c =? 110)%nat.
  { bind_case H v rest E. injection H as <- <-.
    apply literal_len in E; [|done]. pose proof (skip_ws_len rest).
    simpl in E. split; [lia|done]. }
  bind_case H v rest E. injection H as <- <-.
  apply number_len in E. pose proof (skip_ws_len rest).
  simpl in E. split; [lia|done].
Qed.

Lemma members_step_fuel
    (pv pv' : string → option (JSON.value * string))
    (pm pm' : string → option (list (string * JSON.value) * string))
    (s : string) (a : list (string * JSON.value)) (r : string) :
  JSON.members_step pv pm s = Some (a, r) →
  JSON.covers r s pv pv' → JSON.covers r s pm pm' →
  (String.length r < String.length s)%nat ∧
  JSON.members_step pv' pm' s = Some (a, r).
Proof.
  unfold JSON.members_step. intros H Hpv Hpm.
  pose proof (skip_ws_len s) as Hs.
  destruct (JSON.expect 34 (JSON.skip_ws s)) as [t|] eqn:Et; [|done].
  apply expect_len in Et. simpl in H |- *.
  bind_case H key r1 Ekey. apply string_body_len in Ekey.
  pose proof (skip_ws_len r1) as Hr1.
  destruct (JSON.expect 58 (JSON.skip_ws r1)) as [r2|] eqn:Er2; [|done].
  apply expect_len in Er2. simpl in H |- *.
  bind_case H v r3 Ev.
  destruct (Hpv r2 v r3 Ev) as [Hl Hk].
  destruct (JSON.expect 44 r3) as [r4|] eqn:Er4.
  - pose proof (expect_len _ _ _ Er4) as Hr4.
    bind_case H ms rest Ems. injection H as <- <-.
    destruct (Hpm r4 ms rest Ems) as [Hl' Hk'].
    rewrite Hk by lia. simpl. rewrite Er4, Hk' by lia. split; [lia|done].
  - destruct (JSON.expect 125 r3) as [rest|] eqn:Erest; [|done].
    pose proof (expect_len _ _ _ Erest) as Hrest. simpl in H. injection H as <- <-.
    rewrite Hk by lia. simpl. rewrite Er4, Erest. split; [lia|done].
Qed.

Lemma items_step_fuel
    (pv pv' : string → option (JSON.value * string))
    (pi pi' : string → option (list JSON.value * string))
    (s : string) (a : list JSON.value) (r : string) :
  JSON.items_step pv pi s = Some (a, r) →
  JSON.covers r s pv pv' → JSON.covers r s pi pi' →
  (String.length r < String.length s)%nat ∧
  JSON.items_step pv' pi' s = Some (a, r).
Proof.
  unfold JSON.items_step. intros H Hpv Hpi.
  bind_case H v r1 Ev.
  destruct (Hpv s v r1 Ev) as [Hl Hk].
  destruct (JSON.expect 44 r1) as [r2|] eqn:Er2.
  - pose proof (expect_len _ _ _ Er2) as Hr2.
    bind_case H vs rest Evs. injection H as <- <-.
    destruct (Hpi r2 vs rest Evs) as [Hl' Hk'].
    rewrite Hk by lia. simpl. rewrite Er2, Hk' by lia. split; [lia|done].
  - destruct (JSON.expect 93 r1) as [rest|] eqn:Erest; [|done].
    pose proof (expect_len _ _ _ Erest) as Hrest. simpl in H. injection H as <- <-.
    rewrite Hk by lia. simpl. rewrite Er2, Erest. split; [lia|done].
Qed.

(** The readers consume at least one character, and succeed with any
    amount of fuel that is not less than what they consume. *)
Lemma parse_fuel (n : nat) :
  (∀ s a r, JSON.parse_value n s = Some (a, r) →
     (String.length r < String.length s)%nat ∧
     ∀ k, (String.length s - String.length r ≤ k)%nat →
          JSON.parse_value k s = Some (a, r)) ∧
  (∀ s a r, JSON.parse_members n s = Some (a, r) →
     (String.length r < String.length s)%nat ∧
     ∀ k, (String.length s - String.length r ≤ k)%nat →
          JSON.parse_members k s = Some (a, r)) ∧
  (∀ s a r, JSON.parse_items n s = Some (a, r) →
     (String.length r < String.length s)%nat ∧
     ∀ k, (String.length s - String.length r ≤ k)%nat →
          JSON.parse_items k s = Some (a, r)).
Proof.
  induction n as [|n (IHv & IHm & IHi)]; [done|].
  assert (∀ r s k, (String.length s - String.length r ≤ S k)%nat →
            JSON.covers r s (JSON.parse_value n) (JSON.parse_value k)) as Cv.
  { intros r s k Hk s' x r' E. destruct (IHv s' x r' E) as [Hl Hf].
    split; [done|]. intros Hlt. apply Hf. lia. }
  assert (∀ r s k, (String.length s - String.length r ≤ S k)%nat →
            JSON.covers r s (JSON.parse_members n) (JSON.parse_members k)) as Cm.
  { intros r s k Hk s' x r' E. destruct (IHm s' x r' E) as [Hl Hf].
    split; [done|]. intros Hlt. apply Hf. lia. }
  assert (∀ r s k, (String.length s - String.length r ≤ S k)%nat →
            JSON.covers r s (JSON.parse_items n) (JSON.parse_items k)) as Ci.
  { intros r s k Hk s' x r' E. destruct (IHi s' x r' E) as [Hl Hf].
    split; [done|]. intros Hlt. apply Hf. lia. }
  split; [|split]; intros s a r H.
  - change (JSON.value_step (JSON.parse_members n) (JSON.parse_items n) s
            = Some (a, r)) in H.
    assert (String.length r < String.length s)%nat as Hl.
    { eapply (value_step_fuel (JSON.parse_members n) (JSON.parse_members n)
                (JSON.parse_items n) (JSON.parse_items n)); [exact H|..];
        intros s' x r' E; split; [by eapply IHm|done|by eapply IHi|done]. }
    split; [done|]. intros [|k] Hk; [lia|].
    change (JSON.value_step (JSON.parse_members k) (JSON.parse_items k) s
            = Some (a, r)).
    by eapply value_step_fuel; [exact H|apply Cm|apply Ci].
  - change (JSON.members_step (JSON.parse_value n) (JSON.parse_members n) s
            = Some (a, r)) in H.
    assert (String.length r < String.length s)%nat as Hl.
    { eapply (members_step_fuel (JSON.parse_value n) (JSON.parse_value n)
                (JSON.parse_members n) (JSON.parse_members n)); [exact H|..];
        intros s' x r' E; split; [by eapply IHv|done|by eapply IHm|done]. }
    split; [done|]. intros [|k] Hk; [lia|].
    change (JSON.members_step (JSON.parse_value k) (JSON.parse_members k) s
            = Some (a, r)).
    by eapply members_step_fuel; [exact H|apply Cv|apply Cm].
  - change (JSON.items_step (JSON.parse_value n) (JSON.parse_items n) s
            = Some (a, r)) in H.
    assert (String.length r < String.length s)%nat as Hl.
    { eapply (items_step_fuel (JSON.parse_value n) (JSON.parse_value n)
                (JSON.parse_items n) (JSON.parse_items n)); [exact H|..];
        intros s' x r' E; split; [by eapply IHv|done|by eapply IHi|done]. }
    split; [done|]. intros [|k] Hk; [lia|].
    change (JSON.items_step (JSON.parse_value k) (JSON.parse_items k) s
            = Some (a, r)).
    by eapply items_step_fuel; [exact H|apply Cv|apply Ci].
Qed.

(** [JSON.parse] accepts exactly the texts of the grammar: the fuel it
    gives is enough for every text. *)
Lemma parse_is_json (text : string) :
  JSON.is_json text ↔ ∃ v, JSON.parse text = Ok v.
Proof.
  unfold JSON.parse. split.
  - intros (fuel & v & H). exists v.
    destruct (parse_fuel fuel) as (Hv & _ & _).
    destruct (Hv text v "" H) as [_ Hk].
    rewrite (Hk (S (String.length text))) by (simpl; lia). done.
  - intros [v H]. exists (S (String.length text)).
    destruct (JSON.parse_value (S (String.length text)) text)
      as [[v' [|c r]]|]; [|done..].
    by exists v'.
Qed.

Lemma parse_not_json (text : string) :
  ¬ JSON.is_json text → JSON.parse text = Throw SyntaxError.
Proof.
  intros Hn. destruct (JSON.parse text) as [v|[]] eqn:E.
  - destruct Hn. apply parse_is_json. by exists v.
  - done.
  - unfold JSON.parse in E.
    by destruct (JSON.parse_value _ _) as [[? [|? ?]]|].
Qed.

(** ** Construction from the local storage *)

Lemma parse_rejects_start (c : ascii) (rest : string) :
  JSON.is_json_ws c = false → JSON.can_start c = false →
  JSON.parse (String c rest) = Throw SyntaxError.
Proof.
  intros Hws Hstart.
  destruct c as [[] [] [] [] [] [] [] []];
    try discriminate Hws; try discriminate Hstart; reflexivity.
Qed.

(** C2 (as the code has it): the constructor falls back to the default
    store, with the pattern read from its own key or "none", when the
    severity-map key is absent or holds the empty string; when it holds a
    non-empty text that is not JSON, in particular any text whose first
    character cannot start a JSON value, the [SyntaxError] of [JSON.parse]
    is not caught and the construction throws; when it holds
    a JSON text the store is the parsed value if that value is truthy and
    the default store otherwise. *)
Theorem constructor_storage (store : gmap string string) :
  (store !! "motility-state" = None ∨ store !! "motility-state" = Some "" →
     constructor store = Ok (DefaultState, initialPattern store)) ∧
  (∀ saved, store !! "motility-state" = Some saved → saved ≠ "" →
     ¬ JSON.is_json saved →
     constructor store = Throw SyntaxError) ∧
  (∀ c rest, store !! "motility-state" = Some (String c rest) →
     JSON.is_json_ws c = false → JSON.can_start c = false →
     constructor store = Throw SyntaxError) ∧
  (∀ saved v, store !! "motility-state" = Some saved → saved ≠ "" →
     JSON.parse saved = Ok v →
     constructor store =
       Ok (if JSON.truthy v then LoadedState v else DefaultState,
           initialPattern store)).
Proof.
  assert (∀ saved, saved ≠ "" → String.eqb saved "" = false) as Hne.
  { intros saved Hs. by apply String.eqb_neq. }
  unfold constructor, loadFromStorage.
  split; [|split; [|split]].
  - intros [-> | ->]; reflexivity.
  - intros saved -> Hs Hp. by rewrite (Hne saved Hs), (parse_not_json saved Hp).
  - intros c rest -> Hws Hstart.
    rewrite (Hne (String c rest)) by done.
    by rewrite (parse_rejects_start c rest Hws Hstart).
  - intros saved v -> Hs Hp. by rewrite (Hne saved Hs), Hp.
Qed.

Lemma constructor_storage_witness :
  constructor (∅ : gmap string string) = Ok (DefaultState, "none") ∧
  constructor corrupt_store = Throw SyntaxError.
Proof.
  split.
  - change (constructor (∅ : gmap string string) =
            Ok (DefaultState, initialPattern (∅ : gmap string string))).
    apply (proj1 (constructor_storage ∅)). by left.
  - apply (proj1 (proj2 (constructor_storage corrupt_store)) "not json");
      [reflexivity|done|].
    intros Hjson. apply parse_is_json in Hjson as [v Hv]. discriminate Hv.
Defined.

(** C2 as stated fails: with the text "not json" under the severity-map
    key, [JSON.parse] throws and so does the constructor, whereas the
    construction over a storage without that key returns the default
    store and the pattern "none". *)
Lemma constructor_corrupt_throws :
  corrupt_store !! "motility-state" = Some "not json" ∧
  ¬ JSON.is_json "not json" ∧
  JSON.parse "not json" = Throw SyntaxError ∧
  constructor corrupt_store = Throw SyntaxError ∧
  constructor (delete "motility-state" corrupt_store) = Ok (DefaultState, "none") ∧
  constructor corrupt_store ≠ constructor (delete "motility-state" corrupt_store).
Proof.
  split; [reflexivity|]. split.
  { intros Hjson. apply parse_is_json in Hjson as [v Hv]. discriminate Hv. }
  vm_compute. repeat split; congruence.
Qed.

(** A store with segment 5 Dyskinetic survives [saveToStorage] followed
    by a new construction. *)
Example persistence_round_trip :
  let c := saveToStorage (set_state (<[5%nat := 4]> getDefaultState) fresh) in
  (constructor (storage c) ≫= fun init => member (controller_of (storage c) init)) =
  Ok (mk (<[5%nat := 4]> getDefaultState) "none" (storage c) []).
Proof. vm_compute. reflexivity. Qed.

(** * Further properties of the controller, the calculator and the page *)

(** ** The library of patterns *)

Lemma PATTERNS_table (key : string) (p : Pattern) :
  PATTERNS key = Some p → (key, p) ∈ PATTERN_TABLE.
Proof. unfold PATTERNS. apply elem_of_list_to_map_2. Qed.

Lemma PATTERNS_ok (key : string) (p : Pattern) :
  PATTERNS key = Some p →
  Forall (fun id => (1 ≤ id ≤ 17)%nat) (affectedSegments p) ∧
  1 ≤ severity p ≤ 4 ∧
  (0 <? length (affectedSegments p))%nat = true ∧
  String.eqb key "none" = false ∧ key ≠ "".
Proof.
  intros Hp. apply PATTERNS_table in Hp.
  assert (forallb Session.pattern_entry_ok PATTERN_TABLE = true) as Hall by (vm_compute; reflexivity).
  rewrite forallb_forall in Hall.
  apply list_elem_of_In in Hp. specialize (Hall _ Hp).
  unfold Session.pattern_entry_ok in Hall. cbn [fst snd] in Hall.
  repeat (apply andb_prop in Hall as [Hall ?]).
  split; [|split; [lia|split; [done|split]]].
  - apply Forall_forall. intros id Hid.
    rewrite forallb_forall in Hall. apply list_elem_of_In in Hid.
    specialize (Hall _ Hid). apply andb_prop in Hall as [? ?].
    split; [by apply Nat.leb_le|by apply Nat.leb_le].
  - by apply negb_true_iff.
  - intros ->. done.
Qed.

(** ** The invariant of the store *)

Lemma foldl_insert_wf (l : list nat) (v : Z) (o : gmap nat Z) :
  wf_state o → Forall (fun id => (1 ≤ id ≤ 17)%nat) l →
  wf_state (foldl (fun acc id => <[id := v]> acc) o l).
Proof.
  intros Hwf Hall. revert o Hwf.
  induction Hall as [|id l Hid _ IH]; intros o Hwf; [done|].
  cbn [foldl]. apply IH. by apply wf_insert.
Qed.

Lemma foldl_insert_severities (l : list nat) (v : Z) (o : gmap nat Z) :
  severities_ok o → 1 ≤ v ≤ 4 →
  severities_ok (foldl (fun acc id => <[id := v]> acc) o l).
Proof.
  intros Hok Hv. revert o Hok.
  induction l as [|id l IH]; intros o Hok; [done|].
  cbn [foldl]. apply IH. by apply severities_insert.
Qed.

Lemma well_formed_fresh : Session.well_formed fresh.
Proof. split; [exact wf_default|exact severities_default]. Qed.

Lemma toggleSegment_well_formed (c : t) (id : nat) :
  Session.well_formed c → (1 ≤ id ≤ 17)%nat →
  ∃ c', toggleSegment id c = Some c' ∧ Session.well_formed c' ∧
        pattern c' = pattern c.
Proof.
  intros [Hwf Hok] Hid.
  destruct (proj2 (Hwf id) Hid) as [v Hv].
  destruct (toggleSegment_state c id v Hv (Hok id v Hv)) as (c' & Hc' & Hs & Hp).
  exists c'. split; [done|]. split; [|done]. unfold Session.well_formed. rewrite Hs.
  split; [by apply wf_insert|].
  apply severities_insert; [done|]. apply next_range. by apply (Hok id).
Qed.

Lemma setSegmentState_state (c : t) (id : nat) (v : Z) :
  state (setSegmentState id v c) =
  (if (1 <=? v) && (v <=? 4) then <[id := v]> (state c) else state c) ∧
  pattern (setSegmentState id v c) = pattern c.
Proof. unfold setSegmentState. by destruct ((1 <=? v) && (v <=? 4)). Qed.

Lemma setSegmentState_well_formed (c : t) (id : nat) (v : Z) :
  Session.well_formed c → (1 ≤ id ≤ 17)%nat →
  Session.well_formed (setSegmentState id v c).
Proof.
  intros [Hwf Hok] Hid. unfold Session.well_formed.
  rewrite (proj1 (setSegmentState_state c id v)).
  destruct ((1 <=? v) && (v <=? 4)) eqn:Hg; [|done].
  apply andb_prop in Hg as [H1 H4].
  split; [by apply wf_insert|]. apply severities_insert; [done|lia].
Qed.

Lemma setPattern_state (name : string) (c : t) :
  pattern (setPattern name c) = name ∧
  state (setPattern name c) =
    match PATTERNS name with
    | Some p =>
        foldl (fun acc id => <[id := severity p]> acc)
              (all_normal (state c)) (affectedSegments p)
    | None => state c
    end.
Proof.
  unfold setPattern.
  destruct (PATTERNS name) as [p|] eqn:Hp.
  - destruct (PATTERNS_ok name p Hp) as (_ & Hsev & Hlen & Hnone & _).
    rewrite Hnone, Hlen.
    destruct (Z.eqb_spec (severity p) 0) as [H0|_]; [lia|done].
  - by destruct (String.eqb name "none").
Qed.

Lemma setPattern_well_formed (name : string) (c : t) :
  Session.well_formed c → Session.well_formed (setPattern name c).
Proof.
  intros [Hwf Hok]. unfold Session.well_formed.
  rewrite (proj2 (setPattern_state name c)).
  destruct (PATTERNS name) as [p|] eqn:Hp; [|done].
  destruct (PATTERNS_ok name p Hp) as (Hids & Hsev & _).
  rewrite (all_normal_wf _ Hwf).
  split.
  - apply foldl_insert_wf; [exact wf_default|done].
  - apply foldl_insert_severities; [exact severities_default|done].
Qed.

Lemma reset_well_formed (c : t) : Session.well_formed (reset c).
Proof. split; [exact wf_default|exact severities_default]. Qed.

Lemma perform_well_formed (a : Session.Action) (c : t) :
  Session.well_formed c → Session.on_diagram a →
  ∃ c', Session.perform a c = Some c' ∧ Session.well_formed c'.
Proof.
  intros Hc Ha. destruct a as [id|id v|name|]; cbn [Session.perform].
  - destruct (toggleSegment_well_formed c id Hc Ha) as (c' & ? & ? & _).
    by exists c'.
  - eexists. split; [done|]. by apply setSegmentState_well_formed.
  - eexists. split; [done|]. by apply setPattern_well_formed.
  - eexists. split; [done|]. apply reset_well_formed.
Qed.

Lemma performAll_cons (a : Session.Action) (l : list Session.Action) (c c1 : t) :
  Session.perform a c = Some c1 →
  Session.performAll (a :: l) c = Session.performAll l c1.
Proof. intros H. unfold Session.performAll. cbn [foldl]. simpl. by rewrite H. Qed.

(** *** Names that the table of patterns inherits *)

Lemma inherited_throws (name : string) :
  name ∈ Object_prototype → setPattern_completion name = Throw TypeError.
Proof.
  unfold Object_prototype. rewrite !elem_of_cons, elem_of_nil.
  intros H.
  repeat (destruct H as [-> | H]; [by vm_compute|]). done.
Qed.

Lemma inherited_no_pattern (name : string) :
  name ∈ Object_prototype → PATTERNS name = None.
Proof.
  unfold Object_prototype. rewrite !elem_of_cons, elem_of_nil.
  intros H.
  repeat (destruct H as [-> | H]; [by vm_compute|]). done.
Qed.

Lemma completion_cases (name : string) :
  setPattern_completion name = Ok tt ∨
  (name ∈ Object_prototype ∧ setPattern_completion name = Throw TypeError).
Proof.
  unfold setPattern_completion, inherited.
  destruct (String.eqb name "none"); [by left|].
  destruct (PATTERNS name); [by left|].
  destruct (bool_decide_reflect (name ∈ Object_prototype)) as [Hin|_];
    [by right|by left].
Qed.

(** X1: whatever operations the page issues on the 17 segments of the
    diagram, in whatever order (toggles, direct settings of any integer,
    patterns with any name, resets), the store that every one of them
    leaves behind keeps exactly the ids 1 to 17, each with one of the
    severities 1, 2, 3, 4.  Every call returns, except [setPattern]
    under the name of a member that the table of patterns inherits
    ([constructor], [toString], ...): that call throws a [TypeError]
    once the name is recorded and stored, and leaves the severities as
    they were. *)
Theorem performAll_well_formed (l : list Session.Action) (c : t) :
  Session.well_formed c → Forall Session.on_diagram l →
  (∃ c', Session.performAll l c = Some c' ∧ Session.well_formed c') ∧
  (∀ a, Session.completion a = Ok tt ∨
        ∃ name, a = Session.SetPattern name ∧ name ∈ Object_prototype ∧
                Session.completion a = Throw TypeError) ∧
  (∀ name d, name ∈ Object_prototype →
     Session.completion (Session.SetPattern name) = Throw TypeError ∧
     state (setPattern name d) = state d ∧
     pattern (setPattern name d) = name ∧
     storage (setPattern name d) = <["motility-pattern" := name]> (storage d) ∧
     effects (setPattern name d) =
       effects d ++ [SetItem "motility-pattern" name]).
Proof.
  intros Hc Hall. split; [|split].
  - revert c Hc.
    induction Hall as [|a l Ha _ IH]; intros c Hc.
    + by exists c.
    + destruct (perform_well_formed a c Hc Ha) as (c1 & H1 & Hc1).
      destruct (IH c1 Hc1) as (c' & H' & Hc').
      exists c'. split; [|done]. by rewrite (performAll_cons a l c c1 H1).
  - intros [id|id v|name|]; try (by left).
    cbn [Session.completion].
    destruct (completion_cases name) as [Hok | [Hin Hthrow] ]; [by left|].
    right. by exists name.
  - intros name d Hin. cbn [Session.completion].
    split; [by apply inherited_throws|].
    unfold setPattern. rewrite (inherited_no_pattern name Hin).
    by destruct (String.eqb name "none").
Qed.

Lemma performAll_well_formed_witness :
  (∃ c', Session.performAll
           [Session.Toggle 3; Session.SetPattern "chagas"; Session.SetState 5 9;
            Session.SetPattern "constructor"; Session.Reset;
            Session.SetState 17 4] fresh = Some c' ∧
         Session.well_formed c') ∧
  Session.completion (Session.SetPattern "constructor") = Throw TypeError ∧
  Session.completion (Session.SetPattern "chagas") = Ok tt.
Proof.
  destruct (performAll_well_formed
              [Session.Toggle 3; Session.SetPattern "chagas"; Session.SetState 5 9;
               Session.SetPattern "constructor"; Session.Reset;
               Session.SetState 17 4] fresh) as (Hall & _ & Hthrow).
  - split; [exact wf_default|exact severities_default].
  - repeat constructor; simpl; lia.
  - split; [exact Hall|]. split; [|reflexivity].
    apply (Hthrow "constructor" fresh).
    unfold Object_prototype. rewrite elem_of_cons. by left.
Defined.

(** ** The texts of a store without abnormal segment *)

Lemma tiers_count (f : nat → Z) (l : list nat) :
  Forall (fun id => 1 ≤ f id ≤ 4) l →
  Nat.add (Nat.add (length (filter (fun id => f id = 2) l))
                   (length (filter (fun id => f id = 3) l)))
          (length (filter (fun id => f id = 4) l)) =
  length (filter (fun id => f id > 1) l).
Proof.
  induction 1 as [|id l Hid _ IH]; [done|].
  rewrite !filter_cons.
  repeat destruct (decide _); simpl length; lia.
Qed.

Lemma severities_seq (o : gmap nat Z) :
  wf_state o → severities_ok o →
  Forall (fun id => 1 ≤ severity_of o id ≤ 4) (seq 1 17).
Proof.
  intros Hwf Hok. apply Forall_forall. intros id Hid. apply elem_of_seq in Hid.
  apply severity_of_range; [done..|lia].
Qed.

Lemma totalAbnormal_wf (c : t) :
  Session.well_formed c →
  totalAbnormal (getAbnormalSegments c) = length (abnormalIds (state c)).
Proof.
  intros [Hwf Hok]. unfold totalAbnormal, getAbnormalSegments.
  cbn [hypokinetic akinetic dyskinetic].
  rewrite !(ids_with_wf _ _ Hwf), (abnormalIds_wf _ Hwf).
  apply tiers_count. by apply severities_seq.
Qed.

Lemma abnormalIds_nil (c : t) :
  Session.well_formed c →
  abnormalIds (state c) = [] ↔ state c = getDefaultState.
Proof.
  intros [Hwf Hok]. split.
  - rewrite (abnormalIds_wf _ Hwf). intros Hnil.
    apply map_eq. intros id.
    destruct (decide (1 ≤ id ≤ 17)%nat) as [Hid|Hid].
    + rewrite (wf_lookup _ Hwf id Hid), (wf_lookup _ wf_default id Hid).
      f_equal.
      assert (severity_of getDefaultState id = 1) as ->.
      { unfold severity_of, getDefaultState. rewrite lookup_all_normal.
        by rewrite decide_True. }
      pose proof (severity_of_range _ id Hwf Hok Hid) as Hr.
      destruct (decide (severity_of (state c) id > 1)) as [Hgt|Hle]; [|lia].
      assert (id ∈ filter (fun id => severity_of (state c) id > 1) (seq 1 17)) as Hin.
      { apply list_elem_of_filter. split; [done|]. apply elem_of_seq. lia. }
      rewrite Hnil in Hin. by inversion Hin.
    + by rewrite (wf_lookup_None _ Hwf id Hid), (wf_lookup_None _ wf_default id Hid).
  - intros ->. by vm_compute.
Qed.

Lemma str_nonempty_l (a b : string) : a ≠ "" → a +:+ b ≠ "".
Proof. destruct a; [done|]. by rewrite str_app_cons. Qed.

Lemma str_nonempty_r (a b : string) : b ≠ "" → a +:+ b ≠ "".
Proof.
  intros Hb H. apply (f_equal String.length) in H.
  rewrite str_app_length in H. destruct b; [done|]. simpl in H. lia.
Qed.

Lemma abnormal_tiers_range (c : t) :
  wf_state (state c) →
  Forall (fun id => (1 ≤ id ≤ 17)%nat) (hypokinetic (getAbnormalSegments c)) ∧
  Forall (fun id => (1 ≤ id ≤ 17)%nat) (akinetic (getAbnormalSegments c)) ∧
  Forall (fun id => (1 ≤ id ≤ 17)%nat) (dyskinetic (getAbnormalSegments c)).
Proof.
  intros Hwf. unfold getAbnormalSegments. cbn [hypokinetic akinetic dyskinetic].
  rewrite !(ids_with_wf _ _ Hwf).
  repeat split; apply filter_seq_range.
Qed.

Lemma focalParts_ok (c : t) :
  wf_state (state c) → ∃ parts, focalParts (getAbnormalSegments c) = Ok parts.
Proof.
  intros Hwf. destruct (focalParts_spec c Hwf) as (aq & hi & di & _ & _ & _ & H).
  eexists. exact H.
Qed.

Lemma diffuseSentence_index (p : Pattern) (a : Abnormal) (wmsi : string) :
  ∃ body, diffuseSentence p a wmsi = body +:+ " (WMSI: " +:+ wmsi +:+ ")." +:+ nl.
Proof.
  unfold diffuseSentence.
  destruct (Js.includes (pname p) "Dilatada");
    [|destruct (Js.includes (pname p) "Hipertensiva")].
  - change " global difusa que no respeta un territorio coronario específico (WMSI: "
      with (" global difusa que no respeta un territorio coronario específico" +:+
            " (WMSI: ").
    eexists. rewrite <- !str_app_assoc. reflexivity.
  - change " con predominio basal y medio ventricular (WMSI: "
      with (" con predominio basal y medio ventricular" +:+ " (WMSI: ").
    eexists. rewrite <- !str_app_assoc. reflexivity.
  - change " difusa (WMSI: " with (" difusa" +:+ " (WMSI: ").
    eexists. rewrite <- !str_app_assoc. reflexivity.
Qed.

(** X2: on a store that holds the 17 segments with severities among 1,
    2, 3, 4, [generateMotilityReport] never throws, whatever the name of
    the active pattern; the text is empty exactly when every segment is
    Normal, and every other text ends with the index in the form
    " (WMSI: x.xx)." followed by a line break. *)
Theorem generateMotilityReport_total (c : t) :
  Session.well_formed c →
  ∃ text, generateMotilityReport c = Ok text ∧
          (text = "" ↔ state c = getDefaultState) ∧
          (text ≠ "" →
           ∃ body, text = body +:+ " (WMSI: " +:+ calculateWMSI c +:+ ")." +:+ nl).
Proof.
  intros Hc. pose proof Hc as [Hwf Hok].
  assert (∀ body,
            body +:+ " (WMSI: " +:+ calculateWMSI c +:+ ")." +:+ nl ≠ "") as Hne.
  { intros body. by apply str_nonempty_r. }
  unfold generateMotilityReport. rewrite (totalAbnormal_wf c Hc).
  destruct (abnormalIds (state c)) as [|id0 ids] eqn:Hids.
  - exists "". split; [done|]. split; [|done].
    split; [|done]. intros _. by apply (abnormalIds_nil c Hc).
  - cbn [length Nat.eqb].
    assert (state c ≠ getDefaultState) as Hnd.
    { intros Hd. apply (abnormalIds_nil c Hc) in Hd. congruence. }
    assert (∀ text,
              (∃ body, text = body +:+ " (WMSI: " +:+ calculateWMSI c +:+ ")." +:+ nl) →
              (text = "" ↔ state c = getDefaultState) ∧
              (text ≠ "" →
               ∃ body, text = body +:+ " (WMSI: " +:+ calculateWMSI c +:+ ")." +:+ nl))
      as Hfin.
    { intros text [body ->]. split; [|intros _; by exists body].
      split; [intros H; by apply Hne in H|done]. }
    destruct (focalParts_ok c Hwf) as [parts Hparts].
    assert (∃ text,
              (parts ← focalParts (getAbnormalSegments c);
               Ok ("Se observan trastornos segmentarios de la motilidad parietal, con " +:+
                   Js.join "; " parts +:+ " (WMSI: " +:+ calculateWMSI c +:+ ")." +:+ nl))
              = Ok text ∧
              ∃ body, text = body +:+ " (WMSI: " +:+ calculateWMSI c +:+ ")." +:+ nl)
      as (ftext & Hftext & Hfbody).
    { rewrite Hparts. eexists. split; [reflexivity|].
      eexists. rewrite <- !str_app_assoc. reflexivity. }
    destruct (currentPattern c) as [p|].
    + destruct (isDiffuse p && (12 <=? S (length ids))%nat).
      * eexists. split; [reflexivity|]. apply Hfin. apply diffuseSentence_index.
      * destruct (is_dyssynchrony p).
        -- eexists. split; [reflexivity|]. apply Hfin.
           unfold dyssynchronySentence. by eexists.
        -- exists ftext. split; [exact Hftext|]. by apply Hfin.
    + exists ftext. split; [exact Hftext|]. by apply Hfin.
Qed.

Lemma generateMotilityReport_total_witness :
  ∃ text, generateMotilityReport (set_state anterior_akinetic fresh) = Ok text ∧
          (text = "" ↔ state (set_state anterior_akinetic fresh) = getDefaultState) ∧
          (text ≠ "" →
           ∃ body, text = body +:+ " (WMSI: " +:+
                          calculateWMSI (set_state anterior_akinetic fresh) +:+
                          ")." +:+ nl).
Proof.
  apply (generateMotilityReport_total (set_state anterior_akinetic fresh)).
  unfold Session.well_formed, anterior_akinetic. cbn [state set_state]. split.
  - do 3 (apply wf_insert; [|lia]). exact wf_default.
  - do 3 (apply severities_insert; [|lia]). exact severities_default.
Defined.

(** ** The conclusion of the motility *)

Lemma patternConclusion_dot (c : t) (text : string) :
  patternConclusion c = Some text → Js.endsWith text "." = true.
Proof.
  unfold patternConclusion.
  destruct (String.eqb (pattern c) "none"); [discriminate|].
  destruct (directConclusion (pattern c)) as [d|] eqn:Hd.
  - intros [= <-]. revert Hd. unfold directConclusion.
    repeat match goal with
           | |- context [String.eqb ?a ?b] => destruct (String.eqb a b)
           end;
      first [discriminate | intros [= <-]; reflexivity].
  - destruct (PATTERNS (pattern c)) as [p|]; [|discriminate].
    change (categoryConclusion (pattern c) p = Some text →
            Js.endsWith text "." = true).
    unfold categoryConclusion.
    destruct (category p); try discriminate;
      repeat match goal with
             | |- context [String.eqb ?a ?b] => destruct (String.eqb a b)
             end;
      first [discriminate | intros [= <-]; reflexivity].
Qed.

Lemma tiers_count_in (P : nat → Prop) `{!∀ id, Decision (P id)}
    (f : nat → Z) (l : list nat) :
  Forall (fun id => 1 ≤ f id ≤ 4) l →
  Z.of_nat (length (filter (fun id => P id ∧ f id = 2) l)) +
  Z.of_nat (length (filter (fun id => P id ∧ f id = 3) l)) +
  Z.of_nat (length (filter (fun id => P id ∧ f id = 4) l)) =
  Z.of_nat (length (filter (fun id => P id ∧ f id > 1) l)).
Proof.
  induction 1 as [|id l Hid _ IH]; [done|].
  rewrite !filter_cons.
  repeat destruct (decide _); simpl length; try lia; exfalso; intuition lia.
Qed.

Lemma tier_in_sum (o : gmap nat Z) (a : Artery) :
  wf_state o → severities_ok o →
  Session.tier_in o 2 a + Session.tier_in o 3 a + Session.tier_in o 4 a =
  abnormal_in o a.
Proof.
  intros Hwf Hok. unfold Session.tier_in, abnormal_in.
  apply (tiers_count_in (fun id => (artery <$> SEGMENTS id) = Some a)).
  by apply severities_seq.
Qed.

Lemma tier_count (c : t) (k : Z) :
  wf_state (state c) →
  count_territories
    ((filter (fun kv : nat * Z => kv.2 = k) (Object_entries (state c))).*1)
    (mkScores 0 0 0) = Ok (Session.tier_scores (state c) k).
Proof.
  intros Hwf. rewrite (ids_with_wf _ _ Hwf).
  destruct (count_territories_ok
              (filter (fun id => severity_of (state c) id = k) (seq 1 17))
              (mkScores 0 0 0)) as (s & Hs & Hscore); [apply filter_seq_range|].
  rewrite Hs. f_equal.
  assert (∀ a, score s a = Session.tier_in (state c) k a) as Hall.
  { intros a. rewrite Hscore. unfold Session.tier_in.
    rewrite list_filter_filter. destruct a; simpl; lia. }
  pose proof (Hall DA) as HDA. pose proof (Hall CD) as HCD. pose proof (Hall Cx) as HCx.
  destruct s as [x y z]. simpl in HDA, HCD, HCx. unfold Session.tier_scores.
  by rewrite HDA, HCD, HCx.
Qed.

Lemma tier_scores_score (o : gmap nat Z) (k : Z) (a : Artery) :
  score (Session.tier_scores o k) a = Session.tier_in o k a.
Proof. by destruct a. Qed.

Lemma territoryConclusion_wf (c : t) :
  Session.well_formed c →
  territoryConclusion (getAbnormalSegments c) =
  Ok (match Session.affected (state c) with
      | [territory] =>
          "Trastornos de la motilidad Segmentaria en Territorio " +:+
          artery_name territory +:+ "."
      | l =>
          Js.join ", "
            (territoryClause (Session.tier_scores (state c) 2)
                             (Session.tier_scores (state c) 3)
                             (Session.tier_scores (state c) 4) <$> l) +:+ "."
      end).
Proof.
  intros [Hwf Hok]. unfold territoryConclusion, getAbnormalSegments.
  cbn [hypokinetic akinetic dyskinetic].
  rewrite !(tier_count c _ Hwf). cbn [mbind result_bind].
  assert (filter
            (fun terr =>
               score (Session.tier_scores (state c) 2) terr +
               score (Session.tier_scores (state c) 3) terr +
               score (Session.tier_scores (state c) 4) terr > 0) [DA; CD; Cx] =
          Session.affected (state c)) as ->.
  { unfold Session.affected. apply list_filter_iff. intros a.
    by rewrite !tier_scores_score, (tier_in_sum _ a Hwf Hok). }
  by destruct (Session.affected (state c)) as [|a [|b l] ].
Qed.

Lemma affected_nonempty (c : t) :
  Session.well_formed c → state c ≠ getDefaultState →
  Session.affected (state c) ≠ [].
Proof.
  intros Hc Hnd Haff. pose proof Hc as [Hwf Hok]. apply Hnd.
  apply (abnormalIds_nil c Hc). rewrite (abnormalIds_wf _ Hwf).
  destruct (filter (fun id => severity_of (state c) id > 1) (seq 1 17))
    as [|id l] eqn:Hf; [done|]. exfalso.
  assert (id ∈ filter (fun id => severity_of (state c) id > 1) (seq 1 17))
    as Hin by (rewrite Hf; left).
  apply list_elem_of_filter in Hin as [Hsev Hid]. apply elem_of_seq in Hid.
  destruct (abnormal_in_pos (state c) id) as [a Ha]; [lia|done|].
  assert (a ∈ Session.affected (state c)) as Hin.
  { apply list_elem_of_filter. split; [done|].
    rewrite !elem_of_cons. destruct a; auto. }
  rewrite Haff in Hin. by inversion Hin.
Qed.

Lemma generateConclusion_never_throws (c : t) :
  Session.well_formed c → ∃ text, generateConclusion c = Ok text.
Proof.
  intros Hc. unfold generateConclusion.
  destruct (totalAbnormal (getAbnormalSegments c) =? 0)%nat; [by eexists|].
  destruct (patternConclusion c); [by eexists|].
  rewrite (territoryConclusion_wf c Hc). by eexists.
Qed.

Lemma generateConclusion_default (c : t) :
  Session.well_formed c → state c = getDefaultState →
  generateConclusion c = Ok "".
Proof.
  intros Hc Hd. unfold generateConclusion. rewrite (totalAbnormal_wf c Hc).
  by rewrite (proj2 (abnormalIds_nil c Hc) Hd).
Qed.

Lemma generateConclusion_by_territory (c : t) :
  Session.well_formed c → patternConclusion c = None →
  state c ≠ getDefaultState →
  generateConclusion c =
    Ok (match Session.affected (state c) with
        | [territory] =>
            "Trastornos de la motilidad Segmentaria en Territorio " +:+
            artery_name territory +:+ "."
        | l =>
            Js.join ", "
              (territoryClause (Session.tier_scores (state c) 2)
                               (Session.tier_scores (state c) 3)
                               (Session.tier_scores (state c) 4) <$> l) +:+ "."
        end).
Proof.
  intros Hc Hpc Hnd.
  assert (abnormalIds (state c) ≠ []) as Hids.
  { intros H. by apply (abnormalIds_nil c Hc) in H. }
  unfold generateConclusion. rewrite (totalAbnormal_wf c Hc), Hpc.
  destruct (abnormalIds (state c)); [done|].
  cbn [length Nat.eqb]. by apply territoryConclusion_wf.
Qed.

(** X3: on a store that holds the 17 segments with severities among 1,
    2, 3, 4, [generateConclusion] never throws, whatever the name of the
    active pattern; the text is empty exactly when every segment is
    Normal, and every other text ends with a period. *)
Theorem generateConclusion_total (c : t) :
  Session.well_formed c →
  ∃ text, generateConclusion c = Ok text ∧
          (text = "" ↔ state c = getDefaultState) ∧
          (text ≠ "" → Js.endsWith text "." = true).
Proof.
  intros Hc.
  assert (∀ text, Js.endsWith text "." = true → state c ≠ getDefaultState →
                  (text = "" ↔ state c = getDefaultState) ∧
                  (text ≠ "" → Js.endsWith text "." = true)) as Hfin.
  { intros text Hdot Hnd. split; [|done]. split; [|done].
    intros ->. discriminate. }
  unfold generateConclusion. rewrite (totalAbnormal_wf c Hc).
  destruct (abnormalIds (state c)) as [|id0 ids] eqn:Hids.
  - exists "". split; [done|]. split; [|done].
    split; [|done]. intros _. by apply (abnormalIds_nil c Hc).
  - cbn [length Nat.eqb].
    assert (state c ≠ getDefaultState) as Hnd.
    { intros Hd. apply (abnormalIds_nil c Hc) in Hd. congruence. }
    destruct (patternConclusion c) as [text|] eqn:Hpc.
    + exists text. split; [done|]. apply Hfin; [|done].
      by apply (patternConclusion_dot c).
    + rewrite (territoryConclusion_wf c Hc).
      eexists. split; [reflexivity|]. apply Hfin; [|done].
      destruct (Session.affected (state c)) as [|a [|b l] ];
        rewrite <- ?str_app_assoc; apply endsWith_app_dot.
Qed.

Lemma generateConclusion_total_witness :
  ∃ text, generateConclusion tie_DA_CD = Ok text ∧
          (text = "" ↔ state tie_DA_CD = getDefaultState) ∧
          (text ≠ "" → Js.endsWith text "." = true).
Proof.
  apply (generateConclusion_total tie_DA_CD).
  unfold Session.well_formed, tie_DA_CD. cbn [state set_state]. split.
  - do 2 (apply wf_insert; [|lia]). exact wf_default.
  - do 2 (apply severities_insert; [|lia]). exact severities_default.
Defined.

Lemma abnormal_in_nonneg (o : gmap nat Z) (a : Artery) : 0 ≤ abnormal_in o a.
Proof. unfold abnormal_in. lia. Qed.

Lemma affected_single (o : gmap nat Z) (a : Artery) :
  Session.affected o = [a] →
  abnormal_in o a > 0 ∧ ∀ b, b ≠ a → ¬ abnormal_in o b > 0.
Proof.
  unfold Session.affected. rewrite !filter_cons, filter_nil.
  destruct (decide (abnormal_in o DA > 0));
    destruct (decide (abnormal_in o CD > 0));
    destruct (decide (abnormal_in o Cx > 0));
    intros [= <-]; (split; [done|]); intros b Hb; by destruct b.
Qed.

(** X4: on a store that holds the 17 segments with severities among 1,
    2, 3, 4 and has an abnormal segment, when no sentence is attached to
    the active pattern the conclusion is made from the territories that
    hold an abnormal segment, taken in the order DA, CD, Cx: if there is
    one such territory the conclusion is "Trastornos de la motilidad
    Segmentaria en Territorio" followed by its name and a period, and
    [getAffectedTerritory] returns that same territory; otherwise it is
    the list of one clause by territory, separated by commas and closed
    by a period. *)
Theorem generateConclusion_territories (c : t) :
  Session.well_formed c → patternConclusion c = None →
  state c ≠ getDefaultState →
  Session.affected (state c) ≠ [] ∧
  generateConclusion c =
    Ok (match Session.affected (state c) with
        | [territory] =>
            "Trastornos de la motilidad Segmentaria en Territorio " +:+
            artery_name territory +:+ "."
        | l =>
            Js.join ", "
              (territoryClause (Session.tier_scores (state c) 2)
                               (Session.tier_scores (state c) 3)
                               (Session.tier_scores (state c) 4) <$> l) +:+ "."
        end) ∧
  ∀ territory, Session.affected (state c) = [territory] →
               getAffectedTerritory c = Ok (Some territory).
Proof.
  intros Hc Hpc Hnd. pose proof Hc as [Hwf Hok].
  split; [by apply affected_nonempty|].
  assert (abnormalIds (state c) ≠ []) as Hids.
  { intros H. by apply (abnormalIds_nil c Hc) in H. }
  split; [by apply generateConclusion_by_territory|].
  - intros a Ha. apply affected_single in Ha as [Hpos Hzero].
    unfold getAffectedTerritory.
    destruct (count_abnormal_wf _ Hwf) as (s & Hs & Hscore). rewrite Hs.
    destruct (abnormalIds (state c)); [done|].
    cbn [length Nat.eqb mbind result_bind reduce1 foldl].
    rewrite !Hscore.
    pose proof (abnormal_in_nonneg (state c) DA).
    pose proof (abnormal_in_nonneg (state c) CD).
    pose proof (abnormal_in_nonneg (state c) Cx).
    destruct a.
    + pose proof (Hzero CD ltac:(discriminate)). pose proof (Hzero Cx ltac:(discriminate)).
      destruct (Z.gtb_spec (abnormal_in (state c) DA) (abnormal_in (state c) CD));
        [|lia].
      rewrite ?Hscore.
      destruct (Z.gtb_spec (abnormal_in (state c) DA) (abnormal_in (state c) Cx));
        [done|lia].
    + pose proof (Hzero DA ltac:(discriminate)). pose proof (Hzero Cx ltac:(discriminate)).
      destruct (Z.gtb_spec (abnormal_in (state c) DA) (abnormal_in (state c) CD));
        [lia|].
      rewrite ?Hscore.
      destruct (Z.gtb_spec (abnormal_in (state c) CD) (abnormal_in (state c) Cx));
        [done|lia].
    + pose proof (Hzero DA ltac:(discriminate)). pose proof (Hzero CD ltac:(discriminate)).
      destruct (Z.gtb_spec (abnormal_in (state c) DA) (abnormal_in (state c) CD));
        rewrite ?Hscore.
      * lia.
      * destruct (Z.gtb_spec (abnormal_in (state c) CD) (abnormal_in (state c) Cx));
          [lia|done].
Qed.

Lemma generateConclusion_territories_witness :
  Session.affected (state (set_state anterior_akinetic fresh)) ≠ [] ∧
  generateConclusion (set_state anterior_akinetic fresh) =
    Ok (match Session.affected (state (set_state anterior_akinetic fresh)) with
        | [territory] =>
            "Trastornos de la motilidad Segmentaria en Territorio " +:+
            artery_name territory +:+ "."
        | l =>
            Js.join ", "
              (territoryClause
                 (Session.tier_scores (state (set_state anterior_akinetic fresh)) 2)
                 (Session.tier_scores (state (set_state anterior_akinetic fresh)) 3)
                 (Session.tier_scores (state (set_state anterior_akinetic fresh)) 4)
                 <$> l) +:+ "."
        end) ∧
  ∀ territory,
    Session.affected (state (set_state anterior_akinetic fresh)) = [territory] →
    getAffectedTerritory (set_state anterior_akinetic fresh) = Ok (Some territory).
Proof.
  apply (generateConclusion_territories (set_state anterior_akinetic fresh)).
  - unfold Session.well_formed, anterior_akinetic. cbn [state set_state]. split.
    + do 3 (apply wf_insert; [|lia]). exact wf_default.
    + do 3 (apply severities_insert; [|lia]). exact severities_default.
  - reflexivity.
  - intros H. apply (f_equal (fun o : gmap nat Z => o !! 1%nat)) in H.
    vm_compute in H. discriminate.
Defined.

(** ** Patterns of the library *)

Lemma setItem_lookup (key value : string) (c : t) :
  storage (setItem key value c) !! key = Some value.
Proof. unfold setItem. cbn [storage]. by rewrite lookup_insert_eq. Qed.

Lemma setPattern_storage (key : string) (p : Pattern) (c : t) :
  PATTERNS key = Some p →
  storage (setPattern key c) =
  <["motility-state" := JSON_stringify (state (setPattern key c))]>
    (<["motility-pattern" := key]> (storage c)).
Proof.
  intros Hp. unfold setPattern.
  destruct (PATTERNS_ok key p Hp) as (_ & _ & Hlen & Hnone & _).
  by rewrite Hp, Hnone, Hlen.
Qed.

(** X5: applying a pattern of the library to a store that holds the 17
    segments discards whatever the store held: every segment of the
    pattern takes the severity of the pattern and every other segment
    becomes Normal; the abnormal segments read back are the segments of
    the pattern, all in the tier of its severity (none for the severity
    Normal); the name is recorded, and the local storage holds the new
    name and the serialisation of the new store. *)
Theorem setPattern_library (key : string) (p : Pattern) (c : t) :
  wf_state (state c) → PATTERNS key = Some p →
  pattern (setPattern key c) = key ∧
  (∀ id, (1 ≤ id ≤ 17)%nat →
         severity_of (state (setPattern key c)) id =
         if decide (id ∈ affectedSegments p) then severity p else 1) ∧
  getAbnormalSegments (setPattern key c) = Session.tiers_of p ∧
  Session.well_formed (setPattern key c) ∧
  Session.persisted (setPattern key c) ∧
  Session.pattern_persisted (setPattern key c).
Proof.
  intros Hwf Hp.
  destruct (setPattern_state key c) as [Hpat Hst]. rewrite Hp in Hst.
  rewrite (all_normal_wf _ Hwf) in Hst.
  destruct (PATTERNS_ok key p Hp) as (Hids & Hsev & _).
  split; [done|]. split; [|split; [|split; [|split] ] ].
  - intros id Hid. unfold severity_of. rewrite Hst, lookup_foldl_insert.
    destruct (decide (id ∈ affectedSegments p)); [done|].
    unfold getDefaultState. rewrite lookup_all_normal. by rewrite decide_True.
  - rewrite (getAbnormalSegments_ext _ (mk (Session.applied p) key ∅ []) Hst).
    assert (forallb Session.pattern_tiers_ok PATTERN_TABLE = true) as Hall
      by (vm_compute; reflexivity).
    rewrite forallb_forall in Hall.
    apply PATTERNS_table, list_elem_of_In in Hp. specialize (Hall _ Hp).
    unfold Session.pattern_tiers_ok in Hall.
    by apply bool_decide_eq_true in Hall.
  - unfold Session.well_formed. rewrite Hst. split.
    + apply foldl_insert_wf; [exact wf_default|done].
    + apply foldl_insert_severities; [exact severities_default|done].
  - unfold Session.persisted. rewrite (setPattern_storage key p c Hp).
    by rewrite lookup_insert_eq.
  - unfold Session.pattern_persisted. rewrite (setPattern_storage key p c Hp), Hpat.
    rewrite lookup_insert_ne by done. by rewrite lookup_insert_eq.
Qed.

Lemma setPattern_library_witness :
  pattern (setPattern "chagas" tie_DA_CD) = "chagas" ∧
  (∀ id, (1 ≤ id ≤ 17)%nat →
         severity_of (state (setPattern "chagas" tie_DA_CD)) id =
         if decide (id ∈ [4; 10; 17]%nat) then 2 else 1) ∧
  getAbnormalSegments (setPattern "chagas" tie_DA_CD) =
    mkAbnormal [4; 10; 17]%nat [] [] ∧
  Session.well_formed (setPattern "chagas" tie_DA_CD) ∧
  Session.persisted (setPattern "chagas" tie_DA_CD) ∧
  Session.pattern_persisted (setPattern "chagas" tie_DA_CD).
Proof.
  apply (setPattern_library "chagas"
           (mkPattern "Chagas"
              "Patrón típico: aneurisma apical + compromiso inferobasal"
              [4; 10; 17]%nat 2 cardiomyopathy false) tie_DA_CD).
  - unfold tie_DA_CD. cbn [state set_state].
    do 2 (apply wf_insert; [|lia]). exact wf_default.
  - reflexivity.
Defined.

(** ** Decimal numerals *)

Lemma is_digit_cases (c : ascii) :
  JSON.is_digit c = true →
  c ∈ ["0"; "1"; "2"; "3"; "4"; "5"; "6"; "7"; "8"; "9"]%char.
Proof.
  destruct c as [b0 b1 b2 b3 b4 b5 b6 b7].
  destruct b0, b1, b2, b3, b4, b5, b6, b7; intros H;
    first [discriminate H | rewrite !elem_of_cons; auto 11].
Qed.

Lemma pretty_N_char_digit (m : N) :
  (m < 10)%N →
  JSON.is_digit (pretty_N_char m) = true ∧
  Z.of_nat (nat_of_ascii (pretty_N_char m) - 48) = Z.of_N m ∧
  (m ≠ 0%N → nat_of_ascii (pretty_N_char m) ≠ 48%nat).
Proof.
  intros Hm.
  assert (m = 0 ∨ m = 1 ∨ m = 2 ∨ m = 3 ∨ m = 4 ∨ m = 5 ∨ m = 6 ∨ m = 7 ∨
          m = 8 ∨ m = 9)%N as Hc by lia.
  repeat destruct Hc as [->|Hc]; try subst m; by vm_compute.
Qed.

Lemma all_digit_app (a b : string) :
  forallb JSON.is_digit (list_ascii_of_string (a +:+ b)) =
  forallb JSON.is_digit (list_ascii_of_string a) &&
  forallb JSON.is_digit (list_ascii_of_string b).
Proof.
  induction a as [|c a IH]; [done|].
  rewrite str_app_cons. simpl. by rewrite IH, andb_assoc.
Qed.

Lemma digits_value_app (a b : string) (acc : Z) :
  JSON.digits_value acc (a +:+ b) = JSON.digits_value (JSON.digits_value acc a) b.
Proof.
  revert acc. induction a as [|c a IH]; intros acc; [done|].
  rewrite str_app_cons. simpl. by rewrite IH.
Qed.

Lemma pretty_N_go_spec (x : N) (s : string) :
  ∃ d, pretty_N_go x s = d +:+ s ∧
       forallb JSON.is_digit (list_ascii_of_string d) = true ∧
       JSON.digits_value 0 d = Z.of_N x ∧
       ((0 < x)%N → ∃ c r, d = String c r ∧ nat_of_ascii c ≠ 48%nat).
Proof.
  revert s. induction (N.lt_wf_0 x) as [x _ IH]. intros s.
  assert (x = 0 ∨ 0 < x)%N as [->|Hx] by lia.
  - exists "". rewrite pretty_N_go_0. repeat split. lia.
  - rewrite pretty_N_go_step by done.
    assert (x `mod` 10 < 10)%N as Hm by (apply N.mod_lt; lia).
    destruct (pretty_N_char_digit _ Hm) as (Hdig & Hval & Hlead).
    destruct (IH (x `div` 10)%N (N.div_lt x 10 Hx eq_refl)
                 (String (pretty_N_char (x `mod` 10)) s))
      as (d & Hd & Hall & Hv & Hfirst).
    exists (d +:+ String (pretty_N_char (x `mod` 10)) "").
    split; [by rewrite Hd, str_app_assoc|].
    split; [rewrite all_digit_app, Hall; simpl; by rewrite Hdig|].
    split.
    + rewrite digits_value_app, Hv. simpl. rewrite Hval.
      pose proof (N.div_mod x 10 ltac:(lia)) as Hdm.
      apply (f_equal Z.of_N) in Hdm. rewrite N2Z.inj_add, N2Z.inj_mul in Hdm.
      change (Z.of_N 10) with 10 in Hdm. symmetry. exact Hdm.
    + intros _.
      assert (x `div` 10 = 0 ∨ 0 < x `div` 10)%N as [H0|Hpos].
      { destruct (decide (x `div` 10 = 0)%N) as [?|Hne]; [by left|right].
        by apply N.neq_0_lt_0. }
      * rewrite H0, pretty_N_go_0 in Hd.
        assert (d = "") as ->.
        { destruct d as [|c d]; [done|]. exfalso.
          apply (f_equal String.length) in Hd. rewrite str_app_length in Hd.
          simpl in Hd. lia. }
        eexists _, _. split; [reflexivity|]. apply Hlead.
        intros Hmod. pose proof (N.div_mod x 10 ltac:(lia)) as Hdm.
        rewrite H0, Hmod in Hdm. lia.
      * destruct (Hfirst Hpos) as (c & r & -> & Hc).
        rewrite str_app_cons. by eexists _, _.
Qed.

Lemma pretty_N_spec (x : N) :
  ∃ c r, pretty x = String c r ∧
         forallb JSON.is_digit (list_ascii_of_string (pretty x)) = true ∧
         JSON.digits_value 0 (pretty x) = Z.of_N x ∧
         (nat_of_ascii c ≠ 48%nat ∨ r = "").
Proof.
  unfold pretty, pretty_N. destruct (decide (x = 0%N)) as [->|Hx].
  - exists "0"%char, "". repeat split. by right.
  - destruct (pretty_N_go_spec x "") as (d & Hd & Hall & Hv & Hfirst).
    rewrite str_app_nil_r in Hd. rewrite Hd.
    destruct Hfirst as (c & r & -> & Hc); [lia|].
    exists c, r. repeat split; try done. by left.
Qed.

(** ** Reading back what [JSON.stringify] writes *)

Lemma digits_app (d tail : string) :
  forallb JSON.is_digit (list_ascii_of_string d) = true →
  match tail with String c _ => JSON.is_digit c = false | EmptyString => True end →
  JSON.digits (d +:+ tail) = (d, tail).
Proof.
  intros Hd Ht. induction d as [|c d IH].
  - destruct tail as [|c t]; [done|]. simpl. by rewrite Ht.
  - simpl in Hd. apply andb_prop in Hd as [Hc Hd].
    rewrite str_app_cons. simpl. by rewrite Hc, (IH Hd).
Qed.

Lemma string_body_digits (d rest : string) :
  forallb JSON.is_digit (list_ascii_of_string d) = true →
  JSON.string_body (d +:+ String JSON.quote_char rest) = Some (d, rest).
Proof.
  intros Hd. induction d as [|c d IH]; [done|].
  simpl in Hd. apply andb_prop in Hd as [Hc Hd].
  rewrite str_app_cons. cbn [JSON.string_body].
  unfold JSON.is_digit in Hc. apply andb_prop in Hc as [H1 H2].
  apply Nat.leb_le in H1, H2.
  rewrite (proj2 (Nat.eqb_neq _ 34)) by lia.
  rewrite (proj2 (Nat.eqb_neq _ 92)) by lia.
  rewrite (proj2 (Nat.ltb_ge _ 32)) by lia.
  by rewrite (IH Hd).
Qed.

Lemma sign_digit (c : ascii) (rest : string) :
  JSON.is_digit c = true →
  match String c rest with
  | String "-"%char r => (true, r)
  | _ => (false, String c rest)
  end = (false, String c rest).
Proof.
  intros Hc. apply is_digit_cases in Hc.
  repeat (apply elem_of_cons in Hc as [->|Hc]; [reflexivity|]).
  by inversion Hc.
Qed.

Lemma number_signed (neg : bool) (c : ascii) (r tail : string)
    (t : string) (sep : ascii) :
  forallb JSON.is_digit (list_ascii_of_string (String c r)) = true →
  nat_of_ascii c ≠ 48%nat ∨ r = "" →
  tail = String sep t → sep = ","%char ∨ sep = "}"%char →
  JSON.number ((if neg then "-" else "") +:+ String c r +:+ tail) =
  Some (JSON.JNumber (if neg then - JSON.digits_value 0 (String c r)
                      else JSON.digits_value 0 (String c r)) 0, tail).
Proof.
  intros Hall Hlead -> Hsep.
  assert (JSON.is_digit c = true) as Hc.
  { simpl in Hall. by apply andb_prop in Hall as [? _]. }
  assert ((nat_of_ascii c =? 48)%nat && negb (String.eqb r "") = false) as Hz.
  { destruct Hlead as [Hne| ->].
    - by rewrite (proj2 (Nat.eqb_neq _ 48)).
    - by rewrite andb_false_r. }
  unfold JSON.number. destruct neg.
  - rewrite str_app_cons. cbv beta iota.
    change ("" +:+ String c r +:+ String sep t) with (String c r +:+ String sep t).
    rewrite (digits_app (String c r) (String sep t) Hall)
      by (destruct Hsep as [-> | ->]; reflexivity).
    cbv beta iota. rewrite Hz.
    destruct Hsep as [-> | ->]; cbn [mbind option_bind]; cbv beta iota;
      rewrite str_app_nil_r; reflexivity.
  - change ("" +:+ String c r +:+ String sep t) with (String c r +:+ String sep t).
    rewrite str_app_cons, (sign_digit c _ Hc).
    rewrite <- str_app_cons, (digits_app (String c r) (String sep t) Hall)
      by (destruct Hsep as [-> | ->]; reflexivity).
    cbv beta iota. rewrite Hz.
    destruct Hsep as [-> | ->]; cbn [mbind option_bind]; cbv beta iota;
      rewrite str_app_nil_r; reflexivity.
Qed.

Lemma number_pretty (v : Z) (t : string) (sep : ascii) :
  sep = ","%char ∨ sep = "}"%char →
  JSON.number (pretty v +:+ String sep t) = Some (JSON.JNumber v 0, String sep t).
Proof.
  intros Hsep. destruct v as [|p|p].
  - exact (number_signed false "0" "" _ t sep eq_refl (or_intror eq_refl) eq_refl Hsep).
  - change (pretty (Z.pos p)) with (pretty (N.pos p)).
    destruct (pretty_N_spec (N.pos p)) as (c & r & Hp & Hall & Hv & Hlead).
    rewrite Hp in *.
    pose proof (number_signed false c r _ t sep Hall Hlead eq_refl Hsep) as H.
    rewrite Hv in H. exact H.
  - change (pretty (Z.neg p)) with ("-" +:+ pretty (N.pos p)).
    destruct (pretty_N_spec (N.pos p)) as (c & r & Hp & Hall & Hv & Hlead).
    rewrite Hp in *. rewrite str_app_assoc.
    pose proof (number_signed true c r _ t sep Hall Hlead eq_refl Hsep) as H.
    rewrite Hv in H. exact H.
Qed.

Lemma key_id_pretty (k : nat) : key_id (pretty k) = Some k.
Proof.
  change (pretty k) with (pretty (N.of_nat k)).
  destruct (pretty_N_spec (N.of_nat k)) as (c & r & Hp & Hall & Hv & Hlead).
  rewrite Hp in *. unfold key_id. rewrite Hall, Hv.
  assert (negb (nat_of_ascii c =? 48)%nat || String.eqb r "" = true) as ->.
  { destruct Hlead as [Hne| ->]; [|by rewrite orb_true_r].
    by rewrite (proj2 (Nat.eqb_neq _ 48)). }
  simpl. f_equal. lia.
Qed.

Lemma pretty_nat_digits (k : nat) :
  forallb JSON.is_digit (list_ascii_of_string (pretty k)) = true.
Proof.
  change (pretty k) with (pretty (N.of_nat k)).
  by destruct (pretty_N_spec (N.of_nat k)) as (c & r & Hp & Hall & _).
Qed.

Lemma pretty_Z_head (v : Z) :
  ∃ c r, pretty v = String c r ∧ JSON.is_json_ws c = false ∧
         (JSON.is_digit c = true ∨ c = "-"%char).
Proof.
  assert (∀ x : N, ∃ c r, pretty x = String c r ∧ JSON.is_digit c = true) as HN.
  { intros x. destruct (pretty_N_spec x) as (c & r & Hp & Hall & _).
    exists c, r. split; [done|]. rewrite Hp in Hall. simpl in Hall.
    by apply andb_prop in Hall as [? _]. }
  assert (∀ c, JSON.is_digit c = true → JSON.is_json_ws c = false) as Hws.
  { intros c Hc. apply is_digit_cases in Hc.
    repeat (apply elem_of_cons in Hc as [->|Hc]; [reflexivity|]).
    by inversion Hc. }
  destruct v as [|p|p].
  - exists "0"%char, "". repeat split. by left.
  - destruct (HN (N.pos p)) as (c & r & Hp & Hc). exists c, r.
    split; [exact Hp|]. split; [by apply Hws|by left].
  - destruct (HN (N.pos p)) as (c & r & Hp & Hc).
    exists "-"%char, (String c r). split; [|split; [done|by right] ].
    change (pretty (Z.neg p)) with ("-" +:+ pretty (N.pos p)). by rewrite Hp.
Qed.

Lemma parse_value_pretty (fuel : nat) (v : Z) (t : string) (sep : ascii) :
  sep = ","%char ∨ sep = "}"%char →
  JSON.parse_value (S fuel) (pretty v +:+ String sep t) =
  Some (JSON.JNumber v 0, String sep t).
Proof.
  intros Hsep. cbn [JSON.parse_value]. unfold JSON.value_step.
  pose proof (number_pretty v t sep Hsep) as Hnum.
  destruct (pretty_Z_head v) as (c & r & Hp & Hws & Hc).
  rewrite Hp in *. rewrite str_app_cons in *.
  cbn [JSON.skip_ws]. rewrite Hws.
  assert (∀ n, n ∈ [123; 91; 34; 116; 102; 110]%nat →
               (nat_of_ascii c =? n)%nat = false) as Hcode.
  { intros n Hn. apply Nat.eqb_neq. intros Heq.
    destruct Hc as [Hc| ->].
    - unfold JSON.is_digit in Hc. apply andb_prop in Hc as [H1 H2].
      apply Nat.leb_le in H1, H2. rewrite !elem_of_cons in Hn.
      destruct Hn as [-> | [-> | [-> | [-> | [-> | [-> | Hn] ] ] ] ] ];
        [lia..|by inversion Hn].
    - rewrite !elem_of_cons in Hn. change (45%nat = n) in Heq.
      destruct Hn as [-> | [-> | [-> | [-> | [-> | [-> | Hn] ] ] ] ] ];
        [lia..|by inversion Hn]. }
  cbv zeta.
  rewrite !Hcode by (rewrite !elem_of_cons; auto 10).
  rewrite Hnum. cbn [mbind option_bind].
  by destruct Hsep as [-> | ->].
Qed.

Lemma dquote_app (x : string) : dquote +:+ x = String JSON.quote_char x.
Proof. reflexivity. Qed.

Lemma members_step_entry
    (value_of : string → option (JSON.value * string))
    (members : string → option (list (string * JSON.value) * string))
    (kv : nat * Z) (t : string) (sep : ascii) :
  value_of (pretty kv.2 +:+ String sep t) =
    Some (JSON.JNumber kv.2 0, String sep t) →
  JSON.members_step value_of members (Session.member_text kv +:+ String sep t) =
  match JSON.expect 44 (String sep t) with
  | Some r4 =>
      '(ms, rest) ← members r4; Some (Session.to_member kv :: ms, rest)
  | None =>
      rest ← JSON.expect 125 (String sep t); Some ([Session.to_member kv], rest)
  end.
Proof.
  intros Hv. unfold JSON.members_step, Session.member_text.
  rewrite !str_app_assoc, !dquote_app.
  change (JSON.skip_ws (String JSON.quote_char ?x)) with (String JSON.quote_char x).
  change (JSON.expect 34 (String JSON.quote_char ?x)) with (Some x).
  cbn [mbind option_bind].
  rewrite (string_body_digits (pretty kv.1) _ (pretty_nat_digits kv.1)).
  cbn [mbind option_bind]. cbv beta iota.
  change (":" +:+ ?x) with (String ":"%char x).
  change (JSON.skip_ws (String ":"%char ?x)) with (String ":"%char x).
  change (JSON.expect 58 (String ":"%char ?x)) with (Some x).
  cbn [mbind option_bind].
  rewrite Hv. reflexivity.
Qed.

Lemma join_cons2 (sep x y : string) (l : list string) :
  Js.join sep (x :: y :: l) = x +:+ sep +:+ Js.join sep (y :: l).
Proof. reflexivity. Qed.

Lemma parse_members_entries (l : list (nat * Z)) (fuel : nat) (rest : string) :
  l ≠ [] → (length l < fuel)%nat →
  JSON.parse_members fuel
    (Js.join "," (Session.member_text <$> l) +:+ "}" +:+ rest) =
  Some (Session.to_member <$> l, rest).
Proof.
  revert fuel. induction l as [|kv l IH]; intros fuel Hne Hfuel; [done|].
  destruct fuel as [|fuel]; [simpl in Hfuel; lia|].
  destruct fuel as [|fuel]; [simpl in Hfuel; lia|].
  cbn [JSON.parse_members]. destruct l as [|kv' l].
  - cbn [fmap list_fmap Js.join].
    change ("}" +:+ rest) with (String "}"%char rest).
    rewrite (members_step_entry _ _ kv rest "}"%char);
      [reflexivity|apply parse_value_pretty; by right].
  - rewrite !fmap_cons, join_cons2, !str_app_assoc.
    change ("," +:+ ?x) with (String ","%char x).
    rewrite (members_step_entry _ _ kv _ ","%char)
      by (apply parse_value_pretty; by left).
    change (JSON.expect 44 (String ","%char ?x)) with (Some x).
    cbv beta iota. rewrite <- !fmap_cons.
    change (JSON.members_step (JSON.parse_value fuel) (JSON.parse_members fuel))
      with (JSON.parse_members (S fuel)).
    rewrite (IH (S fuel)); [reflexivity|done|simpl in *; lia].
Qed.

Lemma join_length (l : list (nat * Z)) :
  (length l ≤ String.length (Js.join "," (Session.member_text <$> l)))%nat.
Proof.
  induction l as [|kv l IH]; [done|]. destruct l as [|kv' l].
  - cbn [fmap list_fmap Js.join]. unfold Session.member_text.
    rewrite dquote_app. simpl. lia.
  - rewrite !fmap_cons, join_cons2, <- !fmap_cons, !str_app_length.
    unfold Session.member_text at 1. rewrite dquote_app. simpl in *. lia.
Qed.

Lemma parse_stringify (o : gmap nat Z) :
  JSON.parse (JSON_stringify o) =
  Ok (JSON.JObject (Session.to_member <$> Object_entries o)).
Proof.
  unfold JSON_stringify.
  change (fun kv : nat * Z => dquote +:+ pretty kv.1 +:+ dquote +:+ ":" +:+ pretty kv.2)
    with Session.member_text.
  pose proof (join_length (Object_entries o)) as Hlen.
  unfold JSON.parse. rewrite str_app_cons. cbn [String.length JSON.parse_value].
  change ("" +:+ ?x) with x.
  unfold JSON.value_step. cbn [JSON.skip_ws].
  change (JSON.is_json_ws "{") with false. cbv beta iota zeta.
  change (nat_of_ascii "{" =? 123)%nat with true. cbv beta iota.
  destruct (Object_entries o) as [|kv l] eqn:Hentries.
  - reflexivity.
  - assert (∃ x, Js.join "," (Session.member_text <$> kv :: l) +:+ "}" =
                 String JSON.quote_char x) as [x Hx].
    { destruct l as [|kv' l'].
      - cbn [fmap list_fmap Js.join]. unfold Session.member_text.
        rewrite !str_app_assoc, dquote_app. by eexists.
      - rewrite !fmap_cons, join_cons2. unfold Session.member_text at 1.
        rewrite !str_app_assoc, dquote_app. by eexists. }
    rewrite Hx at 1.
    change (JSON.expect 125 (JSON.skip_ws (String JSON.quote_char x))) with (@None string).
    cbv beta iota.
    pose proof (parse_members_entries (kv :: l)
                  (S (String.length
                        (Js.join "," (Session.member_text <$> kv :: l) +:+ "}")))
                  "") as Hm.
    change ("}" +:+ "") with "}" in Hm. rewrite Hm; [reflexivity|done|].
    rewrite str_app_length. simpl in *. lia.
Qed.

Lemma integer_of_0 (v : Z) : integer_of v 0 = Some v.
Proof. unfold integer_of. simpl. by rewrite Z.mul_1_r. Qed.

Lemma store_of_members_entries (l : list (nat * Z)) (acc : gmap nat Z) :
  foldl (fun acc kv =>
           o ← acc;
           id ← key_id kv.1;
           match kv.2 with
           | JSON.JNumber m e => v ← integer_of m e; Some (<[id := v]> o)
           | _ => None
           end)
        (Some acc) (Session.to_member <$> l) =
  Some (foldl (fun a kv => <[kv.1 := kv.2]> a) acc l).
Proof.
  revert acc. induction l as [|kv l IH]; intros acc; [done|].
  rewrite fmap_cons. cbn [foldl]. rewrite <- IH. f_equal.
  unfold Session.to_member. cbn [fst snd mbind option_bind].
  rewrite key_id_pretty. cbn [mbind option_bind].
  by rewrite integer_of_0.
Qed.

Lemma lookup_foldl_entries (g : nat → Z) (ids : list nat) (acc : gmap nat Z) (k : nat) :
  foldl (fun a kv => <[kv.1 := kv.2]> a) acc ((fun id => (id, g id)) <$> ids) !! k =
  if decide (k ∈ ids) then Some (g k) else acc !! k.
Proof.
  revert acc. induction ids as [|id ids IH]; intros acc.
  - destruct (decide (k ∈ [])) as [Hin|_]; [|done]. by inversion Hin.
  - rewrite fmap_cons. cbn [foldl fst snd]. rewrite IH.
    destruct (decide (k ∈ ids)) as [Hin|Hnin];
      destruct (decide (k ∈ id :: ids)) as [Hin'|Hnin']; try done.
    + exfalso. apply Hnin'. by right.
    + apply elem_of_cons in Hin' as [->|?]; [|done].
      by rewrite lookup_insert_eq.
    + rewrite lookup_insert_ne; [done|]. intros ->. apply Hnin'. by left.
Qed.

Lemma store_of_entries_wf (o : gmap nat Z) :
  wf_state o →
  store_of_members (Session.to_member <$> Object_entries o) = Some o.
Proof.
  intros Hwf. unfold store_of_members. rewrite store_of_members_entries.
  f_equal. apply map_eq. intros k.
  rewrite (Object_entries_wf o Hwf), lookup_foldl_entries.
  destruct (decide (k ∈ seq 1 17)) as [Hin|Hnin]; rewrite elem_of_seq in *.
  - symmetry. apply (wf_lookup o Hwf). lia.
  - rewrite lookup_empty. symmetry. apply (wf_lookup_None o Hwf). lia.
Qed.

(** X6: a store that holds the 17 segments with severities among 1, 2,
    3, 4 survives its serialisation: [JSON.parse] reads the text of
    [JSON.stringify] without error, the value it returns is an object,
    and that object holds the same severity for the same ids, and
    nothing else. *)
Theorem stringify_round_trip (o : gmap nat Z) :
  wf_state o → severities_ok o →
  ∃ ms, JSON.parse (JSON_stringify o) = Ok (JSON.JObject ms) ∧
        JSON.truthy (JSON.JObject ms) = true ∧
        store_of_members ms = Some o.
Proof.
  intros Hwf _. exists (Session.to_member <$> Object_entries o).
  split; [apply parse_stringify|]. split; [done|].
  by apply store_of_entries_wf.
Qed.

Lemma stringify_round_trip_witness :
  ∃ ms, JSON.parse (JSON_stringify anterior_akinetic) = Ok (JSON.JObject ms) ∧
        JSON.truthy (JSON.JObject ms) = true ∧
        store_of_members ms = Some anterior_akinetic.
Proof.
  apply (stringify_round_trip anterior_akinetic).
  - unfold anterior_akinetic. do 3 (apply wf_insert; [|lia]). exact wf_default.
  - unfold anterior_akinetic.
    do 3 (apply severities_insert; [|lia]). exact severities_default.
Defined.

(** ** Reloading the page *)

Lemma stringify_nonempty (o : gmap nat Z) : String.eqb (JSON_stringify o) "" = false.
Proof. reflexivity. Qed.

Lemma reload_in_sync (c : t) :
  wf_state (state c) → Session.in_sync c →
  Session.reload c = Some (mk (state c) (pattern c) (storage c) []).
Proof.
  intros Hwf [Hstate Hpattern].
  unfold Session.reload, constructor, loadFromStorage.
  destruct Hstate as [Hsaved|[Hnone Hdefault] ].
  - rewrite Hsaved, stringify_nonempty, parse_stringify.
    cbn [mbind result_bind JSON.truthy]. unfold controller_of. cbn [fst snd].
    rewrite (store_of_entries_wf _ Hwf). cbn [mbind option_bind].
    by rewrite Hpattern.
  - rewrite Hnone. cbn [mbind result_bind]. unfold controller_of. cbn [fst snd].
    by rewrite Hpattern, Hdefault.
Qed.

Lemma initialPattern_insert_state (text : string) (store : gmap string string) :
  initialPattern (<["motility-state" := text]> store) = initialPattern store.
Proof. unfold initialPattern. by rewrite lookup_insert_ne. Qed.

Lemma initialPattern_insert_pattern (name : string) (store : gmap string string) :
  name ≠ "" → initialPattern (<["motility-pattern" := name]> store) = name.
Proof.
  intros Hne. unfold initialPattern. rewrite lookup_insert_eq.
  by apply String.eqb_neq in Hne as ->.
Qed.

Lemma in_sync_saved (c : t) (o : gmap nat Z) :
  Session.in_sync c →
  Session.in_sync
    (mk o (pattern c) (<["motility-state" := JSON_stringify o]> (storage c)) []).
Proof.
  intros [_ Hp]. split; cbn [state storage pattern].
  - left. by rewrite lookup_insert_eq.
  - by rewrite initialPattern_insert_state.
Qed.

Lemma in_sync_ext (c d : t) :
  state c = state d → pattern c = pattern d → storage c = storage d →
  Session.in_sync c → Session.in_sync d.
Proof. unfold Session.in_sync. by intros -> -> ->. Qed.

Lemma setPattern_storage_none (name : string) (c : t) :
  PATTERNS name = None →
  storage (setPattern name c) = <["motility-pattern" := name]> (storage c).
Proof.
  intros Hp. unfold setPattern. rewrite Hp.
  by destruct (String.eqb name "none").
Qed.

Lemma perform_in_sync (a : Session.Action) (c c' : t) :
  Session.on_page a → Session.in_sync c →
  Session.perform a c = Some c' → Session.in_sync c'.
Proof.
  intros [Ha Hname] Hsync. destruct a as [id|id v|name|]; cbn [Session.perform].
  - unfold toggleSegment. destruct (state c !! id) as [cur|]; [|discriminate].
    intros [= <-].
    by apply (in_sync_ext _ _ eq_refl eq_refl eq_refl
                (in_sync_saved c (<[id := Z.rem cur 4 + 1]> (state c)) Hsync)).
  - intros [= <-]. unfold setSegmentState.
    destruct ((1 <=? v) && (v <=? 4)); [|done].
    by apply (in_sync_ext _ _ eq_refl eq_refl eq_refl
                (in_sync_saved c (<[id := v]> (state c)) Hsync)).
  - intros [= <-]. destruct Hsync as [Hstate Hpattern].
    destruct (setPattern_state name c) as [Hpat Hst].
    destruct (PATTERNS name) as [p|] eqn:Hp.
    + split.
      * left. rewrite (setPattern_storage name p c Hp). by rewrite lookup_insert_eq.
      * rewrite (setPattern_storage name p c Hp), initialPattern_insert_state, Hpat.
        by apply initialPattern_insert_pattern.
    + split.
      * rewrite (setPattern_storage_none name c Hp), Hst.
        by rewrite lookup_insert_ne.
      * rewrite (setPattern_storage_none name c Hp), Hpat.
        by apply initialPattern_insert_pattern.
  - intros [= <-]. split.
    + left. unfold reset. cbn [state storage updatePreview updateUI notifyListeners
                                setItem saveToStorage set_pattern set_state].
      rewrite lookup_insert_ne by done. by rewrite lookup_insert_eq.
    + unfold reset. cbn [pattern storage updatePreview updateUI notifyListeners
                         setItem saveToStorage set_pattern set_state].
      by apply initialPattern_insert_pattern.
Qed.

(** X7: the local storage always holds what a reload needs.  From a
    controller whose store holds the 17 segments with severities among 1,
    2, 3, 4 and whose storage agrees with it (as on a first visit, with
    nothing stored), after any sequence of operations of the page the
    constructor run on the storage written so far does not throw, and the
    controller it builds holds the same severities and the same active
    pattern as the controller that was left. *)
Theorem session_reload (l : list Session.Action) (c : t) :
  Session.well_formed c → Session.in_sync c → Forall Session.on_page l →
  ∃ c', Session.performAll l c = Some c' ∧
        Session.reload c' = Some (mk (state c') (pattern c') (storage c') []).
Proof.
  intros Hc Hsync Hall. revert c Hc Hsync.
  induction Hall as [|a l Ha _ IH]; intros c Hc Hsync.
  - exists c. split; [done|]. apply reload_in_sync; [apply Hc|done].
  - destruct (perform_well_formed a c Hc (proj1 Ha)) as (c1 & H1 & Hc1).
    destruct (IH c1 Hc1 (perform_in_sync a c c1 Ha Hsync H1)) as (c' & H' & Hr).
    exists c'. split; [|done]. by rewrite (performAll_cons a l c c1 H1).
Qed.

Lemma session_reload_witness :
  ∃ c', Session.performAll
          [Session.Toggle 3; Session.SetPattern "chagas"; Session.Toggle 17;
           Session.SetState 5 4] fresh = Some c' ∧
        Session.reload c' = Some (mk (state c') (pattern c') (storage c') []).
Proof.
  apply (session_reload
           [Session.Toggle 3; Session.SetPattern "chagas"; Session.Toggle 17;
            Session.SetState 5 4] fresh).
  - split; [exact wf_default|exact severities_default].
  - split; [right; split; reflexivity|reflexivity].
  - repeat constructor; simpl; try lia; discriminate.
Defined.

(** ** Estimates read from the index *)

Lemma sum_checks (sum : Z) :
  17 ≤ sum ≤ 68 → MotilityEstimates.sum_check sum = true.
Proof.
  intros Hs.
  assert (forallb MotilityEstimates.sum_check (seqZ 17 52) = true) as Hall
    by (vm_compute; reflexivity).
  rewrite forallb_forall in Hall. apply Hall, list_elem_of_In, elem_of_seqZ. lia.
Qed.

Lemma index_tests (c : t) :
  Session.well_formed c →
  let wmsi := JsNum.parseFloat (calculateWMSI c) in
  MotilityEstimates.estimateOf wmsi =
    MotilityEstimates.estimateBySum (ordinal_sum (state c)) ∧
  JsNum.gt wmsi (JsNum.Fin (15 # 10)) = (26 <=? ordinal_sum (state c)) ∧
  MotilityEstimates.same wmsi (JsNum.Fin 1) = (ordinal_sum (state c) =? 17).
Proof.
  intros [Hwf Hok]. unfold calculateWMSI. rewrite (state_sum_wf _ Hwf).
  pose proof (sum_checks _ (ordinal_sum_bounds _ Hwf Hok)) as Hc.
  unfold MotilityEstimates.sum_check in Hc.
  apply andb_prop in Hc as [Hc H3]. apply andb_prop in Hc as [H1 H2].
  apply bool_decide_eq_true in H1. apply Bool.eqb_prop in H2, H3.
  by cbv zeta.
Qed.

Lemma sum_ones (l : list Z) :
  Forall (fun v => 1 ≤ v ≤ 4) l →
  foldr Z.add 0 l = Z.of_nat (length l) → Forall (fun v => v = 1) l.
Proof.
  induction 1 as [|v l Hv Hl IH]; [constructor|]. simpl. intros Hsum.
  pose proof (sum_bounds l Hl) as Hb.
  constructor; [lia|]. apply IH. lia.
Qed.

Lemma ordinal_sum_17 (c : t) :
  Session.well_formed c →
  ordinal_sum (state c) = 17 ↔ state c = getDefaultState.
Proof.
  intros Hc. pose proof Hc as [Hwf Hok]. split.
  - intros Hsum. apply (abnormalIds_nil c Hc). rewrite (abnormalIds_wf _ Hwf).
    unfold ordinal_sum in Hsum.
    pose proof (sum_ones (severity_of (state c) <$> seq 1 17)) as Hones.
    rewrite length_fmap, length_seq in Hones.
    specialize (Hones (proj2 (Forall_fmap _ _ _) (severities_seq _ Hwf Hok)) Hsum).
    apply Forall_fmap in Hones. clear Hsum.
    induction Hones as [|id l Hid _ IH]; [done|].
    rewrite filter_cons. simpl in Hid.
    destruct (decide (severity_of (state c) id > 1)); [lia|exact IH].
  - intros ->. reflexivity.
Qed.

(** X8: on a store that holds the 17 segments with severities among 1,
    2, 3, 4, the estimate of the ejection fraction is decided by the sum
    of the 17 severities, that is by the points above 17 that the
    abnormal segments add: none gives 55-65% (normal), 1 to 3 points give
    45-55%, 4 to 8 give 35-45%, 9 to 17 give 25-30%, 18 or more give
    less than 25%; the category is normal exactly when every segment is
    Normal. *)
Theorem estimateLVEF_bands (c : t) :
  Session.well_formed c →
  MotilityEstimates.estimateLVEF c =
    MotilityEstimates.estimateBySum (ordinal_sum (state c)) ∧
  (MotilityEstimates.ecategory (MotilityEstimates.estimateLVEF c) = "normal" ↔
   state c = getDefaultState).
Proof.
  intros Hc. destruct (index_tests c Hc) as (Hest & _ & _).
  unfold MotilityEstimates.estimateLVEF. split; [exact Hest|].
  rewrite Hest, <- (ordinal_sum_17 c Hc).
  unfold MotilityEstimates.estimateBySum.
  destruct (Z.eqb_spec (ordinal_sum (state c)) 17) as [->|Hne]; [done|].
  split; [|done].
  repeat match goal with
         | |- context [if ?b then _ else _] => destruct b
         end; discriminate.
Qed.

Lemma estimateLVEF_bands_witness :
  MotilityEstimates.estimateLVEF (set_state anterior_akinetic fresh) =
    MotilityEstimates.estimateBySum
      (ordinal_sum (state (set_state anterior_akinetic fresh))) ∧
  (MotilityEstimates.ecategory
     (MotilityEstimates.estimateLVEF (set_state anterior_akinetic fresh)) = "normal" ↔
   state (set_state anterior_akinetic fresh) = getDefaultState).
Proof.
  apply (estimateLVEF_bands (set_state anterior_akinetic fresh)).
  unfold Session.well_formed, anterior_akinetic. cbn [state set_state]. split.
  - do 3 (apply wf_insert; [|lia]). exact wf_default.
  - do 3 (apply severities_insert; [|lia]). exact severities_default.
Defined.

(** X9: on a store that holds the 17 segments with severities among 1,
    2, 3, 4, [validateCoherence] answers by the sum of the 17
    severities: the answer is not valid, with the message on the high
    index, when the sum is 26 or more (9 points or more above normal)
    and the ejection fraction is above 55; it is not valid, with the
    message on the depressed fraction, when every segment is Normal and
    the fraction is below 50; in every other case it is valid and
    carries no message. *)
Theorem validateCoherence_by_sum (fey : JsNum.num) (c : t) :
  Session.well_formed c →
  MotilityEstimates.validateCoherence fey c =
    if (26 <=? ordinal_sum (state c)) && JsNum.gt fey (JsNum.of_Z 55) then
      MotilityEstimates.mkCoherence false (Some MotilityEstimates.highIndexMessage)
    else if bool_decide (state c = getDefaultState) && JsNum.lt fey (JsNum.of_Z 50) then
      MotilityEstimates.mkCoherence false (Some MotilityEstimates.lowFractionMessage)
    else MotilityEstimates.mkCoherence true None.
Proof.
  intros Hc. destruct (index_tests c Hc) as (_ & Hgt & Hsame).
  unfold MotilityEstimates.validateCoherence. rewrite Hgt, Hsame.
  assert ((ordinal_sum (state c) =? 17) = bool_decide (state c = getDefaultState))
    as ->; [|done].
  destruct (Z.eqb_spec (ordinal_sum (state c)) 17) as [Heq|Hne].
  - symmetry. apply bool_decide_eq_true. by apply (ordinal_sum_17 c Hc).
  - symmetry. apply bool_decide_eq_false. intros Hd.
    by apply (ordinal_sum_17 c Hc) in Hd.
Qed.

Lemma validateCoherence_by_sum_witness :
  MotilityEstimates.validateCoherence (JsNum.of_Z 60)
    (set_state anterior_akinetic fresh) =
    if (26 <=? ordinal_sum (state (set_state anterior_akinetic fresh))) &&
       JsNum.gt (JsNum.of_Z 60) (JsNum.of_Z 55) then
      MotilityEstimates.mkCoherence false (Some MotilityEstimates.highIndexMessage)
    else if bool_decide (state (set_state anterior_akinetic fresh) = getDefaultState) &&
            JsNum.lt (JsNum.of_Z 60) (JsNum.of_Z 50) then
      MotilityEstimates.mkCoherence false (Some MotilityEstimates.lowFractionMessage)
    else MotilityEstimates.mkCoherence true None.
Proof.
  apply (validateCoherence_by_sum (JsNum.of_Z 60) (set_state anterior_akinetic fresh)).
  unfold Session.well_formed, anterior_akinetic. cbn [state set_state]. split.
  - do 3 (apply wf_insert; [|lia]). exact wf_default.
  - do 3 (apply severities_insert; [|lia]). exact severities_default.
Defined.

(** X10: on a store that holds the 17 segments with severities among 1,
    2, 3, 4, when the field of the ejection fraction is empty, is not a
    number or is zero, [updateUI] checks the fraction 0: the warning on
    the depressed fraction is shown exactly when every segment is Normal,
    and no warning is shown otherwise. *)
Theorem motilityWarning_empty_field (feyText : string) (c : t) :
  Session.well_formed c →
  JsNum.truthy (JsNum.parseFloat feyText) = false →
  MotilityEstimates.motilityWarning feyText c =
    if bool_decide (state c = getDefaultState)
    then Some MotilityEstimates.lowFractionMessage else None.
Proof.
  intros Hc Hfey. destruct (index_tests c Hc) as (_ & Hgt & Hsame).
  unfold MotilityEstimates.motilityWarning, MotilityEstimates.validateCoherence.
  rewrite Hfey, Hgt, Hsame.
  change (JsNum.gt (JsNum.of_Z 0) (JsNum.of_Z 55)) with false.
  change (JsNum.lt (JsNum.of_Z 0) (JsNum.of_Z 50)) with true.
  rewrite andb_false_r, andb_true_r.
  destruct (Z.eqb_spec (ordinal_sum (state c)) 17) as [Heq|Hne].
  - rewrite bool_decide_eq_true_2; [done|]. by apply (ordinal_sum_17 c Hc).
  - rewrite bool_decide_eq_false_2; [done|]. intros Hd.
    by apply (ordinal_sum_17 c Hc) in Hd.
Qed.

Lemma motilityWarning_empty_field_witness :
  MotilityEstimates.motilityWarning "" fresh =
    if bool_decide (state fresh = getDefaultState)
    then Some MotilityEstimates.lowFractionMessage else None.
Proof.
  apply (motilityWarning_empty_field "" fresh).
  - split; [exact wf_default|exact severities_default].
  - reflexivity.
Defined.

(** ** Suggested leads *)

Lemma some_apical_ok (l : list nat) :
  Forall (fun id => (1 ≤ id ≤ 17)%nat) l →
  ∃ b, MotilityEstimates.some
         (fun id => lv ← getLevel id; Ok (bool_decide (lv = apical))) l = Ok b.
Proof.
  induction 1 as [|id l Hid _ [b IH] ]; [by exists false|].
  destruct (SEGMENTS_known id Hid) as [seg Hseg].
  assert (∃ lv, getLevel id = Ok lv) as [lv Hlv]
    by (unfold getLevel; rewrite Hseg; by eexists).
  cbn [MotilityEstimates.some]. cbv beta. rewrite Hlv, IH.
  cbn [mbind result_bind].
  destruct (bool_decide _); [by exists true|by exists b].
Qed.

Lemma getAffectedTerritory_ok (c : t) :
  wf_state (state c) →
  ∃ r, getAffectedTerritory c = Ok r ∧ (r = None ↔ abnormalIds (state c) = []).
Proof.
  intros Hwf. unfold getAffectedTerritory.
  destruct (count_abnormal_wf _ Hwf) as (s & Hs & _). rewrite Hs.
  destruct (abnormalIds (state c)) as [|id ids].
  - by exists None.
  - cbn [length Nat.eqb mbind result_bind reduce1].
    eexists. split; [reflexivity|]. split; discriminate.
Qed.

(** X11: on a store that holds the 17 segments with severities among 1,
    2, 3, 4, [getECGCorrelation] never throws; it returns [null] exactly
    when every segment is Normal and the active pattern is none of
    [takotsubo], [bcri], [bcrd], [pacemaker]; and it returns the leads of
    Takotsubo only for the name [takotsubo], which is not a key of the
    library: no pattern of the library, the four Takotsubo variants
    included, ever yields them. *)
Theorem getECGCorrelation_total (c : t) :
  Session.well_formed c →
  ∃ r, MotilityEstimates.getECGCorrelation c = Ok r ∧
       (r = None ↔
        state c = getDefaultState ∧
        pattern c ∉ ["takotsubo"; "bcri"; "bcrd"; "pacemaker"]) ∧
       (r = Some MotilityEstimates.takotsuboLeads ↔ pattern c = "takotsubo") ∧
       (is_Some (PATTERNS (pattern c)) → r ≠ Some MotilityEstimates.takotsuboLeads).
Proof.
  intros Hc. pose proof Hc as [Hwf Hok].
  assert (∀ r : option string,
            (r = Some MotilityEstimates.takotsuboLeads ↔ pattern c = "takotsubo") →
            is_Some (PATTERNS (pattern c)) →
            r ≠ Some MotilityEstimates.takotsuboLeads) as Hlib.
  { intros r Hr [p Hp] Heq. apply Hr in Heq. rewrite Heq in Hp. discriminate Hp. }
  unfold MotilityEstimates.getECGCorrelation.
  destruct (String.eqb_spec (pattern c) "takotsubo") as [Ht|Ht].
  { eexists. split; [reflexivity|].
    assert (Some MotilityEstimates.takotsuboLeads =
            Some MotilityEstimates.takotsuboLeads ↔ pattern c = "takotsubo") as Hr
      by done.
    split; [|split; [exact Hr|by apply Hlib] ].
    split; [discriminate|]. intros [_ Hn]. exfalso. apply Hn. rewrite Ht. by left. }
  assert (∀ text : string,
            text ≠ MotilityEstimates.takotsuboLeads →
            (pattern c ∈ ["takotsubo"; "bcri"; "bcrd"; "pacemaker"] ∨
             state c ≠ getDefaultState) →
            (Some text = None ↔
             state c = getDefaultState ∧
             pattern c ∉ ["takotsubo"; "bcri"; "bcrd"; "pacemaker"]) ∧
            (Some text = Some MotilityEstimates.takotsuboLeads ↔
             pattern c = "takotsubo") ∧
            (is_Some (PATTERNS (pattern c)) →
             Some text ≠ Some MotilityEstimates.takotsuboLeads)) as Hsome.
  { intros text Hne Hcase.
    assert (Some text = Some MotilityEstimates.takotsuboLeads ↔
            pattern c = "takotsubo") as Hr.
    { split; [intros [= ?]; done|done]. }
    split; [|split; [exact Hr|by apply Hlib] ].
    split; [discriminate|]. intros [Hd Hn]. by destruct Hcase. }
  destruct (String.eqb_spec (pattern c) "bcri") as [Hb|Hb].
  { eexists. split; [reflexivity|]. apply Hsome; [discriminate|].
    left. rewrite Hb, !elem_of_cons. auto. }
  destruct (String.eqb_spec (pattern c) "bcrd") as [Hd|Hd].
  { eexists. split; [reflexivity|]. apply Hsome; [discriminate|].
    left. rewrite Hd, !elem_of_cons. auto. }
  destruct (String.eqb_spec (pattern c) "pacemaker") as [Hp|Hp].
  { eexists. split; [reflexivity|]. apply Hsome; [discriminate|].
    left. rewrite Hp, !elem_of_cons. auto. }
  destruct (getAffectedTerritory_ok c Hwf) as (r & Hr & Hnone). rewrite Hr.
  cbn [mbind result_bind].
  destruct r as [a|].
  - assert (state c ≠ getDefaultState) as Hnd.
    { intros Hd'. apply (abnormalIds_nil c Hc) in Hd'.
      apply Hnone in Hd'. discriminate. }
    destruct a.
    + destruct (abnormal_tiers_range c Hwf) as (Hh & Ha & Hy).
      destruct (some_apical_ok
                  (hypokinetic (getAbnormalSegments c) ++
                   akinetic (getAbnormalSegments c) ++
                   dyskinetic (getAbnormalSegments c))) as [b Hb'].
      { by rewrite !Forall_app. }
      rewrite Hb'. cbn [mbind result_bind].
      destruct (existsb _ _ && negb b); [|destruct b];
        (eexists; split; [reflexivity|]; apply Hsome; [discriminate|by right]).
    + eexists. split; [reflexivity|]. apply Hsome; [discriminate|by right].
    + eexists. split; [reflexivity|]. apply Hsome; [discriminate|by right].
  - exists None. split; [reflexivity|].
    assert (None = Some MotilityEstimates.takotsuboLeads ↔ pattern c = "takotsubo")
      as Hr' by (split; [discriminate|done]).
    split; [|split; [exact Hr'|by apply Hlib] ].
    split; [|done]. intros _. split.
    + apply (abnormalIds_nil c Hc). by apply Hnone.
    + rewrite !elem_of_cons, elem_of_nil. tauto.
Qed.

Lemma getECGCorrelation_total_witness :
  ∃ r, MotilityEstimates.getECGCorrelation (setPattern "takotsubo_apical" fresh) = Ok r ∧
       (r = None ↔
        state (setPattern "takotsubo_apical" fresh) = getDefaultState ∧
        pattern (setPattern "takotsubo_apical" fresh) ∉
          ["takotsubo"; "bcri"; "bcrd"; "pacemaker"]) ∧
       (r = Some MotilityEstimates.takotsuboLeads ↔
        pattern (setPattern "takotsubo_apical" fresh) = "takotsubo") ∧
       (is_Some (PATTERNS (pattern (setPattern "takotsubo_apical" fresh))) →
        r ≠ Some MotilityEstimates.takotsuboLeads).
Proof.
  apply (getECGCorrelation_total (setPattern "takotsubo_apical" fresh)).
  apply setPattern_well_formed.
  split; [exact wf_default|exact severities_default].
Defined.

(** ** Diastolic function *)

Lemma prefix_app_l (a b s : string) :
  String.prefix (a +:+ b) s = true → String.prefix a s = true.
Proof.
  rewrite !prefix_iff. intros [r ->]. exists (b +:+ r). by rewrite str_app_assoc.
Qed.

Lemma includes_app_l (s a b : string) :
  Js.includes s (a +:+ b) = true → Js.includes s a = true.
Proof.
  induction s as [|c s IH]; cbn [Js.includes].
  - destruct (String.prefix (a +:+ b) "") eqn:Hp; [|done].
    intros _. by rewrite (prefix_app_l a b "" Hp).
  - destruct (String.prefix (a +:+ b) (String c s)) eqn:Hp.
    + intros _. by rewrite (prefix_app_l a b _ Hp).
    + intros H. rewrite (IH H). by destruct (String.prefix a (String c s)).
Qed.

(** X12: whatever description and grade the page has stored, the
    conclusion on the diastolic function is never the sentence of Grade
    II nor the sentence of Grade III: a description that contains
    "Grado II" or "Grado III" contains "Grado I", which is tested first. *)
Theorem diastolic_never_grade_II (i : Inputs) (p : Progress) :
  diastolic i p = p ∨
  ∃ text, diastolic i p = increment (write text p) ∧
          text ≠ "Disfunción Diastólica Grado II. PFDVI elevadas." ∧
          text ≠ "Disfunción Diastólica Grado III. PFDVI severamente elevadas.".
Proof.
  unfold diastolic. destruct (diastolicResult i) as [[desc grade]|]; [right|by left].
  destruct (Js.includes desc "Normal"); [by eexists|].
  destruct (Js.includes desc "Grado I") eqn:HI; [by eexists|].
  assert (Js.includes desc "Grado II" = false) as ->.
  { destruct (Js.includes desc "Grado II") eqn:HII; [|done].
    by rewrite (includes_app_l desc "Grado I" "I" HII) in HI. }
  assert (Js.includes desc "Grado III" = false) as ->.
  { destruct (Js.includes desc "Grado III") eqn:HIII; [|done].
    by rewrite (includes_app_l desc "Grado I" "II" HIII) in HI. }
  destruct (String.eqb grade "Indeterminado"); [by eexists|].
  exists desc. split; [done|]. split; intros ->; discriminate HI.
Qed.

Lemma classifyDiastolicFunction_cases (params : HemodynamicsCalculator.Params) :
  HemodynamicsCalculator.classifyDiastolicFunction params ∈
  [ HemodynamicsCalculator.mkDiastolic "Indeterminado"
      "Esperando datos Doppler..." "neutral";
    HemodynamicsCalculator.mkDiastolic "Normal"
      "Función Diastólica Normal (Patrón de llenado vigoroso/Atleta). Presiones de llenado VI normales."
      "green";
    HemodynamicsCalculator.mkDiastolic "III"
      "Disfunción Diastólica Grado III (Patrón Restrictivo). Presiones de llenado VI elevadas."
      "red";
    HemodynamicsCalculator.mkDiastolic "Normal"
      "Función Diastólica Normal. Presiones de llenado VI normales." "green";
    HemodynamicsCalculator.mkDiastolic "Indeterminado"
      "Función Diastólica Indeterminada (2/4 criterios alterados). Se requiere evaluación adicional."
      "yellow";
    HemodynamicsCalculator.gradeI;
    HemodynamicsCalculator.mkDiastolic "Indeterminado"
      "Función Diastólica Indeterminada. Datos insuficientes para clasificar."
      "yellow";
    HemodynamicsCalculator.mkDiastolic "II"
      "Disfunción Diastólica Grado II (Pseudonormal). Presiones de llenado VI elevadas."
      "red";
    HemodynamicsCalculator.mkDiastolic "Indeterminado"
      "Función Diastólica Indeterminada. Evaluación adicional requerida."
      "yellow" ].
Proof.
  unfold HemodynamicsCalculator.classifyDiastolicFunction. cbv zeta.
  repeat lazymatch goal with
         | |- (if ?b then _ else _) ∈ _ => destruct b
         end;
    rewrite !elem_of_cons; auto 12.
Qed.

(** X13: whatever the Doppler parameters, the conclusion written for the
    result of [classifyDiastolicFunction] depends on its grade only: the
    grade Normal gives the sentence of normal function, the grade
    Indeterminado the sentence of indeterminate function, and the grades
    I, II and III all give the sentence of Grade I with normal filling
    pressures, although the descriptions of the grades II and III state
    elevated pressures. *)
Theorem diastolic_conclusion_by_grade
    (params : HemodynamicsCalculator.Params) (i : Inputs) (p : Progress) :
  let r := HemodynamicsCalculator.classifyDiastolicFunction params in
  HemodynamicsCalculator.grade r ∈ ["Normal"; "I"; "II"; "III"; "Indeterminado"] ∧
  diastolic (Page.with_diastolic (Page.diastolicOf r) i) p =
    increment (write (Page.sentenceOfGrade (HemodynamicsCalculator.grade r)) p) ∧
  (HemodynamicsCalculator.grade r ∈ ["II"; "III"] →
   Js.includes (HemodynamicsCalculator.description r) "elevadas" = true).
Proof.
  cbv zeta. pose proof (classifyDiastolicFunction_cases params) as Hcases.
  rewrite !elem_of_cons, elem_of_nil in Hcases.
  destruct Hcases as [-> | [-> | [-> | [-> | [-> | [-> | [-> | [-> | [-> | [] ] ] ] ] ] ] ] ] ];
    (split; [cbn [HemodynamicsCalculator.grade HemodynamicsCalculator.gradeI];
             rewrite !elem_of_cons; auto 10|]);
    (split; [reflexivity|]);
    cbn [HemodynamicsCalculator.grade HemodynamicsCalculator.gradeI];
    rewrite !elem_of_cons, elem_of_nil;
    intros [H | [H | [] ] ]; first [discriminate H | reflexivity].
Qed.

Lemma gt_not_NaN (x y : JsNum.num) :
  JsNum.gt x y = true → HemodynamicsCalculator.isNaN x = false.
Proof. by destruct x. Qed.

Lemma gt_28_positive (x : JsNum.num) :
  JsNum.gt x (JsNum.Fin (28 # 10)) = true → JsNum.gt x (JsNum.of_Z 0) = true.
Proof.
  destruct x as [q| | |]; try done. unfold JsNum.gt, JsNum.of_Z.
  intros H. apply negb_true_iff in H. apply negb_true_iff.
  destruct (Qle_bool q (inject_Z 0)) eqn:H0; [|done].
  apply Qle_bool_iff in H0.
  assert (Qle_bool q (28 # 10) = true) as H28; [|congruence].
  apply Qle_bool_iff. eapply Qle_trans; [exact H0|]. by vm_compute.
Qed.

(** X14: for a heart with an ejection fraction that is not below 50 and
    a normal wall motion, [classifyDiastolicFunction] never answers that
    the data are insufficient to classify nor that an additional
    evaluation is required.  With the three waves present and E/A not
    above 2, the answer follows the number of altered criteria among
    the four (e' below 9, E/e' above 14, atrial volume above 34,
    tricuspid velocity above 2.8): with none or one of them the
    function is normal, with two it is indeterminate (2/4), and with
    three or four the answer is Grade II, or Grade I when E/A is at
    most 0.8 and E at most 50, whatever the other parameters. *)
Theorem classifyDiastolicFunction_normal_heart
    (params : HemodynamicsCalculator.Params) :
  JsNum.lt (default (JsNum.of_Z 60) (HemodynamicsCalculator.LVEF params))
           (JsNum.of_Z 50) = false →
  default "normal" (HemodynamicsCalculator.wallMotion params) = "normal" →
  (HemodynamicsCalculator.description
     (HemodynamicsCalculator.classifyDiastolicFunction params) ∉
   [ "Función Diastólica Indeterminada. Datos insuficientes para clasificar.";
     "Función Diastólica Indeterminada. Evaluación adicional requerida." ]) ∧
  (JsNum.truthy (HemodynamicsCalculator.E params) = true →
   JsNum.truthy (HemodynamicsCalculator.A params) = true →
   JsNum.truthy (HemodynamicsCalculator.ePrime params) = true →
   JsNum.gt (JsNum.div (HemodynamicsCalculator.E params)
                       (HemodynamicsCalculator.A params)) (JsNum.of_Z 2) = false →
   (HemodynamicsCalculator.alteredCriteria params < 2 →
    HemodynamicsCalculator.classifyDiastolicFunction params =
    HemodynamicsCalculator.normalResult) ∧
   (HemodynamicsCalculator.alteredCriteria params = 2 →
    HemodynamicsCalculator.classifyDiastolicFunction params =
    HemodynamicsCalculator.twoOfFour) ∧
   (3 ≤ HemodynamicsCalculator.alteredCriteria params →
    HemodynamicsCalculator.classifyDiastolicFunction params =
    if MotilityEstimates.le
         (JsNum.div (HemodynamicsCalculator.E params)
                    (HemodynamicsCalculator.A params)) (JsNum.Fin (8 # 10)) &&
       MotilityEstimates.le (HemodynamicsCalculator.E params) (JsNum.of_Z 50)
    then HemodynamicsCalculator.gradeI else HemodynamicsCalculator.gradeII)).
Proof.
  intros HLVEF Hwall. split.
  {
  unfold HemodynamicsCalculator.classifyDiastolicFunction. cbv zeta.
  rewrite HLVEF, Hwall. change (String.eqb "normal" "normal") with true.
  cbn [negb orb andb].
  set (EeRatio := JsNum.div (HemodynamicsCalculator.E params)
                            (HemodynamicsCalculator.ePrime params)).
  set (LA := default (JsNum.of_Z 28) (HemodynamicsCalculator.LAVolIndex params)).
  set (TR := default (JsNum.of_Z 0) (HemodynamicsCalculator.TRVel params)).
  pose proof (gt_not_NaN EeRatio (JsNum.of_Z 14)) as Hee.
  pose proof (gt_not_NaN LA (JsNum.of_Z 34)) as Hla.
  pose proof (gt_28_positive TR) as Htr.
  destruct (JsNum.gt EeRatio (JsNum.of_Z 14));
    destruct (JsNum.gt LA (JsNum.of_Z 34));
    destruct (JsNum.gt TR (JsNum.Fin (28 # 10)));
    destruct (JsNum.lt (HemodynamicsCalculator.ePrime params) (JsNum.of_Z 9));
    destruct (HemodynamicsCalculator.isNaN EeRatio);
    destruct (HemodynamicsCalculator.isNaN LA);
    destruct (JsNum.gt TR (JsNum.of_Z 0));
    try discriminate (Hee eq_refl); try discriminate (Hla eq_refl);
    try discriminate (Htr eq_refl);
    cbn -[JsNum.gt JsNum.ge JsNum.lt JsNum.div JsNum.truthy MotilityEstimates.le
          elem_of];
    repeat lazymatch goal with
           | |- HemodynamicsCalculator.description (if ?b then _ else _) ∉ _ =>
               first [ let v := eval vm_compute in b in
                       lazymatch v with
                       | true => change b with true
                       | false => change b with false
                       end; cbv iota
                     | destruct b ]
           end;
    cbn [HemodynamicsCalculator.description HemodynamicsCalculator.gradeI];
    rewrite !elem_of_cons, elem_of_nil; intros [H | [H | [] ] ];
    discriminate H. }
  intros HE HA He HEA.
  unfold HemodynamicsCalculator.classifyDiastolicFunction,
    HemodynamicsCalculator.alteredCriteria. cbv zeta.
  rewrite HLVEF, Hwall, HE, HA, He, HEA.
  change (String.eqb "normal" "normal") with true.
  cbn [negb orb andb].
  set (EeRatio := JsNum.div (HemodynamicsCalculator.E params)
                            (HemodynamicsCalculator.ePrime params)).
  set (LA := default (JsNum.of_Z 28) (HemodynamicsCalculator.LAVolIndex params)).
  set (TR := default (JsNum.of_Z 0) (HemodynamicsCalculator.TRVel params)).
  pose proof (gt_not_NaN EeRatio (JsNum.of_Z 14)) as Hee.
  pose proof (gt_not_NaN LA (JsNum.of_Z 34)) as Hla.
  pose proof (gt_28_positive TR) as Htr.
  destruct (JsNum.gt EeRatio (JsNum.of_Z 14));
    destruct (JsNum.gt LA (JsNum.of_Z 34));
    destruct (JsNum.gt TR (JsNum.Fin (28 # 10)));
    destruct (JsNum.lt (HemodynamicsCalculator.ePrime params) (JsNum.of_Z 9));
    (split; [|split]); intros Hn; try (exfalso; lia);
    try reflexivity;
    destruct (HemodynamicsCalculator.isNaN EeRatio);
    destruct (HemodynamicsCalculator.isNaN LA);
    destruct (JsNum.gt TR (JsNum.of_Z 0));
    try discriminate (Hee eq_refl); try discriminate (Hla eq_refl);
    try discriminate (Htr eq_refl);
    destruct (MotilityEstimates.le _ (JsNum.Fin (8 # 10)));
    destruct (MotilityEstimates.le _ (JsNum.of_Z 50));
    cbn [negb andb]; try reflexivity;
    repeat lazymatch goal with
           | |- (if ?b then _ else _) = _ =>
               let v := eval vm_compute in b in
               lazymatch v with
               | true => change b with true
               | false => change b with false
               end; cbv iota
           end;
    reflexivity.
Qed.

Lemma classifyDiastolicFunction_normal_heart_witness :
  (HemodynamicsCalculator.description
     (HemodynamicsCalculator.classifyDiastolicFunction
        (HemodynamicsCalculator.mkParams
           (JsNum.of_Z 90) (JsNum.of_Z 60) (JsNum.of_Z 5)
           (Some (JsNum.of_Z 40)) (Some (JsNum.of_Z 3)) (Some (JsNum.of_Z 60))
           (Some "normal"))) ∉
   [ "Función Diastólica Indeterminada. Datos insuficientes para clasificar.";
     "Función Diastólica Indeterminada. Evaluación adicional requerida." ]) ∧
  HemodynamicsCalculator.classifyDiastolicFunction
    (HemodynamicsCalculator.mkParams
       (JsNum.of_Z 90) (JsNum.of_Z 60) (JsNum.of_Z 5)
       (Some (JsNum.of_Z 40)) (Some (JsNum.of_Z 3)) (Some (JsNum.of_Z 60))
       (Some "normal")) = HemodynamicsCalculator.gradeII.
Proof.
  destruct (classifyDiastolicFunction_normal_heart
              (HemodynamicsCalculator.mkParams
                 (JsNum.of_Z 90) (JsNum.of_Z 60) (JsNum.of_Z 5)
                 (Some (JsNum.of_Z 40)) (Some (JsNum.of_Z 3)) (Some (JsNum.of_Z 60))
                 (Some "normal")) eq_refl eq_refl) as [Hnever Hby].
  split; [exact Hnever|].
  destruct (Hby eq_refl eq_refl eq_refl eq_refl) as (_ & _ & H3).
  apply H3. by vm_compute.
Defined.


(** ** Pulmonary pressure: the label of the page and the conclusion *)

(** X15: for a positive estimated pressure, the label that the page
    shows beside the pressure and the conclusion of the report follow the
    same bands except at 45 mmHg: up to 35 the label is Normal and the
    suspicion low; from 36 to 44 the label is mildly elevated and the
    suspicion intermediate; at 45 the label is already moderately
    elevated while the suspicion is still intermediate; from 46 to 59
    the label is moderately elevated and from 60 severely elevated, both
    with the overt wording. *)
Theorem pulmonary_label_and_conclusion (i : Inputs) (p : Progress) :
  0 < psap i →
  ∃ text, pulmonaryHypertension i p = increment (write text p) ∧
    ((psap i ≤ 35 ∧
      HemodynamicsCalculator.classifyPulmonaryPressure (psap i) = "Normal" ∧
      text = "Grado de sospecha de Hipertensión pulmonar: Baja.") ∨
     (36 ≤ psap i ≤ 44 ∧
      HemodynamicsCalculator.classifyPulmonaryPressure (psap i) = "Levemente elevada" ∧
      text = "Grado de sospecha de Hipertensión pulmonar: Intermedia (PSAP " +:+
             pretty (psap i) +:+ " mmHg).") ∨
     (psap i = 45 ∧
      HemodynamicsCalculator.classifyPulmonaryPressure (psap i) = "Moderadamente elevada" ∧
      text = "Grado de sospecha de Hipertensión pulmonar: Intermedia (PSAP " +:+
             pretty (psap i) +:+ " mmHg).") ∨
     (46 ≤ psap i ≤ 59 ∧
      HemodynamicsCalculator.classifyPulmonaryPressure (psap i) = "Moderadamente elevada" ∧
      text = "Signos de Hipertensión pulmonar (PSAP " +:+ pretty (psap i) +:+ " mmHg).") ∨
     (60 ≤ psap i ∧
      HemodynamicsCalculator.classifyPulmonaryPressure (psap i) = "Severamente elevada" ∧
      text = "Signos de Hipertensión pulmonar (PSAP " +:+ pretty (psap i) +:+ " mmHg).")).
Proof.
  intros Hpos. unfold pulmonaryHypertension,
    HemodynamicsCalculator.classifyPulmonaryPressure.
  destruct (Z.gtb_spec (psap i) 0); [|lia].
  destruct (Z.eqb_spec (psap i) 0); [lia|].
  destruct (Z.leb_spec (psap i) 35).
  { eexists. split; [reflexivity|]. left.
    destruct (Z.ltb_spec (psap i) 36); [done|lia]. }
  destruct (Z.ltb_spec (psap i) 36); [lia|].
  destruct (Z.leb_spec (psap i) 45).
  { eexists. split; [reflexivity|].
    destruct (Z.ltb_spec (psap i) 45).
    - right; left. repeat split; lia.
    - right; right; left. destruct (Z.ltb_spec (psap i) 60); [|lia].
      repeat split; lia. }
  destruct (Z.ltb_spec (psap i) 45); [lia|].
  eexists. split; [reflexivity|].
  destruct (Z.ltb_spec (psap i) 60).
  - right; right; right; left. repeat split; lia.
  - right; right; right; right. repeat split; lia.
Qed.

Lemma pulmonary_label_and_conclusion_witness :
  ∃ text,
    pulmonaryHypertension (normalStudy 45) (mkProgress [] 1) =
      increment (write text (mkProgress [] 1)) ∧
    ((psap (normalStudy 45) ≤ 35 ∧
      HemodynamicsCalculator.classifyPulmonaryPressure (psap (normalStudy 45)) =
        "Normal" ∧
      text = "Grado de sospecha de Hipertensión pulmonar: Baja.") ∨
     (36 ≤ psap (normalStudy 45) ≤ 44 ∧
      HemodynamicsCalculator.classifyPulmonaryPressure (psap (normalStudy 45)) =
        "Levemente elevada" ∧
      text = "Grado de sospecha de Hipertensión pulmonar: Intermedia (PSAP " +:+
             pretty (psap (normalStudy 45)) +:+ " mmHg).") ∨
     (psap (normalStudy 45) = 45 ∧
      HemodynamicsCalculator.classifyPulmonaryPressure (psap (normalStudy 45)) =
        "Moderadamente elevada" ∧
      text = "Grado de sospecha de Hipertensión pulmonar: Intermedia (PSAP " +:+
             pretty (psap (normalStudy 45)) +:+ " mmHg).") ∨
     (46 ≤ psap (normalStudy 45) ≤ 59 ∧
      HemodynamicsCalculator.classifyPulmonaryPressure (psap (normalStudy 45)) =
        "Moderadamente elevada" ∧
      text = "Signos de Hipertensión pulmonar (PSAP " +:+
             pretty (psap (normalStudy 45)) +:+ " mmHg).") ∨
     (60 ≤ psap (normalStudy 45) ∧
      HemodynamicsCalculator.classifyPulmonaryPressure (psap (normalStudy 45)) =
        "Severamente elevada" ∧
      text = "Signos de Hipertensión pulmonar (PSAP " +:+
             pretty (psap (normalStudy 45)) +:+ " mmHg).")).
Proof.
  apply (pulmonary_label_and_conclusion (normalStudy 45) (mkProgress [] 1)).
  simpl. lia.
Defined.

(** ** The list of conclusions *)

Lemma one_more (f : Progress → Progress) (p : Progress) :
  at_most_one f →
  lines p `prefix_of` lines (f p) ∧
  (length (lines p) ≤ length (lines (f p)) ≤ length (lines p) + 1)%nat.
Proof.
  intros Hf. destruct (Hf p) as [->|[text ->] ]; [split; [done|lia]|].
  cbn [lines increment write]. split; [by apply prefix_app_r|].
  rewrite length_app. simpl. lia.
Qed.

Lemma rightVentricle_more (i : Inputs) (p : Progress) :
  lines p `prefix_of` lines (rightVentricle i p) ∧
  (length (lines p) ≤ length (lines (rightVentricle i p)) ≤ length (lines p) + 1)%nat.
Proof.
  destruct (rightVentricle_one i p) as [-> | ->]; [split; [done|lia]|].
  cbn [lines increment write]. split; [by apply prefix_app_r|].
  rewrite length_app. simpl. lia.
Qed.

Lemma pulmonaryHypertension_one (i : Inputs) : at_most_one (pulmonaryHypertension i).
Proof.
  intros p. rewrite pulmonaryHypertension_spec.
  destruct (psapSentence (psap i)); [right; by eexists|by left].
Qed.

Lemma leftVentricle_total (i : Inputs) (p : Progress) :
  (∀ m, motility i = Some m → Session.well_formed m) →
  ∃ text, leftVentricle i p = Ok (increment (write text p)).
Proof.
  intros Hm. unfold leftVentricle. destruct (motility i) as [m|].
  - destruct (generateConclusion_never_throws m (Hm m eq_refl)) as (text & ->).
    cbn [mbind result_bind]. by eexists.
  - cbn [mbind result_bind]. by eexists.
Qed.

Lemma rhythm_lines (i : Inputs) (p : Progress) :
  ∃ text, rhythm i p = increment (write text p) ∧
          text = if String.eqb (conduccionValue i) "normal" then ritmo i +:+ "."
                 else ritmo i +:+ " con " +:+ conduccion i +:+ ".".
Proof.
  unfold rhythm. destruct (String.eqb (conduccionValue i) "normal"); by eexists.
Qed.

Lemma leftAtrium_lines (i : Inputs) (p : Progress) :
  ∃ text, leftAtrium i p = increment (write text p) ∧
          text ∈ [ "Aurícula izquierda severamente dilatada.";
                   "Aurícula izquierda moderadamente dilatada.";
                   "Aurícula izquierda levemente dilatada.";
                   "Aurícula izquierda de dimensiones conservadas." ].
Proof.
  unfold leftAtrium.
  repeat match goal with
         | |- context [if ?b then _ else _] => destruct b
         end;
    (eexists; split; [reflexivity|]; rewrite !elem_of_cons; auto 6).
Qed.

Lemma conclusions_lines (i : Inputs) :
  (∀ m, motility i = Some m → Session.well_formed m) →
  ∃ p, conclusions i = Ok p ∧
       (3 ≤ length (lines p) ≤ 10)%nat ∧
       sentence <$> lines p !! 0%nat =
         Some (if String.eqb (conduccionValue i) "normal" then ritmo i +:+ "."
               else ritmo i +:+ " con " +:+ conduccion i +:+ ".") ∧
       ∃ (k : nat) (l : Line),
         lines p !! k = Some l ∧ (2 ≤ k ≤ 3)%nat ∧
         sentence l ∈ [ "Aurícula izquierda severamente dilatada.";
                        "Aurícula izquierda moderadamente dilatada.";
                        "Aurícula izquierda levemente dilatada.";
                        "Aurícula izquierda de dimensiones conservadas." ].
Proof.
  intros Hm. unfold conclusions, conclusionsBeforePsap.
  destruct (rhythm_lines i (mkProgress [] 1)) as (rt & Hr & Hrt).
  rewrite Hr.
  destruct (leftVentricle_total i (increment (write rt (mkProgress [] 1))) Hm)
    as (lv & Hlv).
  rewrite Hlv. cbn [mbind result_bind].
  set (p2 := increment (write lv (increment (write rt (mkProgress [] 1))))).
  destruct (one_more (diastolic i) p2 (diastolic_one i)) as [Hp3 Hl3].
  set (p3 := diastolic i p2) in *.
  destruct (leftAtrium_lines i p3) as (la & Hla & Hlain).
  set (p4 := leftAtrium i p3) in *.
  destruct (one_more (mitral i) p4 (mitral_one i)) as [Hp5 Hl5].
  set (p5 := mitral i p4) in *.
  destruct (one_more (aortic i) p5 (aortic_one i)) as [Hp6 Hl6].
  set (p6 := aortic i p5) in *.
  destruct (one_more (aorta i) p6 (aorta_one i)) as [Hp7 Hl7].
  set (p7 := aorta i p6) in *.
  destruct (one_more (rightChambers i) p7 (rightChambers_one i)) as [Hp8 Hl8].
  set (p8 := rightChambers i p7) in *.
  destruct (one_more (pulmonaryHypertension i) p8 (pulmonaryHypertension_one i))
    as [Hp9 Hl9].
  set (p9 := pulmonaryHypertension i p8) in *.
  destruct (rightVentricle_more i p9) as [Hp10 Hl10].
  set (p10 := rightVentricle i p9) in *.
  assert (lines p4 = lines p3 ++ [mkLine (conclusionNum p3) la]) as Hl4
    by (by rewrite Hla).
  assert (length (lines p2) = 2%nat) as Hl2 by done.
  assert (lines p4 `prefix_of` lines p10) as Hpre.
  { etrans; [exact Hp5|]. etrans; [exact Hp6|]. etrans; [exact Hp7|].
    etrans; [exact Hp8|]. etrans; [exact Hp9|]. exact Hp10. }
  assert (length (lines p4) = S (length (lines p3))) as Hlen4.
  { rewrite Hl4, length_app. simpl. lia. }
  exists p10. split; [done|]. split; [lia|]. split.
  - assert (lines p4 !! 0%nat = Some (mkLine 1 rt)) as H0.
    { rewrite Hl4. apply lookup_app_l_Some.
      by apply (prefix_lookup_Some (lines p2)). }
    rewrite (prefix_lookup_Some _ _ _ _ H0 Hpre). simpl. by rewrite Hrt.
  - exists (length (lines p3)), (mkLine (conclusionNum p3) la).
    split; [|split; [lia|done] ].
    apply (prefix_lookup_Some (lines p4)); [|done].
    rewrite Hl4. by rewrite list_lookup_middle.
Qed.

(** Only the three incongruences are errors of the quality control: the
    warnings and the advices of the other rules never stop the
    report. *)
Lemma hasErrors_incongruent (f : QcFields) (i : Inputs) :
  hasErrors (runChecks f i) = Page.incongruent f i.
Proof.
  unfold hasErrors, runChecks, Page.incongruent. cbv zeta.
  repeat match goal with
         | |- context [if ?b then _ else _] => destruct b
         end;
    reflexivity.
Qed.

(** X16: [generateReport] writes no report exactly when the page has a
    quality control and the data are incongruent (a conserved motility
    with an ejection fraction below 50, a severe aortic stenosis with an
    area above 1.2, an end-systolic diameter not below the end-diastolic
    one).  Otherwise, when the store of the motility holds the 17
    segments with severities among 1, 2, 3, 4 (or the page has no
    motility panel), the list of conclusions is produced; it has at
    least 3 and at most 10 conclusions; the first one is the rhythm,
    with the conduction when it is not normal; and the conclusion on the
    size of the left atrium is always present, as the third or the
    fourth. *)
Theorem generateReport_total (qc : option QcFields) (i : Inputs) :
  (∀ m, motility i = Some m → Session.well_formed m) →
  (generateReport qc i = None ↔
   ∃ f, qc = Some f ∧ Page.incongruent f i = true) ∧
  (∀ r, generateReport qc i = Some r →
     ∃ p, r = Ok p ∧
          (3 ≤ length (lines p) ≤ 10)%nat ∧
          sentence <$> lines p !! 0%nat =
            Some (if String.eqb (conduccionValue i) "normal" then ritmo i +:+ "."
                  else ritmo i +:+ " con " +:+ conduccion i +:+ ".") ∧
          ∃ (k : nat) (l : Line),
            lines p !! k = Some l ∧ (2 ≤ k ≤ 3)%nat ∧
            sentence l ∈ [ "Aurícula izquierda severamente dilatada.";
                           "Aurícula izquierda moderadamente dilatada.";
                           "Aurícula izquierda levemente dilatada.";
                           "Aurícula izquierda de dimensiones conservadas." ]).
Proof.
  intros Hm. destruct (conclusions_lines i Hm) as (p & Hp & Hlines).
  unfold generateReport, runQualityControl. split.
  - destruct qc as [f|].
    + rewrite hasErrors_incongruent.
      destruct (Page.incongruent f i) eqn:Hinc; cbn [negb].
      * split; [intros _; by exists f|done].
      * split; [done|]. intros (f' & [= <-] & Hf). congruence.
    + split; [done|]. by intros (f & Hf & _).
  - intros r Hr. exists p. split; [|exact Hlines].
    destruct qc as [f|]; [destruct (negb _); [|done] |]; congruence.
Qed.

Lemma generateReport_total_witness :
  generateReport (Some (mkQcFields "normal" "" "" "" ""))
    (Page.with_fevi "45" (normalStudy 0)) = None ∧
  ∃ p, generateReport (Some (mkQcFields "normal" "" "" "" "")) (normalStudy 0) =
       Some (Ok p) ∧
       (3 ≤ length (lines p) ≤ 10)%nat.
Proof.
  split.
  - apply (generateReport_total (Some (mkQcFields "normal" "" "" "" ""))
             (Page.with_fevi "45" (normalStudy 0))).
    + intros m [= <-]. split; [exact wf_default|exact severities_default].
    + eexists. split; [reflexivity|]. by vm_compute.
  - destruct (generateReport_total (Some (mkQcFields "normal" "" "" "" ""))
                (normalStudy 0)) as [_ Hsome].
    + intros m [= <-]. split; [exact wf_default|exact severities_default].
    + destruct (Hsome (conclusions (normalStudy 0)) eq_refl) as (p & Hp & Hlen & _).
      exists p. split; [|exact Hlen]. by rewrite <- Hp.
Defined.

(** ** Right ventricle: findings and conclusion *)

Lemma ge_17_not_lt_16 (x : JsNum.num) :
  JsNum.ge x (JsNum.of_Z 17) = true → JsNum.lt x (JsNum.of_Z 16) = false.
Proof.
  destruct x as [q| | |]; try done. unfold JsNum.ge, JsNum.lt, JsNum.gt, JsNum.of_Z.
  intros H. apply Qle_bool_iff in H. apply negb_false_iff, Qle_bool_iff.
  eapply Qle_trans; [|exact H]. by vm_compute.
Qed.

(** X17: the findings and the conclusions of the report never contradict
    each other on the right ventricle in one direction: whenever the
    findings state a conserved function (TAPSE at least 17 and S' absent
    or at least 10) no conclusion of dysfunction is written.  The
    converse fails: for a TAPSE of 16 or more and below 17 the findings
    state a depressed function and the conclusions stay silent. *)
Theorem right_ventricle_consistency (i : Inputs) (s_prima_vd : string) (p : Progress) :
  (Page.vdFunctionConserved (tapse i) s_prima_vd = true →
   rightVentricle i p = p) ∧
  (∀ q : Q, JsNum.toNumber (tapse i) = JsNum.Fin q → (16 <= q)%Q → (q < 17)%Q →
     Page.vdFunctionHead (tapse i) s_prima_vd =
       "Función del VD deprimida (TAPSE: " +:+ tapse i +:+ " mm" ∧
     rightVentricle i p = p).
Proof.
  split.
  - unfold Page.vdFunctionConserved. cbv zeta. intros H.
    apply andb_prop in H as [H _]. unfold rightVentricle.
    by rewrite (ge_17_not_lt_16 _ H).
  - intros q Hq H16 H17. unfold Page.vdFunctionHead, Page.vdFunctionConserved,
      rightVentricle. cbv zeta. rewrite Hq.
    assert (JsNum.ge (JsNum.Fin q) (JsNum.of_Z 17) = false) as ->.
    { unfold JsNum.ge, JsNum.of_Z. apply not_true_is_false. intros H.
      apply Qle_bool_iff in H. by apply Qle_not_lt in H. }
    assert (JsNum.lt (JsNum.Fin q) (JsNum.of_Z 16) = false) as ->; [|done].
    unfold JsNum.lt, JsNum.gt, JsNum.of_Z. by apply negb_false_iff, Qle_bool_iff.
Qed.

Lemma right_ventricle_consistency_witness :
  rightVentricle (normalStudy 0) (mkProgress [] 1) = mkProgress [] 1 ∧
  Page.vdFunctionHead (tapse (Page.with_tapse "16.5" (normalStudy 0))) "" =
    "Función del VD deprimida (TAPSE: " +:+
    tapse (Page.with_tapse "16.5" (normalStudy 0)) +:+ " mm" ∧
  rightVentricle (Page.with_tapse "16.5" (normalStudy 0)) (mkProgress [] 1) =
    mkProgress [] 1.
Proof.
  split.
  - apply (proj1 (right_ventricle_consistency (normalStudy 0) "" (mkProgress [] 1))).
    reflexivity.
  - apply (proj2 (right_ventricle_consistency
                    (Page.with_tapse "16.5" (normalStudy 0)) "" (mkProgress [] 1))
                 (165 # 10)).
    + reflexivity.
    + vm_compute. discriminate.
    + reflexivity.
Defined.

(** ** The tables of the model *)

Lemma getAffectedTerritory_ext (c d : t) :
  state c = state d → getAffectedTerritory c = getAffectedTerritory d.
Proof. intros H. unfold getAffectedTerritory. by rewrite H. Qed.

Lemma SEGMENTS_range (id : nat) (seg : Segment) :
  SEGMENTS id = Some seg → (1 ≤ id ≤ 17)%nat.
Proof.
  do 18 (destruct id as [|id]; [first [discriminate | intros _; lia]|]).
  discriminate.
Qed.

(** X18: the tables of the model agree.  The segments listed for a
    territory are exactly the segments whose artery is that territory;
    the short name of a territory is the name that the conclusions
    print; and the ischemic pattern of each territory marks exactly the
    segments of the territory as hypokinetic, so that after applying it
    to a store that holds the 17 segments [getAffectedTerritory] returns
    this territory and the conclusion names it. *)
Theorem territories_agree (a : Artery) :
  (∀ id, id ∈ ModelTables.segments (ModelTables.TERRITORIES a) ↔
         (artery <$> SEGMENTS id) = Some a) ∧
  ModelTables.getArteryName a (Some false) = artery_name a ∧
  ∃ p, PATTERNS ("ischemic_" +:+ Js.toLowerCase (artery_name a)) = Some p ∧
       affectedSegments p = ModelTables.segments (ModelTables.TERRITORIES a) ∧
       severity p = 2 ∧
       ∀ c, wf_state (state c) →
            getAffectedTerritory
              (setPattern ("ischemic_" +:+ Js.toLowerCase (artery_name a)) c) =
              Ok (Some a) ∧
            generateConclusion
              (setPattern ("ischemic_" +:+ Js.toLowerCase (artery_name a)) c) =
              Ok ("Trastornos de la motilidad Segmentaria en Territorio " +:+
                  artery_name a +:+ ".").
Proof.
  split; [|split; [by destruct a|] ].
  - intros id. split.
    + destruct a; cbn [ModelTables.TERRITORIES ModelTables.segments];
        rewrite !elem_of_cons, elem_of_nil; intros H;
        repeat (destruct H as [->|H]; [reflexivity|]); done.
    + intros H. destruct (SEGMENTS id) as [seg|] eqn:Hseg; [|discriminate].
      apply SEGMENTS_range in Hseg as Hid. revert Hseg H.
      do 18 (destruct id as [|id]; [try lia;
        intros [= <-] [= <-]; cbn [ModelTables.TERRITORIES ModelTables.segments];
        rewrite !elem_of_cons; auto 10|]).
      lia.
  - assert (∀ key p (c : t),
              wf_state (state c) → PATTERNS key = Some p →
              state (setPattern key c) = Session.applied p ∧
              pattern (setPattern key c) = key) as Happlied.
    { intros key p c Hwf Hp. destruct (setPattern_state key c) as [Hpat Hst].
      rewrite Hp, (all_normal_wf _ Hwf) in Hst. by split. }
    destruct a; eexists; (split; [reflexivity|]); (split; [reflexivity|]);
      (split; [reflexivity|]); intros c Hwf;
      match goal with
      | |- context [setPattern ?key c] =>
          destruct (Happlied key _ c Hwf eq_refl) as [Hst Hpat];
          rewrite (getAffectedTerritory_ext _ (mk (state (setPattern key c)) key ∅ []) eq_refl),
                  (generateConclusion_ext _ (mk (state (setPattern key c)) key ∅ [])
                     eq_refl Hpat);
          rewrite Hst
      end; split; by vm_compute.
Qed.

Lemma territories_agree_witness :
  getAffectedTerritory (setPattern "ischemic_cx" fresh) = Ok (Some Cx) ∧
  generateConclusion (setPattern "ischemic_cx" fresh) =
    Ok "Trastornos de la motilidad Segmentaria en Territorio Cx.".
Proof.
  destruct (territories_agree Cx) as (_ & _ & p & _ & _ & _ & H).
  exact (H fresh wf_default).
Defined.

(** ** The diagram follows the store *)

Lemma getSegmentState_wf (c : t) (id : nat) :
  Session.well_formed c → (1 ≤ id ≤ 17)%nat →
  getSegmentState id c = severity_of (state c) id ∧
  1 ≤ severity_of (state c) id ≤ 4.
Proof.
  intros [Hwf Hok] Hid. pose proof (severity_of_range _ id Hwf Hok Hid) as Hr.
  split; [|done]. unfold getSegmentState. rewrite (wf_lookup _ Hwf id Hid).
  destruct (Z.eqb_spec (severity_of (state c) id) 0); [lia|done].
Qed.

Lemma fillOf_wf (c : t) (id : nat) :
  Session.well_formed c → (1 ≤ id ≤ 17)%nat →
  MotilitySVG.fillOf id c = Ok (MotilitySVG.colorOf (severity_of (state c) id)).
Proof.
  intros Hc Hid. destruct (getSegmentState_wf c id Hc Hid) as [Hs Hr].
  unfold MotilitySVG.fillOf, MotilitySVG.colorOf. rewrite Hs.
  assert (severity_of (state c) id = 1 ∨ severity_of (state c) id = 2 ∨
          severity_of (state c) id = 3 ∨ severity_of (state c) id = 4) as Hv by lia.
  destruct Hv as [-> | [-> | [-> | ->] ] ]; reflexivity.
Qed.

Lemma paint_wf (c : t) (ids : list nat) (v : gmap nat string) :
  Session.well_formed c → Forall (fun id => (1 ≤ id ≤ 17)%nat) ids →
  MotilitySVG.paint ids c v =
  Ok (foldl (fun v id => <[id := MotilitySVG.colorOf (severity_of (state c) id)]> v)
            v ids).
Proof.
  intros Hc Hall. revert v. induction Hall as [|id ids Hid _ IH]; intros v; [done|].
  cbn [MotilitySVG.paint foldl]. rewrite (fillOf_wf c id Hc Hid).
  cbn [mbind result_bind]. apply IH.
Qed.

Lemma renderBullseye_wf (c : t) :
  Session.well_formed c →
  MotilitySVG.renderBullseye c = Ok (MotilitySVG.canvas (state c)).
Proof.
  intros Hc. unfold MotilitySVG.renderBullseye.
  rewrite (paint_wf c MotilitySVG.ring ∅ Hc).
  - cbn [mbind result_bind]. rewrite (fillOf_wf c 17 Hc) by lia. done.
  - unfold MotilitySVG.ring. repeat constructor; lia.
Qed.

Lemma lookup_foldl_color (f : nat → string) (ids : list nat)
    (v : gmap nat string) (k : nat) :
  foldl (fun v id => <[id := f id]> v) v ids !! k =
  if decide (k ∈ ids) then Some (f k) else v !! k.
Proof.
  revert v. induction ids as [|id ids IH]; intros v.
  - destruct (decide (k ∈ [])) as [Hin|_]; [|done]. by inversion Hin.
  - cbn [foldl]. rewrite IH.
    destruct (decide (k ∈ ids)) as [Hin|Hnin];
      destruct (decide (k ∈ id :: ids)) as [Hin'|Hnin']; try done.
    + exfalso. apply Hnin'. by right.
    + apply elem_of_cons in Hin' as [->|?]; [|done].
      by rewrite lookup_insert_eq.
    + rewrite lookup_insert_ne; [done|]. intros ->. apply Hnin'. by left.
Qed.

Lemma canvas_lookup (o : gmap nat Z) (k : nat) :
  MotilitySVG.canvas o !! k =
  if decide (1 ≤ k ≤ 17)%nat then Some (MotilitySVG.colorOf (severity_of o k))
  else None.
Proof.
  unfold MotilitySVG.canvas. destruct (decide (k = 17%nat)) as [->|Hne].
  - by rewrite lookup_insert_eq.
  - rewrite lookup_insert_ne by done. rewrite lookup_foldl_color.
    destruct (decide (1 ≤ k ≤ 17)%nat) as [Hk|Hk].
    + rewrite decide_True; [done|]. unfold MotilitySVG.ring.
      assert (k ∈ seq 1 16) as Hin by (apply elem_of_seq; lia).
      revert Hin. cbn [seq]. rewrite !elem_of_cons, !elem_of_nil. tauto.
    + rewrite decide_False; [done|]. unfold MotilitySVG.ring.
      rewrite !elem_of_cons, elem_of_nil. lia.
Qed.

Lemma canvas_insert (o : gmap nat Z) (id : nat) (v : Z) :
  (1 ≤ id ≤ 17)%nat →
  <[id := MotilitySVG.colorOf v]> (MotilitySVG.canvas o) =
  MotilitySVG.canvas (<[id := v]> o).
Proof.
  intros Hid. apply map_eq. intros k. rewrite !canvas_lookup.
  destruct (decide (k = id)) as [->|Hne].
  - rewrite lookup_insert_eq, decide_True by done.
    unfold severity_of. by rewrite lookup_insert_eq.
  - rewrite lookup_insert_ne by done. rewrite canvas_lookup.
    unfold severity_of. by rewrite lookup_insert_ne.
Qed.

Lemma replay_app (es es' : list Effect) (v : gmap nat string) :
  MotilitySVG.replay (es ++ es') v =
  MotilitySVG.replay es v ≫= MotilitySVG.replay es'.
Proof.
  revert v. induction es as [|e es IH]; intros v; [done|].
  rewrite <- app_comm_cons. destruct e; cbn [MotilitySVG.replay]; try apply IH.
  destruct (MotilitySVG.updateSegmentVisuals _ _ v) as [v'|err];
    cbn [mbind result_bind]; [apply IH|done].
Qed.

Lemma saved_segment_repaints (c : t) (id : nat) (v : Z) (es : list Effect) :
  Session.well_formed c → (1 ≤ id ≤ 17)%nat → 1 ≤ v ≤ 4 →
  Forall (fun e => match e with Notify _ _ => False | _ => True end) es →
  MotilitySVG.replay
    ([SetItem "motility-state" (JSON_stringify (<[id := v]> (state c)));
      Notify (Seg id) (<[id := v]> (state c))] ++ es)
    (MotilitySVG.canvas (state c)) =
  Ok (MotilitySVG.canvas (<[id := v]> (state c))).
Proof.
  intros [Hwf Hok] Hid Hv Hes. cbn [app MotilitySVG.replay].
  unfold MotilitySVG.updateSegmentVisuals.
  rewrite (fillOf_wf (mk (<[id := v]> (state c)) "none" ∅ []) id) by
    first [lia | split; cbn [state]; [by apply wf_insert|by apply severities_insert] ].
  cbn [state mbind result_bind]. unfold severity_of at 1.
  rewrite lookup_insert_eq. cbn [default].
  rewrite decide_True by (rewrite canvas_lookup, decide_True by done; by eexists).
  rewrite (canvas_insert _ id v Hid).
  induction Hes as [|e es He _ IH]; [done|].
  destruct e; cbn [MotilitySVG.replay]; done.
Qed.

Lemma render_snapshot (o : gmap nat Z) :
  wf_state o → severities_ok o →
  MotilitySVG.renderBullseye (mk o "none" ∅ []) = Ok (MotilitySVG.canvas o).
Proof. intros Hwf Hok. by apply (renderBullseye_wf (mk o "none" ∅ [])). Qed.

Lemma perform_repaints (a : Session.Action) (c c1 : t) :
  Session.well_formed c → Session.on_diagram a →
  Session.perform a c = Some c1 →
  ∃ new, effects c1 = effects c ++ new ∧
         MotilitySVG.replay new (MotilitySVG.canvas (state c)) =
         Ok (MotilitySVG.canvas (state c1)).
Proof.
  intros Hc Ha. pose proof Hc as [Hwf Hok].
  destruct a as [id|id v|name|]; cbn [Session.perform Session.on_diagram] in *.
  - unfold toggleSegment. pose proof (wf_lookup _ Hwf id Ha) as Hcur.
    rewrite Hcur. cbn [mbind option_bind]. intros [= <-].
    pose proof (severity_of_range _ id Hwf Hok Ha) as Hr.
    exists ([SetItem "motility-state"
               (JSON_stringify (<[id := Z.rem (severity_of (state c) id) 4 + 1]> (state c)));
             Notify (Seg id) (<[id := Z.rem (severity_of (state c) id) 4 + 1]> (state c))]
            ++ [UpdateUI; UpdatePreview]).
    split.
    + cbn [effects updatePreview updateUI notifyListeners saveToStorage set_state state].
      by rewrite <- !app_assoc.
    + cbn [state updatePreview updateUI notifyListeners saveToStorage set_state].
      apply (saved_segment_repaints c id _ _ Hc Ha).
      * rewrite rem_next by done. by apply next_range.
      * repeat constructor.
  - intros [= <-]. unfold setSegmentState.
    destruct ((1 <=? v) && (v <=? 4)) eqn:Hg.
    + apply andb_prop in Hg as [H1 H4].
      exists ([SetItem "motility-state" (JSON_stringify (<[id := v]> (state c)));
               Notify (Seg id) (<[id := v]> (state c))] ++ [UpdateUI]).
      split.
      * cbn [effects updateUI notifyListeners saveToStorage set_state state].
        by rewrite <- !app_assoc.
      * cbn [state updateUI notifyListeners saveToStorage set_state].
        apply (saved_segment_repaints c id _ _ Hc Ha); [lia|repeat constructor].
    + exists []. split; [by rewrite app_nil_r|done].
  - intros [= <-]. destruct (setPattern_state name c) as [_ Hst].
    destruct (PATTERNS name) as [p|] eqn:Hp.
    + destruct (PATTERNS_ok name p Hp) as (Hids & Hsev & Hlen & Hnone & _).
      destruct (setPattern_well_formed name c Hc) as [Hwf' Hok'].
      exists [SetItem "motility-pattern" name;
              SetItem "motility-state" (JSON_stringify (state (setPattern name c)));
              Notify All (state (setPattern name c)); UpdateUI; UpdatePreview].
      split.
      * unfold setPattern. rewrite Hp, Hnone, Hlen.
        cbn [effects state updatePreview updateUI notifyListeners saveToStorage
             set_state setItem set_pattern].
        by rewrite <- !app_assoc.
      * cbn [MotilitySVG.replay MotilitySVG.updateSegmentVisuals].
        by rewrite (render_snapshot _ Hwf' Hok').
    + exists [SetItem "motility-pattern" name]. rewrite Hst. split; [|done].
      unfold setPattern. rewrite Hp. by destruct (String.eqb name "none").
  - intros [= <-].
    exists [SetItem "motility-state" (JSON_stringify getDefaultState);
            SetItem "motility-pattern" "none";
            Notify All getDefaultState; UpdateUI; UpdatePreview].
    split.
    + unfold reset.
      cbn [effects state updatePreview updateUI notifyListeners saveToStorage
           set_state setItem set_pattern].
      by rewrite <- !app_assoc.
    + cbn [MotilitySVG.replay MotilitySVG.updateSegmentVisuals].
      by rewrite (render_snapshot _ wf_default severities_default).
Qed.

Lemma session_repaints (l : list Session.Action) (c : t) :
  Session.well_formed c → Forall Session.on_diagram l →
  ∃ c' new, Session.performAll l c = Some c' ∧
            Session.well_formed c' ∧
            effects c' = effects c ++ new ∧
            MotilitySVG.replay new (MotilitySVG.canvas (state c)) =
            Ok (MotilitySVG.canvas (state c')).
Proof.
  intros Hc Hall. revert c Hc.
  induction Hall as [|a l Ha _ IH]; intros c Hc.
  - exists c, []. split; [done|]. split; [done|].
    split; [by rewrite app_nil_r|done].
  - destruct (perform_well_formed a c Hc Ha) as (c1 & H1 & Hc1).
    destruct (perform_repaints a c c1 Hc Ha H1) as (new1 & He1 & Hr1).
    destruct (IH c1 Hc1) as (c' & new & H' & Hc' & He & Hr).
    exists c', (new1 ++ new). split; [by rewrite (performAll_cons a l c c1 H1)|].
    split; [done|]. split; [by rewrite He, He1, app_assoc|].
    by rewrite replay_app, Hr1.
Qed.

(** X19: the diagram never goes stale.  Let the bull's-eye be drawn for
    a controller whose store holds the 17 segments with severities among
    1, 2, 3, 4; after any sequence of operations on the segments of the
    diagram, patterns and resets, the listener of the diagram, run on
    the notifications that the operations have sent, never throws and
    leaves exactly the drawing that [renderBullseye] would make from the
    final store: each of the 17 segments in the colour of its
    severity. *)
Theorem diagram_follows_store (l : list Session.Action) (c : t) :
  Session.well_formed c → effects c = [] → Forall Session.on_diagram l →
  ∃ c' v v',
    Session.performAll l c = Some c' ∧
    MotilitySVG.renderBullseye c = Ok v ∧
    MotilitySVG.replay (effects c') v = Ok v' ∧
    MotilitySVG.renderBullseye c' = Ok v' ∧
    ∀ id, (1 ≤ id ≤ 17)%nat →
          v' !! id = ModelTables.color <$> ModelTables.STATES (severity_of (state c') id).
Proof.
  intros Hc He Hall.
  destruct (session_repaints l c Hc Hall) as (c' & new & H' & Hc2 & Hnew & Hr).
  exists c', (MotilitySVG.canvas (state c)), (MotilitySVG.canvas (state c')).
  rewrite He in Hnew. cbn [app] in Hnew. rewrite Hnew.
  split; [done|]. split; [by apply renderBullseye_wf|]. split; [done|].
  split; [by apply renderBullseye_wf|].
  intros id Hid. rewrite canvas_lookup, decide_True by done.
  destruct (getSegmentState_wf c' id Hc2 Hid) as [_ Hr'].
  unfold MotilitySVG.colorOf.
  assert (severity_of (state c') id = 1 ∨ severity_of (state c') id = 2 ∨
          severity_of (state c') id = 3 ∨ severity_of (state c') id = 4) as Hv by lia.
  destruct Hv as [-> | [-> | [-> | ->] ] ]; reflexivity.
Qed.

Lemma diagram_follows_store_witness :
  ∃ c' v v',
    Session.performAll
      [Session.Toggle 3; Session.SetPattern "chagas"; Session.Toggle 17] fresh =
      Some c' ∧
    MotilitySVG.renderBullseye fresh = Ok v ∧
    MotilitySVG.replay (effects c') v = Ok v' ∧
    MotilitySVG.renderBullseye c' = Ok v' ∧
    ∀ id, (1 ≤ id ≤ 17)%nat →
          v' !! id = ModelTables.color <$> ModelTables.STATES (severity_of (state c') id).
Proof.
  apply (diagram_follows_store
           [Session.Toggle 3; Session.SetPattern "chagas"; Session.Toggle 17] fresh).
  - split; [exact wf_default|exact severities_default].
  - reflexivity.
  - repeat constructor; simpl; lia.
Defined.

(** ** What the page stores *)

Lemma round_least (x : Q) (n : Z) : (inject_Z n <= x)%Q → n ≤ JsNum.round x.
Proof.
  intros H. unfold JsNum.round. rewrite <- (Qfloor_Z n).
  apply Qfloor_resp_le. eapply Qle_trans; [exact H|].
  rewrite <- (Qplus_0_r x) at 1. apply Qplus_le_compat; [apply Qle_refl|done].
Qed.

(** X20: with a velocity of tricuspid regurgitation between 0.001 and
    1000 m/s (the validator accepts 0.5 to 5) and the field of the right
    atrial pressure empty, not a number or zero, the page takes 5 mmHg
    for it: it stores the pressure that it stores when the field holds
    "5", whatever it had stored before; that pressure is at least 5, its
    label is never "No estimable", and the report then always carries a
    conclusion on pulmonary hypertension. *)
Theorem psap_default_pressure (vel_it pad : string) (q : Q) :
  JsNum.parseFloat vel_it = JsNum.Fin q → (1 # 1000 <= q <= 1000)%Q →
  JsNum.truthy (JsNum.parseFloat pad) = false →
  ∃ v label,
    Page.psapInfo vel_it pad = Some (v, label) ∧
    (∀ st, calculatePSAP vel_it pad st = v) ∧
    (∀ st, calculatePSAP vel_it "5" st = v) ∧
    5 ≤ v ∧
    label ≠ "No estimable" ∧
    ∀ i p, psap i = v → pulmonaryHypertension i p ≠ p.
Proof.
  intros Hvel [Hlow _] Hpad.
  assert (0 < q)%Q as Hq by (eapply Qlt_le_trans; [|exact Hlow]; done).
  assert (noVelocity (JsNum.Fin q) = false) as Hno.
  { unfold noVelocity, JsNum.truthy, JsNum.gt.
    assert (Qeq_bool q 0 = false) as ->.
    { apply not_true_is_false. intros H. apply Qeq_bool_iff in H.
      rewrite H in Hq. by apply Qlt_irrefl in Hq. }
    assert (Qle_bool q 0 = false) as ->; [|done].
    apply not_true_is_false. intros H. apply Qle_bool_iff in H.
    by apply Qle_not_lt in H. }
  assert (5 ≤ JsNum.round (4 * q * q + 5)) as H5.
  { apply round_least. rewrite <- (Qplus_0_l (inject_Z 5)) at 1.
    apply Qplus_le_compat; [|apply Qle_refl].
    apply Qmult_le_0_compat; [|by apply Qlt_le_weak].
    apply Qmult_le_0_compat; [done|by apply Qlt_le_weak]. }
  assert (∀ st, calculatePSAP vel_it pad st = JsNum.round (4 * q * q + 5)) as Hcalc.
  { intros st. unfold calculatePSAP, calcPSAP. by rewrite Hvel, Hpad, Hno. }
  assert (∀ st, calculatePSAP vel_it "5" st = JsNum.round (4 * q * q + 5)) as Hfive.
  { intros st. unfold calculatePSAP, calcPSAP. rewrite Hvel, Hno.
    change (JsNum.truthy (JsNum.parseFloat "5")) with true. cbv iota.
    change (JsNum.parseFloat "5") with (JsNum.Fin (inject_Z 5)). done. }
  exists (JsNum.round (4 * q * q + 5)),
         (HemodynamicsCalculator.classifyPulmonaryPressure
            (JsNum.round (4 * q * q + 5))).
  split; [unfold Page.psapInfo; by rewrite Hvel, Hno, Hcalc|].
  split; [done|]. split; [done|]. split; [done|]. split.
  - unfold HemodynamicsCalculator.classifyPulmonaryPressure.
    destruct (Z.eqb_spec (JsNum.round (4 * q * q + 5)) 0); [lia|].
    repeat match goal with
           | |- context [if ?b then _ else _] => destruct b
           end; discriminate.
  - intros i p Hv. unfold pulmonaryHypertension. rewrite Hv.
    destruct (Z.gtb_spec (JsNum.round (4 * q * q + 5)) 0); [|lia].
    intros Heq. apply (f_equal (fun x => length (lines x))) in Heq.
    repeat match type of Heq with
           | context [if ?b then _ else _] => destruct b
           end;
      cbn [lines increment write] in Heq; rewrite length_app in Heq;
      simpl in Heq; lia.
Qed.

Lemma psap_default_pressure_witness :
  ∃ v label,
    Page.psapInfo "2.5" "" = Some (v, label) ∧
    (∀ st, calculatePSAP "2.5" "" st = v) ∧
    (∀ st, calculatePSAP "2.5" "5" st = v) ∧
    5 ≤ v ∧
    label ≠ "No estimable" ∧
    ∀ i p, psap i = v → pulmonaryHypertension i p ≠ p.
Proof.
  apply (psap_default_pressure "2.5" "" (25 # 10)); [reflexivity| |reflexivity].
  split; by vm_compute.
Defined.

(** X21: when the field of the E wave, of the A wave or of the e' wave
    is empty, is not a number or is zero, the page stores the grade
    Indeterminado with the description "Esperando datos Doppler...",
    whatever the other fields hold, and the report concludes that the
    diastolic function is indeterminate for insufficient data. *)
Theorem diastolic_missing_doppler
    (onda_e onda_a onda_e_prime vol_ai vel_it fevi motilidad_global : string)
    (i : Inputs) (p : Progress) :
  JsNum.truthy (JsNum.parseFloat onda_e) = false ∨
  JsNum.truthy (JsNum.parseFloat onda_a) = false ∨
  JsNum.truthy (JsNum.parseFloat onda_e_prime) = false →
  let r := Page.calculateDiastolicFunction
             onda_e onda_a onda_e_prime vol_ai vel_it fevi motilidad_global in
  r = HemodynamicsCalculator.mkDiastolic "Indeterminado"
        "Esperando datos Doppler..." "neutral" ∧
  diastolic (Page.with_diastolic (Page.diastolicOf r) i) p =
    increment (write "Función Diastólica Indeterminada (datos insuficientes)." p).
Proof.
  intros H. cbv zeta.
  assert (Page.calculateDiastolicFunction
            onda_e onda_a onda_e_prime vol_ai vel_it fevi motilidad_global =
          HemodynamicsCalculator.mkDiastolic "Indeterminado"
            "Esperando datos Doppler..." "neutral") as ->; [|done].
  unfold Page.calculateDiastolicFunction,
    HemodynamicsCalculator.classifyDiastolicFunction.
  cbv zeta. cbn [HemodynamicsCalculator.E HemodynamicsCalculator.A
                 HemodynamicsCalculator.ePrime].
  destruct H as [-> | [-> | ->] ]; cbn [negb orb]; by rewrite ?orb_true_r.
Qed.

Lemma diastolic_missing_doppler_witness :
  Page.calculateDiastolicFunction "" "70" "9" "30" "2.4" "60" "normal" =
    HemodynamicsCalculator.mkDiastolic "Indeterminado"
      "Esperando datos Doppler..." "neutral" ∧
  diastolic
    (Page.with_diastolic
       (Page.diastolicOf
          (Page.calculateDiastolicFunction "" "70" "9" "30" "2.4" "60" "normal"))
       (normalStudy 0)) (mkProgress [] 1) =
    increment (write "Función Diastólica Indeterminada (datos insuficientes)."
                     (mkProgress [] 1)).
Proof.
  apply (diastolic_missing_doppler "" "70" "9" "30" "2.4" "60" "normal"
           (normalStudy 0) (mkProgress [] 1)).
  left. reflexivity.
Defined.

(** ** The sentence of the left ventricle *)

Lemma single_territory_clause (a : Artery) (vi : string) :
  mergeMotility vi
    ("Trastornos de la motilidad Segmentaria en Territorio " +:+
     artery_name a +:+ ".") =
  vi +:+ " y trastornos de la motilidad Segmentaria en Territorio " +:+
  artery_name a.
Proof.
  destruct a; unfold mergeMotility; cbn [artery_name].
  - assert (motilityClause
              ("Trastornos de la motilidad Segmentaria en Territorio " +:+ "DA" +:+ ".") =
            "trastornos de la motilidad Segmentaria en Territorio DA") as Hc
      by (by vm_compute).
    assert (conjunction "trastornos de la motilidad Segmentaria en Territorio DA" = "y")
      as Hj by (by vm_compute).
    cbv zeta. rewrite Hc, Hj.
    change (negb (String.eqb _ "") && negb (String.eqb (Js.Unicode.trim _) "")) with true.
    cbv iota. f_equal.
  - assert (motilityClause
              ("Trastornos de la motilidad Segmentaria en Territorio " +:+ "CD" +:+ ".") =
            "trastornos de la motilidad Segmentaria en Territorio CD") as Hc
      by (by vm_compute).
    assert (conjunction "trastornos de la motilidad Segmentaria en Territorio CD" = "y")
      as Hj by (by vm_compute).
    cbv zeta. rewrite Hc, Hj.
    change (negb (String.eqb _ "") && negb (String.eqb (Js.Unicode.trim _) "")) with true.
    cbv iota. f_equal.
  - assert (motilityClause
              ("Trastornos de la motilidad Segmentaria en Territorio " +:+ "Cx" +:+ ".") =
            "trastornos de la motilidad Segmentaria en Territorio Cx") as Hc
      by (by vm_compute).
    assert (conjunction "trastornos de la motilidad Segmentaria en Territorio Cx" = "y")
      as Hj by (by vm_compute).
    cbv zeta. rewrite Hc, Hj.
    change (negb (String.eqb _ "") && negb (String.eqb (Js.Unicode.trim _) "")) with true.
    cbv iota. f_equal.
Qed.

(** X22: the motility reaches the sentence of the left ventricle as
    follows, on a store that holds the 17 segments with severities among
    1, 2, 3, 4.  When every segment is Normal the sentence is the one of
    a page without motility panel: the geometry, a period, the systolic
    function.  When no sentence is attached to the active pattern and
    the abnormal segments all lie in one territory, the geometry is
    followed by "y trastornos de la motilidad Segmentaria en Territorio"
    and the name of that territory, in its casing DA, CD or Cx, before
    the period and the systolic function. *)
Theorem leftVentricle_with_motility (i : Inputs) (m : MotilityController.t)
    (p : Progress) :
  motility i = Some m → Session.well_formed m →
  (state m = getDefaultState →
   leftVentricle i p =
     Ok (increment (write (geometryText i +:+ "." +:+ systolicText (fevi i)) p))) ∧
  (∀ a, patternConclusion m = None → Session.affected (state m) = [a] →
     leftVentricle i p =
       Ok (increment
             (write (geometryText i +:+
                     " y trastornos de la motilidad Segmentaria en Territorio " +:+
                     artery_name a +:+ "." +:+ systolicText (fevi i)) p))).
Proof.
  intros Hm Hc. unfold leftVentricle. rewrite Hm. split.
  - intros Hd. by rewrite (generateConclusion_default m Hc Hd).
  - intros a Hpc Ha.
    assert (state m ≠ getDefaultState) as Hnd.
    { intros Hd. rewrite Hd in Ha. by vm_compute in Ha. }
    rewrite (generateConclusion_by_territory m Hc Hpc Hnd).
    rewrite Ha. cbn [mbind result_bind].
    rewrite single_territory_clause. by rewrite !str_app_assoc.
Qed.

Lemma leftVentricle_with_motility_witness :
  (state (set_state anterior_akinetic fresh) = getDefaultState →
   leftVentricle
     (mkInputs "Ritmo sinusal" "" "normal" "Geometría Normal" "48" "M"
        (Some (set_state anterior_akinetic fresh)) "60" None
        (JsNum.of_Z 28) "Normal" "no" "no" None "Trivalva" "no" "no"
        "1.9" "32" "30" "normal" "normal" (JsNum.of_Z 14) (JsNum.of_Z 35) 0 "22")
     (mkProgress [] 1) =
     Ok (increment
           (write
              (geometryText
                 (mkInputs "Ritmo sinusal" "" "normal" "Geometría Normal" "48" "M"
                    (Some (set_state anterior_akinetic fresh)) "60" None
                    (JsNum.of_Z 28) "Normal" "no" "no" None "Trivalva" "no" "no"
                    "1.9" "32" "30" "normal" "normal" (JsNum.of_Z 14)
                    (JsNum.of_Z 35) 0 "22") +:+ "." +:+ systolicText "60")
              (mkProgress [] 1)))) ∧
  (∀ a, patternConclusion (set_state anterior_akinetic fresh) = None →
     Session.affected (state (set_state anterior_akinetic fresh)) = [a] →
     leftVentricle
       (mkInputs "Ritmo sinusal" "" "normal" "Geometría Normal" "48" "M"
          (Some (set_state anterior_akinetic fresh)) "60" None
          (JsNum.of_Z 28) "Normal" "no" "no" None "Trivalva" "no" "no"
          "1.9" "32" "30" "normal" "normal" (JsNum.of_Z 14) (JsNum.of_Z 35) 0 "22")
       (mkProgress [] 1) =
       Ok (increment
             (write
                (geometryText
                   (mkInputs "Ritmo sinusal" "" "normal" "Geometría Normal" "48" "M"
                      (Some (set_state anterior_akinetic fresh)) "60" None
                      (JsNum.of_Z 28) "Normal" "no" "no" None "Trivalva" "no" "no"
                      "1.9" "32" "30" "normal" "normal" (JsNum.of_Z 14)
                      (JsNum.of_Z 35) 0 "22") +:+
                 " y trastornos de la motilidad Segmentaria en Territorio " +:+
                 artery_name a +:+ "." +:+ systolicText "60")
                (mkProgress [] 1)))).
Proof.
  apply (leftVentricle_with_motility
           (mkInputs "Ritmo sinusal" "" "normal" "Geometría Normal" "48" "M"
              (Some (set_state anterior_akinetic fresh)) "60" None
              (JsNum.of_Z 28) "Normal" "no" "no" None "Trivalva" "no" "no"
              "1.9" "32" "30" "normal" "normal" (JsNum.of_Z 14) (JsNum.of_Z 35) 0 "22")
           (set_state anterior_akinetic fresh) (mkProgress [] 1)).
  - reflexivity.
  - unfold Session.well_formed, anterior_akinetic. cbn [state set_state]. split.
    + do 3 (apply wf_insert; [|lia]). exact wf_default.
    + do 3 (apply severities_insert; [|lia]). exact severities_default.
Defined.

(** ** Dilatation of the aorta *)

Lemma dilationSeverity_cases (x : JsNum.num) :
  dilationSeverity x ∈ ["leve"; "moderada"; "severa"].
Proof.
  unfold dilationSeverity.
  repeat match goal with
         | |- context [if ?b then _ else _] => destruct b
         end; rewrite !elem_of_cons; auto.
Qed.

(** X23: when the body surface is known and the root or the ascending
    aorta exceeds its indexed limit, one conclusion on the dilatation is
    written; it names the dilated segments, the root first, joined by
    "y", and the severity it states is the severity of one of them and
    is not lower than the severity of any of them. *)
Theorem aorta_worst_severity (i : Inputs) (p : Progress) :
  nonempty (sc i) = true → aorticDilations i ≠ [] →
  ∃ sev,
    aorta i p =
      increment (write ("Dilatación " +:+ sev +:+ " de " +:+
                        Js.join " y " (aorticDilations i).*1 +:+ ".") p) ∧
    sev ∈ (aorticDilations i).*2 ∧
    (∀ s, s ∈ (aorticDilations i).*2 → severityIndex s ≤ severityIndex sev) ∧
    (aorticDilations i).*1 ∈
      [ ["raíz aórtica"]; ["aorta ascendente"]; ["raíz aórtica"; "aorta ascendente"] ].
Proof.
  intros Hsc Hne. unfold aorta. rewrite Hsc. revert Hne.
  unfold aorticDilations. cbv zeta.
  set (root := JsNum.div (JsNum.div (JsNum.toNumber (aoRaiz i)) (JsNum.toNumber (sc i)))
                         (JsNum.of_Z 10)).
  set (asc := JsNum.div (JsNum.div (JsNum.toNumber (aoAsc i)) (JsNum.toNumber (sc i)))
                        (JsNum.of_Z 10)).
  pose proof (dilationSeverity_cases root) as Hr.
  pose proof (dilationSeverity_cases asc) as Ha.
  rewrite !elem_of_cons, elem_of_nil in Hr, Ha.
  destruct (nonempty (aoRaiz i) && JsNum.gt root _);
    destruct (nonempty (aoAsc i) && JsNum.gt asc _);
    cbn [app]; intros Hne; try done;
    destruct Hr as [Er | [Er | [Er | [] ] ] ];
    destruct Ha as [Ea | [Ea | [Ea | [] ] ] ];
    rewrite ?Er, ?Ea;
    (eexists; split; [reflexivity|]);
    cbn [fmap list_fmap fst snd];
    (split; [rewrite !elem_of_cons; auto|]);
    (split; [intros s; rewrite !elem_of_cons, elem_of_nil;
             intros [-> | [-> | [] ] ] || intros [-> | [] ]; by vm_compute
            |rewrite !elem_of_cons; auto]).
Qed.

Lemma aorta_worst_severity_witness :
  ∃ sev,
    aorta (Page.with_aorta "45" "60" (normalStudy 0)) (mkProgress [] 1) =
      increment
        (write ("Dilatación " +:+ sev +:+ " de " +:+
                Js.join " y "
                  (aorticDilations (Page.with_aorta "45" "60" (normalStudy 0))).*1 +:+
                ".") (mkProgress [] 1)) ∧
    sev ∈ (aorticDilations (Page.with_aorta "45" "60" (normalStudy 0))).*2 ∧
    (∀ s, s ∈ (aorticDilations (Page.with_aorta "45" "60" (normalStudy 0))).*2 →
          severityIndex s ≤ severityIndex sev) ∧
    (aorticDilations (Page.with_aorta "45" "60" (normalStudy 0))).*1 ∈
      [ ["raíz aórtica"]; ["aorta ascendente"]; ["raíz aórtica"; "aorta ascendente"] ].
Proof.
  apply (aorta_worst_severity (Page.with_aorta "45" "60" (normalStudy 0))
           (mkProgress [] 1)).
  - reflexivity.
  - intros H. vm_compute in H. discriminate H.
Defined.
